(* ===== verification/_CoqProject ===== *)
-Q . S2P
Prelude.v
Effects.v
Sha256.v
Json.v
JsonText.v
JsonWire.v
Events.v
Interleaving.v
Fairness.v
Locks.v
Amqp.v
Publishing.v
Workers.v
Messages.v
Http.v
Server.v
Process.v
Shutdown.v
EscalationStore.v
Escalator.v
EscalationHandler.v
EscalationSafety.v
EscalationBus.v
EscalationProps.v
EscalationLiveness.v
EscalationFairness.v
Auth.v
Cursor.v
IncidentStore.v
Pagination.v
IncidentConsumer.v
IncidentHandler.v
IncidentSafety.v
IncidentBus.v
IncidentProps.v
Config.v
RateLimit.v
Metrics.v
Redis.v
Ingestion.v
IngestionProps.v
Notification.v
TenantCache.v
NotificationHandler.v
NotificationProps.v
NotificationLimit.v
ContactProps.v
SchedulingDomain.v
Ssrf.v
Webhooks.v
Rotation.v
SchedulingStore.v
Keycloak.v
KeycloakProps.v
SchedulingHandler.v
SchedulingProps.v
TenantProps.v
Startup.v
StartupProps.v
ConsumerPools.v
Services.v
LostPages.v
Pipeline.v
Paging.v
Resolution.v
