(* ===== verification/Prelude.v ===== *)
(** * SRE OnCall: a verification library for the Go services

    The program is five services that share PostgreSQL, Redis and RabbitMQ.

    - ingestion takes the webhooks of Alertmanager and Grafana, drops repeated
      alerts and publishes the others (exchange alerts);
    - incident groups alerts into incidents, keeps their state machine, labels,
      comments and history, serves the incident API and publishes
      incident.created and incident.updated (exchange incidents);
    - escalation starts an escalation per incident, advances it through the tiers
      of a policy by a periodic monitor, and publishes escalation.triggered and
      escalation.exhausted (exchange escalations);
    - notification sends mails and Mattermost posts for these events under a rate
      limit, and keeps the contacts and a log;
    - scheduling keeps tenants, webhook tokens, notification configurations,
      schedules and overrides, and says who is on call.

    The library code they share is under src/pkg.

    ** Files, and what they model under src/

    Foundations.
    - Prelude: 64-bit integers, time, Go strings, orders, lists updated in place;
      the tactics, the scope and the hint databases of the development.
    - Effects: error values and [errors.Is] (pkg/errs); programs as trees of atomic
      external calls ([prog], with [let!] and [let?]); the platform (clock, UUIDs,
      faults before or after the effect of a call, cancelled contexts); SQL
      statements and transactions.
    - Interleaving: pools of programs that run step by step in any order, and the
      logic their safety is proved in: invariants, monotone facts, credits, and
      programs whose steps respect a relation; their termination.
    - Fairness: infinite executions of a loop next to programs that come and go,
      and what a fair one brings about.
    - Locks: the same with sync.Mutex: mutual exclusion, no deadlock when mutexes
      are taken in a fixed order, and what is left when they are erased.
    - Sha256, Json, JsonText, JsonWire: crypto/sha256, encoding/hex, decoding and
      encoding of JSON values, the text of a string list, and what encoding/json
      writes and reads as bytes.
    - Redis: strings and hashes with expiry, the commands the services use.

    Shared packages.
    - Events: pkg/domain/alert.go, pkg/events/events.go; the class of payloads.
    - Amqp: pkg/amqp (envelope, publisher with retries and reconnection, consumer
      supervisor, settling of deliveries, topology), one goroutine at a time.
    - Publishing: amqp.go with its three mutexes, for any number of goroutines.
    - Workers: the delivery loop of consume.go with its pool of workers, as a
      labelled transition system; a step is one action of the loop, of a worker, of
      the broker or of another program.
    - Messages: the types of the messages on the bus and what their readers make of
      them; the rules for programs that only publish typed messages.
    - Http: pkg/httpclient, readiness of pkg/httpserver.
    - Server: the server loop of pkg/httpserver with its graceful shutdown, the
      deadline of readiness, the settings of the clients.
    - Config: pkg/config, the pool settings of pkg/db, the configuration of each
      service (internal/config).
    - RateLimit: the per-IP limit of pkg/httpserver.
    - Metrics: pkg/metrics, the metrics of pkg/amqp and pkg/db, pkg/logger.
    - Auth: pkg/auth.  Ssrf: pkg/ssrf.

    Services, each under services/<name>/internal and cmd/server/main.go.
    - EscalationStore, Escalator, EscalationHandler (store, domain; escalator,
      monitor, consumer, publisher, clients; handler and routes), with
      EscalationSafety, EscalationBus, EscalationProps, EscalationLiveness (the
      monitor alone) and EscalationFairness (next to everything else).
    - IncidentStore, Cursor, Pagination, IncidentConsumer, IncidentHandler (store,
      state machine, domain; page cursors; consumer and publisher; handler and
      routes), with IncidentSafety, IncidentBus and IncidentProps.
    - Ingestion with IngestionProps (handler, dedup, store, publisher, tokenstore,
      middleware).
    - Notification, NotificationHandler with NotificationProps, NotificationLimit
      (the rate limit under concurrent deliveries) and ContactProps (domain, store, ratelimit, tenantcache, schedclient, dispatcher, notifier,
      consumer; handler); TenantCache: tenantcache under concurrent calls;
      Webhooks: the Mattermost dispatcher down to the connections its HTTP client
      makes with the dialer of pkg/ssrf.
    - SchedulingDomain, Rotation, SchedulingStore, Keycloak, SchedulingHandler with
      SchedulingProps and KeycloakProps (domain; rotation; store and tokenindex;
      keycloak; handler).
    - TenantProps: what scheduling promises to ingestion and notification, over the
      definitions of both sides.
    - ConsumerPools: the escalation consumer on its pool of workers.
    - Process, Shutdown: a running service as one transition system (the HTTP
      server, the supervisor of the consumer around the loop of Workers, the
      monitor, the main goroutine), from the start of its goroutines to its exit;
      Services: the processes of escalation and incident.
    - LostPages: what a failure or a race between two steps of incident or
      escalation costs.
    - Startup, with StartupProps: the main functions of the five services, and what
      they call of pkg/db, pkg/migrate, pkg/redis and pkg/httpserver.
    - Pipeline: the four services of an alert on one broker.  A service runs on its
      part of the state ([zoom]); any message handed to the broker can be delivered.
    - Paging, Resolution: the same services one after the other, when nothing
      fails: from an alert to the mail, from its resolution to the end of the paging.

    A definition has the name of the function it models; where the code has one
    function for several steps, a helper definition stands for each step.  A file
    of a service opens with its state, a record [db] of the tables (lists of rows
    in insertion order), of its part of Redis and of its connection to the broker.

    ** How the code is translated

    A call to a database, to Redis, to the broker, to another service or to the
    clock is one atomic step; what runs between two steps is not observable.  A
    transaction is one step, published by its commit.  SQL statements are functions
    on the tables with the keys, foreign keys, checks and column types of the
    migrations.  A fault makes a call fail before or after its effect.  [run]
    executes a program alone; [pool_step] is a step of any of several programs.
    Parameters stand for what is not in the repository or not Go source of it: the
    answers of other servers ([HttpEnv], [Keycloak], [Resolver], [Network]), what
    errgroup, singleflight and the broker guarantee ([Limits], [Singleflight]), random
    bytes ([Entropy]), texts of times ([TimeText]), the parsing of URLs, the
    verification of tokens, time zones and the row order of the planner; what is
    assumed of them is a named hypothesis of the theorem that needs it.  UUID
    texts are compared as texts: [uuid_ok] is to accept the canonical form.

    The publisher uses no confirms: [handed] lists what was handed to the broker,
    and a call that succeeds says no more.  A message the broker loses is one that
    no delivery picks: deliveries take any message of the list, any number of
    times or never.  A body on the bus is the JSON value of its bytes, which
    JsonWire relates to the bytes; the strings in it are UTF-8, as those of
    PostgreSQL and of a decoded request are.  A mail is recorded when the server
    took it, a POST whenever it was made, with its answer.

    ** What the theorems show

    - Escalation: in every interleaving of monitors, requests and the deliveries a
      pool of any size handles, and so from the boot of the process to its exit,
      each tier of an incident is triggered at most once per copy the broker makes,
      and runs go forward; what an advance does; a tier claimed but not published
      is never paged; every
      escalation nobody answers is exhausted in the end (but at the last tier number
      a column can hold), and in every fair execution with anything else going on
      each one ends; isolation of tenants.
    - Incident: the life cycle and its audit log in every interleaving; grouping of
      firing alerts; resolution; pagination lists every incident once; PATCH on
      the branches 400, 404, 422 and 200; isolation of tenants.
    - Ingestion: what 200 promises, with any faults; the batch classification
      equals the per-alert one; where it does not; which alerts of a failed batch
      are lost, and what the retry publishes.
    - Notification: the log tells what was sent and taken; at most twice the maximum
      of notifications to a user pass in a window while the limiter answers; the
      contacts a login provisions; concurrent calls of the tenant cache are
      coalesced and all return; no webhook reaches an internal address, through
      redirects, kept connections and changing names.
    - Scheduling: the shift listing and the on-call query agree, in the rotation and
      through the API, from the start date of the schedule on, and how they differ
      before it; overrides of a schedule stay disjoint; termination and
      divergence of the shift loop; durations; the token index and the notification
      configuration across services; the roles of the members of a tenant.
    - The whole system: in every interleaving each message handed to the broker is understood by
      the service that consumes it, and none is dropped on the way to an escalation;
      when nothing fails, a new alert of a webhook mails the engineer on call, and
      its resolution ends the paging for good.
    - Start-up: the order of starts and stops whatever fails; no service is open
      without AUTH_DISABLED; when a start succeeds.
    - The per-IP limit is one token bucket per client; the range of settings.
    - Shared: a message is handed over at least once by a successful publication and
      never invented, envelopes of UTF-8 strings round-trip through their bytes,
      deliveries are settled, no anonymous access, the membership check.
    - Concurrency: a pool of workers respects its limits and settles every delivery
      it took exactly once, drains, and with one worker is the sequential loop; the
      mutexes of connection and publisher exclude each other, never deadlock, and
      refine the programs without them (so the theorems on interleavings apply); a
      server that stops serves what it accepted or takes ten seconds; a process
      closes its connection only after all its goroutines have returned, can always
      come to its exit once its context is cancelled, and does nothing for ever
      once everything has noticed.
    - Behaviours that differ from what the code or its specification means to do are
      stated as theorems too (a failed batch that loses alerts, overrides on
      schedules of other tenants, a start that gives up in the middle of its work,
      and others).

    ** Bounds and fuel

    - [duration_loop] gets the length of the text, which [duration_loop_total] shows
      to be enough.  [base_shifts] gets any fuel: [GenerateShifts_returns] gives the
      amount that is enough, [GenerateShifts_diverges] shows when none is.
    - The consumer loops of Amqp run for ever by design: their fuel counts attempts
      or deliveries, and no theorem depends on its value.
    - [monitor_Run] and [runSweeper] run until their context is cancelled;
      [monitor_exhausts] holds for every fuel from some amount on.
    - [trim_seqs] gets the length of the string: each step drops a byte.
    - [publish_loop], [dial_loop], [attempts] and [follow] count the attempts, and
      the redirects, that the code and net/http allow.  The transition systems of
      Workers, TenantCache, Server and Process have no fuel: that they end is proved
      by well-founded orders.  [fire_all] and [run_locked] execute given steps, for the
      witnesses.
    - 64-bit arithmetic is wrapped ([int64]) or saturated as the code does it.

    ** What is not modelled

    The log lines and the counters the services bump beside their work: nothing
    reads them back.  What the broker does with a message it was handed, beyond its
    routing.  That net/http may send an idempotent request again on another
    connection when a kept one turns out to be closed: Webhooks counts round trips.  How net/http applies the read, write and idle timeouts of a
    connection, and the connection pools of pgx and go-redis: not code of the
    repository.  The contexts whose deadline cuts a call short: a fault stands for
    them.  What a process does between the start of its goroutines and a failure of
    its authentication, which ends it with os.Exit, is in Startup, not in Process.
    The constructors that only copy their arguments into a struct, writeJSON and
    the scan of rows: what they do is in the values the definitions pass.  The web
    front end and the deployment files: not Go.

    ** Left to do

    The process of notification and its tenant cache in [Process]; progress of a
    process under a fair scheduler, where [Shutdown] shows that it can end and that
    it ends once everything has noticed. *)

From stdpp Require Export base tactics option list gmap strings pretty sorting.
From Stdlib Require Export ZArith Lia.
From Stdlib Require Export Ascii.
From Stdlib Require DecimalString DecimalZ.

Open Scope Z_scope.

(** ** Notation scope and hint database of the development *)

Declare Scope go_scope.
Delimit Scope go_scope with go.

Create HintDb oncall.

Create Rewrite HintDb oncall.

(** ** Go integers

    [int], [int64] and [time.Duration] are 64-bit two's complement integers:
    they are modelled as [Z] and every operation that can leave the range is
    wrapped with [int64]. *)

Definition maxInt64 : Z := 2 ^ 63 - 1.

Definition minInt64 : Z := - 2 ^ 63.

Definition int64 (z : Z) : Z := (z + 2 ^ 63) mod 2 ^ 64 - 2 ^ 63.

Definition in_int64 (z : Z) : Prop := minInt64 <= z <= maxInt64.

(** The range of the PostgreSQL type [INT]. *)
Definition int4_ok (z : Z) : bool := (- 2 ^ 31 <=? z) && (z <=? 2 ^ 31 - 1).

(** ** [time.Duration] and [time.Time]

    A [Time] is the number of nanoseconds since the Unix epoch: the code only
    compares, adds and subtracts instants, and prints them in UTC. *)

Definition Time := Z.

Definition Duration := Z.

Definition Second : Duration := 1000000000.

Definition Minute : Duration := 60 * Second.

Definition Hour : Duration := 60 * Minute.

Definition day_ns : Z := 24 * Hour.

(** [Time.Sub] saturates at the ends of the [Duration] range. *)
Definition Sub (t u : Time) : Duration := Z.max minInt64 (Z.min maxInt64 (t - u)).

Definition Add (t : Time) (d : Duration) : Time := t + d.

Definition Before (t u : Time) : bool := t <? u.

Definition After (t u : Time) : bool := u <? t.

(** ** Go strings, as byte strings *)

#[global] Arguments String.append !_ _ / : simpl nomatch.

Definition HasPrefix (s p : string) : bool := String.prefix p s.

Fixpoint drop_str (n : nat) (s : string) : string :=
  match n, s with
  | O, _ => s
  | S n, EmptyString => EmptyString
  | S n, String _ s => drop_str n s
  end.

Definition TrimPrefix (s p : string) : string :=
  if HasPrefix s p then drop_str (String.length p) s else s.

(** [strings.IndexByte] followed by the two slices [s\[:i\]] and [s\[i+1:\]]:
    [None] when the byte does not occur.  Also [strings.Cut] on a one-byte
    separator. *)
Fixpoint cut_byte (c : ascii) (s : string) : option (string * string) :=
  match s with
  | EmptyString => None
  | String a s =>
      if Ascii.eqb a c then Some (EmptyString, s)
      else match cut_byte c s with
           | Some (l, r) => Some (String a l, r)
           | None => None
           end
  end.

(** [strings.Split(s, sep)] for a one-byte separator. *)
Fixpoint Split (s : string) (sep : ascii) : list string :=
  match s with
  | EmptyString => [EmptyString]
  | String a s =>
      if Ascii.eqb a sep then EmptyString :: Split s sep
      else match Split s sep with
           | [] => [String a EmptyString]
           | h :: t => String a h :: t
           end
  end.

(** [strings.Join(parts, sep)]. *)
Fixpoint Join (parts : list string) (sep : string) : string :=
  match parts with
  | [] => EmptyString
  | [p] => p
  | p :: ps => p +:+ sep +:+ Join ps sep
  end.

(** [strings.Contains]. *)
Fixpoint Contains (s sub : string) : bool :=
  HasPrefix s sub ||
  match s with
  | EmptyString => false
  | String _ s => Contains s sub
  end.

Fixpoint rev_str (s : string) : string :=
  match s with
  | EmptyString => EmptyString
  | String a s => rev_str s +:+ String a EmptyString
  end.

Fixpoint trim_left_byte (c : ascii) (s : string) : string :=
  match s with
  | String a s' => if Ascii.eqb a c then trim_left_byte c s' else s
  | EmptyString => EmptyString
  end.

(** [strings.TrimRight(s, c)] and [strings.Trim(s, c)] for a one-byte cutset. *)
Definition TrimRight (s : string) (c : ascii) : string :=
  rev_str (trim_left_byte c (rev_str s)).

Definition Trim (s : string) (c : ascii) : string := TrimRight (trim_left_byte c s) c.

(** The UTF-8 encodings of the white space [unicode.IsSpace] accepts. *)
Definition bytes_str (l : list nat) : string :=
  foldr (fun n s => String (ascii_of_nat n) s) EmptyString l.

Definition space_seqs : list string :=
  map bytes_str
    ([[9]; [10]; [11]; [12]; [13]; [32]; [194; 133]; [194; 160]; [225; 154; 128];
      [226; 128; 168]; [226; 128; 169]; [226; 128; 175]; [226; 129; 159];
      [227; 128; 128]]%nat
     ++ map (fun n => [226; 128; n]%nat) (seq 128 11)).

Fixpoint trim_seqs (seqs : list string) (fuel : nat) (s : string) : string :=
  match fuel with
  | O => s
  | S fuel =>
      match list_find (fun p => HasPrefix s p = true) seqs with
      | Some (_, p) => trim_seqs seqs fuel (TrimPrefix s p)
      | None => s
      end
  end.

(** [strings.TrimSpace]: the fuel is the length, one step drops a byte at least. *)
Definition TrimSpace (s : string) : string :=
  let l := trim_seqs space_seqs (String.length s) s in
  rev_str (trim_seqs (map rev_str space_seqs) (String.length l) (rev_str l)).

Definition lower_ascii (a : ascii) : ascii :=
  let n := nat_of_ascii a in
  if (65 <=? n)%nat && (n <=? 90)%nat then ascii_of_nat (n + 32) else a.

(** [strings.ToLower], exact on the question the code asks: whether the result
    is a given ASCII string.  The two non-ASCII letters whose lower case is
    ASCII are U+0130 (to i) and U+212A (to k); any other non-ASCII byte stays
    non-ASCII. *)
Fixpoint ToLower (s : string) : string :=
  match s with
  | EmptyString => EmptyString
  | String a s1 =>
      match s1 with
      | String b s2 =>
          if (nat_of_ascii a =? 196)%nat && (nat_of_ascii b =? 176)%nat
          then String "i" (ToLower s2)
          else match s2 with
               | String c s3 =>
                   if (nat_of_ascii a =? 226)%nat && (nat_of_ascii b =? 132)%nat
                        && (nat_of_ascii c =? 170)%nat
                   then String "k" (ToLower s3)
                   else String (lower_ascii a) (ToLower s1)
               | EmptyString => String (lower_ascii a) (ToLower s1)
               end
      | EmptyString => String (lower_ascii a) EmptyString
      end
  end.

(** [strings.IndexByte(s, c) >= 0], and the cut at the last occurrence of a byte. *)
Definition has_byte (c : ascii) (s : string) : bool :=
  match cut_byte c s with Some _ => true | None => false end.

Definition cut_last (c : ascii) (s : string) : option (string * string) :=
  match cut_byte c (rev_str s) with
  | Some (r, l) => Some (rev_str l, rev_str r)
  | None => None
  end.

(** [net.SplitHostPort]: [host:port] or [\[host\]:port]. *)
Definition SplitHostPort (hostport : string) : option (string * string) :=
  match cut_last ":" hostport with
  | None => None
  | Some (before, port) =>
      match hostport with
      | String "[" rest =>
          match cut_byte "]" rest with
          | Some (host, after) =>
              if String.eqb after (":" +:+ port) && negb (has_byte "[" rest) && negb (has_byte "]" after)
              then Some (host, port) else None
          | None => None
          end
      | _ =>
          if has_byte ":" before || has_byte "[" hostport || has_byte "]" hostport then None
          else Some (before, port)
      end
  end.

(** [strconv.Itoa], the verb [%d], and its inverse. *)
Definition Itoa (z : Z) : string := DecimalString.NilZero.string_of_int (Z.to_int z).

Definition atoi (s : string) : option Z := Z.of_int <$> DecimalString.NilZero.int_of_string s.

(** The text a [strings.Builder] collects. *)
Fixpoint concat_str (l : list string) : string :=
  match l with [] => EmptyString | s :: l => s +:+ concat_str l end.

(** [m\[k\]] on a Go map of strings: the zero value when the key is absent. *)
Definition map_get (m : gmap string string) (k : string) : string :=
  default EmptyString (m !! k).

Lemma int64_id z : in_int64 z -> int64 z = z.
Proof.
  unfold in_int64, int64, minInt64, maxInt64. intros H.
  rewrite Z.mod_small; lia.
Qed.

(** ** Tactics *)

(** Case analysis on every test and match the goal or the hypotheses compute. *)
Ltac go_cases :=
  repeat (case_match || case_decide || case_bool_decide); simplify_eq/=.

Ltac bool_to_prop :=
  repeat match goal with
  | H : (_ <? _) = true |- _ => apply Z.ltb_lt in H
  | H : (_ <? _) = false |- _ => apply Z.ltb_ge in H
  | H : (_ <=? _) = true |- _ => apply Z.leb_le in H
  | H : (_ <=? _) = false |- _ => apply Z.leb_gt in H
  | H : (_ =? _) = true |- _ => apply Z.eqb_eq in H
  | H : (_ =? _) = false |- _ => apply Z.eqb_neq in H
  | H : Before _ _ = _ |- _ => unfold Before in H
  | H : After _ _ = _ |- _ => unfold After in H
  | H : _ && _ = true |- _ => apply andb_prop in H as [? ?]
  | H : _ && _ = false |- _ => apply andb_false_iff in H
  | H : _ || _ = false |- _ => apply orb_false_iff in H as [? ?]
  | H : negb _ = true |- _ => apply negb_true_iff in H
  | H : negb _ = false |- _ => apply negb_false_iff in H
  end.

(** Removes the wrap-around of 64-bit operations that stay in range, the
    innermost first. *)
Ltac no_wrap :=
  repeat match goal with
  | |- context [int64 ?x] =>
      lazymatch x with
      | context [int64 _] => fail
      | _ => rewrite (int64_id x) by (unfold in_int64, minInt64, maxInt64 in *; lia)
      end
  end.

(** ** Lemmas on Go integers *)


Lemma int64_range z : in_int64 (int64 z).
Proof.
  unfold in_int64, int64, minInt64, maxInt64.
  pose proof (Z.mod_pos_bound (z + 2 ^ 63) (2 ^ 64) ltac:(lia)). lia.
Qed.

Lemma int4_ok_int64 z : int4_ok z = true -> in_int64 z.
Proof. unfold int4_ok, in_int64, minInt64, maxInt64. intros. bool_to_prop. lia. Qed.

Lemma Sub_exact t u : in_int64 (t - u) -> Sub t u = t - u.
Proof. unfold Sub, in_int64. lia. Qed.

Lemma Sub_range t u : in_int64 (Sub t u).
Proof. unfold Sub, in_int64, minInt64, maxInt64. lia. Qed.

#[export] Hint Resolve int64_range Sub_range int4_ok_int64 : oncall.

(** ** Lemmas on strings *)

Lemma atoi_Itoa z : atoi (Itoa z) = Some z.
Proof.
  assert (Decimal.norm (Z.to_int z) = Z.to_int z) as En
    by (rewrite <- DecimalZ.to_of; by rewrite DecimalZ.of_to).
  unfold atoi, Itoa. rewrite DecimalString.NilZero.isi.
  - simpl. by rewrite DecimalZ.of_to.
  - intros E. by rewrite E in En.
  - intros E. by rewrite E in En.
Qed.

Lemma str_app_assoc (s t u : string) : (s +:+ t) +:+ u = s +:+ (t +:+ u).
Proof. induction s as [|a s IH]; simpl; [done|]. by rewrite IH. Qed.

Lemma str_app_nil_r (s : string) : s +:+ "" = s.
Proof. induction s as [|a s IH]; simpl; [done|]. by rewrite IH. Qed.

Lemma rev_str_app s t : rev_str (s +:+ t) = rev_str t +:+ rev_str s.
Proof.
  induction s as [|a s IH]; simpl; [by rewrite str_app_nil_r|].
  by rewrite IH, str_app_assoc.
Qed.

Lemma rev_str_involutive s : rev_str (rev_str s) = s.
Proof. induction s as [|a s IH]; simpl; [done|]. by rewrite rev_str_app, IH. Qed.

Lemma str_app_inj_l (p s t : string) : p +:+ s = p +:+ t -> s = t.
Proof. induction p as [|a p IH]; simpl; [done|]. intros [=]. auto. Qed.

Lemma HasPrefix_app p s : HasPrefix (p +:+ s) p = true.
Proof.
  unfold HasPrefix. induction p as [|a p IH]; simpl; [by destruct s|].
  by destruct (ascii_dec a a).
Qed.

Lemma HasPrefix_spec s p : HasPrefix s p = true <-> exists r, s = p +:+ r.
Proof.
  split; [|intros [r ->]; apply HasPrefix_app].
  unfold HasPrefix. revert s. induction p as [|a p IH]; intros s; simpl.
  - intros _. by exists s.
  - destruct s as [|b s]; [done|]. simpl. destruct (ascii_dec a b) as [->|]; [|done].
    intros [r ->]%IH. by exists r.
Qed.

Lemma Contains_app_r p s sub : Contains s sub = true -> Contains (p +:+ s) sub = true.
Proof.
  induction p as [|a p IH]; simpl; [done|]. intros H. rewrite (IH H). apply orb_true_r.
Qed.

Lemma Contains_refl_app s r : Contains (s +:+ r) s = true.
Proof.
  destruct s as [|a s]; [by destruct r|].
  change (HasPrefix (String a s +:+ r) (String a s) || Contains (s +:+ r) (String a s) = true).
  by rewrite HasPrefix_app.
Qed.

Lemma cut_byte_app c l r :
  cut_byte c l = None -> cut_byte c (l +:+ String c r) = Some (l, r).
Proof.
  induction l as [|a l IH]; simpl; [by rewrite Ascii.eqb_refl|].
  destruct (Ascii.eqb a c); [done|]. destruct (cut_byte c l) as [[]|]; [done|].
  intros. by rewrite IH.
Qed.

Lemma cut_byte_spec c s l r : cut_byte c s = Some (l, r) -> s = l +:+ String c r.
Proof.
  revert l. induction s as [|a s IH]; intros l; simpl; [done|].
  destruct (Ascii.eqb_spec a c) as [->|].
  - by intros [= <- <-].
  - destruct (cut_byte c s) as [[l' r']|] eqn:E; [|done].
    intros [= <- <-]. simpl. by rewrite (IH _ eq_refl).
Qed.

Lemma has_byte_app c s t : has_byte c (s +:+ t) = has_byte c s || has_byte c t.
Proof.
  unfold has_byte. induction s as [|a s IH]; simpl; [done|]. destruct (Ascii.eqb a c); [done|].
  destruct (cut_byte c s) as [[]|], (cut_byte c (s +:+ t)) as [[]|]; simpl in *; done.
Qed.

Lemma has_byte_rev c s : has_byte c (rev_str s) = has_byte c s.
Proof.
  induction s as [|a s IH]; [done|]. simpl rev_str. rewrite has_byte_app, IH.
  unfold has_byte. simpl. destruct (Ascii.eqb a c); [by rewrite orb_true_r|].
  destruct (cut_byte c s) as [[]|]; done.
Qed.

Lemma has_byte_cut c s : has_byte c s = false -> cut_byte c s = None.
Proof. unfold has_byte. by destruct (cut_byte c s). Qed.

Lemma cut_last_app c l r :
  has_byte c r = false -> cut_last c (l +:+ String c r) = Some (l, r).
Proof.
  intros Hr. unfold cut_last. rewrite rev_str_app. simpl. rewrite str_app_assoc. simpl.
  rewrite cut_byte_app by (by apply has_byte_cut; rewrite has_byte_rev). by rewrite !rev_str_involutive.
Qed.

(** The address of a peer, as [net/http] sets it: [ip:port], or [\[ip\]:port]
    when the address has colons. *)
Lemma SplitHostPort_join host port :
  has_byte ":" port = false -> has_byte "[" host = false -> has_byte "]" host = false ->
  has_byte "[" port = false -> has_byte "]" port = false ->
  SplitHostPort (if has_byte ":" host then "[" +:+ host +:+ "]:" +:+ port else host +:+ ":" +:+ port)
  = Some (host, port).
Proof.
  intros Hp Hh1 Hh2 Hp1 Hp2. unfold SplitHostPort. destruct (has_byte ":" host) eqn:Hc.
  - cbv iota. replace ("[" +:+ host +:+ "]:" +:+ port) with (("[" +:+ host +:+ "]") +:+ String ":" port)
      by (simpl; by rewrite str_app_assoc).
    rewrite cut_last_app by done.
    replace (("[" +:+ host +:+ "]") +:+ String ":" port) with (String "[" (host +:+ String "]" (String ":" port)))
      by (simpl; by rewrite str_app_assoc).
    rewrite cut_byte_app by (by apply has_byte_cut).
    change (String ":" port) with (":" +:+ port). rewrite String.eqb_refl.
    change (String "]" (":" +:+ port)) with ("]:" +:+ port). rewrite !has_byte_app, Hh1, Hp1, Hp2. done.
  - cbv iota. change (":" +:+ port) with (String ":" port). rewrite cut_last_app by done.
    change (String ":" port) with (":" +:+ port). rewrite Hc, !has_byte_app, Hh1, Hh2, Hp1, Hp2.
    destruct (host +:+ ":" +:+ port) as [|a s] eqn:E; [done|].
    destruct (Ascii.eqb_spec a "[") as [->|Hne].
    + exfalso. assert (has_byte "[" (host +:+ ":" +:+ port) = true) as Hx by (by rewrite E).
      rewrite !has_byte_app, Hh1, Hp1 in Hx. done.
    + destruct a as [[] [] [] [] [] [] [] []]; done.
Qed.

#[export] Hint Rewrite str_app_assoc str_app_nil_r rev_str_involutive : oncall.

(** ** Lemmas on lists *)

Lemma NoDup_map_inj {A B} (f : A -> B) l a b :
  NoDup (map f l) -> a ∈ l -> b ∈ l -> f a = f b -> a = b.
Proof.
  intros Hn Ha Hb He. induction l as [|c l IH]; [by apply not_elem_of_nil in Ha|].
  simpl in Hn. apply NoDup_cons in Hn as [Hc Hn].
  apply elem_of_cons in Ha as [->|Ha], Hb as [->|Hb]; auto.
  - exfalso. apply Hc. rewrite He. by apply list_elem_of_fmap_2.
  - exfalso. apply Hc. rewrite <- He. by apply list_elem_of_fmap_2.
Qed.

Lemma find_map_in_same {A B} (p : B -> bool) (q : A -> bool) (g : A -> B) l :
  (forall a, a ∈ l -> p (g a) = q a) -> find p (map g l) = g <$> find q l.
Proof.
  intros Hp. induction l as [|a l IH]; [done|]. simpl. rewrite Hp by (by left).
  destruct (q a); [done|]. apply IH. intros b Hb. apply Hp. by right.
Qed.

Lemma find_map_same {A B} (p : B -> bool) (q : A -> bool) (g : A -> B) l :
  (forall a, p (g a) = q a) -> find p (map g l) = g <$> find q l.
Proof. intros Hp. apply find_map_in_same. auto. Qed.

Lemma find_and {A} (p q : A -> bool) l a : find p l = Some a -> q a = true -> find (fun x => p x && q x) l = Some a.
Proof.
  induction l as [|x l IH]; simpl; [done|]. destruct (p x) eqn:Ep; simpl; [|done].
  intros [= ->] ->. done.
Qed.

Lemma find_elem {A} (p : A -> bool) l a : find p l = Some a -> a ∈ l /\ p a = true.
Proof. intros [Hin Hp]%find_some. by rewrite list_elem_of_In. Qed.

Lemma find_none_iff {A} (p : A -> bool) l :
  find p l = None <-> forall a, a ∈ l -> p a = false.
Proof.
  split.
  - intros Hf a Ha%list_elem_of_In. by eapply find_none.
  - intros Hf. destruct (find p l) as [a|] eqn:E; [|done].
    apply find_elem in E as [Ha Hp]. by rewrite Hf in Hp.
Qed.

Lemma find_app {A} (p : A -> bool) l1 l2 :
  find p (l1 ++ l2) = match find p l1 with Some a => Some a | None => find p l2 end.
Proof. induction l1 as [|a l1 IH]; simpl; [done|]. by destruct (p a). Qed.

(** In a list without duplicates of a key, the search finds the element. *)
Lemma find_unique {A} (key : A -> string) l a :
  NoDup (map key l) -> a ∈ l -> find (fun b => String.eqb (key b) (key a)) l = Some a.
Proof.
  intros Hn Ha. destruct (find _ l) as [b|] eqn:E.
  - apply find_elem in E as [Hb He%String.eqb_eq]. f_equal. by eapply NoDup_map_inj.
  - rewrite find_none_iff in E. specialize (E a Ha). simpl in E. by rewrite String.eqb_refl in E.
Qed.

Lemma existsb_false {A} (p : A -> bool) l :
  existsb p l = false <-> forall a, a ∈ l -> p a = false.
Proof.
  rewrite <- not_true_iff_false, existsb_exists. split.
  - intros Hn a Ha. apply not_true_is_false. intros Hp. apply Hn. exists a. by rewrite <- list_elem_of_In.
  - intros Hf (a & Ha%list_elem_of_In & Hp). by rewrite Hf in Hp.
Qed.

Lemma filter_nonempty {A} (p : A -> bool) l :
  Z.of_nat (length (List.filter p l)) <> 0 -> exists a, a ∈ l /\ p a = true.
Proof.
  destruct (List.filter p l) as [|a l'] eqn:E; [done|]. intros _. exists a.
  rewrite list_elem_of_In. apply filter_In. rewrite E. by left.
Qed.

(** The body of an [if], when the test decides between an answer and an error. *)
Lemma if_Some_inv {A} (b : bool) (x : option A) a : (if b then x else None) = Some a -> b = true /\ x = Some a.
Proof. by destruct b. Qed.

(** ** The order of strings, byte by byte: Go's [<] on strings, [sort.Strings], and
    the order of canonical UUID texts *)

Fixpoint str_ltb (a b : string) : bool :=
  match a, b with
  | _, EmptyString => false
  | EmptyString, String _ _ => true
  | String x a, String y b =>
      (nat_of_ascii x <? nat_of_ascii y)%nat
      || ((nat_of_ascii x =? nat_of_ascii y)%nat && str_ltb a b)
  end.

Definition str_le (a b : string) : Prop := str_ltb b a = false.

#[export] Instance str_le_dec : RelDecision str_le.
Proof. intros a b. unfold str_le. apply _. Defined.

Lemma str_ltb_irrefl a : str_ltb a a = false.
Proof. induction a as [|x a IH]; simpl; [done|]. by rewrite Nat.ltb_irrefl, Nat.eqb_refl, IH. Qed.

Lemma nat_of_ascii_inj x y : nat_of_ascii x = nat_of_ascii y -> x = y.
Proof. intros E. rewrite <- (ascii_nat_embedding x), E. apply ascii_nat_embedding. Qed.

Lemma str_ltb_trans a b c : str_ltb a b = true -> str_ltb b c = true -> str_ltb a c = true.
Proof.
  revert b c. induction a as [|x a IH]; intros [|y b] [|z c]; simpl; try done.
  rewrite !orb_true_iff, !andb_true_iff, !Nat.ltb_lt, !Nat.eqb_eq.
  intros [H1|[H1 H1']] [H2|[H2 H2']]; [left; lia..|].
  right. split; [lia|eauto].
Qed.

Lemma str_ltb_total a b : str_ltb a b = false -> str_ltb b a = false -> a = b.
Proof.
  revert b. induction a as [|x a IH]; intros [|y b]; simpl; try done.
  rewrite !orb_false_iff, !andb_false_iff, !Nat.ltb_ge, !Nat.eqb_neq.
  intros [H1 H1'] [H2 H2'].
  assert (nat_of_ascii x = nat_of_ascii y) as E by lia.
  rewrite (nat_of_ascii_inj x y E). f_equal. apply IH; [destruct H1'|destruct H2']; (lia || done).
Qed.

Lemma str_ltb_asym a b : str_ltb a b = true -> str_ltb b a = false.
Proof.
  intros Hab. apply not_true_is_false. intros Hba.
  pose proof (str_ltb_trans _ _ _ Hab Hba) as Haa. by rewrite str_ltb_irrefl in Haa.
Qed.

#[export] Instance str_le_Total : Total str_le.
Proof.
  intros a b. unfold str_le. destruct (str_ltb b a) eqn:E; [right|by left]. by apply str_ltb_asym.
Qed.

#[export] Instance str_le_Transitive : Transitive str_le.
Proof.
  intros a b c Hab Hbc. unfold str_le in *. apply not_true_is_false. intros Hca.
  destruct (str_ltb a b) eqn:E.
  - pose proof (str_ltb_trans _ _ _ Hca E). congruence.
  - rewrite (str_ltb_total a b E Hab) in Hca. congruence.
Qed.

#[export] Instance str_le_AntiSymm : AntiSymm (=) str_le.
Proof. intros a b Hab Hba. by apply str_ltb_total. Qed.

(** [sort.Strings]. *)
Definition sort_Strings (l : list string) : list string := merge_sort str_le l.

(** Sorting only depends on the elements. *)
Lemma sort_Strings_Permutation l l' : l ≡ₚ l' -> sort_Strings l = sort_Strings l'.
Proof.
  intros HP. unfold sort_Strings. apply (StronglySorted_unique str_le).
  - apply StronglySorted_merge_sort; apply _.
  - apply StronglySorted_merge_sort; apply _.
  - by rewrite !merge_sort_Permutation.
Qed.

(** ** Lists updated in place *)

(** How many elements pass a test. *)
Definition count {A} (f : A -> bool) (l : list A) : nat := length (List.filter f l).

Lemma count_app {A} (f : A -> bool) l k : count f (l ++ k) = (count f l + count f k)%nat.
Proof. unfold count. by rewrite List.filter_app, length_app. Qed.

Lemma count_one {A} (f : A -> bool) x : count f [x] = Nat.b2n (f x).
Proof. unfold count. simpl. by destruct (f x). Qed.

Lemma count_insert {A} (f : A -> bool) (l : list A) i x y :
  l !! i = Some x -> (count f (<[i := y]> l) + Nat.b2n (f x) = count f l + Nat.b2n (f y))%nat.
Proof.
  revert i. unfold count. induction l as [|z l IH]; intros [|i]; simpl; intros; simplify_eq.
  - destruct (f x), (f y); simpl; lia.
  - specialize (IH i ltac:(done)). destruct (f z); simpl; lia.
Qed.

Lemma count_insert_le {A} (f : A -> bool) (l : list A) i x y :
  l !! i = Some x -> (f y = true -> f x = true) -> (count f (<[i := y]> l) <= count f l)%nat.
Proof.
  intros Hi Hf. pose proof (count_insert f l i x y Hi) as C.
  destruct (f y); [rewrite Hf in C by done|]; simpl in C; lia.
Qed.

Lemma count_zero {A} (f : A -> bool) l : count f l = 0%nat <-> Forall (fun x => f x = false) l.
Proof.
  unfold count. induction l as [|x l IH]; simpl; [by split|].
  rewrite Forall_cons. destruct (f x); simpl; [split; [done|by intros [? _]]|]. rewrite IH. tauto.
Qed.

Lemma omap_insert_new {A B} (f : A -> option B) (l : list A) i x y z :
  l !! i = Some x -> f x = None -> f y = Some z -> omap f (<[i := y]> l) ≡ₚ z :: omap f l.
Proof.
  revert i. induction l as [|u l IH]; intros [|i]; csimpl; intros Hi Hx Hy; simplify_eq.
  - by rewrite Hx, Hy.
  - destruct (f u); [|by eapply IH]. rewrite (IH i) by done. apply perm_swap.
Qed.

Lemma omap_insert_same {A B} (f : A -> option B) (l : list A) i x y :
  l !! i = Some x -> f y = f x -> omap f (<[i := y]> l) = omap f l.
Proof.
  revert i. induction l as [|u l IH]; intros [|i]; csimpl; intros Hi Hx; simplify_eq.
  - by rewrite Hx.
  - by rewrite (IH i).
Qed.

Lemma map_insert_same {A B} (f : A -> B) (l : list A) i x y :
  l !! i = Some x -> f y = f x -> map f (<[i := y]> l) = map f l.
Proof.
  revert i. induction l as [|u l IH]; intros [|i]; csimpl; intros Hi Hx; simplify_eq.
  - by rewrite Hx.
  - by rewrite (IH i).
Qed.

Lemma count_map {A} (f : A -> bool) (g : A -> A) l : (forall x, f (g x) = f x) -> count f (map g l) = count f l.
Proof. intros Hg. unfold count. induction l as [|x l IH]; simpl; [done|]. rewrite Hg. destruct (f x); simpl; lia. Qed.

Lemma count_pos {A} (f : A -> bool) (l : list A) : (0 < count f l)%nat -> exists i x, l !! i = Some x /\ f x = true.
Proof.
  unfold count. induction l as [|y l IH]; simpl; [lia|]. destruct (f y) eqn:Ey.
  - intros _. by exists 0%nat, y.
  - intros Hl. destruct (IH Hl) as (i & x & Hi & Hx). by exists (S i), x.
Qed.

Lemma count_lookup {A} (f : A -> bool) (l : list A) i x : l !! i = Some x -> f x = true -> (0 < count f l)%nat.
Proof.
  revert i. unfold count. induction l as [|y l IH]; intros [|i]; simpl; intros; simplify_eq.
  - by match goal with Hx : f _ = true |- _ => rewrite Hx; simpl; lia end.
  - specialize (IH i ltac:(done) ltac:(done)). destruct (f y); simpl; lia.
Qed.

Lemma count_unique {A} (f : A -> bool) (l : list A) i j x y :
  (count f l <= 1)%nat -> l !! i = Some x -> l !! j = Some y -> f x = true -> f y = true -> i = j.
Proof.
  revert i j. induction l as [|z l IH]; intros [|i] [|j]; simpl; intros Hc Hi Hj Hx Hy; simplify_eq; try done.
  - pose proof (count_lookup f l j y Hj Hy). unfold count in *. simpl in Hc. rewrite Hx in Hc. simpl in Hc. lia.
  - pose proof (count_lookup f l i x Hi Hx). unfold count in *. simpl in Hc. rewrite Hy in Hc. simpl in Hc. lia.
  - f_equal. apply IH; try done. unfold count in *. simpl in Hc. destruct (f z); simpl in Hc; lia.
Qed.
