(* ===== verification/Effects.v ===== *)
(** * Errors, effectful programs and their interpreter

    Go error values and [errors.Is]; the programs of the services as trees of
    atomic external calls ([prog]); the platform the calls run on (clock, UUID
    generator, faults); SQL statements and transactions as such calls. *)

From S2P Require Import Prelude.

(** ** Error values

    [ErrNotFound] and [ErrConflict] are the sentinels of pkg/errs, [ErrDrop]
    the one of pkg/amqp.  [ErrNew m] is an error without a cause ([errors.New]
    or [fmt.Errorf] without [%w]); the formatted arguments of the message are
    left out.  [Wrap m e] is [fmt.Errorf("m: %w", e)] and [Wrap2 e1 e2] is
    [fmt.Errorf("%w: %w", e1, e2)]. *)

Inductive err :=
| ErrNotFound
| ErrConflict
| ErrDrop
| ErrNew (msg : string)
| Wrap (msg : string) (e : err)
| Wrap2 (e1 e2 : err)
| OverrideConflictError (UserID : string) (StartAt EndAt : Time).

#[export] Instance err_eq_dec : EqDecision err.
Proof. solve_decision. Defined.

(** [errors.Is(e, target)] for a sentinel [target]. *)
Fixpoint errors_Is (e target : err) : bool :=
  bool_decide (e = target) ||
  match e with
  | Wrap _ e => errors_Is e target
  | Wrap2 e1 e2 => errors_Is e1 target || errors_Is e2 target
  | OverrideConflictError _ _ _ => bool_decide (target = ErrConflict)
  | _ => false
  end.

(** [err.Error()], the text of an error without its formatted arguments. *)
Fixpoint error_text (e : err) : string :=
  match e with
  | ErrNotFound => "not found"
  | ErrConflict => "conflict"
  | ErrDrop => "amqp: drop message"
  | ErrNew m => m
  | Wrap m e => m +:+ ": " +:+ error_text e
  | Wrap2 e1 e2 => error_text e1 +:+ ": " +:+ error_text e2
  | OverrideConflictError _ _ _ => "override window overlaps with existing override"
  end.

(** Errors of PostgreSQL. *)
Definition unique_violation : err := ErrNew "duplicate key value violates unique constraint".
Definition fk_violation : err := ErrNew "violates foreign key constraint".
Definition check_violation : err := ErrNew "violates check constraint".

(** The pair [(value, error)] of a Go call. *)
Inductive res (A : Type) :=
| Ok (a : A)
| Err (e : err).
Arguments Ok {_} _.
Arguments Err {_} _.

Definition is_ok {A} (r : res A) : bool := match r with Ok _ => true | Err _ => false end.

Definition ok_opt {A} (r : res A) : option A := match r with Ok a => Some a | Err _ => None end.

(** ** Programs

    A program is a tree of atomic steps on a shared world; between two steps
    other programs may run.  [run] executes a program alone. *)

Inductive prog (W A : Type) :=
| Ret (a : A)
| Atomic (B : Type) (op : W -> B * W) (k : B -> prog W A).
Arguments Ret {_ _} _.
Arguments Atomic {_ _ _} _ _.

Fixpoint bind {W A B} (p : prog W A) (f : A -> prog W B) : prog W B :=
  match p with
  | Ret a => f a
  | Atomic op k => Atomic op (fun b => bind (k b) f)
  end.

Fixpoint run {W A} (p : prog W A) (w : W) : A * W :=
  match p with
  | Ret a => (a, w)
  | Atomic op k => let '(b, w) := op w in run (k b) w
  end.

(** [let!] keeps the error for the program to inspect, [let?] is Go's
    [if err != nil { return err }], with the message of [fmt.Errorf] when the
    code wraps the error. *)
Notation "'let!' x ':=' p 'in' k" := (bind p (fun x => k))
  (at level 10, x name, p at level 100, k at level 200) : go_scope.
Notation "'let?' x ':=' p 'in' k" :=
  (bind p (fun r => match r with Ok x => k | Err e => Ret (Err e) end))
  (at level 10, x name, p at level 100, k at level 200) : go_scope.
Notation "'let?' x ':=' p 'wrap' m 'in' k" :=
  (bind p (fun r => match r with Ok x => k | Err e => Ret (Err (Wrap m e)) end))
  (at level 10, x name, p at level 100, m at level 9, k at level 200) : go_scope.

(** [for _, x := range l { body }] without an early exit. *)
Fixpoint for_each {W A} (l : list A) (body : A -> prog W unit) : prog W unit :=
  match l with
  | [] => Ret tt
  | x :: l => bind (body x) (fun _ => for_each l body)
  end.

(** The same loop with a body that may return an error and leave the function. *)
Fixpoint for_res {W A} (l : list A) (body : A -> prog W (res unit)) : prog W (res unit) :=
  match l with
  | [] => Ret (Ok tt)
  | x :: l => bind (body x) (fun r =>
      match r with Ok _ => for_res l body | Err e => Ret (Err e) end)
  end.

(** ** The platform

    External calls are numbered by the [tick] of the world.  A fault makes a
    call fail before its effect, or after it (the effect took place and the
    caller still sees an error, as with a lost reply). *)

Inductive fault :=
| FailBefore (e : err)
| FailAfter (e : err).

Class Platform := {
  now_at : nat -> Time;          (* the clock: [time.Now()], [now()] *)
  uuid_at : nat -> string;       (* [gen_random_uuid()], [uuid.NewString()] *)
  uuid_ok : string -> bool;      (* the texts PostgreSQL accepts as a [uuid] *)
  fault_at : nat -> option fault;
  done_at : nat -> bool;         (* the context of the caller is cancelled: [ctx.Done()] *)
  conn_closed_at : nat -> bool;  (* the broker has dropped the connection *)
  chan_closed_at : nat -> bool   (* the broker has closed the channel *)
}.

(** A concrete platform for the examples: a clock of one second per call, printed
    call numbers as UUIDs, and a given list of faults. *)
Definition demo_platform (faults : list (nat * fault)) : Platform := {|
  now_at t := (1704067200 + Z.of_nat t) * Second;
  uuid_at t := "id" +:+ pretty t;
  uuid_ok s := true;
  fault_at t := snd <$> (find (fun f => Nat.eqb f.1 t) faults);
  done_at _ := false;
  conn_closed_at _ := false;
  chan_closed_at _ := false
|}.

Lemma demo_uuid_fresh faults (k t : nat) :
  (k < t)%nat -> String.eqb ("id" +:+ pretty k) (@uuid_at (demo_platform faults) t) = false.
Proof.
  intros Hk. apply String.eqb_neq. intros E. simpl in E.
  assert (pretty k = pretty t) as Ep by congruence. apply (inj pretty) in Ep. lia.
Qed.

Lemma demo_uuid_inj faults : Inj eq eq (@uuid_at (demo_platform faults)).
Proof. intros t t' E. simpl in E. apply (inj pretty). congruence. Qed.

(** No external call fails. *)
Definition reliable `{Platform} : Prop := forall t, fault_at t = None.

(** The errors of drivers and networks are not the sentinels of the code. *)
Definition foreign (e : err) : Prop :=
  errors_Is e ErrNotFound = false /\ errors_Is e ErrConflict = false /\ errors_Is e ErrDrop = false.

Definition foreign_faults `{Platform} : Prop :=
  forall t e, fault_at t = Some (FailBefore e) \/ fault_at t = Some (FailAfter e) -> foreign e.

Record world (D : Type) := World { tick : nat; data : D }.
Arguments World {_} _ _.
Arguments tick {_} _.
Arguments data {_} _.

Abbreviation M D A := (prog (world D) A).

Section Calls.
Context `{Platform} {D : Type}.

(** One external call.  [f] computes the answer and the new data from the clock
    and a fresh UUID; an [Err] answer leaves the data as they were. *)
Definition call {A} (f : Time -> string -> D -> res (A * D)) : M D (res A) :=
  Atomic (fun w =>
    let t := tick w in
    match fault_at t with
    | Some (FailBefore e) => (Err e, World (S t) (data w))
    | flt =>
        match f (now_at t) (uuid_at t) (data w), flt with
        | Err e, _ => (Err e, World (S t) (data w))
        | Ok (_, d), Some (FailAfter e) => (Err e, World (S t) d)
        | Ok (a, d), _ => (Ok a, World (S t) d)
        end
    end) Ret.

Definition time_Now : M D Time :=
  Atomic (fun w => (now_at (tick w), World (S (tick w)) (data w))) Ret.

(** [ctx.Err() != nil]. *)
Definition ctx_Err : M D bool :=
  Atomic (fun w => (done_at (tick w), World (S (tick w)) (data w))) Ret.

(** [select { case <-ctx.Done(): true; case <-time.After(d): false }]. *)
Definition sleep_or_Done (d : Duration) : M D bool :=
  Atomic (fun w => (done_at (tick w), World (S (tick w)) (data w))) Ret.

(** [uuid.NewString()]. *)
Definition uuid_NewString : M D string :=
  Atomic (fun w => (uuid_at (tick w), World (S (tick w)) (data w))) Ret.

(** A change of the process's own memory: it cannot fail. *)
Definition local_step {A} (f : D -> A * D) : M D A :=
  Atomic (fun w => let '(a, d) := f (data w) in (a, World (tick w) d)) Ret.

(** ** SQL

    A statement runs on the pool or in a transaction, whose [now()] is the time
    it began.  [uuids] are the texts bound to parameters of type [uuid]. *)

Inductive dbConn := Pool | Tx (start : Time).

Definition sql {A} (q : dbConn) (uuids : list string)
    (f : Time -> string -> D -> res (A * D)) : M D (res A) :=
  call (fun now uuid d =>
    if forallb uuid_ok uuids
    then f (match q with Pool => now | Tx start => start end) uuid d
    else Err (ErrNew "invalid input syntax for type uuid")).

(** [withTx]: the body runs on a snapshot that is published by the commit, or
    dropped when the body returns an error.  To other programs the transaction
    is one atomic step. *)
Definition withTx {A} (body : dbConn -> M D (res A)) : M D (res A) :=
  Atomic (fun w =>
    let t := tick w in
    match fault_at t with
    | Some (FailBefore e) | Some (FailAfter e) => (Err e, World (S t) (data w))
    | None =>
        let '(r, w') := run (body (Tx (now_at t))) (World (S t) (data w)) in
        let t' := tick w' in
        match r with
        | Err e => (Err e, World t' (data w))
        | Ok a =>
            match fault_at t' with
            | Some (FailBefore e) => (Err e, World (S t') (data w))
            | Some (FailAfter e) => (Err e, World (S t') (data w'))
            | None => (Ok a, World (S t') (data w'))
            end
        end
    end) Ret.

End Calls.

(** ** Parts of a larger state

    [zoom] runs a program of a component on its part of a larger state; the calls
    keep their numbers. *)

Class Part (D E : Type) := {
  part : E -> D;
  set_part : D -> E -> E;
  part_set_part : forall d e, part (set_part d e) = d;
  set_part_part : forall e, set_part (part e) e = e;
  set_part_set_part : forall d d' e, set_part d (set_part d' e) = set_part d e
}.

Fixpoint zoom {D E A} `{Part D E} (p : M D A) : M E A :=
  match p with
  | Ret a => Ret a
  | Atomic op k =>
      Atomic (fun w => let '(b, w') := op (World (tick w) (part (data w))) in
                       (b, World (tick w') (set_part (data w') (data w))))
             (fun b => zoom (k b))
  end.

(** ** Lemmas *)

Lemma run_bind {W A B} (p : prog W A) (f : A -> prog W B) w :
  run (bind p f) w = let '(a, w') := run p w in run (f a) w'.
Proof.
  revert w. induction p as [a|X op k IH]; intros w; simpl; [done|].
  destruct (op w) as [b w']. apply IH.
Qed.

Lemma bind_assoc {W A B C} (p : prog W A) (f : A -> prog W B) (g : B -> prog W C) w :
  run (bind (bind p f) g) w = run (bind p (fun a => bind (f a) g)) w.
Proof. rewrite !run_bind. destruct (run p w). by rewrite run_bind. Qed.

Lemma run_zoom {D E A} `{Part D E} (p : M D A) (w : world E) :
  run (zoom p) w = let '(a, w') := run p (World (tick w) (part (data w))) in
                   (a, World (tick w') (set_part (data w') (data w))).
Proof.
  revert w. induction p as [a|B op k IH]; intros w; simpl.
  - rewrite set_part_part. by destruct w.
  - destruct (op _) as [b [t d]]. rewrite IH. simpl. rewrite part_set_part.
    destruct (run (k b) _) as [a w']. by rewrite set_part_set_part.
Qed.

Lemma zoom_bind {D E A B} `{Part D E} (p : M D A) (f : A -> M D B) (w : world E) :
  run (zoom (bind p f)) w = run (bind (zoom p) (fun a => zoom (f a))) w.
Proof.
  rewrite run_zoom, !run_bind, run_zoom. destruct (run p _) as [a w1]. rewrite run_zoom. simpl.
  rewrite part_set_part. destruct w1 as [t1 d1]. simpl. destruct (run (f a) _) as [b w2].
  by rewrite set_part_set_part.
Qed.

Lemma errors_Is_refl e : errors_Is e e = true.
Proof. by destruct e; simpl; rewrite ?bool_decide_eq_true_2. Qed.

Lemma errors_Is_wrap m e t :
  (forall e', t <> Wrap m e') -> errors_Is (Wrap m e) t = errors_Is e t.
Proof. intros Ht. simpl. rewrite bool_decide_eq_false_2; [done|]. intros <-. by eapply Ht. Qed.

Section Call_lemmas.
Context `{Platform} {D : Type}.

Lemma run_call_ok {A} (f : Time -> string -> D -> res (A * D)) w :
  fault_at (tick w) = None ->
  run (call f) w =
    match f (now_at (tick w)) (uuid_at (tick w)) (data w) with
    | Ok (a, d) => (Ok a, World (S (tick w)) d)
    | Err e => (Err e, World (S (tick w)) (data w))
    end.
Proof. intros Hf. simpl. rewrite Hf. by destruct (f _ _ _) as [[]|]. Qed.

Lemma run_sql_ok {A} q uuids (f : Time -> string -> D -> res (A * D)) w :
  fault_at (tick w) = None -> forallb uuid_ok uuids = true ->
  run (sql q uuids f) w =
    match f (match q with Pool => now_at (tick w) | Tx start => start end) (uuid_at (tick w)) (data w) with
    | Ok (a, d) => (Ok a, World (S (tick w)) d)
    | Err e => (Err e, World (S (tick w)) (data w))
    end.
Proof. intros Hf Hu. unfold sql. rewrite run_call_ok by done. by rewrite Hu. Qed.

(** Every way a statement can end: its effect took place, or nothing changed. *)
Lemma run_sql_cases {A} q uuids (f : Time -> string -> D -> res (A * D)) w r w' :
  foreign_faults -> run (sql q uuids f) w = (r, w') ->
  (exists now uuid a, f now uuid (data w) = Ok (a, data w')
     /\ (r = Ok a \/ exists e, r = Err e /\ foreign e)) \/
  (data w' = data w /\ exists e, r = Err e
     /\ (foreign e \/ exists now uuid, f now uuid (data w) = Err e)).
Proof.
  intros Hff Hr. simpl in Hr.
  assert (foreign (ErrNew "invalid input syntax for type uuid")) as Hu by done.
  destruct (fault_at (tick w)) as [[e|e]|] eqn:Ef.
  - injection Hr as <- <-. right. split; [done|]. exists e. eauto.
  - destruct (forallb uuid_ok uuids); [|injection Hr as <- <-; right; eauto 10].
    destruct (f _ _ _) as [[a d]|e'] eqn:E; injection Hr as <- <-; [left; eauto 12|right; eauto 12].
  - destruct (forallb uuid_ok uuids); [|injection Hr as <- <-; right; eauto 10].
    destruct (f _ _ _) as [[a d]|e'] eqn:E; injection Hr as <- <-; [left; eauto 12|right; eauto 12].
Qed.

Lemma run_sql_err {A} q uuids (f : Time -> string -> D -> res (A * D)) w :
  (forall now uuid, exists e, f now uuid (data w) = Err e) ->
  exists e w', run (sql q uuids f) w = (Err e, w') /\ data w' = data w.
Proof.
  intros Hf. simpl. destruct (fault_at (tick w)) as [[e|e]|]; [by do 2 eexists|..];
    (destruct (forallb uuid_ok uuids); [|by do 2 eexists]);
    match goal with |- context [f ?n ?u _] => destruct (Hf n u) as [e' ->] end; by do 2 eexists.
Qed.

(** What a successful call did. *)
Lemma run_call_inv {A} (f : Time -> string -> D -> res (A * D)) w a w' :
  run (call f) w = (Ok a, w') ->
  exists now uuid, f now uuid (data w) = Ok (a, data w').
Proof.
  simpl. destruct (fault_at (tick w)) as [[e|e]|]; [done|..];
    destruct (f _ _ _) as [[a' d]|e'] eqn:Ef; intros [= ]; subst; eauto.
Qed.

Lemma run_sql_inv {A} q uuids (f : Time -> string -> D -> res (A * D)) w a w' :
  run (sql q uuids f) w = (Ok a, w') ->
  exists now uuid, f now uuid (data w) = Ok (a, data w').
Proof.
  unfold sql. intros (now & uuid & Hf)%run_call_inv.
  destruct (forallb uuid_ok uuids); [eauto|done].
Qed.

Lemma run_withTx_ok {A} (body : dbConn -> M D (res A)) w :
  reliable ->
  run (withTx body) w =
    match run (body (Tx (now_at (tick w)))) (World (S (tick w)) (data w)) with
    | (Ok a, w') => (Ok a, World (S (tick w')) (data w'))
    | (Err e, w') => (Err e, World (tick w') (data w))
    end.
Proof.
  intros Hrel. simpl. rewrite Hrel. destruct (run _ _) as [[a|e] w']; [|done]. by rewrite Hrel.
Qed.

(** A transaction changes the data to what its body produced, or not at all. *)
Lemma withTx_atomic {A} (body : dbConn -> M D (res A)) w r w' :
  run (withTx body) w = (r, w') ->
  data w' = data w \/
  exists start a w1, run (body (Tx start)) (World (S (tick w)) (data w)) = (Ok a, w1)
    /\ data w' = data w1.
Proof.
  simpl. destruct (fault_at (tick w)) as [[]|].
  1-2: intros [= <- <-]; by left.
  destruct (run _ _) as [[a|e] w1] eqn:E; [|intros [= <- <-]; by left].
  destruct (fault_at (tick w1)) as [[]|]; intros [= <- <-]; [by left|right; eauto..].
Qed.

End Call_lemmas.

#[export] Hint Rewrite @run_bind : oncall.
