(* ===== verification/Sha256.v ===== *)
(** * crypto/sha256 and encoding/hex

    The digest the services use for group keys, fingerprints and webhook tokens,
    on the bytes of a Go string. *)

From S2P Require Import Prelude.

Definition w32 (x : Z) : Z := x mod 2 ^ 32.

Definition rotr (n x : Z) : Z := Z.lor (Z.shiftr x n) (w32 (Z.shiftl x (32 - n))).

(** The constants of the standard: the first 32 bits of the fractional parts of the
    cube roots of the first 64 primes, and of the square roots of the first 8. *)
Definition primes : list Z :=
  List.filter (fun n => forallb (fun k => negb (n mod Z.of_nat k =? 0)) (seq 2 (Z.to_nat n - 2)))
    (map Z.of_nat (seq 2 310)).

(** The cube root rounded down, bit by bit from [2 ^ n]. *)
Fixpoint cube_root (n : nat) (acc x : Z) : Z :=
  let c := acc + 2 ^ Z.of_nat n in
  let acc := if c * c * c <=? x then c else acc in
  match n with O => acc | S n => cube_root n acc x end.

Definition round_constants : list Z :=
  Eval vm_compute in map (fun p => w32 (cube_root 36 0 (p * 2 ^ 96))) primes.

Definition initial_state : list Z :=
  Eval vm_compute in map (fun p => w32 (Z.sqrt (p * 2 ^ 64))) (take 8 primes).

(** Big-endian bytes of an integer. *)
Fixpoint be_bytes (n : nat) (x : Z) : list Z :=
  match n with
  | O => []
  | S n => be_bytes n (x / 256) ++ [x mod 256]
  end.

Definition be_word (l : list Z) : Z := fold_left (fun a b => a * 256 + b) l 0.

Fixpoint chunks {A} (fuel n : nat) (l : list A) : list (list A) :=
  match fuel, l with
  | S fuel, _ :: _ => take n l :: chunks fuel n (drop n l)
  | _, _ => []
  end.

Definition pad (msg : list Z) : list Z :=
  let len := Z.of_nat (length msg) in
  msg ++ [0x80] ++ replicate (Z.to_nat ((55 - len) mod 64)) 0 ++ be_bytes 8 (w32 (8 * len / 2 ^ 32) * 2 ^ 32 + w32 (8 * len)).

(** The message schedule, newest word first. *)
Fixpoint extend (n : nat) (w : list Z) : list Z :=
  match n with
  | O => w
  | S n =>
      let s0 := let x := nth 14 w 0 in Z.lxor (Z.lxor (rotr 7 x) (rotr 18 x)) (Z.shiftr x 3) in
      let s1 := let x := nth 1 w 0 in Z.lxor (Z.lxor (rotr 17 x) (rotr 19 x)) (Z.shiftr x 10) in
      extend n (w32 (nth 15 w 0 + s0 + nth 6 w 0 + s1) :: w)
  end.

Definition sha_round (st : list Z) (kw : Z * Z) : list Z :=
  match st with
  | [a; b; c; d; e; f; g; h] =>
      let S1 := Z.lxor (Z.lxor (rotr 6 e) (rotr 11 e)) (rotr 25 e) in
      let ch := Z.lxor (Z.land e f) (Z.land (Z.lxor e 0xffffffff) g) in
      let t1 := h + S1 + ch + kw.1 + kw.2 in
      let S0 := Z.lxor (Z.lxor (rotr 2 a) (rotr 13 a)) (rotr 22 a) in
      let maj := Z.lxor (Z.lxor (Z.land a b) (Z.land a c)) (Z.land b c) in
      [w32 (t1 + S0 + maj); a; b; c; w32 (d + t1); e; f; g]
  | _ => st
  end.

Definition compress (st : list Z) (block : list Z) : list Z :=
  let w := rev (extend 48 (rev (map be_word (chunks 16 4 block)))) in
  zip_with (fun x y => w32 (x + y)) st (fold_left sha_round (zip round_constants w) st).

Fixpoint bytes (s : string) : list Z :=
  match s with
  | EmptyString => []
  | String a s => Z.of_nat (nat_of_ascii a) :: bytes s
  end.

(** [sha256.Sum256], as its 32 bytes. *)
Definition Sum256 (msg : list Z) : list Z :=
  let p := pad msg in
  concat (map (be_bytes 4) (fold_left compress (chunks (length p) 64 p) initial_state)).

Definition hex_digit (n : Z) : ascii :=
  ascii_of_nat (Z.to_nat (if n <? 10 then 48 + n else 87 + n)).

(** [hex.EncodeToString]. *)
Fixpoint hex_EncodeToString (l : list Z) : string :=
  match l with
  | [] => EmptyString
  | b :: l => String (hex_digit (b / 16)) (String (hex_digit (b mod 16)) (hex_EncodeToString l))
  end.

Definition sha256_hex (s : string) : string := hex_EncodeToString (Sum256 (bytes s)).

(** The published test vectors of FIPS 180-4. *)
Example sha256_abc :
  sha256_hex "abc" = "ba7816bf8f01cfea414140de5dae2223b00361a396177a9cb410ff61f20015ad".
Proof. vm_compute. reflexivity. Qed.

Example sha256_two_blocks :
  sha256_hex "abcdbcdecdefdefgefghfghighijhijkijkljklmklmnlmnomnopnopq"
  = "248d6a61d20638b8e5c026930c3e6039a33ce45964ff2167f6ecedd419db06c1".
Proof. vm_compute. reflexivity. Qed.

Example sha256_empty :
  sha256_hex "" = "e3b0c44298fc1c149afbf4c8996fb92427ae41e4649b934ca495991b7852b855".
Proof. vm_compute. reflexivity. Qed.
