(* ===== verification/Json.v ===== *)
(** * JSON values, encoding/json decoding and RFC 3339 times

    encoding/json at the level of values: [json.Unmarshal] and
    [json.Decoder.Decode] into a struct, with missing keys, unknown keys,
    duplicates, [null] and values of the wrong type; [json.Marshal] as the value
    it writes.  The text of a value is left out: a body that is not JSON is
    [None] where a handler reads one. *)

From S2P Require Import Prelude Effects.

Inductive json :=
| JNull
| JBool (b : bool)
| JNum (n : Z)
| JFloat                       (* a number that is not written as an integer *)
| JStr (s : string)
| JArr (l : list json)
| JObj (l : list (string * json)).

(** The RFC 3339 texts of a [time.Time]: [json.Marshal] and [json.Unmarshal]
    (years outside 0-9999 have no text), [Format] with RFC3339Nano and [Parse],
    which reads texts [json.Unmarshal] refuses. *)
Class TimeText := {
  time_MarshalJSON : Time -> option string;
  time_UnmarshalJSON : string -> option Time;
  time_Format : Time -> string;
  time_Parse : string -> option Time
}.

(** A concrete text for the examples: a sign and the binary digits. *)
Fixpoint pos_text (p : positive) : string :=
  match p with
  | xH => EmptyString
  | xO p => String "0" (pos_text p)
  | xI p => String "1" (pos_text p)
  end.

Fixpoint text_pos (s : string) : option positive :=
  match s with
  | EmptyString => Some xH
  | String c s =>
      p ← text_pos s;
      if Ascii.eqb c "0" then Some (xO p) else if Ascii.eqb c "1" then Some (xI p) else None
  end.

Definition demo_format (t : Time) : string :=
  match t with
  | Z0 => "="
  | Zpos p => String "+" (pos_text p)
  | Zneg p => String "-" (pos_text p)
  end.

Definition demo_parse (s : string) : option Time :=
  match s with
  | EmptyString => None
  | String c s =>
      if Ascii.eqb c "=" then Some 0
      else p ← text_pos s; if Ascii.eqb c "+" then Some (Zpos p) else Some (Zneg p)
  end.

Definition demo_time_text : TimeText := {|
  time_MarshalJSON t := Some (demo_format t);
  time_UnmarshalJSON := demo_parse;
  time_Format := demo_format;
  time_Parse := demo_parse
|}.

(** ** Decoding

    A decoder reads a value into a variable that has a value already: [null]
    leaves it, [None] is an error. *)

Definition decoder (A : Type) : Type := json -> A -> option A.

Definition dec_string : decoder string := fun j s =>
  match j with JNull => Some s | JStr s => Some s | _ => None end.

Definition dec_int : decoder Z := fun j n =>
  match j with
  | JNull => Some n
  | JNum n => if bool_decide (in_int64 n) then Some n else None
  | _ => None
  end.

Definition dec_bool : decoder bool := fun j b =>
  match j with JNull => Some b | JBool b => Some b | _ => None end.

Definition dec_ptr {A} (zero : A) (d : decoder A) : decoder (option A) := fun j p =>
  match j with
  | JNull => Some None
  | _ => a ← d j (default zero p); Some (Some a)
  end.

Definition dec_slice {A} (zero : A) (d : decoder A) : decoder (list A) := fun j _ =>
  match j with
  | JNull => Some []
  | JArr l => mapM (fun j => d j zero) l
  | _ => None
  end.

Definition add_entry (m : option (gmap string string)) (kv : string * json) :=
  m ← m; s ← dec_string kv.2 EmptyString; Some (<[kv.1:=s]> m).

Definition dec_map : decoder (gmap string string) := fun j m =>
  match j with
  | JNull => Some ∅
  | JObj l => foldl add_entry (Some m) l
  | _ => None
  end.

(** A [json.RawMessage]: a key that is not there leaves it nil, [null] does not. *)
Definition dec_raw : decoder (option json) := fun j _ => Some (Some j).

Definition dec_time `{TimeText} : decoder Time := fun j t =>
  match j with JNull => Some t | JStr s => time_UnmarshalJSON s | _ => None end.

(** Keys match the name of a field exactly or under case folding, where the
    Kelvin sign folds to k and the long s to s. *)
Fixpoint fold_name (s : string) : string :=
  match s with
  | EmptyString => EmptyString
  | String a s1 =>
      match s1 with
      | String b s2 =>
          if (nat_of_ascii a =? 197)%nat && (nat_of_ascii b =? 191)%nat
          then String "s" (fold_name s2)
          else match s2 with
               | String c s3 =>
                   if (nat_of_ascii a =? 226)%nat && (nat_of_ascii b =? 132)%nat
                        && (nat_of_ascii c =? 170)%nat
                   then String "k" (fold_name s3)
                   else String (lower_ascii a) (fold_name s1)
               | EmptyString => String (lower_ascii a) (fold_name s1)
               end
      | EmptyString => String (lower_ascii a) EmptyString
      end
  end.

(** A field of a struct: its JSON name and how a value is decoded into it. *)
Definition fields (A : Type) : Type := list (string * decoder A).

Definition field {A B} (name : string) (get : A -> B) (set : B -> A -> A) (d : decoder B)
    : string * decoder A :=
  (name, fun j a => b ← d j (get a); Some (set b a)).

Fixpoint find_by {A} (p : string -> bool) (fs : fields A) : option (decoder A) :=
  match fs with
  | [] => None
  | (n, d) :: fs => if p n then Some d else find_by p fs
  end.

Definition find_field {A} (fs : fields A) (k : string) : option (decoder A) :=
  match find_by (String.eqb k) fs with
  | Some d => Some d
  | None => find_by (fun n => String.eqb (fold_name n) (fold_name k)) fs
  end.

Definition dec_key {A} (fs : fields A) (acc : option A) (kv : string * json) : option A :=
  match acc, find_field fs kv.1 with
  | Some a, Some d => d kv.2 a
  | _, _ => acc
  end.

Definition dec_struct {A} (fs : fields A) : decoder A := fun j a =>
  match j with
  | JNull => Some a
  | JObj l => foldl (dec_key fs) (Some a) l
  | _ => None
  end.

(** [json.Unmarshal(data, dst)]. *)
Definition Unmarshal {A} (d : decoder A) (data : json) (dst : A) : res A :=
  match d data dst with
  | Some a => Ok a
  | None => Err (ErrNew "json: cannot unmarshal")
  end.

(** [json.NewDecoder(r.Body).Decode(&body)]: [None] is a body that is not JSON. *)
Definition Decode {A} (d : decoder A) (body : option json) (dst : A) : res A :=
  match body with
  | Some j => Unmarshal d j dst
  | None => Err (ErrNew "invalid JSON")
  end.

(** ** Encoding *)

(** A map is written with its keys in byte order. *)
Definition enc_map (m : gmap string string) : json :=
  JObj (map (fun k => (k, JStr (map_get m k))) (sort_Strings (map_to_list m).*1)).

(** A struct field tagged [omitempty]. *)
Definition omitempty (name s : string) : list (string * json) :=
  if String.eqb s EmptyString then [] else [(name, JStr s)].

Definition enc_opt (s : option string) : json :=
  match s with Some s => JStr s | None => JNull end.

(** ** Lemmas *)

Lemma text_pos_text p : text_pos (pos_text p) = Some p.
Proof. induction p as [p IH|p IH|]; simpl; rewrite ?IH; done. Qed.

Lemma demo_time_text_ok t :
  exists s, @time_MarshalJSON demo_time_text t = Some s
         /\ @time_UnmarshalJSON demo_time_text s = Some t.
Proof. eexists. split; [reflexivity|]. destruct t; simpl; rewrite ?text_pos_text; done. Qed.

Lemma dec_int_in_range n m : in_int64 n -> dec_int (JNum n) m = Some n.
Proof. intros Hn. unfold dec_int. by rewrite bool_decide_eq_true_2. Qed.

Lemma foldl_add_entry (l : list (string * string)) m0 :
  NoDup (l.*1) -> (forall k v, (k, v) ∈ l -> m0 !! k = None) ->
  foldl add_entry (Some m0) (map (fun kv => (kv.1, JStr kv.2)) l) = Some (list_to_map l ∪ m0).
Proof.
  revert m0. induction l as [|[k v] l IH]; intros m0 Hn Hm; simpl.
  - by rewrite map_empty_union.
  - apply NoDup_cons in Hn as [Hk Hn]. simpl in Hk. rewrite IH; [|done|].
    + f_equal. apply map_eq. intros i. rewrite !lookup_union.
      destruct (decide (i = k)) as [->|].
      * rewrite !lookup_insert_eq. rewrite not_elem_of_list_to_map_1 by done. by destruct (m0 !! k).
      * by rewrite !lookup_insert_ne.
    + intros k' v' Hin. rewrite lookup_insert_ne; [by eapply Hm; right|].
      intros ->. apply Hk. apply list_elem_of_fmap. by exists (k', v').
Qed.

Lemma dec_map_enc m : dec_map (enc_map m) ∅ = Some m.
Proof.
  unfold dec_map, enc_map. set (ks := sort_Strings (map_to_list m).*1).
  assert (Permutation ks (map_to_list m).*1) as Hks by apply merge_sort_Permutation.
  replace (map (fun k => (k, JStr (map_get m k))) ks)
    with (map (fun kv => (kv.1, JStr kv.2)) (map (fun k => (k, map_get m k)) ks)) by by rewrite map_map.
  assert ((map (fun k => (k, map_get m k)) ks).*1 = ks) as Ef
    by (rewrite <- list_fmap_compose; apply list_fmap_id).
  rewrite foldl_add_entry.
  - rewrite map_union_empty. f_equal. apply map_eq. intros k. apply option_eq. intros v.
    rewrite <- elem_of_list_to_map; [|by rewrite Ef, Hks; apply NoDup_fst_map_to_list].
    rewrite list_elem_of_fmap. setoid_rewrite Hks. split.
    + intros (k' & [= -> ->] & ((k2 & v2) & -> & Hin%elem_of_map_to_list)%list_elem_of_fmap).
      unfold map_get. simpl. by rewrite Hin.
    + intros Hv. exists k. split; [unfold map_get; by rewrite Hv|].
      apply list_elem_of_fmap. exists (k, v). by rewrite elem_of_map_to_list.
  - by rewrite Ef, Hks; apply NoDup_fst_map_to_list.
  - intros. apply lookup_empty.
Qed.
