(* ===== verification/JsonText.v ===== *)
(** * The text of a JSON string and of a map of strings

    [json.Marshal] of a [map[string]string]: keys in byte order, strings quoted
    with the escapes of encoding/json (HTML-safe, invalid UTF-8 replaced). *)

From S2P Require Import Prelude Sha256.

(** The continuation bytes a first byte of a UTF-8 sequence needs, with the range
    of the first of them. *)
Definition utf8_first (b : Z) : option (nat * Z * Z) :=
  if b <? 0x80 then Some (O, 0, 0)
  else if (0xc2 <=? b) && (b <=? 0xdf) then Some (1%nat, 0x80, 0xbf)
  else if b =? 0xe0 then Some (2%nat, 0xa0, 0xbf)
  else if b =? 0xed then Some (2%nat, 0x80, 0x9f)
  else if (0xe1 <=? b) && (b <=? 0xef) then Some (2%nat, 0x80, 0xbf)
  else if b =? 0xf0 then Some (3%nat, 0x90, 0xbf)
  else if (0xf1 <=? b) && (b <=? 0xf3) then Some (3%nat, 0x80, 0xbf)
  else if b =? 0xf4 then Some (3%nat, 0x80, 0x8f)
  else None.

(** The length of the sequence a text begins with; [None] when it is not UTF-8. *)
Definition utf8_len (l : list Z) : option nat :=
  match l with
  | [] => None
  | b :: l =>
      match utf8_first b with
      | Some (n, lo, hi) =>
          let cont := take n l in
          if (length cont =? n)%nat
             && (match cont with [] => true | c :: _ => (lo <=? c) && (c <=? hi) end)
             && forallb (fun c => (0x80 <=? c) && (c <=? 0xbf)) cont
          then Some (S n) else None
      | None => None
      end
  end.

Fixpoint text (l : list Z) : string :=
  match l with [] => EmptyString | b :: l => String (ascii_of_nat (Z.to_nat b)) (text l) end.

Definition backslash : Z := 0x5c.

Definition dquote : Z := 0x22.

(** [\u00XX] *)
Definition u_escape (b : Z) : list Z :=
  [backslash; 0x75; 0x30; 0x30] ++ bytes (hex_EncodeToString [b]).

Definition escape_ascii (b : Z) : list Z :=
  if (b =? backslash) || (b =? dquote) then [backslash; b]
  else if b =? 8 then [backslash; 0x62]
  else if b =? 12 then [backslash; 0x66]
  else if b =? 10 then [backslash; 0x6e]
  else if b =? 13 then [backslash; 0x72]
  else if b =? 9 then [backslash; 0x74]
  else if (b <? 0x20) || (b =? 0x3c) || (b =? 0x3e) || (b =? 0x26) then u_escape b
  else [b].

Fixpoint escape (fuel : nat) (l : list Z) : list Z :=
  match fuel, l with
  | S fuel, b :: l' =>
      match utf8_len l with
      | None => bytes "\ufffd" ++ escape fuel l'
      | Some 1%nat => escape_ascii b ++ escape fuel l'
      | Some n =>
          let c := take n l in
          (if bool_decide (c = [0xe2; 0x80; 0xa8]) then bytes "\u2028"
           else if bool_decide (c = [0xe2; 0x80; 0xa9]) then bytes "\u2029"
           else c) ++ escape fuel (drop n l)
      end
  | _, _ => []
  end.

Definition quoted (s : string) : list Z :=
  [dquote] ++ escape (S (length (bytes s))) (bytes s) ++ [dquote].

Definition quote (s : string) : string := text (quoted s).

(** [json.Marshal] of a map, [None] being the nil map. *)
Definition marshal_string_map (m : option (gmap string string)) : string :=
  match m with
  | None => "null"
  | Some m =>
      "{" +:+ Join (map (fun k => quote k +:+ ":" +:+ quote (map_get m k)) (sort_Strings (map_to_list m).*1)) "," +:+ "}"
  end.

(** Keys in byte order, with quotes, HTML characters and bad bytes escaped. *)
Example marshal_example :
  marshal_string_map (Some {[ "b" := "<x>"; "a" := text [dquote; 0xff; 10] ]})
  = text (bytes "{" ++ [dquote; 0x61; dquote] ++ bytes ":" ++ [dquote; backslash; dquote]
          ++ bytes "\ufffd\n" ++ [dquote] ++ bytes "," ++ [dquote; 0x62; dquote] ++ bytes ":"
          ++ [dquote] ++ bytes "\u003cx\u003e" ++ [dquote] ++ bytes "}").
Proof. vm_compute. reflexivity. Qed.
