(* ===== verification/JsonWire.v ===== *)
(** * The bytes of a JSON value

    [json.Marshal] as the bytes it writes for a value, the reader of
    encoding/json that [json.Unmarshal] has, and what comes back: the same value
    with the invalid UTF-8 of its strings replaced by U+FFFD. *)

From S2P Require Import Prelude Effects Sha256 Json JsonText.

(** ** Writing *)

Fixpoint commas (ls : list (list Z)) : list Z :=
  match ls with
  | [] => []
  | [x] => x
  | x :: ls => x ++ 0x2c :: commas ls
  end.

(** [JFloat] keeps no digits of its number, which here is one half. *)
Fixpoint marshal (j : json) : list Z :=
  match j with
  | JNull => bytes "null"
  | JBool b => bytes (if b then "true" else "false")
  | JNum n => bytes (Itoa n)
  | JFloat => bytes "0.5"
  | JStr s => quoted s
  | JArr l => 0x5b :: commas (map marshal l) ++ [0x5d]
  | JObj l => 0x7b :: commas (map (fun kv => quoted kv.1 ++ 0x3a :: marshal kv.2) l) ++ [0x7d]
  end.

(** ** Reading: strings *)

Definition hex_val (b : Z) : option Z :=
  if (0x30 <=? b) && (b <=? 0x39) then Some (b - 0x30)
  else if (0x61 <=? b) && (b <=? 0x66) then Some (b - 0x61 + 10)
  else if (0x41 <=? b) && (b <=? 0x46) then Some (b - 0x41 + 10)
  else None.

Definition hex4 (l : list Z) : option (Z * list Z) :=
  match l with
  | a :: b :: c :: d :: r =>
      a ← hex_val a; b ← hex_val b; c ← hex_val c; d ← hex_val d;
      Some (a * 4096 + b * 256 + c * 16 + d, r)
  | _ => None
  end.

Definition utf8_encode (c : Z) : list Z :=
  if c <? 0x80 then [c]
  else if c <? 0x800 then [0xc0 + c / 64; 0x80 + c mod 64]
  else if c <? 0x10000 then [0xe0 + c / 4096; 0x80 + c / 64 mod 64; 0x80 + c mod 64]
  else [0xf0 + c / 262144; 0x80 + c / 4096 mod 64; 0x80 + c / 64 mod 64; 0x80 + c mod 64].

(** U+FFFD *)
Definition replacement : list Z := [0xef; 0xbf; 0xbd].

Definition high_surrogate (c : Z) : bool := (0xd800 <=? c) && (c <? 0xdc00).
Definition low_surrogate (c : Z) : bool := (0xdc00 <=? c) && (c <? 0xe000).

(** After a backslash: the bytes meant, and the rest.  A surrogate without its
    other half is replaced. *)
Definition unescape (l : list Z) : option (list Z * list Z) :=
  match l with
  | [] => None
  | b :: r =>
      if b =? 0x75 then
        '(c, r) ← hex4 r;
        if high_surrogate c || low_surrogate c then
          Some (match r with
                | b1 :: b2 :: r2 =>
                    if (b1 =? backslash) && (b2 =? 0x75) then
                      match hex4 r2 with
                      | Some (c2, r3) =>
                          if high_surrogate c && low_surrogate c2
                          then (utf8_encode (0x10000 + (c - 0xd800) * 1024 + (c2 - 0xdc00)), r3)
                          else (replacement, r)
                      | None => (replacement, r)
                      end
                    else (replacement, r)
                | _ => (replacement, r)
                end)
        else Some (utf8_encode c, r)
      else if (b =? dquote) || (b =? backslash) || (b =? 0x2f) then Some ([b], r)
      else if b =? 0x62 then Some ([8], r)
      else if b =? 0x66 then Some ([12], r)
      else if b =? 0x6e then Some ([10], r)
      else if b =? 0x72 then Some ([13], r)
      else if b =? 0x74 then Some ([9], r)
      else None
  end.

(** The bytes of a string after its opening quote, and what follows the closing
    one. *)
Fixpoint chars (fuel : nat) (l : list Z) : option (list Z * list Z) :=
  match fuel, l with
  | S fuel, b :: l' =>
      if b =? dquote then Some ([], l')
      else if b =? backslash then
        '(c, r) ← unescape l'; '(cs, r) ← chars fuel r; Some (c ++ cs, r)
      else if b <? 0x20 then None
      else match utf8_len l with
           | None => '(cs, r) ← chars fuel l'; Some (replacement ++ cs, r)
           | Some n => '(cs, r) ← chars fuel (drop n l); Some (take n l ++ cs, r)
           end
  | _, _ => None
  end.

(** ** Reading: numbers *)

Definition digit (b : Z) : bool := (0x30 <=? b) && (b <=? 0x39).

Definition num_char (b : Z) : bool :=
  digit b || (b =? 0x2d) || (b =? 0x2b) || (b =? 0x2e) || (b =? 0x65) || (b =? 0x45).

(** The longest prefix of a kind of byte, and the rest. *)
Fixpoint span (p : Z -> bool) (l : list Z) : list Z * list Z :=
  match l with
  | b :: l' => if p b then let '(x, y) := span p l' in (b :: x, y) else ([], l)
  | [] => ([], [])
  end.

Definition exponent (l : list Z) : bool :=
  match l with
  | [] => true
  | e :: l =>
      ((e =? 0x65) || (e =? 0x45)) &&
      match l with
      | s :: l' =>
          let '(ds, r) := span digit (if (s =? 0x2d) || (s =? 0x2b) then l' else l) in
          negb (bool_decide (ds = [])) && bool_decide (r = [])
      | [] => false
      end
  end.

(** What follows the integer part. *)
Definition fraction (l : list Z) : bool :=
  match l with
  | b :: l' =>
      if b =? 0x2e then let '(ds, r) := span digit l' in negb (bool_decide (ds = [])) && exponent r
      else exponent l
  | [] => true
  end.

Definition number (tok : list Z) : option json :=
  let '(ds, r) := span digit (match tok with b :: t => if b =? 0x2d then t else tok | [] => [] end) in
  match ds with
  | [] => None
  | d :: ds' =>
      if (d =? 0x30) && negb (bool_decide (ds' = [])) then None
      else match r with
           | [] => JNum <$> atoi (text tok)
           | _ => if fraction r then Some JFloat else None
           end
  end.

(** ** Reading: values *)

Definition ws (b : Z) : bool := (b =? 0x20) || (b =? 9) || (b =? 10) || (b =? 13).

Definition skip_ws (l : list Z) : list Z := (span ws l).2.

Definition literal (name : string) (j : json) (l : list Z) : option (json * list Z) :=
  let n := length (bytes name) in
  if bool_decide (take n l = bytes name) then Some (j, drop n l) else None.

Definition str (l : list Z) : option (string * list Z) :=
  match l with
  | b :: l => if b =? dquote then '(s, r) ← chars (length l) l; Some (text s, r) else None
  | [] => None
  end.

Definition colon (l : list Z) : option (list Z) :=
  match skip_ws l with b :: r => if b =? 0x3a then Some r else None | [] => None end.

(** Whether a list goes on: [Some true] after a comma, [Some false] after its end. *)
Definition more (close : Z) (l : list Z) : option (bool * list Z) :=
  match skip_ws l with
  | b :: r => if b =? 0x2c then Some (true, r) else if b =? close then Some (false, r) else None
  | [] => None
  end.

Definition closes (close : Z) (l : list Z) : option (list Z) :=
  match skip_ws l with b :: r => if b =? close then Some r else None | [] => None end.

Fixpoint value (fuel : nat) (l : list Z) : option (json * list Z) :=
  match fuel with
  | O => None
  | S fuel =>
      match skip_ws l with
      | [] => None
      | b :: r =>
          if b =? dquote then '(s, r) ← str (b :: r); Some (JStr s, r)
          else if b =? 0x5b then
            match closes 0x5d r with
            | Some r => Some (JArr [], r)
            | None => '(vs, r) ← elements fuel r; Some (JArr vs, r)
            end
          else if b =? 0x7b then
            match closes 0x7d r with
            | Some r => Some (JObj [], r)
            | None => '(kvs, r) ← members fuel r; Some (JObj kvs, r)
            end
          else if b =? 0x6e then literal "null" JNull (b :: r)
          else if b =? 0x74 then literal "true" (JBool true) (b :: r)
          else if b =? 0x66 then literal "false" (JBool false) (b :: r)
          else let '(tok, r) := span num_char (b :: r) in j ← number tok; Some (j, r)
      end
  end
with elements (fuel : nat) (l : list Z) : option (list json * list Z) :=
  match fuel with
  | O => None
  | S fuel =>
      '(v, r) ← value fuel l;
      '(next, r) ← more 0x5d r;
      if next : bool then '(vs, r) ← elements fuel r; Some (v :: vs, r) else Some ([v], r)
  end
with members (fuel : nat) (l : list Z) : option (list (string * json) * list Z) :=
  match fuel with
  | O => None
  | S fuel =>
      '(k, r) ← str (skip_ws l);
      r ← colon r;
      '(v, r) ← value fuel r;
      '(next, r) ← more 0x7d r;
      if next : bool then '(kvs, r) ← members fuel r; Some ((k, v) :: kvs, r) else Some ([(k, v)], r)
  end.

(** A text: one value and nothing after it; [None] is a syntax error. *)
Definition parse (l : list Z) : option json :=
  match value (S (2 * length l)) l with
  | Some (j, r) => if bool_decide (skip_ws r = []) then Some j else None
  | None => None
  end.

(** ** What a reader of the bytes gets *)

Fixpoint valid_bytes (fuel : nat) (l : list Z) : list Z :=
  match fuel, l with
  | S fuel, b :: l' =>
      match utf8_len l with
      | None => replacement ++ valid_bytes fuel l'
      | Some n => take n l ++ valid_bytes fuel (drop n l)
      end
  | _, _ => []
  end.

(** [strings.ToValidUTF8] of each bad byte to U+FFFD. *)
Definition valid_text (s : string) : string := text (valid_bytes (S (length (bytes s))) (bytes s)).

Definition utf8 (s : string) : bool := bool_decide (valid_text s = s).

Fixpoint shown (j : json) : json :=
  match j with
  | JStr s => JStr (valid_text s)
  | JArr l => JArr (map shown l)
  | JObj l => JObj (map (fun kv => (valid_text kv.1, shown kv.2)) l)
  | _ => j
  end.

Fixpoint utf8_json (j : json) : bool :=
  match j with
  | JStr s => utf8 s
  | JArr l => forallb utf8_json l
  | JObj l => forallb (fun kv => utf8 kv.1 && utf8_json kv.2) l
  | _ => true
  end.

(** Escapes, a surrogate pair, numbers, white space, and a bad byte. *)
Example parse_example :
  parse (bytes "{ " ++ quoted "a" ++ bytes " : [1, -20, 0.5e3, true]}") =
    Some (JObj [("a", JArr [JNum 1; JNum (-20); JFloat; JBool true])])
  /\ parse ([dquote] ++ bytes "\ud83d\ude00\n\u00e9" ++ [dquote])
       = Some (JStr (text [0xf0; 0x9f; 0x98; 0x80; 10; 0xc3; 0xa9]))
  /\ parse (bytes "01") = None /\ parse (bytes "1 2") = None /\ parse (bytes "[1,]") = None
  /\ parse (marshal (JStr (text [0x61; 0xff]))) = Some (JStr (text ([0x61] ++ replacement))).
Proof. vm_compute. done. Qed.

(** ** Lemmas: bytes *)

Definition byte_list (l : list Z) : Prop := Forall (fun b => 0 <= b < 256) l.

Lemma text_bytes s : text (bytes s) = s.
Proof.
  induction s as [|a s IH]; simpl; [done|]. by rewrite IH, Nat2Z.id, ascii_nat_embedding.
Qed.

Lemma text_app l l' : text (l ++ l') = text l +:+ text l'.
Proof. induction l as [|b l IH]; [done|]. simpl. by rewrite IH. Qed.

Lemma bytes_range s : byte_list (bytes s).
Proof.
  induction s as [|a s IH]; constructor; [|done]. pose proof (nat_ascii_bounded a). lia.
Qed.

Lemma byte_list_drop n l : byte_list l -> byte_list (drop n l).
Proof. apply Forall_drop. Qed.

(** ** Lemmas: UTF-8 sequences *)

Lemma utf8_first_spec b n lo hi :
  utf8_first b = Some (n, lo, hi) -> (n = 0%nat /\ b < 0x80) \/ (n <> 0%nat /\ 0xc2 <= b).
Proof. unfold utf8_first. intros Hf. repeat case_match; simplify_eq; lia. Qed.

Lemma utf8_len_prefix l n : utf8_len l = Some n -> (n <= length l)%nat /\ forall r, utf8_len (take n l ++ r) = Some n.
Proof.
  destruct l as [|b l]; [done|]. simpl. destruct (utf8_first b) as [[[k lo] hi]|] eqn:Ef; [|done].
  destruct (_ && _) eqn:Ec; [|done]. intros [= <-].
  apply andb_prop in Ec as [[Hk%Nat.eqb_eq Hc1]%andb_prop Hc2].
  rewrite length_take in Hk. split; [simpl; lia|]. intros r. simpl. rewrite Ef.
  rewrite take_app_le, take_take, Nat.min_id by (rewrite length_take; lia).
  rewrite Hc1, Hc2, length_take. replace (k `min` length l)%nat with k by lia. by rewrite Nat.eqb_refl.
Qed.

Lemma utf8_len_cases l n :
  utf8_len l = Some n -> exists b l', l = b :: l' /\ ((n = 1%nat /\ b < 0x80) \/ ((1 < n)%nat /\ 0xc2 <= b)).
Proof.
  destruct l as [|b l]; [done|]. simpl. destruct (utf8_first b) as [[[k lo] hi]|] eqn:Ef; [|done].
  destruct (_ && _); [|done]. intros [= <-]. apply utf8_first_spec in Ef. exists b, l. split; [done|]. lia.
Qed.

(** ** Lemmas: strings *)

(** One step of the reader on what the writer makes of an ASCII byte. *)
Lemma chars_ascii b fuel rest :
  0 <= b < 0x80 ->
  chars (S fuel) (escape_ascii b ++ rest) = '(cs, r) ← chars fuel rest; Some (b :: cs, r).
Proof.
  intros Hb.
  assert (Forall (fun b => chars (S fuel) (escape_ascii b ++ rest) = '(cs, r) ← chars fuel rest; Some (b :: cs, r))
            (seqZ 0 128)) as Hall.
  { change (seqZ 0 128) with (map Z.of_nat (seq 0 128)). cbn [map seq Z.of_nat Pos.of_succ_nat Pos.succ].
    repeat (constructor; [reflexivity|]). constructor. }
  rewrite Forall_forall in Hall. apply Hall, elem_of_seqZ. lia.
Qed.

Lemma chars_sequence c l n fuel rest :
  utf8_len l = Some n -> (1 < n)%nat -> c = take n l ->
  chars (S fuel) (c ++ rest) = '(cs, r) ← chars fuel rest; Some (c ++ cs, r).
Proof.
  intros Hl Hn ->. destruct (utf8_len_cases _ _ Hl) as (b & l' & -> & [[-> _]|[_ Hb]]); [lia|].
  destruct (utf8_len_prefix _ _ Hl) as [Hlen Hp]. specialize (Hp rest).
  assert (length (take n (b :: l')) = n) as Et by (rewrite length_take; simpl in *; lia).
  assert (take n (take n (b :: l') ++ rest) = take n (b :: l')) as E1
    by (rewrite take_app_le, take_take by lia; by rewrite Nat.min_id).
  assert (drop n (take n (b :: l') ++ rest) = rest) as E2 by (by rewrite <- Et at 1; rewrite drop_app_length).
  set (c := take n (b :: l')) in *. destruct c as [|b' c'] eqn:Ec.
  { simpl in Et. lia. }
  assert (b' = b) as -> by (destruct n; [done|]; unfold c in Ec; simpl in Ec; congruence).
  cbn [app chars] in *. rewrite Hp, E1, E2.
  destruct (Z.eqb_spec b dquote) as [->|]; [by unfold dquote in Hb; lia|].
  destruct (Z.eqb_spec b backslash) as [->|]; [by unfold backslash in Hb; lia|].
  by destruct (Z.ltb_spec b 0x20); [lia|].
Qed.

Lemma escape_ascii_length b : (1 <= length (escape_ascii b))%nat.
Proof. unfold escape_ascii. repeat case_match; simpl; lia. Qed.

Lemma chars_escape f l fuel rest :
  byte_list l -> (length l < f)%nat -> (length (escape f l) < fuel)%nat ->
  chars fuel (escape f l ++ dquote :: rest) = Some (valid_bytes f l, rest).
Proof.
  revert l fuel. induction f as [|f IH]; intros l fuel Hb Hl Hf; [lia|].
  destruct fuel as [|fuel]; [lia|]. destruct l as [|b l]; [done|].
  apply Forall_cons in Hb as [Hb Hbs]. simpl in Hl. cbn [escape valid_bytes] in *.
  destruct (utf8_len (b :: l)) as [n|] eqn:En.
  - destruct (utf8_len_cases _ _ En) as (b' & l' & [= <- <-] & [[-> Hlt]|[Hn Hge]]).
    + cbn [drop take app] in *. rewrite length_app in Hf. pose proof (escape_ascii_length b).
      rewrite <- app_assoc, chars_ascii by lia. rewrite (IH l fuel Hbs); [done|lia|lia].
    + destruct n as [|[|n]]; [lia..|]. rewrite length_app in Hf. rewrite <- app_assoc.
      assert (byte_list (drop (S (S n)) (b :: l))) as Hd by (by apply byte_list_drop, Forall_cons).
      assert (length (drop (S (S n)) (b :: l)) < f)%nat as Hld by (rewrite length_drop; simpl; lia).
      assert (1 <= length (take (S (S n)) (b :: l)))%nat as H1 by (simpl; lia).
      set (c := take (S (S n)) (b :: l)) in *.
      set (tl := drop (S (S n)) (b :: l)) in *. revert Hf.
      case_bool_decide as E1; [|case_bool_decide as E2]; intros Hf.
      * rewrite E1. simpl in Hf. transitivity
          ('(cs, r) ← chars fuel (escape f tl ++ dquote :: rest);
           Some ([0xe2; 0x80; 0xa8] ++ cs, r)); [reflexivity|]. by rewrite IH by (done || lia).
      * rewrite E2. simpl in Hf. transitivity
          ('(cs, r) ← chars fuel (escape f tl ++ dquote :: rest);
           Some ([0xe2; 0x80; 0xa9] ++ cs, r)); [reflexivity|]. by rewrite IH by (done || lia).
      * rewrite (chars_sequence c _ _ _ _ En) by (done || lia). by rewrite IH by (done || lia).
  - simpl in Hf. transitivity
      ('(cs, r) ← chars fuel (escape f l ++ dquote :: rest); Some (replacement ++ cs, r)); [reflexivity|].
    by rewrite (IH l fuel Hbs) by lia.
Qed.

Lemma str_quoted s rest : str (quoted s ++ rest) = Some (valid_text s, rest).
Proof.
  unfold quoted. set (f := S (length (bytes s))). cbn [app str]. rewrite <- app_assoc. cbn [app].
  rewrite Z.eqb_refl. rewrite chars_escape; [done|apply bytes_range|unfold f; lia|].
  rewrite length_app. simpl. lia.
Qed.

#[local] Arguments quoted : simpl never.
#[local] Arguments valid_text : simpl never.

Lemma quoted_head s : exists l, quoted s = dquote :: l.
Proof. by eexists. Qed.

(** *** Text that is UTF-8 comes back as it is *)

Lemma valid_text_utf8 s : utf8 s = true -> valid_text s = s.
Proof. apply bool_decide_eq_true. Qed.

(** ** Lemmas: numbers *)

(** What may follow a value in a text. *)
Definition stops (l : list Z) : Prop := match l with b :: _ => num_char b = false | [] => True end.

Lemma span_app p l r :
  Forall (fun b => p b = true) l -> match r with b :: _ => p b = false | [] => True end -> span p (l ++ r) = (l, r).
Proof.
  intros Hl Hr. induction Hl as [|b l Hb _ IH]; simpl.
  - destruct r as [|b r]; simpl; [done|by rewrite Hr].
  - by rewrite Hb, IH.
Qed.

Lemma uint_digits u : Forall (fun b => digit b = true) (bytes (DecimalString.NilEmpty.string_of_uint u)).
Proof. induction u; simpl; constructor; done. Qed.

Lemma Itoa_digits z :
  exists u : Decimal.uint, Decimal.unorm u = u :> Decimal.uint /\ ~ @eq Decimal.uint u Decimal.Nil
    /\ bytes (Itoa z) = (if z <? 0 then [0x2d] else []) ++ bytes (DecimalString.NilEmpty.string_of_uint u).
Proof.
  unfold Itoa. destruct z as [|p|p]; simpl.
  - by exists (Decimal.D0 Decimal.Nil).
  - exists (Pos.to_uint p). pose proof (DecimalPos.Unsigned.to_uint_nonnil p).
    assert (@eq Decimal.uint (Decimal.unorm (Pos.to_uint p)) (Pos.to_uint p)) as En
      by (change (Pos.to_uint p) with (N.to_uint (N.pos p)); rewrite <- DecimalN.Unsigned.to_of, DecimalN.Unsigned.of_to; done).
    split; [done|]. split; [done|]. by destruct (Pos.to_uint p).
  - exists (Pos.to_uint p). pose proof (DecimalPos.Unsigned.to_uint_nonnil p).
    assert (@eq Decimal.uint (Decimal.unorm (Pos.to_uint p)) (Pos.to_uint p)) as En
      by (change (Pos.to_uint p) with (N.to_uint (N.pos p)); rewrite <- DecimalN.Unsigned.to_of, DecimalN.Unsigned.of_to; done).
    split; [done|]. split; [done|]. by destruct (Pos.to_uint p).
Qed.

Lemma number_Itoa z : number (bytes (Itoa z)) = Some (JNum z).
Proof.
  assert (text (bytes (Itoa z)) = Itoa z) as Et by apply text_bytes.
  destruct (Itoa_digits z) as (u & Hn & Hnil & E). unfold number. rewrite Et, atoi_Itoa, E.
  pose proof (uint_digits u) as Hd.
  assert (forall l, Forall (fun b => digit b = true) l -> span digit l = (l, [])) as Hs.
  { intros l Hl. rewrite <- (app_nil_r l) at 1. by apply span_app. }
  assert (match (if z <? 0 then [45] else []) ++ bytes (DecimalString.NilEmpty.string_of_uint u) with
          | b :: t => if b =? 0x2d then t else (if z <? 0 then [45] else []) ++ bytes (DecimalString.NilEmpty.string_of_uint u)
          | [] => [] end = bytes (DecimalString.NilEmpty.string_of_uint u)) as ->.
  { destruct (z <? 0); [done|]. by destruct u. }
  rewrite (Hs _ Hd). destruct u; try done. simpl.
  unfold Decimal.unorm in Hn. simpl in Hn. destruct (Decimal.nzhead u) eqn:Ez; try done; [by injection Hn as <-|].
  exfalso. injection Hn as <-. by eapply DecimalFacts.nzhead_nonzero.
Qed.

Lemma Itoa_num_chars z : Forall (fun b => num_char b = true) (bytes (Itoa z)).
Proof.
  destruct (Itoa_digits z) as (u & _ & _ & ->). apply Forall_app. split; [destruct (z <? 0); by repeat constructor|].
  eapply Forall_impl; [apply uint_digits|]. intros b Hb. unfold num_char. by rewrite Hb.
Qed.

Lemma Itoa_head z : exists b l, bytes (Itoa z) = b :: l /\ (b = 0x2d \/ 0x30 <= b <= 0x39).
Proof.
  destruct (Itoa_digits z) as (u & _ & Hnil & E). rewrite E. destruct (z <? 0); [do 2 eexists; split; [done|by left]|].
  pose proof (uint_digits u) as Hd. destruct (bytes (DecimalString.NilEmpty.string_of_uint u)) as [|b l] eqn:Eb; [by destruct u|].
  apply Forall_cons in Hd as [Hb%andb_prop _]. exists b, l. split; [done|]. lia.
Qed.

(** ** Lemmas: values *)

Section Json_ind.
Variable P : json -> Prop.
Hypothesis Hnull : P JNull.
Hypothesis Hbool : forall b, P (JBool b).
Hypothesis Hnum : forall n, P (JNum n).
Hypothesis Hfloat : P JFloat.
Hypothesis Hstr : forall s, P (JStr s).
Hypothesis Harr : forall l, Forall P l -> P (JArr l).
Hypothesis Hobj : forall l, Forall (fun kv => P kv.2) l -> P (JObj l).

(** Induction through the lists of a value. *)
Fixpoint json_nested_ind (j : json) : P j :=
  match j with
  | JNull => Hnull
  | JBool b => Hbool b
  | JNum n => Hnum n
  | JFloat => Hfloat
  | JStr s => Hstr s
  | JArr l =>
      Harr l ((fix go l : Forall P l :=
        match l with [] => List.Forall_nil P | j :: l => List.Forall_cons P j l (json_nested_ind j) (go l) end) l)
  | JObj l =>
      Hobj l ((fix go l : Forall (fun kv : string * json => P kv.2) l :=
        match l with
        | [] => List.Forall_nil _
        | kv :: l => List.Forall_cons _ kv l (json_nested_ind kv.2) (go l)
        end) l)
  end.
End Json_ind.

Lemma marshal_head j : exists b l, marshal j = b :: l /\ ws b = false /\ b <> 0x5d /\ b <> 0x7d.
Proof.
  destruct j as [|[]|n| |s|l|l]; try (do 2 eexists; split; [reflexivity|done]).
  destruct (Itoa_head n) as (b & l & E & Hb). exists b, l. split; [exact E|]. unfold ws.
  rewrite !(proj2 (Z.eqb_neq b _)) by lia. split; [done|lia].
Qed.

Lemma skip_ws_marshal j rest : skip_ws (marshal j ++ rest) = marshal j ++ rest.
Proof. destruct (marshal_head j) as (b & l & -> & Hw & _). unfold skip_ws. simpl. by rewrite Hw. Qed.

Lemma commas_cons x ls : commas (x :: ls) = x ++ match ls with [] => [] | _ => 0x2c :: commas ls end.
Proof. destruct ls; [by rewrite app_nil_r|done]. Qed.

(** A list that holds a value does not close at once. *)
Lemma closes_none j ls r : closes 0x5d (commas (marshal j :: ls) ++ r) = None.
Proof.
  rewrite commas_cons. destruct (marshal_head j) as (b & l & -> & Hw & Hb & _). unfold closes, skip_ws. simpl.
  rewrite Hw. simpl. by rewrite (proj2 (Z.eqb_neq b _)).
Qed.

Definition reads_back (j : json) : Prop := forall fuel rest,
  stops rest -> (2 * length (marshal j) <= fuel)%nat -> value fuel (marshal j ++ rest) = Some (shown j, rest).

Lemma elements_marshal l fuel rest :
  l <> [] -> Forall reads_back l -> (2 * length (commas (map marshal l)) + 1 <= fuel)%nat ->
  elements fuel (commas (map marshal l) ++ 0x5d :: rest) = Some (map shown l, rest).
Proof.
  intros Hne Hl. revert fuel Hne. induction Hl as [|j l Hj _ IH]; intros fuel Hne Hf; [done|].
  destruct fuel as [|fuel]; [lia|]. cbn [map] in *. rewrite commas_cons in *. rewrite length_app in Hf.
  cbn [elements]. rewrite <- app_assoc. destruct l as [|j' l].
  - cbn [map app]. rewrite Hj; [done|done|lia].
  - cbn [map app length] in *. rewrite Hj; [|done|lia]. cbn. rewrite IH; [done|done|lia].
Qed.

Lemma members_marshal l fuel rest :
  l <> [] -> Forall (fun kv : string * json => reads_back kv.2) l ->
  (2 * length (commas (map (fun kv => quoted kv.1 ++ 0x3a%Z :: marshal kv.2) l)) + 1 <= fuel)%nat ->
  members fuel (commas (map (fun kv => quoted kv.1 ++ 0x3a :: marshal kv.2) l) ++ 0x7d :: rest)
    = Some (map (fun kv => (valid_text kv.1, shown kv.2)) l, rest).
Proof.
  intros Hne Hl. revert fuel Hne. induction Hl as [|[k j] l Hj _ IH]; intros fuel Hne Hf; [done|].
  destruct fuel as [|fuel]; [lia|]. cbn [map fst snd] in *. rewrite commas_cons in *.
  rewrite !length_app in Hf. cbn [length] in Hf.
  cbn [members]. rewrite <- !app_assoc.
  assert (forall r, skip_ws (quoted k ++ r) = quoted k ++ r) as -> by done.
  rewrite str_quoted. cbn -[value members more]. destruct l as [|[k' j'] l].
  - rewrite Hj; [done|done|lia].
  - rewrite Hj; [|done|simpl in *; lia].
    cbn [map] in *. cbn -[value members commas map]. rewrite IH; [done|done|]. cbn [length] in *. lia.
Qed.

Lemma value_marshal j : reads_back j.
Proof.
  induction j as [|b|n| |s|l Hl|l Hl] using json_nested_ind; intros [|fuel] rest Hr Hf;
    try (match goal with Hf : (_ <= 0)%nat |- context [marshal ?j] =>
      destruct (marshal_head j) as (? & ? & E & _); rewrite E in Hf; simpl in Hf; lia end).
  - reflexivity.
  - by destruct b.
  - cbn [marshal shown] in *. destruct (Itoa_head n) as (b & t & E & Hb).
    pose proof (span_app num_char (bytes (Itoa n)) rest (Itoa_num_chars n) Hr) as Hs.
    pose proof (number_Itoa n) as Hn. rewrite E in Hs, Hn |- *. cbn [app value].
    assert (skip_ws (b :: t ++ rest) = b :: t ++ rest) as ->.
    { pose proof (skip_ws_marshal (JNum n) rest) as Hw. cbn [marshal] in Hw. by rewrite E in Hw. }
    unfold dquote. rewrite !(proj2 (Z.eqb_neq b _)) by lia.
    cbn [app] in Hs. rewrite Hs. by rewrite Hn.
  - cbn [marshal shown]. cbn [value].
    change (skip_ws (bytes "0.5" ++ rest)) with (bytes "0.5" ++ rest).
    pose proof (span_app num_char (bytes "0.5") rest ltac:(by repeat constructor) Hr) as Hs.
    cbn [app bytes] in *. rewrite Hs. reflexivity.
  - cbn [marshal shown value]. assert (skip_ws (quoted s ++ rest) = quoted s ++ rest) as -> by done.
    destruct (quoted_head s) as (t & E). pose proof (str_quoted s rest) as Hs. rewrite E in Hs |- *.
    cbn [app] in Hs |- *. by rewrite Z.eqb_refl, Hs.
  - destruct l as [|j l]; [done|]. cbn [marshal shown value].
    assert (forall r, skip_ws (0x5b :: r) = 0x5b :: r) as Hw by done. cbn [app]. rewrite Hw. clear Hw.
    rewrite <- app_assoc. cbn [app]. change (0x5b =? dquote) with false. cbn -[elements commas map closes].
    rewrite elements_marshal; [|done..|].
    { cbn [map]. by rewrite closes_none. }
    cbn [marshal length] in Hf. rewrite length_app in Hf. cbn [length] in Hf. lia.
  - destruct l as [|[k j] l]; [done|]. cbn [marshal shown value].
    assert (forall r, skip_ws (0x7b :: r) = 0x7b :: r) as Hw by done. cbn [app]. rewrite Hw. clear Hw.
    rewrite <- app_assoc. cbn [app]. change (0x7b =? dquote) with false. cbn -[members commas map closes].
    rewrite members_marshal; [|done..|].
    + destruct (closes 0x7d _) as [r|] eqn:Ec; [exfalso|done].
      cbn [map fst] in Ec. rewrite commas_cons in Ec. done.
    + cbn [marshal length] in Hf. rewrite length_app in Hf. cbn [length] in Hf. lia.
Qed.

(** The bytes of a value read back as the value with its bad UTF-8 replaced. *)
Lemma parse_marshal j : parse (marshal j) = Some (shown j).
Proof.
  unfold parse. pose proof (value_marshal j (S (2 * length (marshal j))) [] I) as Hv.
  rewrite app_nil_r in Hv. by rewrite Hv by lia.
Qed.

Lemma shown_utf8 j : utf8_json j = true -> shown j = j.
Proof.
  induction j as [| | | |s|l Hl|l Hl] using json_nested_ind; cbn [utf8_json shown]; intros Hu; try done; f_equal.
  - by apply valid_text_utf8.
  - induction Hl as [|j l Hj _ IH]; [done|]. apply andb_prop in Hu as [Hu1 Hu2]. cbn [map]. f_equal; auto.
  - induction Hl as [|[k j] l Hj _ IH]; [done|]. apply andb_prop in Hu as [[Hk Hu1]%andb_prop Hu2].
    cbn [map fst snd] in *. rewrite (valid_text_utf8 _ Hk), Hj by done. f_equal. auto.
Qed.

Lemma text_commas ls : text (commas ls) = Join (map text ls) ",".
Proof.
  induction ls as [|x ls IH]; [done|]. rewrite commas_cons, text_app. destruct ls as [|y ls]; [by rewrite str_app_nil_r|].
  change (text (0x2c :: commas (y :: ls))) with ("," +:+ text (commas (y :: ls))). by rewrite IH.
Qed.

(** [JsonText] writes a map as [marshal] does. *)
Lemma marshal_enc_map m : text (marshal (enc_map m)) = marshal_string_map (Some m).
Proof.
  unfold enc_map, marshal_string_map. set (ks := sort_Strings _). cbn [marshal].
  change (text (0x7b :: ?x)) with ("{" +:+ text x).
  rewrite text_app, text_commas, !map_map. do 3 f_equal. apply map_ext. intros k. cbn [fst snd marshal].
  rewrite text_app. reflexivity.
Qed.
