(* ===== verification/Events.v ===== *)
(** * Shared payload contracts

    pkg/domain/alert.go and pkg/events/events.go: the bodies that cross the
    event bus, with their JSON encoding and decoding. *)

From S2P Require Import Prelude Effects Json.

Definition SourceAlertmanager : string := "alertmanager".
Definition SourceGrafana : string := "grafana".

Definition SeverityCritical : string := "critical".
Definition SeverityHigh : string := "high".
Definition SeverityWarning : string := "warning".
Definition SeverityInfo : string := "info".

Definition AlertStatusFiring : string := "firing".
Definition AlertStatusResolved : string := "resolved".

Module Alert.
Record t := mk {
  Fingerprint : string;
  Source : string;
  Severity : string;
  Title : string;
  Description : string;
  Labels : gmap string string;
  Status : string;
  FiredAt : Time;
  ReceivedAt : Time;
  TenantID : string
}.

(** The zero [time.Time] is 0001-01-01 00:00:00 UTC. *)
Definition zero_time : Time := -62135596800 * Second.

Definition zero : t := mk "" "" "" "" "" ∅ "" zero_time zero_time "".

Definition json_fields `{TimeText} : fields t := [
  field "fingerprint" Fingerprint (fun v a => mk v (Source a) (Severity a) (Title a) (Description a) (Labels a) (Status a) (FiredAt a) (ReceivedAt a) (TenantID a)) dec_string;
  field "source" Source (fun v a => mk (Fingerprint a) v (Severity a) (Title a) (Description a) (Labels a) (Status a) (FiredAt a) (ReceivedAt a) (TenantID a)) dec_string;
  field "severity" Severity (fun v a => mk (Fingerprint a) (Source a) v (Title a) (Description a) (Labels a) (Status a) (FiredAt a) (ReceivedAt a) (TenantID a)) dec_string;
  field "title" Title (fun v a => mk (Fingerprint a) (Source a) (Severity a) v (Description a) (Labels a) (Status a) (FiredAt a) (ReceivedAt a) (TenantID a)) dec_string;
  field "description" Description (fun v a => mk (Fingerprint a) (Source a) (Severity a) (Title a) v (Labels a) (Status a) (FiredAt a) (ReceivedAt a) (TenantID a)) dec_string;
  field "labels" Labels (fun v a => mk (Fingerprint a) (Source a) (Severity a) (Title a) (Description a) v (Status a) (FiredAt a) (ReceivedAt a) (TenantID a)) dec_map;
  field "status" Status (fun v a => mk (Fingerprint a) (Source a) (Severity a) (Title a) (Description a) (Labels a) v (FiredAt a) (ReceivedAt a) (TenantID a)) dec_string;
  field "fired_at" FiredAt (fun v a => mk (Fingerprint a) (Source a) (Severity a) (Title a) (Description a) (Labels a) (Status a) v (ReceivedAt a) (TenantID a)) dec_time;
  field "received_at" ReceivedAt (fun v a => mk (Fingerprint a) (Source a) (Severity a) (Title a) (Description a) (Labels a) (Status a) (FiredAt a) v (TenantID a)) dec_time;
  field "tenant_id" TenantID (fun v a => mk (Fingerprint a) (Source a) (Severity a) (Title a) (Description a) (Labels a) (Status a) (FiredAt a) (ReceivedAt a) v) dec_string].

Definition decode `{TimeText} : decoder t := dec_struct json_fields.

Definition encode `{TimeText} (a : t) : option json :=
  fired ← time_MarshalJSON (FiredAt a);
  received ← time_MarshalJSON (ReceivedAt a);
  Some (JObj [("fingerprint", JStr (Fingerprint a)); ("source", JStr (Source a));
    ("severity", JStr (Severity a)); ("title", JStr (Title a));
    ("description", JStr (Description a)); ("labels", enc_map (Labels a));
    ("status", JStr (Status a)); ("fired_at", JStr fired); ("received_at", JStr received);
    ("tenant_id", JStr (TenantID a))]).
End Alert.

Module EscalationTriggered.
Record t := mk {
  IncidentID : string;
  TenantID : string;
  TenantSlug : string;
  Tier : Z;
  OncallUserID : string;
  OncallUsername : string;
  IncidentTitle : string;
  IncidentSeverity : string;
  IncidentStatus : string
}.

Definition zero : t := mk "" "" "" 0 "" "" "" "" "".

Definition json_fields : fields t := [
  field "incident_id" IncidentID (fun v a => mk v (TenantID a) (TenantSlug a) (Tier a) (OncallUserID a) (OncallUsername a) (IncidentTitle a) (IncidentSeverity a) (IncidentStatus a)) dec_string;
  field "tenant_id" TenantID (fun v a => mk (IncidentID a) v (TenantSlug a) (Tier a) (OncallUserID a) (OncallUsername a) (IncidentTitle a) (IncidentSeverity a) (IncidentStatus a)) dec_string;
  field "tenant_slug" TenantSlug (fun v a => mk (IncidentID a) (TenantID a) v (Tier a) (OncallUserID a) (OncallUsername a) (IncidentTitle a) (IncidentSeverity a) (IncidentStatus a)) dec_string;
  field "tier" Tier (fun v a => mk (IncidentID a) (TenantID a) (TenantSlug a) v (OncallUserID a) (OncallUsername a) (IncidentTitle a) (IncidentSeverity a) (IncidentStatus a)) dec_int;
  field "oncall_user_id" OncallUserID (fun v a => mk (IncidentID a) (TenantID a) (TenantSlug a) (Tier a) v (OncallUsername a) (IncidentTitle a) (IncidentSeverity a) (IncidentStatus a)) dec_string;
  field "oncall_username" OncallUsername (fun v a => mk (IncidentID a) (TenantID a) (TenantSlug a) (Tier a) (OncallUserID a) v (IncidentTitle a) (IncidentSeverity a) (IncidentStatus a)) dec_string;
  field "incident_title" IncidentTitle (fun v a => mk (IncidentID a) (TenantID a) (TenantSlug a) (Tier a) (OncallUserID a) (OncallUsername a) v (IncidentSeverity a) (IncidentStatus a)) dec_string;
  field "incident_severity" IncidentSeverity (fun v a => mk (IncidentID a) (TenantID a) (TenantSlug a) (Tier a) (OncallUserID a) (OncallUsername a) (IncidentTitle a) v (IncidentStatus a)) dec_string;
  field "incident_status" IncidentStatus (fun v a => mk (IncidentID a) (TenantID a) (TenantSlug a) (Tier a) (OncallUserID a) (OncallUsername a) (IncidentTitle a) (IncidentSeverity a) v) dec_string].

Definition decode : decoder t := dec_struct json_fields.

Definition encode (e : t) : option json :=
  Some (JObj [("incident_id", JStr (IncidentID e)); ("tenant_id", JStr (TenantID e));
    ("tenant_slug", JStr (TenantSlug e)); ("tier", JNum (Tier e));
    ("oncall_user_id", JStr (OncallUserID e)); ("oncall_username", JStr (OncallUsername e));
    ("incident_title", JStr (IncidentTitle e)); ("incident_severity", JStr (IncidentSeverity e));
    ("incident_status", JStr (IncidentStatus e))]).
End EscalationTriggered.

Module EscalationExhausted.
Record t := mk {
  IncidentID : string;
  TenantID : string;
  TenantSlug : string
}.

Definition zero : t := mk "" "" "".

Definition json_fields : fields t := [
  field "incident_id" IncidentID (fun v a => mk v (TenantID a) (TenantSlug a)) dec_string;
  field "tenant_id" TenantID (fun v a => mk (IncidentID a) v (TenantSlug a)) dec_string;
  field "tenant_slug" TenantSlug (fun v a => mk (IncidentID a) (TenantID a) v) dec_string].

Definition decode : decoder t := dec_struct json_fields.

Definition encode (e : t) : option json :=
  Some (JObj [("incident_id", JStr (IncidentID e)); ("tenant_id", JStr (TenantID e));
    ("tenant_slug", JStr (TenantSlug e))]).
End EscalationExhausted.

Module IncidentChanged.
Record t := mk {
  IncidentID : string;
  TenantID : string;
  TenantSlug : string;
  Status : string;
  Title : string;
  Severity : string
}.

Definition zero : t := mk "" "" "" "" "" "".

Definition json_fields : fields t := [
  field "incident_id" IncidentID (fun v a => mk v (TenantID a) (TenantSlug a) (Status a) (Title a) (Severity a)) dec_string;
  field "tenant_id" TenantID (fun v a => mk (IncidentID a) v (TenantSlug a) (Status a) (Title a) (Severity a)) dec_string;
  field "tenant_slug" TenantSlug (fun v a => mk (IncidentID a) (TenantID a) v (Status a) (Title a) (Severity a)) dec_string;
  field "status" Status (fun v a => mk (IncidentID a) (TenantID a) (TenantSlug a) v (Title a) (Severity a)) dec_string;
  field "title" Title (fun v a => mk (IncidentID a) (TenantID a) (TenantSlug a) (Status a) v (Severity a)) dec_string;
  field "severity" Severity (fun v a => mk (IncidentID a) (TenantID a) (TenantSlug a) (Status a) (Title a) v) dec_string].

Definition decode : decoder t := dec_struct json_fields.

Definition encode (e : t) : option json :=
  Some (JObj [("incident_id", JStr (IncidentID e)); ("tenant_id", JStr (TenantID e));
    ("tenant_slug", JStr (TenantSlug e)); ("status", JStr (Status e));
    ("title", JStr (Title e)); ("severity", JStr (Severity e))]).
End IncidentChanged.

(** ** Payload types

    [Payload A] is what [Wrap] and [DecodePayload] need of a Go type: its
    encoding, its decoding into a variable, and its zero value. *)

Class Payload (A : Type) := {
  payload_zero : A;
  payload_encode : A -> option json;
  payload_decode : decoder A
}.

#[export] Instance Alert_Payload `{TimeText} : Payload Alert.t :=
  {| payload_zero := Alert.zero; payload_encode := Alert.encode; payload_decode := Alert.decode |}.

#[export] Instance EscalationTriggered_Payload : Payload EscalationTriggered.t :=
  {| payload_zero := EscalationTriggered.zero; payload_encode := EscalationTriggered.encode;
     payload_decode := EscalationTriggered.decode |}.

#[export] Instance EscalationExhausted_Payload : Payload EscalationExhausted.t :=
  {| payload_zero := EscalationExhausted.zero; payload_encode := EscalationExhausted.encode;
     payload_decode := EscalationExhausted.decode |}.

#[export] Instance IncidentChanged_Payload : Payload IncidentChanged.t :=
  {| payload_zero := IncidentChanged.zero; payload_encode := IncidentChanged.encode;
     payload_decode := IncidentChanged.decode |}.

(** ** The contract: what one service encodes the other decodes to the same value *)

Class PayloadLaws (A : Type) `{Payload A} (valid : A -> Prop) :=
  payload_round_trip : forall a, valid a ->
    exists j, payload_encode a = Some j /\ payload_decode j payload_zero = Some a.

#[export] Instance EscalationTriggered_laws :
  PayloadLaws EscalationTriggered.t (fun e => in_int64 (EscalationTriggered.Tier e)).
Proof.
  intros e He. eexists. split; [reflexivity|]. destruct e. cbn [EscalationTriggered.Tier] in He.
  pose proof (dec_int_in_range Tier 0 He) as Hd.
  unfold payload_decode, EscalationTriggered_Payload, EscalationTriggered.decode, dec_struct.
  cbn -[dec_int]. by rewrite Hd.
Qed.

#[export] Instance EscalationExhausted_laws : PayloadLaws EscalationExhausted.t (fun _ => True).
Proof. intros e _. eexists. split; [reflexivity|]. by destruct e. Qed.

#[export] Instance IncidentChanged_laws : PayloadLaws IncidentChanged.t (fun _ => True).
Proof. intros e _. eexists. split; [reflexivity|]. by destruct e. Qed.

(** The instants whose JSON text reads back as themselves. *)
Definition time_text_ok `{TimeText} (t : Time) : Prop :=
  exists s, time_MarshalJSON t = Some s /\ time_UnmarshalJSON s = Some t.

#[export] Instance Alert_laws `{TimeText} : PayloadLaws Alert.t
  (fun a => time_text_ok (Alert.FiredAt a) /\ time_text_ok (Alert.ReceivedAt a)).
Proof.
  intros a [(s1 & E1 & D1) (s2 & E2 & D2)]. destruct a. cbn in E1, E2.
  unfold payload_encode, payload_decode, Alert_Payload, Alert.encode. cbn [Alert.FiredAt Alert.ReceivedAt].
  rewrite E1, E2. eexists. split; [reflexivity|].
  unfold Alert.decode, dec_struct.
  cbn -[dec_map enc_map]. rewrite dec_map_enc. cbn. rewrite D1. cbn. by rewrite D2.
Qed.
