(* ===== verification/Interleaving.v ===== *)
(** * Interleaved execution of programs

    Replicas, consumers and requests run at the same time: a pool of programs
    whose atomic steps interleave in any order.  [wp] is a small program logic
    for such pools.  A program is verified alone, under three contracts:
    - [Inv], an invariant of the world every step keeps;
    - [le], a preorder every step respects (what a program has learnt about an
      older world stays true of every later one when it is monotone in [le]);
    - a potential [pot] of the world and credits of the program: a step may
      raise the potential only by spending credits of its own.
    [pool_sound] composes verified programs: whatever the schedule, the world
    keeps [Inv], moves along [le], and its potential is bounded by the initial
    potential and credits. *)

From S2P Require Import Prelude Effects.

(** One step of one program. *)
Definition pstep {W A} (p : prog W A) (w : W) : option (prog W A * W) :=
  match p with
  | Ret _ => None
  | Atomic op k => let '(b, w') := op w in Some (k b, w')
  end.

Inductive pool_step {W A} : list (prog W A) * W -> list (prog W A) * W -> Prop :=
| pool_step_at ps w i p p' w' :
    ps !! i = Some p -> pstep p w = Some (p', w') ->
    pool_step (ps, w) (<[i := p']> ps, w').

(** An execution along a given schedule: the numbers of the programs that step. *)
Fixpoint run_schedule {W A} (sched : list nat) (ps : list (prog W A)) (w : W)
    : list (prog W A) * W :=
  match sched with
  | [] => (ps, w)
  | i :: sched =>
      match ps !! i with
      | Some p =>
          match pstep p w with
          | Some (p', w') => run_schedule sched (<[i := p']> ps) w'
          | None => run_schedule sched ps w
          end
      | None => run_schedule sched ps w
      end
  end.

(** [p] emits at most [n] times: each of its steps is quiet, or is an emission. *)
Fixpoint budget {W A} (quiet emit : W -> W -> Prop) (p : prog W A) (n : nat) : Prop :=
  match p with
  | Ret _ => True
  | Atomic op k => forall w,
      (quiet w (op w).2 /\ budget quiet emit (k (op w).1) n) \/
      (emit w (op w).2 /\ match n with O => False | S m => budget quiet emit (k (op w).1) m end)
  end.

Lemma budget_mono {W A} (quiet emit : W -> W -> Prop) (p : prog W A) n m :
  (n <= m)%nat -> budget quiet emit p n -> budget quiet emit p m.
Proof.
  revert n m. induction p as [a|B op k IH]; intros n m Hle; simpl; [done|].
  intros Hp w. destruct (Hp w) as [[? ?]|[? Hn]]; [left; eauto|right].
  split; [done|]. destruct n as [|n]; [done|]. destruct m as [|m]; [lia|].
  eapply IH; [|done]. lia.
Qed.

Lemma budget_bind {W A B} (quiet emit : W -> W -> Prop) (p : prog W A) (f : A -> prog W B) n m :
  budget quiet emit p n -> (forall a, budget quiet emit (f a) m) ->
  budget quiet emit (bind p f) (n + m).
Proof.
  revert n. induction p as [a|X op k IH]; intros n Hp Hf; simpl.
  - eapply budget_mono; [|apply Hf]. lia.
  - intros w. destruct (Hp w) as [[? ?]|[? Hn]]; [left; eauto|right].
    split; [done|]. destruct n as [|n]; [done|]. by apply IH.
Qed.

Lemma budget_quiet_bind {W A B} (quiet emit : W -> W -> Prop) (p : prog W A) (f : A -> prog W B) n :
  budget quiet emit p 0 -> (forall a, budget quiet emit (f a) n) ->
  budget quiet emit (bind p f) n.
Proof. exact (budget_bind quiet emit p f 0 n). Qed.

Lemma budget_weaken {W A} (quiet emit quiet' emit' : W -> W -> Prop) (p : prog W A) n :
  (forall w w', quiet w w' -> quiet' w w') -> (forall w w', emit w w' -> quiet' w w') ->
  budget quiet emit p n -> budget quiet' emit' p 0.
Proof.
  intros Hq He. revert n. induction p as [a|B op k IH]; intros n; simpl; [done|].
  intros Hp w. left. destruct (Hp w) as [[? ?]|[? Hn]]; [eauto|].
  split; [auto|]. destruct n; [done|eauto].
Qed.

(** A program all of whose steps are quiet is quiet as a whole. *)
Lemma run_quiet {W A} (quiet : W -> W -> Prop) `{!PreOrder quiet} (p : prog W A) w :
  budget quiet (fun _ _ => False) p 0 -> quiet w (run p w).2.
Proof.
  revert w. induction p as [a|B op k IH]; intros w Hb; simpl; [reflexivity|].
  destruct (Hb w) as [[Hq Hk]|[[] _]]. destruct (op w) as [b w1]; simpl in *.
  etransitivity; [exact Hq|by apply IH].
Qed.

(** A statement that keeps what [same] compares is a quiet step. *)
Lemma budget_sql `{Platform} {D A} (same : D -> D -> Prop) `{!Reflexive same} emit q uuids
    (f : Time -> string -> D -> res (A * D)) :
  (forall now uuid d a d', f now uuid d = Ok (a, d') -> same d d') ->
  budget (fun w w' => same (data w) (data w')) emit (sql q uuids f) 0.
Proof.
  intros Hf w. left. split; [|done]. simpl.
  destruct (fault_at (tick w)) as [[e|e]|]; [reflexivity|..];
    (destruct (forallb uuid_ok uuids); [|reflexivity]);
    destruct (f _ _ _) as [[a d']|e'] eqn:Ef; simpl; try reflexivity; by eapply Hf.
Qed.

(** Every answer of [p] satisfies [Q], whatever the other programs do between its
    steps. *)
Fixpoint always {W A} (p : prog W A) (Q : A -> Prop) : Prop :=
  match p with
  | Ret a => Q a
  | Atomic op k => forall w, always (k (op w).1) Q
  end.

Lemma always_bind {W A B} (p : prog W A) (f : A -> prog W B) (P : A -> Prop) (Q : B -> Prop) :
  always p P -> (forall a, P a -> always (f a) Q) -> always (bind p f) Q.
Proof. induction p as [a|X op k IH]; simpl; [auto|]. intros Hp Hf w. apply IH; auto. Qed.

Lemma always_mono {W A} (p : prog W A) (P Q : A -> Prop) :
  (forall a, P a -> Q a) -> always p P -> always p Q.
Proof. intros HPQ. induction p as [a|X op k IH]; simpl; auto. Qed.

Lemma always_True {W A} (p : prog W A) : always p (fun _ => True).
Proof. induction p as [a|X op k IH]; simpl; auto. Qed.

(** When nothing is known of the first answer. *)
Lemma always_any {W A B} (p : prog W A) (f : A -> prog W B) (Q : B -> Prop) :
  (forall a, always (f a) Q) -> always (bind p f) Q.
Proof. intros Hf. apply (always_bind p f (fun _ => True)); [apply always_True|auto]. Qed.

Lemma always_run {W A} (p : prog W A) (Q : A -> Prop) w : always p Q -> Q (run p w).1.
Proof.
  revert w. induction p as [a|X op k IH]; intros w Hp; simpl; [done|].
  specialize (Hp w). destruct (op w) as [b w']. by apply IH.
Qed.

Lemma always_call `{Platform} {D A} (f : Time -> string -> D -> res (A * D)) (Q : res A -> Prop) :
  (forall e, Q (Err e)) -> (forall now uuid d a d', f now uuid d = Ok (a, d') -> Q (Ok a)) ->
  always (call f) Q.
Proof.
  intros He Ho w. simpl. destruct (fault_at (tick w)) as [[e|e]|]; simpl; [apply He|..];
    destruct (f _ _ _) as [[a d']|e'] eqn:Ef; simpl; eauto.
Qed.

Lemma always_sql `{Platform} {D A} q uuids (f : Time -> string -> D -> res (A * D)) (Q : res A -> Prop) :
  (forall e, Q (Err e)) -> (forall now uuid d a d', f now uuid d = Ok (a, d') -> Q (Ok a)) ->
  always (sql q uuids f) Q.
Proof.
  intros He Ho. apply always_call; [done|]. intros now uuid d a d'.
  destruct (forallb _ _); [eauto|done].
Qed.

Lemma always_withTx `{Platform} {D A} (body : dbConn -> M D (res A)) (Q : res A -> Prop) :
  (forall e, Q (Err e)) -> (forall q, always (body q) Q) -> always (withTx body) Q.
Proof.
  intros He Hb w. simpl. destruct (fault_at (tick w)) as [[e|e]|]; simpl; [apply He..|].
  pose proof (always_run _ Q (World (S (tick w)) (data w)) (Hb (Tx (now_at (tick w))))) as Hr.
  destruct (run _ _) as [[a|e] w']; simpl; [|done].
  destruct (fault_at (tick w')) as [[e|e]|]; simpl; auto.
Qed.

Section Logic.
Context {W K : Type}.
Variable le : W -> W -> Prop.
Variable Inv : W -> Prop.
Variable pot : W -> K -> nat.

(** [wp p c w0 Q]: started with credits [c] when the world was at least [w0],
    [p] respects the contracts and ends with [Q]. *)
Fixpoint wp {A} (p : prog W A) (c : K -> nat) (w0 : W)
    (Q : A -> (K -> nat) -> W -> Prop) : Prop :=
  match p with
  | Ret a => Q a c w0
  | Atomic op k =>
      forall w, le w0 w -> Inv w ->
        le w (op w).2 /\ Inv (op w).2 /\
        exists c', (forall x, pot (op w).2 x + c' x <= pot w x + c x)%nat
          /\ wp (k (op w).1) c' (op w).2 Q
  end.

Definition sum_credits (cs : list (K -> nat)) (x : K) : nat := sum_list_with (fun c => c x) cs.

Lemma wp_mono {A} (p : prog W A) c w0 (Q Q' : A -> (K -> nat) -> W -> Prop) :
  (forall a c w, Q a c w -> Q' a c w) -> wp p c w0 Q -> wp p c w0 Q'.
Proof.
  intros HQ. revert c w0. induction p as [a|B op k IH]; intros c w0; simpl; [apply HQ|].
  intros Hp w Hle Hi. destruct (Hp w Hle Hi) as (? & ? & c' & ? & ?). eauto 10.
Qed.

Lemma wp_bind {A B} (p : prog W A) (f : A -> prog W B) c w0 Q :
  wp p c w0 (fun a c w => wp (f a) c w Q) -> wp (bind p f) c w0 Q.
Proof.
  revert c w0. induction p as [a|X op k IH]; intros c w0; simpl; [done|].
  intros Hp w Hle Hi. destruct (Hp w Hle Hi) as (? & ? & c' & ? & ?). eauto 10.
Qed.

Context `{HPre : !PreOrder le}.

(** Facts known of [w0] may be re-read at any later world. *)
Lemma wp_le {A} (p : prog W A) c w0 w1 Q :
  (forall a c w w', le w w' -> Q a c w -> Q a c w') ->
  le w0 w1 -> wp p c w0 Q -> wp p c w1 Q.
Proof.
  intros HQ Hle. destruct p as [a|B op k]; simpl; [by apply HQ|].
  intros Hp w Hle' Hi. apply Hp; [by transitivity w1|done].
Qed.

(** Credits may be forgotten. *)
Lemma wp_drop {A} (p : prog W A) c c' w0 Q :
  (forall a c c' w, (forall x, (c' x <= c x)%nat) -> Q a c' w -> Q a c w) ->
  (forall x, (c' x <= c x)%nat) -> wp p c' w0 Q -> wp p c w0 Q.
Proof.
  intros HQ Hc. destruct p as [a|B op k]; simpl; [by apply HQ|].
  intros Hp w Hle Hi. destruct (Hp w Hle Hi) as (? & ? & c2 & Hpot & ?).
  split; [done|]. split; [done|]. exists c2. split; [|done].
  intros x. specialize (Hpot x). specialize (Hc x). lia.
Qed.

Lemma wp_for_each {X} (l : list X) (body : X -> prog W unit) c w0 :
  (forall x c w, x ∈ l -> le w0 w -> wp (body x) c w (fun _ _ w' => le w w')) ->
  wp (for_each l body) c w0 (fun _ _ w => le w0 w).
Proof.
  revert c w0. induction l as [|x l IH]; intros c w0 Hb; simpl; [done|].
  apply wp_bind. eapply wp_mono; [|apply Hb; [set_solver|done]].
  intros [] c' w' Hle. simpl in Hle.
  eapply wp_mono; [|apply (IH c' w')].
  - intros [] c2 w2 H2. simpl in *. by transitivity w'.
  - intros y c2 w2 Hy H2. apply Hb; [set_solver|by transitivity w'].
Qed.

(** A program with a budget of [n] emissions, each worth [e], needs [n * e] credits. *)
Lemma wp_budget {A} (quiet emit : W -> W -> Prop) (e : K -> nat) (p : prog W A) n c w0 :
  (forall w w', quiet w w' -> Inv w -> le w w' /\ Inv w' /\ forall x, (pot w' x <= pot w x)%nat) ->
  (forall w w', emit w w' -> Inv w ->
     le w w' /\ Inv w' /\ forall x, (pot w' x <= pot w x + e x)%nat) ->
  budget quiet emit p n -> (forall x, (n * e x <= c x)%nat) ->
  wp p c w0 (fun _ _ w => le w0 w).
Proof.
  intros Hq He. revert n c w0. induction p as [a|B op k IH]; intros n c w0 Hb Hc; simpl; [done|].
  intros w Hle Hi. destruct (Hb w) as [[Hqw Hk]|[Hew Hk]].
  - destruct (Hq _ _ Hqw Hi) as (? & ? & Hpot). split; [done|]. split; [done|].
    exists c. split; [intros x; specialize (Hpot x); lia|].
    eapply wp_mono; [|by eapply IH]. intros a c' w' Hw. simpl in Hw. etransitivity; [|done]. by etransitivity.
  - destruct n as [|n]; [done|]. destruct (He _ _ Hew Hi) as (? & ? & Hpot).
    split; [done|]. split; [done|]. exists (fun x => c x - e x)%nat. split.
    + intros x. specialize (Hpot x). specialize (Hc x). simpl in Hc. lia.
    + eapply wp_mono; [|eapply IH; [exact Hk|]].
      * intros a c' w' Hw. simpl in Hw. etransitivity; [|done]. by etransitivity.
      * intros x. specialize (Hc x). simpl in Hc. lia.
Qed.

Definition verified {A} (w : W) (p : prog W A) (c : K -> nat) : Prop :=
  wp p c w (fun _ _ _ => True).

Lemma verified_le {A} w w' (p : prog W A) c : le w w' -> verified w p c -> verified w' p c.
Proof. intros Hle. by apply wp_le. Qed.

Lemma sum_credits_insert cs i c c' x :
  cs !! i = Some c ->
  (sum_credits (<[i := c']> cs) x + c x = sum_credits cs x + c' x)%nat.
Proof.
  revert i. induction cs as [|c0 cs IH]; intros [|i]; simpl; intros; simplify_eq.
  - unfold sum_credits; simpl. lia.
  - unfold sum_credits in *; simpl. specialize (IH i). unfold sum_credits in IH.
    specialize (IH ltac:(done)). lia.
Qed.

Lemma pool_step_sound {A} (ps ps' : list (prog W A)) w w' cs :
  pool_step (ps, w) (ps', w') -> Inv w -> Forall2 (verified w) ps cs ->
  le w w' /\ Inv w' /\ exists cs', Forall2 (verified w') ps' cs'
    /\ forall x, (pot w' x + sum_credits cs' x <= pot w x + sum_credits cs x)%nat.
Proof.
  intros Hs Hi Hps. inversion Hs as [ps0 w0 i p p' w1 Hp Hst]; subst.
  destruct (Forall2_lookup_l _ _ _ _ _ Hps Hp) as (c & Hc & Hv).
  destruct p as [|B op k]; simpl in Hst; [done|].
  destruct (op w) as [b w2] eqn:E; simplify_eq.
  destruct (Hv w ltac:(reflexivity) Hi) as (Hle & Hi' & c' & Hpot & Hk).
  rewrite E in *; simpl in *.
  split; [done|]. split; [done|]. exists (<[i := c']> cs). split.
  - apply Forall2_insert; [|done].
    eapply Forall2_impl; [done|]. intros. by eapply verified_le.
  - intros x. specialize (Hpot x). pose proof (sum_credits_insert cs i c c' x Hc). lia.
Qed.

Lemma pool_sound {A} (ps ps' : list (prog W A)) w w' cs :
  rtc pool_step (ps, w) (ps', w') -> Inv w -> Forall2 (verified w) ps cs ->
  le w w' /\ Inv w' /\ forall x, (pot w' x <= pot w x + sum_credits cs x)%nat.
Proof.
  intros Hr. remember (ps, w) as s eqn:Es. remember (ps', w') as s' eqn:Es'.
  revert ps w cs Es. induction Hr as [s|s s2 s3 Hst Hr IH]; intros ps w cs -> Hi Hps.
  - injection Es' as [= -> ->]. split; [reflexivity|]. split; [done|]. intros x. lia.
  - destruct s2 as [ps2 w2].
    destruct (pool_step_sound _ _ _ _ _ Hst Hi Hps) as (Hle & Hi2 & cs2 & Hps2 & Hpot).
    destruct (IH Es' _ _ _ eq_refl Hi2 Hps2) as (Hle' & Hi' & Hpot').
    split; [by transitivity w2|]. split; [done|].
    intros x. specialize (Hpot x). specialize (Hpot' x). lia.
Qed.

(** Programs without credits of their own: the potential never grows. *)
Lemma pool_sound_nocredit {A} (ps ps' : list (prog W A)) w w' :
  rtc pool_step (ps, w) (ps', w') -> Inv w ->
  Forall (fun p => verified w p (fun _ => 0%nat)) ps ->
  le w w' /\ Inv w' /\ forall x, (pot w' x <= pot w x)%nat.
Proof.
  intros Hr Hi Hps.
  destruct (pool_sound _ _ _ _ (replicate (length ps) (fun _ => 0%nat)) Hr Hi)
    as (? & ? & Hpot).
  - clear Hr. induction Hps; simpl; constructor; auto.
  - split; [done|]. split; [done|]. intros x. specialize (Hpot x).
    assert (sum_credits (replicate (length ps) (fun _ : K => 0%nat)) x = 0%nat) as E; [|lia].
    generalize (length ps). intros n. unfold sum_credits. by induction n.
Qed.

End Logic.

(** A schedule is an execution of the pool. *)
Lemma run_schedule_rtc {W A} sched (ps : list (prog W A)) w :
  rtc pool_step (ps, w) (run_schedule sched ps w).
Proof.
  revert ps w. induction sched as [|i sched IH]; intros ps w; simpl; [reflexivity|].
  destruct (ps !! i) as [p|] eqn:Ep; [|done].
  destruct (pstep p w) as [[p' w']|] eqn:Es; [|done].
  eapply rtc_l; [by econstructor|done].
Qed.

(** ... and every execution is that of a schedule. *)
Lemma rtc_run_schedule {W A} (ps ps' : list (prog W A)) w w' :
  rtc pool_step (ps, w) (ps', w') -> exists order, run_schedule order ps w = (ps', w').
Proof.
  intros Hr. remember (ps, w) as x eqn:Ex. remember (ps', w') as y eqn:Ey.
  revert ps w Ex. induction Hr as [x|x z y Hs Hr IH]; intros ps w ->.
  - exists []. by simplify_eq.
  - destruct z as [ps1 w1]. destruct (IH Ey ps1 w1 eq_refl) as (order & Ho).
    inversion Hs as [? ? i p p' w2 Hp Hst]; subst. exists (i :: order). simpl. by rewrite Hp, Hst.
Qed.

(** Parts of a pool *)

Lemma pool_steps_app {W A} (ps qs l : list (prog W A)) w w' :
  rtc pool_step (ps, w) (qs, w') -> rtc pool_step (ps ++ l, w) (qs ++ l, w').
Proof.
  intros Hr. remember (ps, w) as x eqn:Ex. remember (qs, w') as y eqn:Ey.
  revert ps w Ex. induction Hr as [x|x y0 y Hs Hr IH]; intros ps w ->.
  - by injection Ey as -> ->.
  - destruct y0 as [ps1 w1]. inversion Hs as [? ? i p p' w2 Hp Hst]; subst.
    eapply rtc_l; [|by apply IH].
    rewrite <- (insert_app_l ps l) by (by eapply lookup_lt_Some).
    econstructor; [|done]. by apply lookup_app_l_Some.
Qed.

Lemma pstep_bind {W A B} (p p' : prog W A) (f : A -> prog W B) w w' :
  pstep p w = Some (p', w') -> pstep (bind p f) w = Some (bind p' f, w').
Proof. destruct p as [a|X op k]; simpl; [done|]. destruct (op w). by intros [= <- <-]. Qed.

Lemma pool_step_in {W A} (l1 l2 : list (prog W A)) p p' w w' i :
  l2 !! i = Some p -> pstep p w = Some (p', w') ->
  pool_step (l1 ++ l2, w) (l1 ++ <[i := p']> l2, w').
Proof.
  intros Hi Hp. rewrite <- insert_app_r. econstructor; [|done].
  by rewrite lookup_app_r, Nat.add_comm, Nat.add_sub by lia.
Qed.

(** ** Every pool comes to rest *)

(** One element of a list moves down. *)
Definition one_below {A} (R : A -> A -> Prop) (l' l : list A) : Prop :=
  exists i x x', l !! i = Some x /\ R x' x /\ l' = <[i := x']> l.

Lemma one_below_wf {A} (R : A -> A -> Prop) : well_founded R -> well_founded (one_below R).
Proof.
  intros HR l. induction l as [|x l Hl].
  { constructor. by intros ? (i & x & x' & ? & _). }
  revert l Hl. induction (HR x) as [x _ IHx]. intros l Hl.
  induction Hl as [l Hl IHl].
  constructor. intros ? (i & y & y' & Hi & Hy & ->). destruct i as [|i]; simpl in *.
  - simplify_eq. apply IHx; [done|]. by constructor.
  - apply IHl. by exists i, y, y'.
Qed.

Definition prog_below {W A} (p' p : prog W A) : Prop := exists w w', pstep p w = Some (p', w').

(** A program is a well-founded tree: it has no infinite execution. *)
Lemma prog_below_wf {W A} : well_founded (@prog_below W A).
Proof.
  intros p. induction p as [a|B op k IH]; constructor; intros p' (w & w' & Hp); simpl in Hp; [done|].
  destruct (op w). simplify_eq. apply IH.
Qed.

Lemma pool_step_wf {W A} : well_founded (fun y x : list (prog W A) * W => pool_step x y).
Proof.
  intros [ps w]. revert w. induction (one_below_wf _ prog_below_wf ps) as [ps _ IH]. intros w.
  constructor. intros [ps' w'] Hs. inversion Hs; subst. apply IH. do 3 eexists.
  split; [eassumption|]. split; [|reflexivity]. do 2 eexists; eassumption.
Qed.

(** Whether program [i] has a step left. *)
Definition can_step {W A} (i : nat) (ps : list (prog W A)) : bool :=
  match ps !! i with Some (Atomic _ _) => true | _ => false end.

Lemma run_schedule_step {W A} i (ps : list (prog W A)) w :
  can_step i ps = true -> pool_step (ps, w) (run_schedule [i] ps w).
Proof.
  unfold can_step. simpl. destruct (ps !! i) as [p|] eqn:Ep; [|done]. destruct p as [|B op k]; [done|].
  intros _. simpl. destruct (op w) as [b w'] eqn:Eo. econstructor; [done|]. simpl. by rewrite Eo.
Qed.

#[export] Hint Resolve wp_bind wp_mono : oncall.

(** ** The logic on the data of a world

    Contracts that only look at the data give rules for the calls of [Effects]. *)

Section DataLogic.
Context `{Platform} {D K : Type}.
Variable leD : D -> D -> Prop.
Variable InvD : D -> Prop.
Variable potD : D -> K -> nat.
Context `{HleD : !PreOrder leD}.

Definition le_world (w w' : world D) : Prop := leD (data w) (data w').

#[export] Instance le_world_PreOrder : PreOrder le_world.
Proof. split; [intros w; unfold le_world; reflexivity|intros w1 w2 w3; unfold le_world; by etransitivity]. Qed.

Definition inv_world (w : world D) : Prop := InvD (data w).

Definition pot_world (w : world D) : K -> nat := potD (data w).

(** [Q] is about the answer, the credits left and the data at that time. *)
Definition wpD {A} (p : M D A) (c : K -> nat) (d0 : D) (Q : A -> (K -> nat) -> D -> Prop) : Prop :=
  forall t, wp le_world inv_world pot_world p c (World t d0) (fun a c w => Q a c (data w)).

Lemma wpD_ret {A} (a : A) c d0 (Q : A -> (K -> nat) -> D -> Prop) : Q a c d0 -> wpD (Ret a) c d0 Q.
Proof. intros HQ t. exact HQ. Qed.

Lemma wp_start {A} (p : M D A) c w0 Q :
  wpD p c (data w0) Q -> wp le_world inv_world pot_world p c w0 (fun a c w => Q a c (data w)).
Proof. intros Hp. destruct w0 as [t d]. apply Hp. Qed.

Lemma wpD_bind {A B} (p : M D A) (f : A -> M D B) c d0 Q :
  wpD p c d0 (fun a c d => wpD (f a) c d Q) -> wpD (bind p f) c d0 Q.
Proof.
  intros Hp t. apply wp_bind. eapply wp_mono; [|apply Hp]. intros a c' w Hw. by apply wp_start.
Qed.

Lemma wpD_mono {A} (p : M D A) c d0 (Q Q' : A -> (K -> nat) -> D -> Prop) :
  (forall a c d, Q a c d -> Q' a c d) -> wpD p c d0 Q -> wpD p c d0 Q'.
Proof. intros HQ Hp t. eapply wp_mono; [|apply Hp]. auto. Qed.

Lemma wpD_call {A} (f : Time -> string -> D -> res (A * D)) c d0
    (Q : res A -> (K -> nat) -> D -> Prop) :
  (forall e d, leD d0 d -> Q (Err e) c d) ->
  (forall now uuid d a d', leD d0 d -> InvD d -> f now uuid d = Ok (a, d') ->
     leD d d' /\ InvD d' /\ exists c', (forall x, potD d' x + c' x <= potD d x + c x)%nat
       /\ Q (Ok a) c' d' /\ forall e, Q (Err e) c' d') ->
  wpD (call f) c d0 Q.
Proof.
  intros Herr Hok t w Hle Hi. unfold le_world, inv_world, pot_world in *. cbn in Hle |- *.
  assert (leD (data w) (data w)) by reflexivity.
  destruct (fault_at (tick w)) as [[e|e]|]; cbn.
  - split_and!; [done..|]. exists c. auto.
  - destruct (f _ _ _) as [[a d']|e'] eqn:Ef; cbn; [|split_and!; [done..|]; exists c; auto].
    destruct (Hok _ _ _ _ _ Hle Hi Ef) as (? & ? & c' & ? & ? & ?). eauto 10.
  - destruct (f _ _ _) as [[a d']|e'] eqn:Ef; cbn; [|split_and!; [done..|]; exists c; auto].
    destruct (Hok _ _ _ _ _ Hle Hi Ef) as (? & ? & c' & ? & ? & ?). eauto 10.
Qed.

Lemma wpD_sql {A} q uuids (f : Time -> string -> D -> res (A * D)) c d0
    (Q : res A -> (K -> nat) -> D -> Prop) :
  (forall e d, leD d0 d -> Q (Err e) c d) ->
  (forall now uuid d a d', leD d0 d -> InvD d -> f now uuid d = Ok (a, d') ->
     leD d d' /\ InvD d' /\ exists c', (forall x, potD d' x + c' x <= potD d x + c x)%nat
       /\ Q (Ok a) c' d' /\ forall e, Q (Err e) c' d') ->
  wpD (sql q uuids f) c d0 Q.
Proof.
  intros Herr Hok. apply wpD_call; [done|]. intros now uuid d a d' Hle Hi.
  destruct (forallb uuid_ok uuids); [|done]. by apply Hok.
Qed.

(** A statement that reads. *)
Lemma wpD_query {A} q uuids (f : Time -> string -> D -> res (A * D)) c d0
    (Q : res A -> (K -> nat) -> D -> Prop) :
  (forall e d, leD d0 d -> Q (Err e) c d) ->
  (forall now uuid d a d', leD d0 d -> InvD d -> f now uuid d = Ok (a, d') ->
     d' = d /\ Q (Ok a) c d) ->
  wpD (sql q uuids f) c d0 Q.
Proof.
  intros Herr Hok. apply wpD_sql; [done|]. intros now uuid d a d' Hle Hi Hf.
  destruct (Hok _ _ _ _ _ Hle Hi Hf) as [-> HQ].
  split; [reflexivity|]. split; [done|]. exists c. auto.
Qed.

Lemma wpD_withTx {A} (body : dbConn -> M D (res A)) c d0 (Q : res A -> (K -> nat) -> D -> Prop) :
  (forall e d, leD d0 d -> Q (Err e) c d) ->
  (forall start t d a t' d', leD d0 d -> InvD d ->
     run (body (Tx start)) (World t d) = (Ok a, World t' d') ->
     leD d d' /\ InvD d' /\ exists c', (forall x, potD d' x + c' x <= potD d x + c x)%nat
       /\ Q (Ok a) c' d' /\ forall e, Q (Err e) c' d') ->
  wpD (withTx body) c d0 Q.
Proof.
  intros Herr Hok t w Hle Hi. unfold le_world, inv_world, pot_world in *. cbn in Hle |- *.
  assert (leD (data w) (data w)) by reflexivity.
  destruct (fault_at (tick w)) as [[e|e]|]; cbn;
    [split_and!; [done..|]; exists c; auto..|].
  destruct (run _ _) as [[a|e] [t' d']] eqn:Er; cbn; [|split_and!; [done..|]; exists c; auto].
  destruct (Hok _ _ _ _ _ _ Hle Hi Er) as (? & ? & c' & ? & ? & ?).
  destruct (fault_at t') as [[e|e]|]; cbn; [split_and!; [done..|]; exists c; auto|eauto 10..].
Qed.

(** A call when nothing fails, with the time it is made at. *)
Lemma wpD_call_reliable {A} (f : Time -> string -> D -> res (A * D)) c d0
    (Q : res A -> (K -> nat) -> D -> Prop) :
  reliable ->
  (forall t d, leD d0 d -> InvD d ->
     match f (now_at t) (uuid_at t) d with
     | Err e => Q (Err e) c d
     | Ok (a, d') => leD d d' /\ InvD d' /\ exists c', (forall x, potD d' x + c' x <= potD d x + c x)%nat
                      /\ Q (Ok a) c' d'
     end) ->
  wpD (call f) c d0 Q.
Proof.
  intros Hrel Hf t w Hle Hi. unfold le_world, inv_world, pot_world in *. cbn in Hle |- *. rewrite Hrel.
  specialize (Hf (tick w) (data w) Hle Hi). destruct (f _ _ _) as [[a d']|e]; cbn; [done|].
  split; [reflexivity|]. split; [done|]. by exists c.
Qed.

(** The clock. *)
Lemma wpD_now c d0 (Q : Time -> (K -> nat) -> D -> Prop) :
  (forall t d, leD d0 d -> Q (now_at t) c d) -> wpD time_Now c d0 Q.
Proof.
  intros HQ t w Hle Hi. unfold le_world, inv_world, pot_world in *. cbn in *.
  split_and!; [reflexivity|done|]. exists c. auto.
Qed.

(** A step that only reads the platform. *)
Lemma wpD_read {A} (g : world D -> A) c d0 (Q : A -> (K -> nat) -> D -> Prop) :
  (forall a d, leD d0 d -> Q a c d) ->
  wpD (Atomic (fun w => (g w, World (S (tick w)) (data w))) Ret) c d0 Q.
Proof.
  intros HQ t w Hle Hi. unfold le_world, inv_world, pot_world in *. cbn in *.
  split_and!; [reflexivity|done|]. exists c. auto.
Qed.

(** A program that only reads, with what is known of its answers. *)
Lemma wpD_quiet {A} (p : M D A) (P : A -> Prop) c d0 :
  budget (fun w w' => data w = data w') (fun _ _ => False) p 0 -> always p P ->
  wpD p c d0 (fun a c' d => leD d0 d /\ P a /\ c' = c).
Proof.
  intros Hb Ha t. assert (Hle0 : leD d0 d0) by reflexivity. revert Hle0. generalize d0 at 2 3.
  revert t. induction p as [a|B op k IH]; intros t d Hd; simpl in *; [by split_and!|].
  intros w Hle Hi. unfold le_world, inv_world, pot_world in *. simpl in *.
  destruct (Hb w) as [[He Hk]|[[] _]]. rewrite <- !He. split_and!; [reflexivity|done|].
  exists c. split; [lia|]. specialize (IH _ Hk (Ha w) (tick (op w).2) (data w)).
  rewrite He in IH. destruct (op w) as [b [t' d']]. simpl in *. subst d'.
  apply IH. by transitivity d.
Qed.

Lemma wpD_budget {A} (quiet emit : world D -> world D -> Prop) (e : K -> nat) (p : M D A) n c d0 :
  (forall w w', quiet w w' -> InvD (data w) -> leD (data w) (data w') /\ InvD (data w')
     /\ forall x, (potD (data w') x <= potD (data w) x)%nat) ->
  (forall w w', emit w w' -> InvD (data w) -> leD (data w) (data w') /\ InvD (data w')
     /\ forall x, (potD (data w') x <= potD (data w) x + e x)%nat) ->
  budget quiet emit p n -> (forall x, (n * e x <= c x)%nat) ->
  wpD p c d0 (fun _ _ d => leD d0 d).
Proof.
  intros Hq He Hb Hc t.
  exact (wp_budget le_world inv_world pot_world quiet emit e p n c (World t d0) Hq He Hb Hc).
Qed.

(** A program whose every answer is accepted needs no exact account of its credits. *)
Lemma wpD_for_each {X} (l : list X) (body : X -> M D unit) c d0 :
  (forall x c d, x ∈ l -> leD d0 d -> wpD (body x) c d (fun _ _ d' => leD d d')) ->
  wpD (for_each l body) c d0 (fun _ _ d => leD d0 d).
Proof.
  intros Hb t. apply (wp_for_each le_world inv_world pot_world). intros x c' w Hx Hle.
  exact (wp_start _ _ _ _ (Hb x c' (data w) Hx Hle)).
Qed.

End DataLogic.

(** ** Programs whose every step respects a relation on the data

    [R] need not be transitive: it is about one step at a time. *)

Section Respects.
Context `{Platform} {D : Type}.
Variable R : D -> D -> Prop.
Context `{!Reflexive R}.

Definition respects {A} (p : M D A) : Prop :=
  budget (fun w w' => R (data w) (data w')) (fun _ _ => False) p 0.

Lemma respects_ret {A} (a : A) : respects (Ret a).
Proof. done. Qed.

Lemma respects_bind {A B} (p : M D A) (f : A -> M D B) :
  respects p -> (forall a, respects (f a)) -> respects (bind p f).
Proof. apply budget_quiet_bind. Qed.

(** With what is known of every answer of the first program. *)
Lemma respects_bind_always {A B} (p : M D A) (f : A -> M D B) (Q : A -> Prop) :
  respects p -> always p Q -> (forall a, Q a -> respects (f a)) -> respects (bind p f).
Proof.
  intros Hp Hq Hf. induction p as [a|X op k IH]; simpl in *; [by apply Hf|].
  intros w. destruct (Hp w) as [[Hr Hk]|[[] _]]. left. split; [done|]. by apply IH.
Qed.

Lemma respects_sql {A} q uuids (f : Time -> string -> D -> res (A * D)) :
  (forall now uuid d a d', f now uuid d = Ok (a, d') -> R d d') -> respects (sql q uuids f).
Proof. by apply budget_sql. Qed.

Lemma respects_read {A} (g : world D -> A) :
  respects (Atomic (fun w => (g w, World (S (tick w)) (data w))) Ret).
Proof. intros w. left. split; [|done]. simpl. reflexivity. Qed.

Lemma respects_withTx {A} (body : dbConn -> M D (res A)) :
  (forall start t d a t' d', run (body (Tx start)) (World t d) = (Ok a, World t' d') -> R d d') ->
  respects (withTx body).
Proof.
  intros Hb w. left. split; [|done]. destruct (run (withTx body) w) as [r w'] eqn:Er.
  assert ((let '(b, w1) := run (withTx body) w in w1) = w') as Ew by (by rewrite Er).
  destruct (withTx_atomic body w r w' Er) as [E|(start & a & [t1 d1] & Hrun & E)].
  - simpl in *. destruct (fault_at (tick w)) as [[]|]; simpl; [reflexivity..|].
    destruct (run (body _) _) as [[a|e] w1]; simpl in *; [|reflexivity].
    destruct (fault_at (tick w1)) as [[]|]; simpl in *; subst; simpl in *; rewrite ?E; reflexivity.
  - assert (R (data w) (data w')) as HR by (rewrite E; by eapply Hb).
    simpl in *. destruct (fault_at (tick w)) as [[]|]; simpl; [reflexivity..|].
    destruct (run (body (Tx (now_at (tick w)))) _) as [[a2|e] w2]; simpl in *; [|reflexivity].
    destruct (fault_at (tick w2)) as [[]|]; simpl in *; subst; simpl in *; done.
Qed.

Lemma pool_respects {A} (ps ps' : list (M D A)) w w' :
  pool_step (ps, w) (ps', w') -> Forall respects ps -> R (data w) (data w') /\ Forall respects ps'.
Proof.
  intros Hs Hps. inversion Hs as [ps0 w0 i p p' w1 Hp Hst]; subst.
  pose proof (proj1 (Forall_lookup _ _) Hps i p Hp) as Hpr.
  destruct p as [|B op k]; simpl in Hst; [done|].
  destruct (Hpr w) as [[Hr Hk]|[[] _]]. destruct (op w) as [b w2]; simplify_eq. simpl in *.
  split; [done|]. by apply Forall_insert.
Qed.

(** An invariant the relation keeps holds in every reachable state, and every
    step from there respects the relation. *)
Lemma pool_invariant {A} (Inv : D -> Prop) (ps ps1 : list (M D A)) w w1 :
  (forall d d', R d d' -> Inv d -> Inv d') ->
  Forall respects ps -> Inv (data w) -> rtc pool_step (ps, w) (ps1, w1) ->
  Forall respects ps1 /\ Inv (data w1).
Proof.
  intros HR Hps Hi Hr. remember (ps, w) as s eqn:Es. remember (ps1, w1) as s1 eqn:Es1.
  revert ps w Es Hps Hi. induction Hr as [s|s s2 s3 Hst Hr IH]; intros ps w -> Hps Hi.
  - by injection Es1 as [= -> ->].
  - destruct s2 as [ps2 w2]. destruct (pool_respects _ _ _ _ Hst Hps) as [HR2 Hps2].
    eapply IH; [done|done|done|]. by eapply HR.
Qed.

Lemma respects_run {A} (Inv : D -> Prop) (p : M D A) w a w' :
  (forall d d', R d d' -> Inv d -> Inv d') -> respects p -> run p w = (a, w') -> Inv (data w) -> Inv (data w').
Proof.
  intros HR. revert w. induction p as [x|B op k IH]; simpl; intros w Hp; [by intros [= <- <-]|].
  destruct (Hp w) as [[Hr Hk]|[[] _]]. destruct (op w) as [b w1]. simpl in *.
  intros Hrun Hi. eapply IH; [exact Hk|done|]. by eapply HR.
Qed.

End Respects.

(** A program whose steps leave the invariant and the potential alone costs nothing. *)
Lemma wpD_respects `{Platform} {D K : Type} (leD : D -> D -> Prop) `{!PreOrder leD} (InvD : D -> Prop)
    (potD : D -> K -> nat) (R : D -> D -> Prop) {A} (p : M D A) c d0 :
  (forall d d', R d d' -> InvD d -> leD d d' /\ InvD d' /\ forall x, (potD d' x <= potD d x)%nat) ->
  respects R p -> wpD leD InvD potD p c d0 (fun _ c' d => leD d0 d /\ c' = c).
Proof.
  intros HR Hp t. assert (Hle0 : leD d0 d0) by reflexivity. revert Hle0. generalize d0 at 2 3.
  revert t. induction p as [a|B op k IH]; intros t d Hd; simpl in *; [by split|].
  intros w Hle Hi. unfold le_world, inv_world, pot_world in *. simpl in *.
  destruct (Hp w) as [[Hr Hk]|[[] _]]. destruct (HR _ _ Hr Hi) as (Hle' & Hi' & Hpot).
  split; [done|]. split; [done|]. exists c. split; [intros x; specialize (Hpot x); lia|].
  destruct (op w) as [b [t' d']]. simpl in *. apply IH; [done|]. by do 2 (etransitivity; [eassumption|]).
Qed.

(** ** Invariants and what the answers say

    [keeps I p Q]: from a state with [I], each step of [p] leads to one with [I],
    whatever other programs that keep [I] do between the steps; the final answer
    has [Q]. *)

Section Keeps.
Context `{Platform} {D : Type}.
Variable I : D -> Prop.

Fixpoint keeps {A} (p : M D A) (Q : A -> Prop) : Prop :=
  match p with
  | Ret a => Q a
  | Atomic op k => forall w, I (data w) -> I (data (op w).2) /\ keeps (k (op w).1) Q
  end.

Lemma keeps_mono {A} (p : M D A) (P Q : A -> Prop) : (forall a, P a -> Q a) -> keeps p P -> keeps p Q.
Proof.
  intros HPQ. induction p as [a|X op k IH]; simpl; [auto|]. intros Hp w Hi. destruct (Hp w Hi). auto.
Qed.

Lemma keeps_bind {A B} (p : M D A) (f : A -> M D B) (P : A -> Prop) (Q : B -> Prop) :
  keeps p P -> (forall a, P a -> keeps (f a) Q) -> keeps (bind p f) Q.
Proof.
  intros Hp Hf. induction p as [a|X op k IH]; simpl in *; [auto|]. intros w Hi. destruct (Hp w Hi). auto.
Qed.

(** When nothing is needed of the first answer. *)
Lemma keeps_then {A B} (p : M D A) (f : A -> M D B) (Q : B -> Prop) :
  keeps p (fun _ => True) -> (forall a, keeps (f a) Q) -> keeps (bind p f) Q.
Proof. intros Hp Hf. eapply keeps_bind; [exact Hp|auto]. Qed.

Lemma keeps_always {A} (p : M D A) (P Q : A -> Prop) :
  keeps p P -> always p Q -> keeps p (fun a => P a /\ Q a).
Proof.
  induction p as [a|X op k IH]; simpl; [done|]. intros Hp Hq w Hi. destruct (Hp w Hi). auto.
Qed.

Lemma keeps_read {A} (g : world D -> A) (Q : A -> Prop) :
  (forall w, I (data w) -> Q (g w)) -> keeps (Atomic (fun w => (g w, World (S (tick w)) (data w))) Ret) Q.
Proof. intros HQ w Hi. simpl. auto. Qed.

Lemma keeps_local {A} (f : D -> A * D) (Q : A -> Prop) :
  (forall d, I d -> I (f d).2 /\ Q (f d).1) -> keeps (local_step f) Q.
Proof. intros HQ w Hi. simpl. specialize (HQ _ Hi). by destruct (f (data w)). Qed.

Lemma keeps_run {A} (p : M D A) (Q : A -> Prop) w a w' :
  keeps p Q -> run p w = (a, w') -> I (data w) -> I (data w') /\ Q a.
Proof.
  revert w. induction p as [x|B op k IH]; simpl; intros w Hp; [by intros [= <- <-]|].
  intros Hr Hi. destruct (Hp w Hi) as [Hi' Hk]. destruct (op w) as [b w1]. eapply IH; eauto.
Qed.

Hypothesis Hff : foreign_faults.

Lemma keeps_call {A} (f : Time -> string -> D -> res (A * D)) (Q : res A -> Prop) :
  (forall e, foreign e -> Q (Err e)) ->
  (forall now uuid d, I d ->
     match f now uuid d with Ok (a, d') => I d' /\ Q (Ok a) | Err e => Q (Err e) end) ->
  keeps (call f) Q.
Proof.
  intros He Ho w Hi. specialize (Ho (now_at (tick w)) (uuid_at (tick w)) _ Hi). simpl.
  destruct (fault_at (tick w)) as [[e|e]|] eqn:Ef.
  - split; [done|]. apply He. apply (Hff (tick w)). auto.
  - assert (foreign e) as Hfe by (apply (Hff (tick w)); auto).
    destruct (f _ _ _) as [[a d']|e']; simpl; [destruct Ho|]; split; try done. by apply He.
  - destruct (f _ _ _) as [[a d']|e']; simpl; [destruct Ho|]; split; done.
Qed.

Lemma keeps_sql {A} q uuids (f : Time -> string -> D -> res (A * D)) (Q : res A -> Prop) :
  (forall e, foreign e -> Q (Err e)) ->
  (forall now uuid d, I d ->
     match f now uuid d with Ok (a, d') => I d' /\ Q (Ok a) | Err e => Q (Err e) end) ->
  keeps (sql q uuids f) Q.
Proof.
  intros He Ho. apply keeps_call; [done|]. intros now uuid d Hi. destruct (forallb _ _); [by apply Ho|by apply He].
Qed.

Lemma keeps_withTx {A} (body : dbConn -> M D (res A)) (Q : res A -> Prop) :
  (forall e, foreign e -> Q (Err e)) -> (forall q, keeps (body q) Q) -> keeps (withTx body) Q.
Proof.
  intros He Hb w Hi. simpl. destruct (fault_at (tick w)) as [[e|e]|] eqn:Ef;
    [split; [done|]; apply He, (Hff (tick w)); auto..|].
  destruct (run _ _) as [r w'] eqn:Er. apply (keeps_run _ Q) in Er as [Hi' Hq]; [|apply Hb|done].
  destruct r as [a|e]; [|done].
  destruct (fault_at (tick w')) as [[e|e]|] eqn:Ef'; simpl; (split; [done|]); try done;
    apply He, (Hff (tick w')); auto.
Qed.

Lemma keeps_budget {A} (quiet emit : world D -> world D -> Prop) (p : M D A) n :
  (forall w w', quiet w w' -> I (data w) -> I (data w')) ->
  (forall w w', emit w w' -> I (data w) -> I (data w')) ->
  budget quiet emit p n -> keeps p (fun _ => True).
Proof.
  intros Hq He. revert n. induction p as [a|X op k IH]; intros n Hb; simpl in *; [done|].
  intros w Hi. destruct (Hb w) as [[Hs Hk]|[Hs Hk]].
  - split; [by eapply Hq|by eapply IH].
  - destruct n as [|n]; [done|]. split; [by eapply He|by eapply IH].
Qed.

Lemma keeps_respects {A} (R : D -> D -> Prop) (p : M D A) :
  (forall d d', R d d' -> I d -> I d') -> respects R p -> keeps p (fun _ => True).
Proof. intros HR Hp. eapply keeps_budget; [..|exact Hp]; [intros w w' Hw; by apply HR|done]. Qed.

Lemma keeps_for_each {X} (l : list X) (body : X -> M D unit) :
  (forall x, x ∈ l -> keeps (body x) (fun _ => True)) -> keeps (for_each l body) (fun _ => True).
Proof.
  induction l as [|x l IH]; intros Hb; simpl; [done|].
  apply keeps_then; [apply Hb; by left|]. intros _. apply IH. intros y Hy. apply Hb. by right.
Qed.

(** In every reachable state the invariant holds, and every program that has
    ended has its answer as promised. *)
Lemma pool_keeps {A} (Q : A -> Prop) (ps ps' : list (M D A)) w w' :
  Forall (fun p => keeps p Q) ps -> I (data w) -> rtc pool_step (ps, w) (ps', w') ->
  Forall (fun p => keeps p Q) ps' /\ I (data w').
Proof.
  intros Hps Hi Hr. remember (ps, w) as s eqn:Es. remember (ps', w') as s' eqn:Es'.
  revert ps w Es Hps Hi. induction Hr as [s|s s2 s3 Hst Hr IH]; intros ps w -> Hps Hi.
  - by injection Es' as -> ->.
  - destruct s2 as [ps2 w2]. inversion Hst as [ps0 w0 i p p' w1 Hp Hstep]; subst.
    pose proof (proj1 (Forall_lookup _ _) Hps i p Hp) as Hpk.
    destruct p as [a|B op k]; simpl in Hstep; [done|]. destruct (Hpk w Hi) as [Hi' Hk].
    destruct (op w) as [b w3]. injection Hstep as <- <-. eapply IH; [done|done|by apply Forall_insert|done].
Qed.

End Keeps.

(** A component in a larger state. *)
Lemma keeps_zoom {D E A} `{Part D E} (I : D -> Prop) (J : E -> Prop) (p : M D A) (Q : A -> Prop) :
  (forall e, J e -> I (part e)) -> (forall d e, J e -> I d -> J (set_part d e)) ->
  keeps I p Q -> keeps J (zoom p) Q.
Proof.
  intros HJ HI. induction p as [a|B op k IH]; simpl; [done|]. intros Hp w Hj.
  destruct (Hp (World (tick w) (part (data w))) (HJ _ Hj)) as [Hi Hk].
  destruct (op _) as [b w']. simpl in *. auto.
Qed.
