(* ===== verification/Fairness.v ===== *)
(** * A loop next to other programs, and what a fair execution brings about

    A goroutine repeats a body for ever, next to programs that come and go.  An
    execution is an infinite sequence of moves; it is fair when the loop moves
    again and again.  [promise] is the logic of what one round brings about, under
    whatever the other programs do meanwhile; [kept] gives it in a fair execution. *)

From S2P Require Import Prelude Effects Interleaving.

Section Executions.
Context {D : Type}.

(** One round; it answers whether the loop ends. *)
Variable body : M D bool.

(** The programs that can arrive. *)
Variable member : M D unit -> Prop.

Record service := Service { loop : M D bool; others : list (M D unit); now : world D }.

(** [true] labels the moves of the loop. *)
Inductive move : bool -> service -> service -> Prop :=
| loop_moves l l' ps w w' : pstep l w = Some (l', w') -> move true (Service l ps w) (Service l' ps w')
| loop_again ps w : move true (Service (Ret false) ps w) (Service body ps w)
| other_moves l ps ps' w w' : pool_step (ps, w) (ps', w') -> move false (Service l ps w) (Service l ps' w')
| arrives p l ps w : member p -> move false (Service l ps w) (Service l (ps ++ [p]) w)
| waits l ps w t : (tick w <= t)%nat -> move false (Service l ps w) (Service l ps (World t (data w))).

Definition execution (σ : nat -> service) (who : nat -> bool) : Prop :=
  forall k, move (who k) (σ k) (σ (S k)).

Definition fair (who : nat -> bool) : Prop := forall k, exists k', (k <= k')%nat /\ who k' = true.

(** The clock passes every instant and stays behind it. *)
Definition time_passes `{Platform} (σ : nat -> service) : Prop :=
  forall deadline, exists k, forall k', (k <= k')%nat -> deadline <= now_at (tick (now (σ k'))).

(** ** Safety: every move respects the contract of the programs *)

Section Safe.
Context {K : Type} (leD : D -> D -> Prop) (InvD : D -> Prop) (potD : D -> K -> nat).
Context `{HleD : !PreOrder leD}.

Local Abbreviation verified := (verified (le_world leD) (inv_world InvD) (pot_world potD)).

Hypothesis body_verified : forall w c, verified w body c.
Hypothesis member_verified : forall p w, member p -> exists c, verified w p c.

Definition safe (s : service) : Prop :=
  InvD (data (now s)) /\ (exists c, verified (now s) (loop s) c)
  /\ Forall (fun p => exists c, verified (now s) p c) (others s).

Lemma verified_step {A} (p p' : M D A) w w' c :
  pstep p w = Some (p', w') -> InvD (data w) -> verified w p c ->
  leD (data w) (data w') /\ InvD (data w') /\ exists c', verified w' p' c'.
Proof.
  destruct p as [a|B op k]; [done|]. simpl. intros Hp Hi Hv.
  assert (le_world leD w w) as Hr by (unfold le_world; reflexivity).
  destruct (Hv w Hr Hi) as (Hle & Hi' & c' & _ & Hk). destruct (op w) as [b w1]. simpl in *.
  injection Hp as <- <-. split; [done|]. split; [done|]. by exists c'.
Qed.

Lemma verified_later {A} (p : M D A) w w' : leD (data w) (data w') ->
  (exists c, verified w p c) -> exists c, verified w' p c.
Proof. intros Hle [c Hc]. exists c.
  by apply (verified_le (le_world leD) (inv_world InvD) (pot_world potD) w w').
Qed.

Lemma move_safe b s s' : move b s s' -> safe s -> leD (data (now s)) (data (now s')) /\ safe s'.
Proof.
  intros Hm (Hi & Hl & Ho). unfold safe. inversion Hm; subst; simpl in *.
  - destruct Hl as [c Hc]. destruct (verified_step _ _ _ _ _ H Hi Hc) as (Hle & Hi' & Hc').
    split; [done|]. split; [done|]. split; [done|]. eapply Forall_impl; [exact Ho|]. intros p. by apply verified_later.
  - split; [reflexivity|]. split; [done|]. split; [|done]. exists (fun _ => 0%nat). apply body_verified.
  - inversion H; subst. rename H3 into Hi0, H5 into Hp. pose proof (Forall_lookup_1 _ _ _ _ Ho Hi0) as [c Hc].
    destruct (verified_step _ _ _ _ _ Hp Hi Hc) as (Hle & Hi' & Hc').
    split; [done|]. split; [done|]. split; [by eapply verified_later|].
    apply Forall_insert; [|done]. eapply Forall_impl; [exact Ho|]. intros q. by apply verified_later.
  - split; [reflexivity|]. split; [done|]. split; [done|]. apply Forall_app. split; [done|].
    constructor; [by apply member_verified|constructor].
  - split; [reflexivity|]. split; [done|]. split; [by eapply (verified_later l w)|].
    eapply Forall_impl; [exact Ho|]. intros q. by eapply (verified_later q w).
Qed.

Lemma execution_safe σ who : execution σ who -> safe (σ 0%nat) ->
  forall k k', (k <= k')%nat -> leD (data (now (σ k))) (data (now (σ k'))) /\ safe (σ k').
Proof.
  intros He H0 k k' Hk. assert (forall n, safe (σ n)) as Hs.
  { induction n as [|n IH]; [done|]. by eapply move_safe. }
  split; [|done]. induction Hk as [|k' _ IH]; [reflexivity|].
  etransitivity; [exact IH|]. by eapply move_safe.
Qed.
End Safe.

(** ** What a round brings about *)

Section Promise.
Variable leD : D -> D -> Prop.
Variable G : world D -> Prop.
Context `{HleD : !PreOrder leD}.

(** From data [d] on, whatever happens between its steps, [p] ends with [Q].
    [G] holds at each of its steps. *)
Fixpoint promise {A} (p : M D A) (d : D) (Q : A -> D -> Prop) : Prop :=
  match p with
  | Ret a => forall d', leD d d' -> Q a d'
  | Atomic op k => forall w, leD d (data w) -> G w -> leD (data w) (data (op w).2) ->
      promise (k (op w).1) (data (op w).2) Q
  end.

Lemma promise_later {A} (p : M D A) d d' Q : leD d d' -> promise p d Q -> promise p d' Q.
Proof.
  intros Hle. destruct p as [a|B op k]; simpl.
  - intros Hp d2 Hle2. apply Hp. by transitivity d'.
  - intros Hp w Hw. apply Hp. by transitivity d'.
Qed.

Lemma promise_ret {A} (a : A) d (Q : A -> D -> Prop) : (forall d', leD d d' -> Q a d') -> promise (Ret a) d Q.
Proof. done. Qed.

Lemma promise_bind {A B} (p : M D A) (f : A -> M D B) d Q :
  promise p d (fun a d => promise (f a) d Q) -> promise (bind p f) d Q.
Proof.
  revert d. induction p as [a|X op k IH]; intros d; simpl; [intros Hp; by apply Hp|].
  intros Hp w Hle Hg Hop. apply IH. by apply Hp.
Qed.

Lemma promise_mono {A} (p : M D A) d (Q Q' : A -> D -> Prop) :
  (forall a d, Q a d -> Q' a d) -> promise p d Q -> promise p d Q'.
Proof.
  intros HQ. revert d. induction p as [a|X op k IH]; intros d; simpl; [intros Hp d' Hle; by apply HQ, Hp|].
  intros Hp w Hle Hg Hop. apply IH. by apply Hp.
Qed.

(** What holds and stays true is promised by any program. *)
Lemma promise_stable {A} (p : M D A) d (Q : D -> Prop) :
  (forall d d', leD d d' -> Q d -> Q d') -> Q d -> promise p d (fun _ => Q).
Proof.
  intros HQ. revert d. induction p as [a|X op k IH]; intros d Hd; simpl; [intros d' Hle; by apply (HQ d)|].
  intros w Hle Hg Hop. apply IH. apply (HQ (data w)); [done|]. by apply (HQ d).
Qed.

(** With what is known of the answers. *)
Lemma promise_always {A} (p : M D A) d (P : A -> Prop) (Q : A -> D -> Prop) :
  always p P -> promise p d Q -> promise p d (fun a d => P a /\ Q a d).
Proof.
  revert d. induction p as [a|X op k IH]; intros d Ha Hp; simpl in *; [intros d' Hle; split; [done|by apply Hp]|].
  intros w Hle Hg Hop. apply IH; [apply Ha|]. by apply Hp.
Qed.

(** One step, such as a transaction. *)
Lemma promise_atomic {A} (op : world D -> A * world D) d (Q : A -> D -> Prop) :
  (forall w d', leD d (data w) -> G w -> leD (data w) (data (run (Atomic op Ret) w).2) ->
     leD (data (run (Atomic op Ret) w).2) d' -> Q (run (Atomic op Ret) w).1 d') ->
  promise (Atomic op Ret) d Q.
Proof.
  intros HQ w Hle Hg Hop d' Hle'. specialize (HQ w d' Hle Hg). simpl in HQ. destruct (op w). by apply HQ.
Qed.

(** A statement on a reliable platform. *)
Lemma promise_sql `{Platform} {A} uuids (f : Time -> string -> D -> res (A * D)) d (Q : res A -> D -> Prop) :
  reliable -> forallb uuid_ok uuids = true ->
  (forall w a d', leD d (data w) -> G w -> leD (data w) d' ->
     f (now_at (tick w)) (uuid_at (tick w)) (data w) = Ok (a, d') -> promise (Ret (Ok a)) d' Q) ->
  (forall w e, leD d (data w) -> G w ->
     f (now_at (tick w)) (uuid_at (tick w)) (data w) = Err e -> promise (Ret (Err e)) (data w) Q) ->
  promise (sql Pool uuids f) d Q.
Proof.
  intros Hr Hu Ho He. cbn [sql call promise]. intros w Hle Hg. rewrite Hr, Hu. cbn.
  destruct (f _ _ _) as [[a d']|e] eqn:Ef; cbn; intros Hop; [by eapply Ho|by eapply He].
Qed.

Lemma promise_for_each {X} (l : list X) (f : X -> M D unit) d x (Q : D -> Prop) :
  (forall d d', leD d d' -> Q d -> Q d') ->
  x ∈ l -> (forall d', leD d d' -> promise (f x) d' (fun _ => Q)) -> promise (for_each l f) d (fun _ => Q).
Proof.
  intros HQ. revert d. induction l as [|y l IH]; intros d Hin Hx; [by apply not_elem_of_nil in Hin|].
  cbn [for_each]. apply promise_bind. apply elem_of_cons in Hin as [<-|Hin].
  - eapply promise_mono; [|by apply Hx]. intros a d' Hd. by apply promise_stable.
  - assert (promise (f y) d (fun _ d' => leD d d')) as Hy.
    { apply (promise_stable _ _ (fun d' => leD d d')); [|reflexivity]. intros d1 d2 H1 H2. by transitivity d1. }
    eapply promise_mono; [|exact Hy]. intros a d' Hle. apply IH; [done|]. intros d2 Hle2. apply Hx. by transitivity d'.
Qed.

(** *** In a fair execution a promise is kept *)

Variable σ : nat -> service.
Variable who : nat -> bool.
Hypothesis Hex : execution σ who.
Hypothesis Hfair : fair who.
Hypothesis Hgrow : forall k k', (k <= k')%nat -> leD (data (now (σ k))) (data (now (σ k'))).

(** Until the loop moves, it stands still. *)
Lemma next_move k : exists k', (k <= k')%nat /\ who k' = true /\ loop (σ k') = loop (σ k).
Proof.
  destruct (Hfair k) as (k' & Hk & Hw). remember (k' - k)%nat as n eqn:En. revert k Hk En.
  induction n as [|n IH]; intros k Hk En.
  { replace k' with k in Hw by lia. by exists k. }
  destruct (who k) eqn:Ew; [by exists k|].
  pose proof (Hex k) as Hm. rewrite Ew in Hm.
  destruct (IH (S k)) as (k2 & Hk2 & Hw2 & Hl2); [lia..|].
  exists k2. split; [lia|]. split; [done|]. rewrite Hl2. by inversion Hm.
Qed.

Lemma kept k (Q : bool -> D -> Prop) :
  (forall k', (k <= k')%nat -> G (now (σ k'))) -> promise (loop (σ k)) (data (now (σ k))) Q ->
  exists k' b, (k <= k')%nat /\ loop (σ k') = Ret b /\ Q b (data (now (σ k'))).
Proof.
  remember (loop (σ k)) as p eqn:Ep. revert k Ep. induction p as [b|X op c IH]; intros k Ep Hg Hp.
  { exists k, b. split; [done|]. split; [done|]. apply Hp. reflexivity. }
  destruct (next_move k) as (k1 & Hk1 & Hw1 & Hl1). pose proof (Hex k1) as Hm. rewrite Hw1 in Hm.
  pose proof (Hgrow k1 (S k1) ltac:(lia)) as Hgr. pose proof (Hgrow k k1 Hk1) as Hgr0.
  specialize (Hg k1 Hk1) as Hg1.
  rewrite <- Ep in Hl1. destruct (σ k1) as [l1 ps1 w1]. simpl in *. subst l1.
  remember (σ (S k1)) as s1 eqn:Es. inversion Hm as [l l' ps w w' Hs| | | |]; subst. simpl in Hs.
  destruct (op w1) as [x w2] eqn:Eo. injection Hs as <- <-.
  destruct (IH x (S k1)) as (k' & b & Hk' & Hl' & HQ).
  - match goal with Hx : _ = σ (S k1) |- _ => by rewrite <- Hx end.
  - intros k' Hk'. apply Hg. lia.
  - match goal with Hx : _ = σ (S k1) |- _ => rewrite <- Hx in * end. simpl in *.
    specialize (Hp w1 Hgr0 Hg1). rewrite Eo in Hp. by apply Hp.
  - exists k', b. split; [lia|done].
Qed.

(** The next round begins. *)
Lemma round_begins k :
  (forall k', (k <= k')%nat -> G (now (σ k'))) ->
  (forall k b, loop (σ k) = Ret b -> b = false) ->
  exists k', (k <= k')%nat /\ loop (σ k') = body.
Proof.
  intros Hg Hne. destruct (kept k (fun _ _ => True)) as (k1 & b & Hk1 & Hl1 & _); [done| |].
  { by apply (promise_stable _ _ (fun _ => True)). }
  destruct (next_move k1) as (k2 & Hk2 & Hw2 & Hl2). pose proof (Hex k2) as Hm. rewrite Hw2 in Hm.
  rewrite Hl1, (Hne _ _ Hl1) in Hl2. exists (S k2). split; [lia|].
  remember (σ (S k2)) as s2 eqn:Es. destruct (σ k2) as [l2 ps2 w2]. simpl in Hl2. subst l2.
  by inversion Hm.
Qed.
End Promise.

End Executions.
