(* ===== verification/Locks.v ===== *)
(** * Goroutines that share mutexes

    [lprog] is a program with [sync.Mutex] operations; the pool of [lstep] blocks
    a goroutine at [Lock] while another one holds the mutex.  Three facts for
    programs that take their mutexes in the order of a rank and release the last
    one first: a mutex has one holder, some goroutine can always move until all
    have returned, and every execution is one of the same programs without their
    mutexes, in the sense of [Interleaving]. *)

From S2P Require Import Prelude Effects Interleaving.
From Stdlib Require Import Wellfounded.

Section Programs.
Context {W L : Type}.

Inductive lprog (A : Type) : Type :=
| LRet (a : A)
| LAtomic (B : Type) (op : W -> B * W) (k : B -> lprog A)
| Lock (l : L) (k : lprog A)
| Unlock (l : L) (k : lprog A).
Arguments LRet {_} _.
Arguments LAtomic {_ _} _ _.
Arguments Lock {_} _ _.
Arguments Unlock {_} _ _.

Fixpoint lbind {A B} (p : lprog A) (f : A -> lprog B) : lprog B :=
  match p with
  | LRet a => f a
  | LAtomic op k => LAtomic op (fun b => lbind (k b) f)
  | Lock l k => Lock l (lbind k f)
  | Unlock l k => Unlock l (lbind k f)
  end.

(** A program that takes no mutex. *)
Fixpoint lift {A} (p : prog W A) : lprog A :=
  match p with
  | Ret a => LRet a
  | Atomic op k => LAtomic op (fun b => lift (k b))
  end.

(** [mu.Lock(); defer mu.Unlock()]. *)
Definition with_lock {A} (l : L) (p : lprog A) : lprog A :=
  Lock l (lbind p (fun a => Unlock l (LRet a))).

(** The mutexes a goroutine holds, the last one first, and what it has left to do. *)
Definition goroutine (A : Type) : Type := (list L * lprog A)%type.

Inductive lstep {A} : list (goroutine A) * W -> list (goroutine A) * W -> Prop :=
| lstep_atomic gs w i hs B (op : W -> B * W) k b w' :
    gs !! i = Some (hs, LAtomic op k) -> op w = (b, w') ->
    lstep (gs, w) (<[i := (hs, k b)]> gs, w')
| lstep_lock gs w i hs l k :
    gs !! i = Some (hs, Lock l k) -> Forall (fun g => l ∉ g.1) gs ->
    lstep (gs, w) (<[i := (l :: hs, k)]> gs, w)
| lstep_unlock gs w i hs l k :
    gs !! i = Some (l :: hs, Unlock l k) ->
    lstep (gs, w) (<[i := (hs, k)]> gs, w).

(** ** Mutual exclusion *)

Definition exclusive {A} (gs : list (goroutine A)) : Prop :=
  forall i j g g' l, gs !! i = Some g -> gs !! j = Some g' -> l ∈ g.1 -> l ∈ g'.1 -> i = j.

Lemma exclusive_step {A} (gs gs' : list (goroutine A)) w w' :
  lstep (gs, w) (gs', w') -> exclusive gs -> exclusive gs'.
Proof.
  intros Hs He.
  assert (forall i hs (p p' : lprog A) hs', gs !! i = Some (hs, p) ->
    (forall l, l ∈ hs' -> l ∈ hs \/ Forall (fun g => l ∉ g.1) gs) -> exclusive (<[i := (hs', p')]> gs)) as Hk.
  { intros i hs p p' hs' Hi Hh a b g g' l Ha Hb Hl Hl'.
    apply list_lookup_insert_Some in Ha as [(<- & <- & _)|[Na Ha]];
      apply list_lookup_insert_Some in Hb as [(<- & <- & _)|[Nb Hb]]; simpl in *; try done.
    - destruct (Hh l Hl) as [Hl2|Hf]; [by apply (He i b (hs, p) g' l)|].
      rewrite Forall_lookup in Hf. by destruct (Hf b g').
    - destruct (Hh l Hl') as [Hl2|Hf]; [by apply (He a i g (hs, p) l)|].
      rewrite Forall_lookup in Hf. by destruct (Hf a g).
    - by apply (He a b g g' l). }
  inversion Hs; subst; eapply Hk; try done; intros l' Hl'; [by left| |by left; right].
  apply elem_of_cons in Hl' as [->|]; [by right|by left].
Qed.

(** ** Lock order *)

Variable rank : L -> nat.

Section Discipline.
Context {A : Type}.

(** Holding [hs], the program takes mutexes of growing rank, releases them in the
    opposite order, and ends with [Q]. *)
Fixpoint disc (hs : list L) (p : lprog A) (Q : list L -> Prop) : Prop :=
  match p with
  | LRet _ => Q hs
  | LAtomic op k => forall b, disc hs (k b) Q
  | Lock l k => (forall l', l' ∈ hs -> (rank l' < rank l)%nat) /\ disc (l :: hs) k Q
  | Unlock l k => match hs with
                  | l' :: hs' => l' = l /\ disc hs' k Q
                  | [] => False
                  end
  end.
End Discipline.

Lemma disc_bind {A B} (p : lprog A) (f : A -> lprog B) hs Q Q' :
  disc hs p Q -> (forall a hs', Q hs' -> disc hs' (f a) Q') -> disc hs (lbind p f) Q'.
Proof.
  revert hs. induction p as [a|X op k IH|l k IH|l k IH]; intros hs Hp Hf; simpl in *.
  - by apply Hf.
  - intros b. by apply IH.
  - destruct Hp. split; [done|by apply IH].
  - destruct hs as [|l' hs]; [done|]. destruct Hp. split; [done|by apply IH].
Qed.

Lemma disc_lift {A} (p : prog W A) hs (Q : list L -> Prop) : Q hs -> disc hs (lift p) Q.
Proof. intros HQ. induction p as [a|X op k IH]; simpl; auto. Qed.

(** A call that may be made while mutexes below [low] are held, and gives back all
    it takes. *)
Definition balanced {A} (low : nat) (p : lprog A) : Prop :=
  forall hs, (forall l, l ∈ hs -> (rank l < low)%nat) -> disc hs p (fun hs' => hs' = hs).

Lemma balanced_ret {A} low (a : A) : balanced low (LRet a).
Proof. by intros hs _. Qed.

Lemma balanced_lift {A} low (p : prog W A) : balanced low (lift p).
Proof. intros hs _. by apply disc_lift. Qed.

Lemma balanced_bind {A B} low (p : lprog A) (f : A -> lprog B) :
  balanced low p -> (forall a, balanced low (f a)) -> balanced low (lbind p f).
Proof.
  intros Hp Hf hs Hh. eapply disc_bind; [by apply Hp|]. intros a hs' ->. by apply Hf.
Qed.

Lemma balanced_lock {A} low l (p : lprog A) :
  (low <= rank l)%nat -> balanced (S (rank l)) p -> balanced low (with_lock l p).
Proof.
  intros Hl Hp hs Hh. simpl. split; [intros l' Hin; specialize (Hh _ Hin); lia|].
  eapply disc_bind; [apply Hp|].
  - intros l' [->|Hin]%elem_of_cons; [lia|]. specialize (Hh _ Hin). lia.
  - by intros a hs' ->.
Qed.

Lemma balanced_mono {A} low low' (p : lprog A) : (low' <= low)%nat -> balanced low p -> balanced low' p.
Proof. intros Hl Hp hs Hh. apply Hp. intros l Hin. specialize (Hh _ Hin). lia. Qed.

Definition disciplined {A} (g : goroutine A) : Prop := disc g.1 g.2 (fun hs => hs = []).

Lemma disciplined_step {A} (gs gs' : list (goroutine A)) w w' :
  lstep (gs, w) (gs', w') -> Forall disciplined gs -> Forall disciplined gs'.
Proof.
  intros Hs Hd. inversion Hs; subst; apply Forall_insert; try done;
    rewrite Forall_lookup in Hd; match goal with Hi : _ !! _ = Some _ |- _ => apply Hd in Hi as Hx end;
    unfold disciplined in *; simpl in *; [done|by destruct Hx..].
Qed.

(** ** No deadlock *)

Variable top : nat.
Hypothesis rank_top : forall l, (rank l < top)%nat.
Context `{!EqDecision L}.

Definition returned {A} (g : goroutine A) : Prop := exists a, g.2 = LRet a.

Lemma blocked_moves {A} n l (gs : list (goroutine A)) w i hs k :
  (top - rank l < n)%nat -> Forall disciplined gs -> gs !! i = Some (hs, Lock l k) ->
  exists y, lstep (gs, w) y.
Proof.
  revert l i hs k. induction n as [|n IH]; intros l i hs k Hn Hd Hi; [lia|].
  destruct (decide (Exists (fun g => l ∈ g.1) gs)) as [He|Hne].
  - apply Exists_exists in He as ([hs' p] & (j & Hj)%list_elem_of_lookup & Hl). simpl in Hl.
    pose proof (proj1 (Forall_lookup _ _) Hd _ _ Hj) as Hp. unfold disciplined in Hp. simpl in Hp.
    destruct p as [a|X op k'|l' k'|l' k']; simpl in Hp.
    + subst hs'. by apply not_elem_of_nil in Hl.
    + destruct (op w) as [b w'] eqn:E. eexists. by eapply lstep_atomic.
    + destruct Hp as [Hr _]. specialize (Hr _ Hl). eapply (IH l'); [|done..].
      pose proof (rank_top l'). lia.
    + destruct hs' as [|l2 hs']; [done|]. destruct Hp as [-> _]. eexists. by eapply lstep_unlock.
  - eexists. eapply lstep_lock; [done|]. apply Forall_forall. intros g Hg Hl.
    apply Hne, Exists_exists. eauto.
Qed.

Lemma no_deadlock {A} (gs : list (goroutine A)) w :
  Forall disciplined gs -> Forall returned gs \/ exists y, lstep (gs, w) y.
Proof.
  intros Hd.
  assert (forall g : goroutine A, {returned g} + {~ returned g}) as Hdec.
  { intros [hs p]. destruct p; [left; by eexists|right; by intros [? ?]..]. }
  destruct (Forall_Exists_dec _ _ Hdec gs) as [Hf|He]; [by left|right].
  apply Exists_exists in He as ([hs p] & (i & Hi)%list_elem_of_lookup & Hn).
  pose proof (proj1 (Forall_lookup _ _) Hd _ _ Hi) as Hp. unfold disciplined in Hp. simpl in Hp.
  destruct p as [a|X op k|l k|l k]; simpl in Hp.
  - exfalso. apply Hn. by exists a.
  - destruct (op w) as [b w'] eqn:E. eexists. by eapply lstep_atomic.
  - eapply (blocked_moves (S (top - rank l)) l); [lia|done..].
  - destruct hs as [|l2 hs]; [done|]. destruct Hp as [-> _]. eexists. by eapply lstep_unlock.
Qed.

(** ** An execution along a schedule: a goroutine that is blocked loses its turn *)

Definition lfire {A} (i : nat) (x : list (goroutine A) * W) : list (goroutine A) * W :=
  match x.1 !! i with
  | None => x
  | Some (hs, p) =>
      match p with
      | LRet _ => x
      | LAtomic op k => let '(b, w') := op x.2 in (<[i := (hs, k b)]> x.1, w')
      | Lock l k =>
          if decide (Forall (fun g => l ∉ g.1) x.1) then (<[i := (l :: hs, k)]> x.1, x.2) else x
      | Unlock l k =>
          match hs with
          | l' :: hs => if decide (l' = l) then (<[i := (hs, k)]> x.1, x.2) else x
          | [] => x
          end
      end
  end.

Fixpoint run_locked {A} (order : list nat) (x : list (goroutine A) * W) : list (goroutine A) * W :=
  match order with
  | [] => x
  | i :: order => run_locked order (lfire i x)
  end.

Lemma run_locked_steps {A} order (x : list (goroutine A) * W) : rtc lstep x (run_locked order x).
Proof.
  revert x. induction order as [|i order IH]; intros x; simpl; [reflexivity|].
  etransitivity; [|apply IH]. destruct x as [gs w]. unfold lfire. simpl.
  destruct (gs !! i) as [[hs p]|] eqn:Hi; [|done]. destruct p as [a|B op k|l k|l k]; [done| | |].
  - destruct (op w) as [b w'] eqn:E. apply rtc_once. eapply lstep_atomic; eassumption.
  - case_decide; [|done]. apply rtc_once. eapply lstep_lock; eassumption.
  - destruct hs as [|l' hs]; [done|]. case_decide; [subst|done]. apply rtc_once. eapply lstep_unlock; eassumption.
Qed.

(** ** Executions end *)

Definition lprog_below {A} (p' p : lprog A) : Prop :=
  match p with
  | LRet _ => False
  | LAtomic op k => exists b, p' = k b
  | Lock _ k | Unlock _ k => p' = k
  end.

Lemma lprog_below_wf {A} : well_founded (@lprog_below A).
Proof.
  intros p. induction p as [a|B op k IH|l k IH|l k IH]; constructor; simpl;
    [done|intros p' (b & ->); apply IH|by intros p' ->..].
Qed.

Lemma lstep_wf {A} : well_founded (fun y x : list (goroutine A) * W => lstep x y).
Proof.
  assert (well_founded (fun g g' : goroutine A => lprog_below g.2 g'.2)) as Hg.
  { apply (wf_inverse_image _ _ lprog_below snd), lprog_below_wf. }
  intros [gs w]. revert w. induction (one_below_wf _ Hg gs) as [gs _ IH]. intros w.
  constructor. intros [gs' w'] Hs. inversion Hs; subst; apply IH; do 3 eexists;
    (split; [eassumption|]); (split; [|reflexivity]); simpl; by try eexists.
Qed.

(** ** The same programs without their mutexes *)

Fixpoint erases {A} (p : prog W A) (lp : lprog A) : Prop :=
  match lp with
  | LRet a => p = Ret a
  | LAtomic op k =>
      forall w b w', op w = (b, w') -> exists p', pstep p w = Some (p', w') /\ erases p' (k b)
  | Lock _ k | Unlock _ k => erases p k
  end.

Lemma erases_lift {A} (p : prog W A) : erases p (lift p).
Proof.
  induction p as [a|B op k IH]; simpl; [done|]. intros w b w' Hop. rewrite Hop. by eexists.
Qed.

Lemma erases_bind {A B} (p : prog W A) lp (f : A -> prog W B) lf :
  erases p lp -> (forall a, erases (f a) (lf a)) -> erases (bind p f) (lbind lp lf).
Proof.
  revert p. induction lp as [a|X op k IH|l k IH|l k IH]; intros p; simpl; [by intros -> Hf; apply Hf|..|auto|auto].
  intros Hp Hf w b w' Hop. destruct (Hp _ _ _ Hop) as (p' & Hp' & He).
  exists (bind p' f). split; [by apply pstep_bind|auto].
Qed.

Lemma erases_with_lock {A} l (p : prog W A) lp : erases p lp -> erases p (with_lock l lp).
Proof.
  unfold with_lock. simpl. revert p.
  induction lp as [a|X op k IH|l' k IH|l' k IH]; intros p; simpl; [done|..|auto|auto].
  intros Hp w b w' Hop. destruct (Hp _ _ _ Hop) as (p' & Hp' & He). eauto.
Qed.

Lemma lstep_erases {A} (gs gs' : list (goroutine A)) w w' ps :
  lstep (gs, w) (gs', w') -> Forall2 (fun p g => erases p g.2) ps gs ->
  exists ps', rtc pool_step (ps, w) (ps', w') /\ Forall2 (fun p g => erases p g.2) ps' gs'.
Proof.
  intros Hs Hf. inversion Hs as [? ? i hs B op k b ? Hi Hop|? ? i hs l k Hi _|? ? i hs l k Hi]; subst;
    destruct (Forall2_lookup_r _ _ _ _ _ Hf Hi) as (p & Hp & He); simpl in He.
  - destruct (He _ _ _ Hop) as (p' & Hp' & He').
    exists (<[i := p']> ps). split; [|by apply Forall2_insert].
    apply rtc_once. by econstructor.
  - exists ps. split; [done|]. rewrite <- (list_insert_id ps i p) by done. by apply Forall2_insert.
  - exists ps. split; [done|]. rewrite <- (list_insert_id ps i p) by done. by apply Forall2_insert.
Qed.

Lemma lsteps_erase {A} (gs gs' : list (goroutine A)) w w' ps :
  rtc lstep (gs, w) (gs', w') -> Forall2 (fun p g => erases p g.2) ps gs ->
  exists ps', rtc pool_step (ps, w) (ps', w') /\ Forall2 (fun p g => erases p g.2) ps' gs'.
Proof.
  intros Hr. remember (gs, w) as x eqn:Ex. remember (gs', w') as y eqn:Ey.
  revert gs w ps Ex. induction Hr as [x|x z y Hs Hr IH]; intros gs w ps -> Hf.
  - injection Ey as -> ->. by exists ps.
  - destruct z as [gs1 w1]. destruct (lstep_erases _ _ _ _ _ Hs Hf) as (ps1 & Hr1 & Hf1).
    destruct (IH Ey _ _ ps1 eq_refl Hf1) as (ps' & Hr2 & Hf'). exists ps'.
    split; [by etransitivity|done].
Qed.

End Programs.
Arguments lprog : clear implicits.
Arguments goroutine : clear implicits.
Arguments LRet {_ _ _} _.
Arguments LAtomic {_ _ _ _} _ _.
Arguments Lock {_ _ _} _ _.
Arguments Unlock {_ _ _} _ _.
