(* ===== verification/Amqp.v ===== *)
(** * pkg/amqp: envelopes, publishing with retries, resilient consumption

    The broker is not part of the repository.  The code publishes without confirms:
    what it knows of a message is that it was written to the socket ([handed]),
    never that the broker kept it.  A call fails with or without its effect (the
    platform's faults), and a message that was handed over may be lost without an
    error: it is then one that no delivery ever picks.  The broker also drops the
    connection or a channel at any time.
    The functions are given here without their mutexes, so that their steps may
    interleave in more ways than in the code; Publishing adds the mutexes.  The
    consumer loop is the one of a single worker; Workers has the general one. *)

From S2P Require Import Prelude Effects Json JsonWire Events Interleaving.
Open Scope go_scope.

(** ** topology.go *)

Definition ExchangeAlerts : string := "alerts".
Definition ExchangeIncidents : string := "incidents".
Definition ExchangeEscalations : string := "escalations".

Definition QueueAlertsIncident : string := "alerts.incident".
Definition QueueIncidentsEscalation : string := "incidents.escalation".
Definition QueueEscalationsNotification : string := "escalations.notification".

Definition RoutingKeyAlertReceived : string := "alert.received".
Definition RoutingKeyIncidentCreated : string := "incident.created".
Definition RoutingKeyIncidentUpdated : string := "incident.updated".
Definition RoutingKeyEscalationTriggered : string := "escalation.triggered".
Definition RoutingKeyEscalationExhausted : string := "escalation.exhausted".

(** ** The broker as the process sees it *)

(** A body is the value of its bytes ([Wrap_Unwrap] has the bytes). *)
Record message := Message { exchange : string; routingKey : string; body : json }.

Record netstate := Net {
  conn : bool;               (* [c.conn != nil] *)
  ch : bool;                 (* [p.ch != nil] *)
  probe_up : bool;           (* [Probe.up] *)
  declared : list (string * string * string);   (* bindings: queue, exchange, key *)
  handed : list message    (* what was written to the broker, in order *)
}.

(** The part of a service's world this package works on. *)
Class Broker (D : Type) := {
  net : D -> netstate;
  set_net : netstate -> D -> D;
  net_set_net : forall n d, net (set_net n d) = n;
  set_net_net : forall d, set_net (net d) d = d;
  set_net_set_net : forall n n' d, set_net n (set_net n' d) = set_net n d
}.

(** ** envelope.go *)

Module Envelope.
Record t := mk {
  ID : string;
  Version : string;
  Type_ : string;
  TenantID : string;
  OccurredAt : Time;
  Payload : option json        (* a [json.RawMessage]; [None] is nil *)
}.

Definition zero : t := mk "" "" "" "" Alert.zero_time None.

Definition json_fields `{TimeText} : fields t := [
  field "id" ID (fun v a => mk v (Version a) (Type_ a) (TenantID a) (OccurredAt a) (Payload a)) dec_string;
  field "version" Version (fun v a => mk (ID a) v (Type_ a) (TenantID a) (OccurredAt a) (Payload a)) dec_string;
  field "type" Type_ (fun v a => mk (ID a) (Version a) v (TenantID a) (OccurredAt a) (Payload a)) dec_string;
  field "tenant_id" TenantID (fun v a => mk (ID a) (Version a) (Type_ a) v (OccurredAt a) (Payload a)) dec_string;
  field "occurred_at" OccurredAt (fun v a => mk (ID a) (Version a) (Type_ a) (TenantID a) v (Payload a)) dec_time;
  field "payload" Payload (fun v a => mk (ID a) (Version a) (Type_ a) (TenantID a) (OccurredAt a) v) dec_raw].

Definition decode `{TimeText} : decoder t := dec_struct json_fields.

Definition encode `{TimeText} (e : t) : option json :=
  occurred ← time_MarshalJSON (OccurredAt e);
  Some (JObj [("id", JStr (ID e)); ("version", JStr (Version e)); ("type", JStr (Type_ e));
    ("tenant_id", JStr (TenantID e)); ("occurred_at", JStr occurred); ("payload", default JNull (Payload e))]).

Definition envelopeVersion : string := "1".

Definition Wrap `{Platform} `{TimeText} {D A} `{Events.Payload A} (eventType tenantID : string)
    (payload : A) : M D (res json) :=
  match payload_encode payload with
  | None => Ret (Err (Effects.Wrap "envelope: marshal payload" (ErrNew "json: error")))
  | Some raw =>
      let! id := uuid_NewString in
      let! now := time_Now in
      Ret (match encode (mk id envelopeVersion eventType tenantID now (Some raw)) with
           | Some j => Ok j
           | None => Err (ErrNew "json: error calling MarshalJSON for type time.Time")
           end)
  end.

Definition DecodePayload {A} `{Events.Payload A} (env : t) (dst : A) : res A :=
  match Decode payload_decode (Payload env) dst with
  | Ok a => Ok a
  | Err e => Err (Effects.Wrap "envelope: unmarshal payload" e)
  end.

(** [None] is a text that is not JSON. *)
Definition Unwrap `{TimeText} {A} `{Events.Payload A} (data : option json) (dst : A) : res (t * A) :=
  match Decode decode data zero with
  | Err e => Err (Effects.Wrap "envelope: unmarshal" e)
  | Ok env =>
      match DecodePayload env dst with
      | Ok a => Ok (env, a)
      | Err e => Err e
      end
  end.
End Envelope.

Section Amqp.
Context `{Platform} `{TimeText} {D : Type} `{Broker D}.

Definition upd_net (f : netstate -> netstate) (d : D) : D := set_net (f (net d)) d.

Definition set_conn (b : bool) (n : netstate) : netstate :=
  Net b (ch n) (probe_up n) (declared n) (handed n).

Definition set_ch (b : bool) (n : netstate) : netstate :=
  Net (conn n) b (probe_up n) (declared n) (handed n).

Definition set_probe (b : bool) (n : netstate) : netstate :=
  Net (conn n) (ch n) b (declared n) (handed n).

Definition add_binding (b : string * string * string) (n : netstate) : netstate :=
  Net (conn n) (ch n) (probe_up n) (if decide (b ∈ declared n) then declared n else declared n ++ [b])
    (handed n).

Definition hand (m : message) (n : netstate) : netstate :=
  Net (conn n) (ch n) (probe_up n) (declared n) (handed n ++ [m]).

(** A call to the broker that changes what [f] says when it takes effect.  For a
    publication the effect is that the frames are on their way: [PublishWithContext]
    without confirms returns after the write. *)
Definition net_call (f : netstate -> netstate) : M D (res unit) :=
  call (fun _ _ d => Ok (tt, upd_net f d)).

(** A change of the process's own variables. *)
Definition net_local (f : netstate -> netstate) : M D unit :=
  local_step (fun d => (tt, upd_net f d)).

(** ** amqp.go: Connection *)

(** [amqp.Dial]: a connection nobody knows of yet. *)
Definition amqp_Dial : M D (res unit) := net_call id.

Definition dial : M D (res unit) :=
  let? _ := amqp_Dial wrap "amqp dial" in
  let! _ := net_local (set_conn true) in
  Ret (Ok tt).

(** [c.current() != nil]. *)
Definition current : M D bool :=
  Atomic (fun w => (conn (net (data w)) && negb (conn_closed_at (tick w)),
                    World (S (tick w)) (data w))) Ret.

Definition Ready : M D bool := current.

Fixpoint dial_loop (n : nat) (i : Z) (err : Effects.err) : M D (res unit) :=
  match n with
  | O => Ret (Err (Wrap "amqp: could not reconnect" err))
  | S n =>
      let! r := dial in
      match r with
      | Ok _ => Ret (Ok tt)
      | Err e =>
          let! stop := sleep_or_Done (Z.shiftl 1 i * Second) in
          if stop then Ret (Err (ErrNew "context canceled")) else dial_loop n (i + 1) e
      end
  end.

Definition dialWithRetry (attempts : nat) : M D (res unit) :=
  dial_loop attempts 0 (ErrNew "<nil>").

Definition reconnect : M D (res unit) :=
  let! up := current in
  if up then Ret (Ok tt) else dialWithRetry 5.

(** [conn.Channel()]: a new channel of the broker. *)
Definition conn_Channel : M D (res unit) := net_call id.

Definition Channel : M D (res unit) :=
  let! up := current in
  if up then conn_Channel
  else
    let? _ := reconnect in
    let! up := current in
    if up then conn_Channel
    else Ret (Err (ErrNew "amqp: connection unavailable after reconnect")).

(** Closing a connection that is up; the pointer stays. *)
Definition Connection_Close : M D (res unit) :=
  let! up := current in
  if up then net_call id else Ret (Ok tt).

(** ** amqp.go: Publisher *)

Definition channel : M D (res unit) :=
  let! cached := Atomic (fun w => (ch (net (data w)) && negb (chan_closed_at (tick w)),
                                   World (S (tick w)) (data w))) Ret in
  if cached then Ret (Ok tt)
  else
    let? _ := Channel in
    let! _ := net_local (set_ch true) in
    Ret (Ok tt).

(** The error of closing the channel is ignored. *)
Definition resetChannel : M D unit :=
  let! cached := local_step (fun d => (ch (net d), d)) in
  if cached then
    let! _ := net_call id in
    net_local (set_ch false)
  else Ret tt.

(** Closing forgets the channel, also when it is already closed. *)
Definition Publisher_Close : M D (res unit) :=
  let! cached := Atomic (fun w => (ch (net (data w)) && negb (chan_closed_at (tick w)),
                                   World (S (tick w)) (data w))) Ret in
  if cached then
    let! err := net_call id in
    let! _ := net_local (set_ch false) in
    Ret err
  else
    let! _ := net_local (set_ch false) in
    Ret (Ok tt).

Definition publish (m : message) : M D (res unit) :=
  let? _ := channel in
  let! r := net_call (hand m) in
  match r with
  | Err e => let! _ := resetChannel in Ret (Err e)
  | Ok _ => Ret (Ok tt)
  end.

Fixpoint publish_loop (n : nat) (attempt : Z) (lastErr : err) (m : message) : M D (res unit) :=
  match n with
  | O => Ret (Err (Wrap "publish after retries" lastErr))
  | S n =>
      let! r := publish m in
      match r with
      | Ok _ => Ret (Ok tt)
      | Err e =>
          let! stop := sleep_or_Done (Z.shiftl 1 attempt * Second) in
          if stop then Ret (Err (ErrNew "context canceled")) else publish_loop n (attempt + 1) e m
      end
  end.

Definition publishWithRetry (exchange routingKey : string) (body : json) : M D (res unit) :=
  publish_loop 3 0 (ErrNew "<nil>") (Message exchange routingKey body).

(** The metrics are left out. *)
Definition Publish (exchange routingKey : string) (body : json) : M D (res unit) :=
  publishWithRetry exchange routingKey body.

(** ** topology.go: DeclareTopology *)

Definition bindings : list (string * string * string) :=
  [(QueueAlertsIncident, ExchangeAlerts, RoutingKeyAlertReceived);
   (QueueIncidentsEscalation, ExchangeIncidents, "#");
   (QueueEscalationsNotification, ExchangeEscalations, "#")].

Definition DeclareTopology : M D (res unit) :=
  let? _ := for_res [ExchangeAlerts; ExchangeIncidents; ExchangeEscalations] (fun _ => net_call id) in
  for_res bindings (fun b =>
    let? _ := net_call id in
    net_call (add_binding b)).

(** ** consume.go *)

Definition Drop (e : err) : err := Wrap2 ErrDrop e.

(** How a handler ends, and how a delivery is settled. *)
Inductive handled :=
| Panicked
| Returned (r : res unit).

Inductive outcome :=
| Ack
| Nack (requeue : bool).

Definition Handler : Type := Envelope.t -> M D handled.

(** [None] is a body that is not JSON. *)
Definition process (h : Handler) (body : option json) : M D outcome :=
  match Decode Envelope.decode body Envelope.zero with
  | Err _ => Ret (Nack false)
  | Ok env =>
      let! r := h env in
      match r with
      | Panicked => Ret (Nack false)
      | Returned (Ok _) => Ret Ack
      | Returned (Err e) => if errors_Is e ErrDrop then Ret (Nack false) else Ret (Nack true)
      end
  end.

Record ConsumeOptions := {
  Concurrency : Z;
  Prefetch : Z;
  HandlerTimeout : Duration
}.

Definition concurrency (o : ConsumeOptions) : Z :=
  if Concurrency o <? 1 then 1 else Concurrency o.

Definition prefetch (o : ConsumeOptions) : Z :=
  if 0 <? Prefetch o then Prefetch o else concurrency o.

Definition handlerTimeout (o : ConsumeOptions) : Duration :=
  if 0 <? HandlerTimeout o then HandlerTimeout o else 30 * Second.

(** What the [select] of the delivery loop sees. *)
Inductive selected :=
| SelDone
| SelClosed
| SelMsg (body : option json).

Variable select_at : nat -> selected.

Definition select : M D selected :=
  Atomic (fun w => (select_at (tick w), World (S (tick w)) (data w))) Ret.

(** The loop with [Concurrency] 1: [g.Go] waits for the worker, so messages are
    handled one after the other.  [None] is running out of fuel; the list is how
    each delivery was settled. *)
Fixpoint delivery_loop (fuel : nat) (h : Handler) : M D (option (list outcome * res unit)) :=
  match fuel with
  | O => Ret None
  | S fuel =>
      let! s := select in
      match s with
      | SelDone => Ret (Some ([], Ok tt))
      | SelClosed => Ret (Some ([], Err (ErrNew "consumer: channel closed")))
      | SelMsg body =>
          let! o := process h body in
          let! r := delivery_loop fuel h in
          Ret (match r with Some (os, e) => Some (o :: os, e) | None => None end)
      end
  end.

Definition consumeOnce (fuel : nat) (h : Handler) : M D (option (res unit)) :=
  let! c := Channel in
  match c with
  | Err e => Ret (Some (Err (Wrap "consumer: channel" e)))
  | Ok _ =>
      let! r :=
        (let! q := net_call id in
         match q with
         | Err e => Ret (Some (Err (Wrap "consumer: qos" e)))
         | Ok _ =>
             let! s := net_call id in
             match s with
             | Err e => Ret (Some (Err (Wrap "consumer: consume" e)))
             | Ok _ =>
                 let! _ := net_local (set_probe true) in
                 let! r := delivery_loop fuel h in
                 let! _ := net_local (set_probe false) in
                 Ret (match r with Some (_, e) => Some e | None => None end)
             end
         end) in
      let! _ := net_call id in   (* the deferred [ch.Close()] *)
      Ret r
  end.

Definition maxBackoff : Duration := 30 * Second.

Definition next_backoff (backoff : Duration) : Duration :=
  if backoff <? maxBackoff then
    let backoff := int64 (backoff * 2) in
    if maxBackoff <? backoff then maxBackoff else backoff
  else backoff.

(** The supervisor: one unit of [fuel] per attempt. *)
Fixpoint consume_loop (fuel : nat) (h : Handler) (backoff : Duration) : M D (option (res unit)) :=
  match fuel with
  | O => Ret None
  | S fuel =>
      let! stop := ctx_Err in
      if stop then Ret (Some (Ok tt))
      else
        let! _ := consumeOnce fuel h in
        let! stop := ctx_Err in
        if stop then Ret (Some (Ok tt))
        else
          let! stop := sleep_or_Done backoff in
          if stop then Ret (Some (Ok tt)) else consume_loop fuel h (next_backoff backoff)
  end.

Definition Consume (fuel : nat) (h : Handler) : M D (option (res unit)) :=
  let! r := consume_loop fuel h Second in
  let! _ := net_local (set_probe false) in
  Ret r.

(** ** probe.go *)

(** [None] is a nil probe. *)
Definition Healthy (p : option bool) : bool := match p with None => true | Some up => up end.

End Amqp.

(** ** Lemmas: what publishing does to the world *)

Section Publishing.
Context `{Platform} `{TimeText} {D : Type} `{Broker D}.

(** Steps that leave alone everything but the process's connection state, and
    steps that also hand one message to the broker. *)
Definition net_quiet (w w' : world D) : Prop :=
  exists n, data w' = set_net n (data w) /\ handed n = handed (net (data w)).

Definition net_emit (m : message) (w w' : world D) : Prop :=
  exists n, data w' = set_net n (data w) /\ handed n = handed (net (data w)) ++ [m].

Lemma net_quiet_same w w' : data w' = data w -> net_quiet w w'.
Proof. intros E. exists (net (data w)). by rewrite set_net_net. Qed.

Lemma net_quiet_trans w1 w2 w3 : net_quiet w1 w2 -> net_quiet w2 w3 -> net_quiet w1 w3.
Proof.
  intros (n & E & A) (n' & E' & A'). exists n'.
  rewrite E', E, set_net_set_net. split; [done|]. by rewrite A', E, net_set_net, A.
Qed.

Lemma net_quiet_upd f w t :
  (forall n, handed (f n) = handed n) -> net_quiet w (World t (upd_net f (data w))).
Proof. intros Hf. exists (f (net (data w))). done. Qed.

Variable emit : world D -> world D -> Prop.
Local Abbreviation quiet_prog p := (budget net_quiet emit p 0).

Lemma quiet_net_call f :
  (forall n, handed (f n) = handed n) -> quiet_prog (net_call f).
Proof.
  intros Hf w. left. split; [|done]. simpl.
  destruct (fault_at (tick w)) as [[]|]; simpl; auto using net_quiet_same, net_quiet_upd.
Qed.

Lemma quiet_net_local f :
  (forall n, handed (f n) = handed n) -> quiet_prog (net_local f).
Proof. intros Hf w. left. split; [|done]. by apply net_quiet_upd. Qed.

Lemma quiet_read {A} (f : world D -> A) :
  quiet_prog (Atomic (fun w => (f w, World (S (tick w)) (data w))) Ret).
Proof. intros w. left. split; [|done]. by apply net_quiet_same. Qed.

Lemma quiet_local_read {A} (f : D -> A) : quiet_prog (local_step (fun d => (f d, d))).
Proof. intros w. left. split; [|done]. by apply net_quiet_same. Qed.

Lemma quiet_dial : quiet_prog dial.
Proof.
  unfold dial, amqp_Dial. apply budget_quiet_bind; [by apply quiet_net_call|]. intros []; [|done].
  apply budget_quiet_bind; [by apply quiet_net_local|done].
Qed.

Lemma quiet_dial_loop n i e : quiet_prog (dial_loop n i e).
Proof.
  revert i e. induction n as [|n IH]; intros i e; [done|]; cbn [dial_loop publish_loop].
  apply budget_quiet_bind; [apply quiet_dial|]. intros [u|e']; [done|].
  apply budget_quiet_bind; [apply quiet_read|]. intros []; [done|apply IH].
Qed.

Lemma quiet_Channel : quiet_prog Channel.
Proof.
  unfold Channel, reconnect, conn_Channel, current.
  apply budget_quiet_bind; [apply quiet_read|]. intros []; [by apply quiet_net_call|].
  apply budget_quiet_bind.
  - apply budget_quiet_bind; [apply quiet_read|]. intros []; [done|apply quiet_dial_loop].
  - intros []; [|done]. apply budget_quiet_bind; [apply quiet_read|].
    intros []; [by apply quiet_net_call|done].
Qed.

Lemma quiet_channel : quiet_prog channel.
Proof.
  unfold channel. apply budget_quiet_bind; [apply quiet_read|]. intros []; [done|].
  apply budget_quiet_bind; [apply quiet_Channel|]. intros []; [|done].
  apply budget_quiet_bind; [by apply quiet_net_local|]. done.
Qed.

Lemma quiet_resetChannel : quiet_prog resetChannel.
Proof.
  unfold resetChannel. apply budget_quiet_bind; [apply quiet_local_read|]. intros []; [|done].
  apply budget_quiet_bind; [by apply quiet_net_call|]. intros _. by apply quiet_net_local.
Qed.

End Publishing.

(** A program that only concerns the connection of its process. *)
Definition housekeeping `{Broker D} (p : M D unit) : Prop := budget net_quiet (fun _ _ => False) p 0.

Section Delivery.
Context `{Platform} `{TimeText} {D : Type} `{Broker D}.

(** One attempt emits the message at most once. *)
Lemma publish_budget m : budget net_quiet (net_emit m) (publish m) 1.
Proof.
  unfold publish. apply budget_quiet_bind; [apply quiet_channel|]. intros []; [|done].
  apply (budget_bind _ _ _ _ 1 0).
  - intros w. simpl.
    destruct (fault_at (tick w)) as [[e|e]|]; simpl; [left|right|right];
      (split; [|done]); [by apply net_quiet_same|by eexists..].
  - intros []; [done|]. apply budget_quiet_bind; [apply quiet_resetChannel|done].
Qed.

Lemma publish_loop_budget n i e m : budget net_quiet (net_emit m) (publish_loop n i e m) n.
Proof.
  revert i e. induction n as [|n IH]; intros i e; [done|]; cbn [dial_loop publish_loop].
  apply (budget_bind _ _ _ _ 1 n); [apply publish_budget|]. intros []; [done|].
  apply budget_quiet_bind; [apply quiet_read|]. intros []; [done|apply IH].
Qed.

(** Publishing emits the message at most three times. *)
Lemma Publish_budget ex key b :
  budget net_quiet (net_emit (Message ex key b)) (Publish ex key b) 3.
Proof. apply publish_loop_budget. Qed.

(** ... and at most once when a call the broker executed is never reported as
    failed. *)
Definition no_lost_replies : Prop := forall t e, fault_at t <> Some (FailAfter e).

Lemma publish_bind_budget_once {B} m (f : res unit -> M D B) :
  no_lost_replies -> budget net_quiet (net_emit m) (f (Ok tt)) 0 ->
  (forall e, budget net_quiet (net_emit m) (f (Err e)) 1) ->
  budget net_quiet (net_emit m) (bind (publish m) f) 1.
Proof.
  intros Hn Hok Herr. unfold publish.
  assert (forall r, budget net_quiet (net_emit m) (f r) 1) as Herr'.
  { intros [[]|e]; [by eapply budget_mono; [|exact Hok]; lia|apply Herr]. }
  assert (budget net_quiet (net_emit m) (bind channel (fun r => bind
    match r with
    | Ok _ => bind (net_call (hand m)) (fun r => match r with
        | Err e => bind resetChannel (fun _ => Ret (Err e)) | Ok _ => Ret (Ok tt) end)
    | Err e => Ret (Err e)
    end f)) 1) as Hb.
  { apply budget_quiet_bind; [apply quiet_channel|]. intros [[]|e]; [|apply Herr].
    intros w. simpl. destruct (fault_at (tick w)) as [[e|e]|] eqn:Ef; simpl.
    - left. split; [by apply net_quiet_same|].
      refine (budget_quiet_bind _ _ (bind resetChannel (fun _ => Ret (Err e))) f 1 _ Herr').
      apply budget_quiet_bind; [apply quiet_resetChannel|done].
    - exfalso. by eapply Hn.
    - right. split; [by eexists|]. exact Hok. }
  revert Hb. generalize (@channel H _ _). intros p. generalize 1%nat.
  induction p as [r|X op k IH]; intros n Hb; [exact Hb|].
  intros w. destruct (Hb w) as [[? Hk]|[? Hk]]; [left|right]; (split; [done|]).
  - by apply IH.
  - destruct n; [done|]. by apply IH.
Qed.

Lemma publish_loop_budget_once n i e m :
  no_lost_replies -> budget net_quiet (net_emit m) (publish_loop n i e m) 1.
Proof.
  intros Hn. revert i e. induction n as [|n IH]; intros i e; [done|]; cbn [dial_loop publish_loop].
  apply publish_bind_budget_once; [done..|]. intros e'.
  apply budget_quiet_bind; [apply quiet_read|]. intros []; [done|apply IH].
Qed.

Lemma Publish_budget_once ex key b :
  no_lost_replies -> budget net_quiet (net_emit (Message ex key b)) (Publish ex key b) 1.
Proof. apply publish_loop_budget_once. Qed.

(** Running a program with a budget appends that many copies at most. *)
Lemma run_budget {A} m (p : M D A) n w a w' :
  budget net_quiet (net_emit m) p n -> run p w = (a, w') ->
  exists k s, (k <= n)%nat /\ data w' = set_net s (data w)
    /\ handed s = handed (net (data w)) ++ replicate k m.
Proof.
  revert n w. induction p as [a'|B op k IH]; intros n w Hb; simpl.
  - intros [= -> ->]. exists 0%nat, (net (data w')). rewrite set_net_net, app_nil_r. split; [lia|done].
  - destruct (op w) as [b w1] eqn:E. intros Hr. pose proof (Hb w) as Hw. rewrite E in Hw; simpl in Hw.
    destruct Hw as [[(s1 & E1 & A1) Hk]|[(s1 & E1 & A1) Hk]].
    + destruct (IH _ _ _ Hk Hr) as (j & s & Hj & E2 & A2). exists j, s.
      rewrite E2, E1, set_net_set_net. split; [done|]. split; [done|].
      by rewrite A2, E1, net_set_net, A1.
    + destruct n as [|n]; [done|].
      destruct (IH _ _ _ Hk Hr) as (j & s & Hj & E2 & A2). exists (S j), s.
      rewrite E2, E1, set_net_set_net. split; [lia|]. split; [done|].
      rewrite A2, E1, net_set_net, A1. by rewrite <- app_assoc.
Qed.

(** An attempt that reports success has handed the message to the broker. *)
Lemma publish_ok m w u w' :
  run (publish m) w = (Ok u, w') -> handed (net (data w')) = handed (net (data w)) ++ [m].
Proof.
  unfold publish. rewrite run_bind. destruct (run channel w) as [[v|e] w1] eqn:E1; [|done].
  assert (handed (net (data w1)) = handed (net (data w))) as A1.
  { destruct (run_budget m channel 0 w _ w1 (quiet_channel _) E1) as (k & s & Hk & -> & As).
    rewrite net_set_net, As. replace k with 0%nat by lia. apply app_nil_r. }
  assert (forall e w2, (run (bind resetChannel (fun _ : unit => Ret (@Err unit e))) w2).1 = Err e) as Her.
  { intros e w2. rewrite run_bind. by destruct (run resetChannel w2). }
  rewrite run_bind. simpl (run (net_call (hand m)) w1).
  destruct (fault_at (tick w1)) as [[e|e]|].
  1-2: match goal with |- run _ ?w2 = _ -> _ => specialize (Her e w2) end; intros Hr; rewrite Hr in Her; done.
  intros [= <- <-]. simpl. unfold upd_net. by rewrite net_set_net, <- A1.
Qed.

Lemma publish_loop_ok n i e m w u w' :
  run (publish_loop n i e m) w = (Ok u, w') ->
  exists l, handed (net (data w')) = handed (net (data w)) ++ l ++ [m].
Proof.
  revert i e w. induction n as [|n IH]; intros i e w; [done|]; cbn [publish_loop].
  rewrite run_bind. destruct (run (publish m) w) as [[v|e'] w1] eqn:E1.
  - intros [= <- <-]. exists []. by apply publish_ok in E1.
  - rewrite run_bind. simpl. destruct (done_at (tick w1)); [done|]. intros (l & Hl)%IH. simpl in Hl.
    destruct (run_budget m (publish m) 1 w _ w1 (publish_budget m) E1) as (k & s & _ & E & A).
    rewrite Hl, E, net_set_net, A. exists (replicate k m ++ l). by rewrite !app_assoc.
Qed.

(** An attempt that failed has handed nothing over, unless the failure came after
    the write. *)
Lemma publish_failed m w e w' :
  no_lost_replies -> run (publish m) w = (Err e, w') ->
  handed (net (data w')) = handed (net (data w)).
Proof.
  intros Hn. unfold publish. rewrite run_bind.
  assert (forall {A} (p : M D A) w0 a w1, budget net_quiet (net_emit m) p 0 -> run p w0 = (a, w1) ->
            handed (net (data w1)) = handed (net (data w0))) as Hq.
  { intros A p w0 a w1 Hp Hr. destruct (run_budget m p 0 w0 a w1 Hp Hr) as (k & s & Hk & E & Eh).
    rewrite E, net_set_net, Eh. replace k with 0%nat by lia. apply app_nil_r. }
  destruct (run channel w) as [[v|e1] w1] eqn:E1.
  - pose proof (Hq _ _ _ _ _ (quiet_channel _) E1) as A1. rewrite run_bind. simpl (run (net_call (hand m)) w1).
    destruct (fault_at (tick w1)) as [[e2|e2]|] eqn:Ef; [|by edestruct Hn|done].
    rewrite run_bind. match goal with |- context [run resetChannel ?x] =>
      destruct (run resetChannel x) as [u w2] eqn:E2 end. intros [= _ <-].
    rewrite (Hq _ _ _ _ _ (quiet_resetChannel _) E2). exact A1.
  - intros [= _ <-]. by apply (Hq _ _ _ _ _ (quiet_channel _) E1).
Qed.

Lemma publish_loop_failed n i e0 m w e w' :
  no_lost_replies -> run (publish_loop n i e0 m) w = (Err e, w') ->
  handed (net (data w')) = handed (net (data w)).
Proof.
  intros Hn. revert i e0 w. induction n as [|n IH]; intros i e0 w; [by intros [= _ <-]|]; cbn [publish_loop].
  rewrite run_bind. destruct (run (publish m) w) as [[v|e'] w1] eqn:E1; [done|].
  apply publish_failed in E1; [|done]. rewrite run_bind. simpl.
  destruct (done_at (tick w1)); [by intros [= _ <-]|]. intros ->%IH. exact E1.
Qed.

Lemma Publish_outcome ex key b w r w' :
  run (Publish ex key b) w = (r, w') ->
  exists k s, (k <= 3)%nat /\ (is_ok r = true -> (1 <= k)%nat)
    /\ data w' = set_net s (data w)
    /\ handed s = handed (net (data w)) ++ replicate k (Message ex key b).
Proof.
  intros Hr. destruct (run_budget _ _ _ _ _ _ (Publish_budget ex key b) Hr) as (k & s & Hk & E & A).
  exists k, s. split; [done|]. split; [|done]. intros Hok. destruct r as [u|]; [|done].
  destruct (publish_loop_ok _ _ _ _ _ _ _ Hr) as (l & Hl).
  destruct k; [|lia]. exfalso. rewrite E, net_set_net, A in Hl.
  apply app_inv_head in Hl. by destruct l.
Qed.

End Delivery.

(** A relation on the data that ignores the connection is respected by publishing
    and by processing a delivery. *)
Section Net_respects.
Context `{Platform} {D : Type} `{Broker D}.
Variable R : D -> D -> Prop.
Context `{!Reflexive R}.
Hypothesis R_net : forall d n, R d (set_net n d).

Lemma respects_Publish ex key b : respects R (Publish ex key b).
Proof.
  eapply budget_weaken; [..|apply Publish_budget]; intros w w' (n & -> & _); apply R_net.
Qed.

Lemma respects_housekeeping p : housekeeping p -> respects R p.
Proof. apply budget_weaken; [|done]. intros w w' (n & -> & _). apply R_net. Qed.

Lemma respects_Wrap `{TimeText} {A} `{Events.Payload A} ty tenant (a : A) :
  respects R (Envelope.Wrap ty tenant a).
Proof.
  unfold Envelope.Wrap. destruct (payload_encode a); [|done].
  apply respects_bind; [by apply respects_read|intros id].
  apply respects_bind; [by apply respects_read|intros now]. done.
Qed.

Lemma respects_process `{TimeText} (h : Handler) b :
  (forall env, respects R (h env)) -> respects R (process h b).
Proof.
  intros Hh. unfold process. destruct (Decode _ _ _); [|done].
  apply respects_bind; [apply Hh|]. intros r. repeat case_match; done.
Qed.

End Net_respects.

(** ** Properties *)

(** C30: publishing never invents and never gives up early: whatever fails, the
    only change is that between none and three copies of the message (one per
    attempt) were handed to the broker, a success means at least one was, and,
    when no call fails after its effect, a success means exactly one and a
    failure none.  Without confirms no more can be said: the broker may lose
    what it was handed. *)
Theorem Publish_hands_over `{Platform} {D} `{Broker D} ex key b (w : world D) r w' :
  run (Publish ex key b) w = (r, w') ->
  exists k s, (k <= 3)%nat /\ (is_ok r = true -> (1 <= k)%nat)
    /\ (no_lost_replies -> k = if is_ok r then 1%nat else 0%nat)
    /\ data w' = set_net s (data w)
    /\ handed s = handed (net (data w)) ++ replicate k (Message ex key b).
Proof.
  intros Hr. destruct (Publish_outcome ex key b w r w' Hr) as (k & s & Hk & Hok & E & A).
  exists k, s. split; [done|]. split; [done|]. split; [|done]. intros Hn. destruct r as [u|e]; cbn [is_ok] in *.
  - destruct (run_budget _ _ _ _ _ _ (Publish_budget_once ex key b Hn) Hr) as (k' & s' & Hk' & E' & A').
    assert (length (replicate k (Message ex key b)) = length (replicate k' (Message ex key b))) as El.
    { f_equal. apply (app_inv_head (handed (net (data w)))). rewrite <- A, <- A'. f_equal.
      rewrite <- (net_set_net s (data w)), <- (net_set_net s' (data w)). congruence. }
    rewrite !length_replicate in El. specialize (Hok eq_refl). lia.
  - apply publish_loop_failed in Hr; [|done]. rewrite E, net_set_net, A in Hr.
    destruct k; [done|]. by rewrite <- (app_nil_r (handed (net (data w)))), <- app_assoc in Hr; apply app_inv_head in Hr.
Qed.

#[local] Instance demo_Broker : Broker netstate :=
  {| net := id; set_net n _ := n; net_set_net _ _ := eq_refl; set_net_net _ := eq_refl;
     set_net_set_net _ _ _ := eq_refl |}.

Definition demo_net : netstate := Net true false false [] [].

(** Two lost replies: three copies of one message. *)
Definition lossy : Platform :=
  demo_platform [(3%nat, FailAfter (ErrNew "timeout")); (9%nat, FailAfter (ErrNew "timeout"))].

Definition lossless : Platform := demo_platform [(3%nat, FailBefore (ErrNew "timeout"))].

(** Two failures after the write leave three copies; one before it, a single one. *)
Lemma Publish_hands_over_witness :
  (exists w', run (@Publish lossy netstate _ "e" "k" JNull) (World 0 demo_net) = (Ok tt, w')
    /\ length (handed (data w')) = 3%nat
    /\ exists k s, (k <= 3)%nat /\ (is_ok (Ok tt) = true -> (1 <= k)%nat)
         /\ (@no_lost_replies lossy -> k = if is_ok (Ok tt) then 1%nat else 0%nat)
         /\ data w' = s /\ handed s = [] ++ replicate k (Message "e" "k" JNull))
  /\ (@no_lost_replies lossless
      /\ handed (data (run (@Publish lossless netstate _ "e" "k" JNull) (World 0 demo_net)).2) = [Message "e" "k" JNull]).
Proof.
  split; [|split; [|vm_compute; reflexivity]].
  - eexists. split; [vm_compute; reflexivity|]. split; [reflexivity|].
    exact (@Publish_hands_over lossy netstate demo_Broker "e" "k" JNull (World 0 demo_net) (Ok tt) _
             ltac:(vm_compute; reflexivity)).
  - by intros [|[|[|[|t]]]] e.
Defined.

(** C34: the envelope carries a payload across the bus.  The bytes [json.Marshal]
    writes for what [Wrap] returns are JSON, read back as the same value with every
    byte that is not UTF-8 replaced by U+FFFD; when the strings of the envelope are
    UTF-8, they are unwrapped to an envelope of the given type, tenant and version,
    and to the same payload. *)
Theorem Wrap_Unwrap `{Platform} `{TimeText} {D A} `{PayloadLaws A valid}
    eventType tenantID (payload : A) (w : world D) :
  valid payload -> time_text_ok (now_at (S (tick w))) ->
  exists j w', run (Envelope.Wrap eventType tenantID payload) w = (Ok j, w') /\ data w' = data w
    /\ parse (marshal j) = Some (shown j)
    /\ (utf8_json j = true ->
        exists env, Envelope.Unwrap (parse (marshal j)) payload_zero = Ok (env, payload)
          /\ Envelope.Type_ env = eventType /\ Envelope.TenantID env = tenantID
          /\ Envelope.Version env = "1").
Proof.
  intros Hv (txt & Em & Eu).
  destruct (payload_round_trip payload Hv) as (raw & Ee & Ed).
  unfold Envelope.Wrap. rewrite Ee. cbn. unfold Envelope.encode. cbn -[parse marshal shown utf8_json].
  rewrite Em. cbn -[parse marshal shown utf8_json].
  do 2 eexists. split; [reflexivity|]. split; [done|]. split; [apply parse_marshal|]. intros Hu.
  rewrite parse_marshal, shown_utf8 by done. clear Hu.
  unfold Envelope.Unwrap, Decode, Unmarshal, Envelope.decode, dec_struct. cbn. rewrite Eu. cbn.
  unfold Envelope.DecodePayload, Decode, Unmarshal. cbn. rewrite Ed.
  eexists. split; [reflexivity|]. done.
Qed.

(** A payload with every escape, and one with a byte that is no UTF-8. *)
Lemma Wrap_Unwrap_witness :
  let P := demo_platform [] in
  let T := demo_time_text in
  let wrapped title := (run (@Envelope.Wrap P T unit _ _ "incident.created" "acme"
    (IncidentChanged.mk "inc" "acme" "acme" "open" title "high")) (World 0 tt)).1 in
  let title := JsonText.text [0x3c; 0x22; 0x5c; 10; 1; 0xd0; 0x9f; 0xe2; 0x80; 0xa8; 0xf0; 0x9f; 0x98; 0x80] in
  (exists j w', run (@Envelope.Wrap P T unit _ _ "incident.created" "acme"
       (IncidentChanged.mk "inc" "acme" "acme" "open" title "high")) (World 0 tt) = (Ok j, w')
    /\ data w' = tt /\ parse (marshal j) = Some (shown j)
    /\ (utf8_json j = true ->
        exists env, @Envelope.Unwrap T _ _ (parse (marshal j)) IncidentChanged.zero
                      = Ok (env, IncidentChanged.mk "inc" "acme" "acme" "open" title "high")
          /\ Envelope.Type_ env = "incident.created" /\ Envelope.TenantID env = "acme"
          /\ Envelope.Version env = "1"))
  /\ match wrapped title, wrapped (JsonText.text [0x61; 0xff]) with
     | Ok j, Ok bad =>
         utf8_json j = true /\ utf8_json bad = false
         /\ match @Envelope.Unwrap T _ _ (parse (marshal bad)) IncidentChanged.zero with
            | Ok (_, ev) => IncidentChanged.Title ev = JsonText.text ([0x61] ++ replacement)
            | Err _ => False
            end
     | _, _ => False
     end.
Proof.
  intros P T wrapped title. split.
  - apply (@Wrap_Unwrap P T unit IncidentChanged.t _ (fun _ => True) IncidentChanged_laws
             "incident.created" "acme" (IncidentChanged.mk "inc" "acme" "acme" "open" title "high") (World 0 tt) I).
    apply demo_time_text_ok.
  - vm_compute. done.
Defined.

(** C35: how a delivery is settled.  It is requeued exactly when its body is an
    envelope and the handler returned an error that does not wrap [ErrDrop];
    a body that is not an envelope, a panic and a dropped message are never
    requeued; a handler that succeeds is acknowledged. *)
Theorem process_settles `{Platform} `{TimeText} {D} (h : Handler) body (w : world D) o w' :
  run (process h body) w = (o, w') ->
  match Decode Envelope.decode body Envelope.zero with
  | Err _ => o = Nack false /\ w' = w
  | Ok env =>
      let '(r, w1) := run (h env) w in
      w' = w1 /\ (o = Nack true <-> exists e, r = Returned (Err e) /\ errors_Is e ErrDrop = false)
      /\ (o = Ack <-> r = Returned (Ok tt))
      /\ (forall e, r = Returned (Err (Drop e)) -> o = Nack false)
  end.
Proof.
  unfold process. destruct (Decode _ _ _) as [env|e]; [|by intros [= <- <-]].
  rewrite run_bind. destruct (run (h env) w) as [[|[[]|e]] w1].
  - intros [= <- <-]. split_and!; [done|split; [done|by intros (? & ? & _)]|done|done].
  - intros [= <- <-]. split_and!; [done|split; [done|by intros (? & ? & _)]|done|done].
  - destruct (errors_Is e ErrDrop) eqn:Ed; intros [= <- <-]; split_and!; try done.
    + split; [done|]. intros (e' & [= <-] & Hf). congruence.
    + split; [intros _; by exists e|done].
    + intros e' [= ->]. simpl in Ed. done.
Qed.

Lemma process_settles_witness :
  let P := demo_platform [] in
  let T := demo_time_text in
  let h : @Handler unit := fun _ => Ret (Returned (Err (Drop (ErrNew "bad payload")))) in
  run (process h (Some (JObj []))) (World 0 tt) = (Nack false, World 0 tt) /\
  match @Decode _ Envelope.decode (Some (JObj [])) Envelope.zero with
  | Err _ => Nack false = Nack false /\ World 0 tt = World 0 tt
  | Ok env =>
      let '(r, w1) := run (h env) (World 0 tt) in
      World 0 tt = w1
      /\ (Nack false = Nack true <-> exists e, r = Returned (Err e) /\ errors_Is e ErrDrop = false)
      /\ (Nack false = Ack <-> r = Returned (Ok tt))
      /\ (forall e, r = Returned (Err (Drop e)) -> Nack false = Nack false)
  end.
Proof.
  intros P T h. split; [reflexivity|].
  apply (@process_settles P T unit h (Some (JObj [])) (World 0 tt)). reflexivity.
Defined.

(** The reconnection delay doubles from one second and is capped: after [k]
    failed attempts it is the smaller of [2^k] seconds and 30 seconds, so it
    never overflows and is never zero. *)
Lemma backoff_sequence (k : nat) :
  Nat.iter k next_backoff Second = Z.min (2 ^ Z.of_nat k * Second) maxBackoff.
Proof.
  induction k as [|k IH]; [done|]. simpl Nat.iter. rewrite IH.
  rewrite Nat2Z.inj_succ, Z.pow_succ_r by lia.
  assert (0 < 2 ^ Z.of_nat k) by (apply Z.pow_pos_nonneg; lia).
  set (p := 2 ^ Z.of_nat k) in *. unfold next_backoff, maxBackoff, Second.
  destruct (Z.ltb_spec (Z.min (p * 1000000000) (30 * 1000000000)) (30 * 1000000000)).
  - cbv zeta. rewrite (int64_id (_ * 2)) by (unfold in_int64, minInt64, maxInt64; lia).
    destruct (Z.ltb_spec (30 * 1000000000) (Z.min (p * 1000000000) (30 * 1000000000) * 2)); lia.
  - lia.
Qed.
