(* ===== verification/Publishing.v ===== *)
(** * pkg/amqp/amqp.go with its mutexes

    [Connection.mu] guards the pointer to the connection, [Connection.reconnectMu]
    serialises redialling, [Publisher.mu] serialises publishing and guards the
    cached channel.  Each function is the one of Amqp with the [Lock] and [Unlock]
    of the code put back. *)

From S2P Require Import Prelude Effects Json Events Interleaving Locks Amqp.
Open Scope go_scope.

Inductive mutex := PublisherMu | ReconnectMu | ConnMu.

#[global] Instance mutex_eq_dec : EqDecision mutex.
Proof. solve_decision. Defined.

(** The order in which the code takes them. *)
Definition mutex_rank (m : mutex) : nat :=
  match m with PublisherMu => 0 | ReconnectMu => 1 | ConnMu => 2 end.

Notation "'let+' x ':=' p 'in' k" := (lbind p (fun x => k))
  (at level 10, x name, p at level 100, k at level 200) : go_scope.

Section Publishing.
Context `{Platform} {D : Type} `{Broker D}.

Local Abbreviation G A := (lprog (world D) mutex A).

(** ** Connection *)

Definition current_l : G bool := with_lock ConnMu (lift current).

Definition Ready_l : G bool := current_l.

(** [mu] is held only for the swap of the pointer. *)
Definition dial_l : G (res unit) :=
  let+ r := lift amqp_Dial in
  match r with
  | Err e => LRet (Err (Wrap "amqp dial" e))
  | Ok _ =>
      let+ _ := with_lock ConnMu (lift (net_local (set_conn true))) in
      LRet (Ok tt)
  end.

Fixpoint dial_loop_l (n : nat) (i : Z) (err : Effects.err) : G (res unit) :=
  match n with
  | O => LRet (Err (Wrap "amqp: could not reconnect" err))
  | S n =>
      let+ r := dial_l in
      match r with
      | Ok _ => LRet (Ok tt)
      | Err e =>
          let+ stop := lift (sleep_or_Done (Z.shiftl 1 i * Second)) in
          if stop then LRet (Err (ErrNew "context canceled")) else dial_loop_l n (i + 1) e
      end
  end.

(** The second look at the connection: another goroutine may have redialled. *)
Definition reconnect_l : G (res unit) :=
  with_lock ReconnectMu (
    let+ up := current_l in
    if up then LRet (Ok tt) else dial_loop_l 5 0 (ErrNew "<nil>")).

Definition Channel_l : G (res unit) :=
  let+ up := current_l in
  if up then lift conn_Channel
  else
    let+ r := reconnect_l in
    match r with
    | Err e => LRet (Err e)
    | Ok _ =>
        let+ up := current_l in
        if up then lift conn_Channel
        else LRet (Err (ErrNew "amqp: connection unavailable after reconnect"))
    end.

Definition Connection_Close_l : G (res unit) := with_lock ConnMu (lift Connection_Close).

(** ** Publisher *)

(** The caller holds [mu]. *)
Definition channel_l : G (res unit) :=
  let+ cached := lift (Atomic (fun w => (ch (net (data w)) && negb (chan_closed_at (tick w)),
                                         World (S (tick w)) (data w))) Ret) in
  if cached then LRet (Ok tt)
  else
    let+ r := Channel_l in
    match r with
    | Err e => LRet (Err e)
    | Ok _ =>
        let+ _ := lift (net_local (set_ch true)) in
        LRet (Ok tt)
    end.

Definition publish_l (m : message) : G (res unit) :=
  with_lock PublisherMu (
    let+ c := channel_l in
    match c with
    | Err e => LRet (Err e)
    | Ok _ =>
        let+ r := lift (net_call (hand m)) in
        match r with
        | Err e => let+ _ := lift resetChannel in LRet (Err e)
        | Ok _ => LRet (Ok tt)
        end
    end).

(** The mutex is free while the loop sleeps. *)
Fixpoint publish_loop_l (n : nat) (attempt : Z) (lastErr : err) (m : message) : G (res unit) :=
  match n with
  | O => LRet (Err (Wrap "publish after retries" lastErr))
  | S n =>
      let+ r := publish_l m in
      match r with
      | Ok _ => LRet (Ok tt)
      | Err e =>
          let+ stop := lift (sleep_or_Done (Z.shiftl 1 attempt * Second)) in
          if stop then LRet (Err (ErrNew "context canceled")) else publish_loop_l n (attempt + 1) e m
      end
  end.

Definition Publish_l (exchange routingKey : string) (body : json) : G (res unit) :=
  publish_loop_l 3 0 (ErrNew "<nil>") (Message exchange routingKey body).

Definition Publisher_Close_l : G (res unit) := with_lock PublisherMu (lift Publisher_Close).

(** ** What goroutines do with them *)

(** The exported operations, with and without their mutexes. *)
Inductive operation : forall R, M D R -> G R -> Prop :=
| op_Publish ex key b : operation _ (Publish ex key b) (Publish_l ex key b)
| op_Channel : operation _ Channel Channel_l
| op_Ready : operation _ Ready Ready_l
| op_Publisher_Close : operation _ Publisher_Close Publisher_Close_l
| op_Connection_Close : operation _ Connection_Close Connection_Close_l.

(** A goroutine that calls them, among calls to other packages. *)
Inductive client {A} : M D A -> G A -> Prop :=
| client_return a : client (Ret a) (LRet a)
| client_elsewhere B (op : world D -> B * world D) k lk :
    (forall b, client (k b) (lk b)) -> client (Atomic op k) (LAtomic op lk)
| client_call R (p : M D R) lp f lf :
    operation R p lp -> (forall r, client (f r) (lf r)) -> client (bind p f) (lbind lp lf).

(** ** The mutexes are taken in order *)

Local Abbreviation balanced low p := (balanced mutex_rank low p).

Ltac in_order :=
  repeat first
    [ match goal with
      | |- Locks.balanced _ _ (LRet _) => apply balanced_ret
      | |- Locks.balanced _ _ (lift _) => apply balanced_lift
      | |- Locks.balanced _ _ (lbind _ _) => apply balanced_bind; [|intros ?]
      | |- Locks.balanced _ _ (match ?x with _ => _ end) => destruct x
      end ].

Lemma balanced_current low : (low <= 2)%nat -> balanced low current_l.
Proof. intros Hl. apply balanced_lock; [done|apply balanced_lift]. Qed.

Lemma balanced_dial_loop n i e : balanced 2 (dial_loop_l n i e).
Proof.
  revert i e. induction n as [|n IH]; intros i e; cbn [dial_loop_l]; [apply balanced_ret|].
  unfold dial_l. in_order; [|apply IH]. apply balanced_lock; [done|apply balanced_lift].
Qed.

Lemma balanced_Channel low : (low <= 1)%nat -> balanced low Channel_l.
Proof.
  intros Hl. unfold Channel_l, reconnect_l. in_order; try (apply balanced_current; lia).
  apply balanced_lock; [done|]. in_order; [by apply balanced_current|apply balanced_dial_loop].
Qed.

Lemma balanced_publish_loop n i e m : balanced 0 (publish_loop_l n i e m).
Proof.
  revert i e. induction n as [|n IH]; intros i e; cbn [publish_loop_l]; in_order; [|apply IH].
  apply balanced_lock; [done|]. unfold channel_l. in_order. by apply balanced_Channel.
Qed.

Lemma balanced_operation R (p : M D R) lp : operation R p lp -> balanced 0 lp.
Proof.
  intros []; [apply balanced_publish_loop|apply balanced_Channel; lia|apply balanced_current; lia|..];
    (apply balanced_lock; [simpl; lia|apply balanced_lift]).
Qed.

Lemma balanced_client {A} (p : M D A) lp : client p lp -> balanced 0 lp.
Proof.
  induction 1 as [a|B op k lk _ IH|R p lp f lf Hop _ IH]; [apply balanced_ret| |].
  - intros hs Hh. simpl. intros b. by apply IH.
  - apply balanced_bind; [by eapply balanced_operation|done].
Qed.

(** ** Without the mutexes they are the functions of Amqp *)

Ltac same_steps :=
  repeat first
    [ match goal with
      | |- erases _ (LRet _) => done
      | |- erases _ (lift _) => apply erases_lift
      | |- erases _ (with_lock _ _) => apply erases_with_lock
      | |- erases _ (lbind _ _) => apply erases_bind; [|intros ?]
      | |- erases (match ?x with _ => _ end) (match ?x with _ => _ end) => destruct x
      end ].

Lemma erases_current : erases current current_l.
Proof. apply erases_with_lock, erases_lift. Qed.

Lemma erases_dial_loop n i e : erases (dial_loop n i e) (dial_loop_l n i e).
Proof.
  revert i e. induction n as [|n IH]; intros i e; cbn [dial_loop dial_loop_l]; [done|].
  unfold dial, dial_l. same_steps. apply IH.
Qed.

Lemma erases_Channel : erases Channel Channel_l.
Proof.
  unfold Channel, Channel_l, reconnect, reconnect_l, dialWithRetry.
  same_steps; apply erases_current || apply erases_dial_loop.
Qed.

Lemma erases_publish_loop n i e m : erases (publish_loop n i e m) (publish_loop_l n i e m).
Proof.
  revert i e. induction n as [|n IH]; intros i e; cbn [publish_loop publish_loop_l]; [done|].
  unfold publish, publish_l, channel, channel_l. same_steps; [apply erases_Channel|apply IH].
Qed.

Lemma erases_operation R (p : M D R) lp : operation R p lp -> erases p lp.
Proof.
  intros []; [apply erases_publish_loop|apply erases_Channel|apply erases_current|..];
    apply erases_with_lock, erases_lift.
Qed.

Lemma erases_client {A} (p : M D A) lp : client p lp -> erases p lp.
Proof.
  induction 1 as [a|B op k lk _ IH|R p lp f lf Hop _ IH]; [done| |].
  - simpl. intros w b w' ->. eauto.
  - apply erases_bind; [by apply erases_operation|done].
Qed.

End Publishing.

(** ** Property *)

(** C8: the mutexes of the connection and the publisher.  Take any goroutines
    that publish, open channels, probe, close or do other work, on one connection
    and one publisher.  In every state they reach no mutex has two holders (so one
    goroutine at a time uses the publisher's channel, and one redials); every
    execution ends, and until all goroutines have returned one of them can move:
    there is no deadlock; and what they did is an execution of the same programs
    without mutexes, so every theorem on interleavings applies to it. *)
Theorem publisher_goroutines `{Platform} {D} `{Broker D} {A}
    (ps : list (M D A)) lps (w : world D) gs w' :
  Forall2 client ps lps -> rtc lstep (map (fun p => ([], p)) lps, w) (gs, w') ->
  exclusive gs
  /\ Acc (fun y x => lstep x y) (gs, w')
  /\ (Forall returned gs \/ exists y, lstep (gs, w') y)
  /\ exists ps', rtc pool_step (ps, w) (ps', w') /\ Forall2 (fun p g => erases p g.2) ps' gs.
Proof.
  intros Hc Hr.
  assert (exclusive gs /\ Forall (disciplined mutex_rank) gs) as [He Hd].
  { assert (exclusive (map (fun p : lprog (world D) mutex A => ([] : list mutex, p)) lps)
            /\ Forall (disciplined mutex_rank) (map (fun p => ([], p)) lps)) as H0'.
    { split.
      - intros i j g g' l Hi _ Hl. apply list_lookup_fmap_Some in Hi as (p & -> & _).
        by apply not_elem_of_nil in Hl.
      - apply Forall_map. eapply Forall2_Forall_r; [exact Hc|]. apply Forall_true. intros p lp Hp.
        unfold disciplined. simpl. eapply (balanced_client _ _ Hp). by intros l Hl%not_elem_of_nil. }
    remember (map (fun p => ([], p)) lps, w) as x eqn:Ex. remember (gs, w') as y eqn:Ey.
    clear Hc. revert Ex H0'. generalize (map (fun p : lprog (world D) mutex A => ([] : list mutex, p)) lps).
    revert w. induction Hr as [x|x z y Hs Hr IH]; intros w gs0 -> [He Hd]; [by simplify_eq|].
    destruct z as [gs1 w1]. eapply (IH Ey); [reflexivity|].
    split; [by eapply exclusive_step|by eapply disciplined_step]. }
  split; [done|]. split; [apply lstep_wf|]. split.
  - apply (no_deadlock mutex_rank 3); [intros []; simpl; lia|apply _|done].
  - eapply lsteps_erase; [done|]. apply Forall2_fmap_r. eapply Forall2_impl; [exact Hc|].
    intros p lp Hp. by apply erases_client.
Qed.

(** *** Two goroutines publish while the connection is down *)

Module Redial_demo.
Definition P : Platform := demo_platform [].

Definition pub (key : string) : M netstate (res unit) := bind (@Publish P netstate demo_Broker "e" key JNull) Ret.
Definition pub_l (key : string) : lprog (world netstate) mutex (res unit) :=
  lbind (@Publish_l P netstate demo_Broker "e" key JNull) LRet.

Definition down : netstate := Net false false false [] [].

Definition order : list nat := concat (replicate 40 [0; 1]%nat).

Definition final := run_locked order (map (fun p => ([], p)) [pub_l "a"; pub_l "b"], World 0 down).
End Redial_demo.
Import Redial_demo.

Lemma publisher_goroutines_witness :
  map (fun m => routingKey m) (handed (data final.2)) = ["a"; "b"] /\
  exclusive final.1 /\ Forall returned final.1.
Proof.
  split; [by vm_compute|].
  destruct (@publisher_goroutines P netstate demo_Broker (res unit) [pub "a"; pub "b"] [pub_l "a"; pub_l "b"]
              (World 0 down) final.1 final.2) as (He & _).
  - repeat constructor; apply client_call; try constructor; intros r; constructor.
  - rewrite <- (surjective_pairing final). exact (run_locked_steps order _).
  - split; [exact He|]. vm_compute. repeat constructor; by eexists.
Defined.
