(* ===== verification/Workers.v ===== *)
(** * pkg/amqp/consume.go: the delivery loop and its pool of workers

    The loop of [consumeOnce] hands each delivery to a goroutine of an errgroup
    whose limit is [Concurrency].  The model is a labelled transition system: the
    loop, its workers, the broker that fills the channel [msgs] under its QoS
    limit, and any other programs of the service take steps in any order.  The
    rules are in [step]; [fire] executes them. *)

From S2P Require Import Prelude Effects Json Events Interleaving Amqp.
From Stdlib Require Import Relation_Operators Wellfounded.
Open Scope go_scope.

(** ** What the loop relies on

    golang.org/x/sync/errgroup: [g.Go] starts the function when the number of
    active goroutines stays within the limit, and blocks until then.  The broker:
    [Qos] bounds the deliveries that are neither acknowledged nor rejected. *)
Class Limits := {
  can_go : Z -> nat -> bool;        (* limit, active goroutines *)
  can_deliver : Z -> nat -> bool    (* prefetch count, unsettled deliveries *)
}.

Definition errgroup_law `{Limits} : Prop :=
  forall limit n, 0 < limit -> can_go limit n = true <-> Z.of_nat n < limit.

Definition qos_law `{Limits} : Prop :=
  forall count n, 0 < count -> can_deliver count n = true -> Z.of_nat n < count.

Record delivery := Delivery { tag : nat; msg_Body : option json }.

(** ** The state *)

Section State.
Context {D : Type}.

(** A goroutine of the group: in [process], after the [Ack] or [Nack], or back. *)
Inductive worker :=
| Working (p : M D outcome)
| Answered (o : outcome)
| Finished (o : outcome).

(** Where the loop stands: at the [select], at [g.Go], at [g.Wait], or returned. *)
Inductive loop_state :=
| Selecting
| Going (d : delivery)
| Waiting (r : res unit)
| Exited (r : res unit).

Record pool := Pool {
  msgs : list delivery;                 (* in the channel, oldest first *)
  msgs_closed : bool;
  next_tag : nat;
  loop : loop_state;
  workers : list (delivery * worker);   (* every call of [g.Go], oldest first *)
  settlements : list (nat * outcome);   (* what was sent to the broker, in order *)
  others : list (M D unit)              (* the other programs of the service *)
}.

Definition start (ps : list (M D unit)) : pool := Pool [] false 0 Selecting [] [] ps.

Definition is_working (x : delivery * worker) : bool :=
  match x.2 with Working _ => true | _ => false end.

Definition is_active (x : delivery * worker) : bool :=
  match x.2 with Finished _ => false | _ => true end.

Definition active (s : pool) : nat := count is_active (workers s).

Definition going (l : loop_state) : list delivery := match l with Going d => [d] | _ => [] end.

(** What the loop has received from the channel. *)
Definition taken (s : pool) : list delivery := map fst (workers s) ++ going (loop s).

(** Delivered by the broker and neither acknowledged nor rejected. *)
Definition unsettled (s : pool) : nat :=
  (length (msgs s) + length (going (loop s)) + count is_working (workers s))%nat.

End State.
Arguments worker : clear implicits.
Arguments pool : clear implicits.

(** ** The rules *)

Inductive action :=
| Deliver (body : option json)    (* the broker sends a message *)
| Close (kept : nat)              (* the channel closes; [kept] buffered deliveries remain *)
| SelectDone | SelectMsg | SelectClosed
| StartWorker                     (* [g.Go] starts the goroutine *)
| Work (i : nat)                  (* a call of the handler of worker [i] *)
| Settle (i : nat)                (* its [Ack] or [Nack] *)
| Finish (i : nat)                (* it returns *)
| WaitDone                        (* [g.Wait] returns *)
| Other (i : nat).

Section Loop.
Context `{Platform} `{TimeText} {D : Type} `{Limits}.
Variable opts : ConsumeOptions.
Variable h : @Handler D.

Local Abbreviation state := (pool D * world D)%type.

Inductive step : action -> state -> state -> Prop :=
| step_deliver ms n l ws st os w body :
    can_deliver (prefetch opts) (unsettled (Pool ms false n l ws st os)) = true ->
    (forall r, l <> Exited r) ->
    step (Deliver body) (Pool ms false n l ws st os, w)
      (Pool (ms ++ [Delivery n body]) false (S n) l ws st os, w)
| step_close ms n l ws st os w kept :
    step (Close kept) (Pool ms false n l ws st os, w) (Pool (take kept ms) true n l ws st os, w)
| step_done ms c n ws st os w :
    done_at (tick w) = true ->
    step SelectDone (Pool ms c n Selecting ws st os, w) (Pool ms c n (Waiting (Ok tt)) ws st os, w)
| step_msg d ms c n ws st os w :
    step SelectMsg (Pool (d :: ms) c n Selecting ws st os, w) (Pool ms c n (Going d) ws st os, w)
| step_closed n ws st os w :
    step SelectClosed (Pool [] true n Selecting ws st os, w)
      (Pool [] true n (Waiting (Err (ErrNew "consumer: channel closed"))) ws st os, w)
| step_go ms c n d ws st os w :
    can_go (concurrency opts) (count is_active ws) = true ->
    step StartWorker (Pool ms c n (Going d) ws st os, w)
      (Pool ms c n Selecting (ws ++ [(d, Working (process h (msg_Body d)))]) st os, w)
| step_work ms c n l ws st os w i d p p' w' :
    ws !! i = Some (d, Working p) -> pstep p w = Some (p', w') ->
    step (Work i) (Pool ms c n l ws st os, w) (Pool ms c n l (<[i := (d, Working p')]> ws) st os, w')
| step_settle ms c n l ws st os w i d o :
    ws !! i = Some (d, Working (Ret o)) ->
    step (Settle i) (Pool ms c n l ws st os, w)
      (Pool ms c n l (<[i := (d, Answered o)]> ws) (st ++ [(tag d, o)]) os, w)
| step_finish ms c n l ws st os w i d o :
    ws !! i = Some (d, Answered o) ->
    step (Finish i) (Pool ms c n l ws st os, w)
      (Pool ms c n l (<[i := (d, Finished o)]> ws) st os, w)
| step_wait ms c n r ws st os w :
    count is_active ws = 0%nat ->
    step WaitDone (Pool ms c n (Waiting r) ws st os, w) (Pool ms c n (Exited r) ws st os, w)
| step_other ms c n l ws st os w i p p' w' :
    os !! i = Some p -> pstep p w = Some (p', w') ->
    step (Other i) (Pool ms c n l ws st os, w) (Pool ms c n l ws st (<[i := p']> os), w').

Definition steps : relation state := rtc (fun s s' => exists a, step a s s').

(** One rule, executed. *)
Definition fire (a : action) (x : state) : option state :=
  let '(Pool ms c n l ws st os, w) := x in
  match a, l with
  | Deliver body, _ =>
      if negb c && can_deliver (prefetch opts) (unsettled (Pool ms c n l ws st os))
           && match l with Exited _ => false | _ => true end
      then Some (Pool (ms ++ [Delivery n body]) c (S n) l ws st os, w) else None
  | Close kept, _ => if c then None else Some (Pool (take kept ms) true n l ws st os, w)
  | SelectDone, Selecting =>
      if done_at (tick w) then Some (Pool ms c n (Waiting (Ok tt)) ws st os, w) else None
  | SelectMsg, Selecting =>
      match ms with d :: ms => Some (Pool ms c n (Going d) ws st os, w) | [] => None end
  | SelectClosed, Selecting =>
      match ms, c with
      | [], true => Some (Pool [] true n (Waiting (Err (ErrNew "consumer: channel closed"))) ws st os, w)
      | _, _ => None
      end
  | StartWorker, Going d =>
      if can_go (concurrency opts) (count is_active ws)
      then Some (Pool ms c n Selecting (ws ++ [(d, Working (process h (msg_Body d)))]) st os, w) else None
  | Work i, _ =>
      match ws !! i with
      | Some (d, Working p) =>
          match pstep p w with
          | Some (p', w') => Some (Pool ms c n l (<[i := (d, Working p')]> ws) st os, w')
          | None => None
          end
      | _ => None
      end
  | Settle i, _ =>
      match ws !! i with
      | Some (d, Working (Ret o)) =>
          Some (Pool ms c n l (<[i := (d, Answered o)]> ws) (st ++ [(tag d, o)]) os, w)
      | _ => None
      end
  | Finish i, _ =>
      match ws !! i with
      | Some (d, Answered o) => Some (Pool ms c n l (<[i := (d, Finished o)]> ws) st os, w)
      | _ => None
      end
  | WaitDone, Waiting r =>
      if (count is_active ws =? 0)%nat then Some (Pool ms c n (Exited r) ws st os, w) else None
  | Other i, _ =>
      match os !! i with
      | Some p =>
          match pstep p w with
          | Some (p', w') => Some (Pool ms c n l ws st (<[i := p']> os), w')
          | None => None
          end
      | None => None
      end
  | _, _ => None
  end.

Fixpoint fire_all (l : list action) (x : state) : option state :=
  match l with
  | [] => Some x
  | a :: l => match fire a x with Some x' => fire_all l x' | None => None end
  end.

(** The executable rules are the rules of the relation. *)
Lemma fire_step a x x' : fire a x = Some x' <-> step a x x'.
Proof.
  split.
  - destruct x as [[ms c n l ws st os] w]. destruct a; simpl; repeat case_match; simplify_eq/=;
      intros [= <-]; repeat match goal with
      | Hx : (_ =? _)%nat = true |- _ => apply Nat.eqb_eq in Hx
      | Hx : _ && _ = true |- _ => apply andb_true_iff in Hx as [? ?]
      | Hx : negb _ = true |- _ => apply negb_true_iff in Hx; simplify_eq
      end; by econstructor.
  - intros Hs; inversion Hs; subst; simpl;
      repeat match goal with Hx : ?a = _ |- context [?a] => rewrite Hx; simpl end; try done.
    destruct l; try done. by destruct (H3 r).
Qed.

Lemma fire_all_steps l x x' : fire_all l x = Some x' -> steps x x'.
Proof.
  revert x. induction l as [|a l IH]; intros x; simpl.
  - intros [= ->]. reflexivity.
  - destruct (fire a x) as [x1|] eqn:E; [|done]. intros Hl.
    apply rtc_l with x1; [exists a; by apply fire_step|by apply IH].
Qed.

End Loop.

(** ** The invariant *)

Section Invariant.
Context `{Platform} `{TimeText} {D : Type} `{Limits}.
Variable opts : ConsumeOptions.
Variable h : @Handler D.
Hypothesis Hgo : errgroup_law.
Hypothesis Hqos : qos_law.

(** What a worker has sent to the broker. *)
Definition settlement (x : delivery * worker D) : option (nat * outcome) :=
  match x.2 with Working _ => None | Answered o | Finished o => Some (tag x.1, o) end.

Definition channel_closed : res unit := Err (ErrNew "consumer: channel closed").

Record inv (s : pool D) : Prop := Inv {
  inv_tags : exists k, map tag (taken s ++ msgs s) = seq 0 k /\ (k <= next_tag s)%nat
    /\ (msgs_closed s = false -> k = next_tag s);
  inv_active : Z.of_nat (active s) <= concurrency opts;
  inv_unsettled : Z.of_nat (unsettled s) <= prefetch opts;
  inv_settled : settlements s ≡ₚ omap settlement (workers s);
  inv_result : forall r, loop s = Waiting r \/ loop s = Exited r ->
    r = Ok tt \/ (r = channel_closed /\ msgs s = [] /\ msgs_closed s = true);
  inv_exited : forall r, loop s = Exited r -> active s = 0%nat
}.

Lemma concurrency_pos : 0 < concurrency opts.
Proof. unfold concurrency. destruct (Z.ltb_spec (Concurrency opts) 1); lia. Qed.

Lemma prefetch_pos : 0 < prefetch opts.
Proof. unfold prefetch. destruct (Z.ltb_spec 0 (Prefetch opts)); [done|apply concurrency_pos]. Qed.

Lemma inv_start ps : inv (start ps).
Proof.
  pose proof concurrency_pos. pose proof prefetch_pos.
  split; unfold active, unsettled, count; simpl; try done; [by exists O|lia..|].
  by intros r [|].
Qed.

(** A worker that moves on: what the invariant looks at. *)
Lemma inv_worker ms c n l ws st st' os i d x y :
  inv (Pool ms c n l ws st os) -> ws !! i = Some (d, x) ->
  st' ≡ₚ omap settlement (<[i := (d, y)]> ws) ->
  (is_active (d, y) = true -> is_active (d, x) = true) ->
  (is_working (d, y) = true -> is_working (d, x) = true) ->
  inv (Pool ms c n l (<[i := (d, y)]> ws) st' os).
Proof.
  intros [Ht Ha Hu Hs Hr He] Hi Hst Hact Hwork.
  pose proof (count_insert_le is_active _ _ _ (d, y) Hi Hact) as La.
  pose proof (count_insert_le is_working _ _ _ (d, y) Hi Hwork) as Lw.
  unfold active, unsettled, taken in *; cbn [workers loop msgs] in *.
  split; unfold active, unsettled, taken; cbn [workers loop msgs]; try done; [|lia..|].
  - by rewrite (map_insert_same fst _ _ _ _ Hi).
  - intros r El. specialize (He r El). lia.
Qed.

Lemma tags_take (T ms : list delivery) kept k :
  map tag (T ++ ms) = seq 0 k -> map tag (T ++ take kept ms) = seq 0 ((length T + kept) `min` k).
Proof.
  intros E. rewrite <- take_seq, <- E.
  assert (forall n (l : list delivery), take n (map tag l) = map tag (take n l)) as Em.
  { induction n as [|n IH]; intros [|x l]; simpl; congruence. }
  by rewrite Em, take_app_add.
Qed.

Lemma inv_step a s w s' w' : step opts h a (s, w) (s', w') -> inv s -> inv s'.
Proof.
  intros Hst Hi. inversion Hst; subst.
  1-6,10,11: (destruct Hi as [(k & Ek & Hk & Hc) Ha Hu Hs Hr He]; unfold taken, active, unsettled in *; simpl in * ).
  - split; unfold taken, active, unsettled; simpl; try done.
    + exists (S n). rewrite app_assoc, map_app, Ek, (Hc eq_refl), seq_S. auto.
    + match goal with Hd : can_deliver _ _ = true |- _ => apply Hqos in Hd; [|apply prefetch_pos] end.
      unfold unsettled in *. simpl in *. rewrite length_app. simpl. lia.
    + intros r Hr'. destruct (Hr r Hr') as [|(_ & _ & ?)]; [by left|done].
  - split; unfold taken, active, unsettled; simpl; try done.
    + eexists. split; [by apply tags_take|]. split; [lia|done].
    + rewrite length_take. lia.
    + intros r Hr'. destruct (Hr r Hr') as [|(? & -> & ?)]; [by left|]. right. by rewrite take_nil.
  - split; unfold taken, active, unsettled; simpl; eauto; [|done].
    by intros r [[= <-]|]; [left|].
  - split; unfold taken, active, unsettled; simpl; eauto; [|lia|by intros r []|done].
    exists k. by rewrite <- app_assoc in Ek |- *.
  - split; unfold taken, active, unsettled; simpl; eauto; [|done].
    by intros r [[= <-]|]; [right|].
  - match goal with Hg : can_go _ _ = true |- _ => apply Hgo in Hg; [|apply concurrency_pos] end.
    split; unfold taken, active, unsettled; simpl; rewrite ?count_app, ?count_one, ?omap_app; simpl; [|lia..| |by intros r []|done].
    + exists k. rewrite app_nil_r, (map_app fst). done.
    + by rewrite app_nil_r.
  - split; unfold taken, active, unsettled; simpl; eauto.
    intros r' [|[= <-]]; [done|]. apply Hr. by left.
  - split; unfold taken, active, unsettled; simpl; eauto.
  - eapply inv_worker; [exact Hi|eassumption| |done..].
    erewrite omap_insert_same by (eassumption || done). apply Hi.
  - eapply inv_worker; [exact Hi|eassumption| |done..].
    erewrite omap_insert_new by (eassumption || done).
    rewrite <- (inv_settled _ Hi). simpl. by rewrite Permutation_app_comm.
  - eapply inv_worker; [exact Hi|eassumption| |done..].
    erewrite omap_insert_same by (eassumption || done). apply Hi.
Qed.

Lemma inv_steps x x' : steps opts h x x' -> inv x.1 -> inv x'.1.
Proof.
  induction 1 as [|[s w] [s1 w1] x' (a & Ha) Hr IH]; [done|]. intros Hi. apply IH.
  by eapply inv_step.
Qed.
End Invariant.

(** ** The workers are a pool of programs

    Whatever the loop does, the world changes as it would if all the deliveries
    it ever took ran as programs of one pool: what is proved of all interleavings
    of [process] holds for any [Concurrency]. *)

Section Refinement.
Context `{Platform} `{TimeText} {D : Type} `{Limits}.
Variable opts : ConsumeOptions.
Variable h : @Handler D.

(** What is left to run of a worker. *)
Definition remaining (x : worker D) : M D outcome :=
  match x with Working p => p | Answered o | Finished o => Ret o end.

Definition forget (p : M D outcome) : M D unit := let! _ := p in Ret tt.

Definition program_of (d : delivery) : M D unit := forget (process h (msg_Body d)).

Definition programs (s : pool D) : list (M D unit) :=
  others s ++ map (fun x => forget (remaining x.2)) (workers s).

Definition started (s : pool D) : list delivery := map fst (workers s).

(** What one rule does to these programs: nothing, one more, or a step of one. *)
Lemma step_programs a s w s' w' :
  step opts h a (s, w) (s', w') ->
  (programs s' = programs s /\ started s' = started s /\ w' = w)
  \/ (exists d, programs s' = programs s ++ [program_of d] /\ started s' = started s ++ [d] /\ w' = w)
  \/ (pool_step (programs s, w) (programs s', w') /\ started s' = started s).
Proof.
  intros Ha. unfold programs, started. inversion Ha; subst; simpl in *; auto.
  - right; left. exists d. by rewrite !map_app, !app_assoc.
  - right; right. split; [|by erewrite map_insert_same by (eassumption || done)].
    match goal with Hx : ws !! i = Some _, Hp : pstep _ _ = Some _ |- _ =>
      rename Hx into Hi; apply (pstep_bind _ _ (fun _ => Ret tt)) in Hp; rename Hp into Hp1 end.
    rewrite (list_fmap_insert (fun x => forget (remaining x.2)) ws i).
    eapply pool_step_in; [|exact Hp1]. by rewrite list_lookup_fmap, Hi.
  - left. by do 2 erewrite map_insert_same by (eassumption || done).
  - left. by do 2 erewrite map_insert_same by (eassumption || done).
  - right; right. split; [|done]. rewrite <- (insert_app_l os) by (by eapply lookup_lt_Some).
    econstructor; [|done]. by apply lookup_app_l_Some.
Qed.

Lemma steps_pool ps w0 x :
  steps opts h (start ps, w0) x ->
  rtc pool_step (ps ++ map program_of (started x.1), w0) (programs x.1, x.2).
Proof.
  revert x. apply (rtc_ind_r (fun x =>
    rtc pool_step (ps ++ map program_of (started x.1), w0) (programs x.1, x.2))).
  { simpl. unfold programs. simpl. by rewrite app_nil_r. }
  intros [s w] [s' w'] Hr (a & Ha) IH. simpl in *.
  destruct (step_programs _ _ _ _ _ Ha) as [(-> & -> & ->)|[(d & -> & -> & ->)|(Hs & ->)]]; [done| |].
  - rewrite map_app, app_assoc. apply (pool_steps_app _ _ _ _ _ IH).
  - by eapply rtc_r.
Qed.

(** A worker is somewhere in the processing of its own delivery. *)
Definition on_own (x : delivery * worker D) : Prop :=
  rtc (fun p p' => prog_below p' p) (process h (msg_Body x.1)) (remaining x.2).

Lemma own_step a s w s' w' :
  step opts h a (s, w) (s', w') -> Forall on_own (workers s) -> Forall on_own (workers s').
Proof.
  intros Ha Hf. inversion Ha; subst; simpl in *; try done.
  1: { apply Forall_app_2; [done|]. apply Forall_singleton. apply rtc_refl. }
  all: apply Forall_insert; [done|]; rewrite Forall_lookup in Hf;
    match goal with Hx : _ !! _ = Some (_, _) |- _ => specialize (Hf _ _ Hx) end; try exact Hf.
  eapply rtc_r; [exact Hf|]. do 2 eexists. eassumption.
Qed.

Lemma own_steps x y : steps opts h x y -> Forall on_own (workers x.1) -> Forall on_own (workers y.1).
Proof.
  induction 1 as [|[s w] [s1 w1] y (a & Ha) _ IH]; [done|]. intros Hf. apply IH. by eapply own_step.
Qed.
End Refinement.

(** ** One worker is the sequential consumer *)

Section Sequential.
Context `{Platform} `{TimeText} {D : Type} `{Limits}.
Variable opts : ConsumeOptions.
Variable h : @Handler D.
Hypothesis Hgo : errgroup_law.

(** The deliveries handled one after the other, in order. *)
Fixpoint handle_all (ds : list delivery) : M D (list (nat * outcome)) :=
  match ds with
  | [] => Ret []
  | d :: ds =>
      let! o := process h (msg_Body d) in
      let! l := handle_all ds in
      Ret ((tag d, o) :: l)
  end.

Lemma run_handle_all_snoc ds d w os w1 o w2 :
  run (handle_all ds) w = (os, w1) -> run (process h (msg_Body d)) w1 = (o, w2) ->
  run (handle_all (ds ++ [d])) w = (os ++ [(tag d, o)], w2).
Proof.
  revert w os. induction ds as [|d' ds IH]; intros w os; cbn [handle_all app].
  - intros [= <- <-] Hp. rewrite run_bind, Hp. done.
  - rewrite !run_bind. destruct (run (process h (msg_Body d')) w) as [o' w'].
    rewrite !run_bind. destruct (run (handle_all ds) w') as [os' w1'] eqn:E.
    intros [= <- <-] Hp. by rewrite (IH _ _ E Hp).
Qed.

(** The finished workers ran in order; at most one is still active. *)
Definition in_order (w0 : world D) (s : pool D) (w : world D) : Prop :=
  exists past cur os w1,
    workers s = past ++ option_list cur /\ Forall (fun x => is_active x = false) past
    /\ run (handle_all (map fst past)) w0 = (os, w1)
    /\ match cur with
       | None => settlements s = os /\ w = w1
       | Some (d, Working p) => settlements s = os /\ run p w = run (process h (msg_Body d)) w1
       | Some (d, Answered o) =>
           settlements s = os ++ [(tag d, o)] /\ run (process h (msg_Body d)) w1 = (o, w)
       | Some (_, Finished _) => False
       end.

(** The only worker that can move is the current one. *)
Lemma current_worker (past : list (delivery * worker D)) cur i x :
  Forall (fun x => is_active x = false) past ->
  (past ++ option_list cur) !! i = Some x -> is_active x = true ->
  i = length past /\ cur = Some x
  /\ forall y, <[i := y]> (past ++ option_list cur) = past ++ [y].
Proof.
  intros Hp Hi Hx. apply lookup_app_Some in Hi as [Hi|[Hl Hi]].
  - rewrite Forall_lookup in Hp. by rewrite (Hp _ _ Hi) in Hx.
  - destruct cur as [c|]; simpl in Hi; [|done].
    apply list_lookup_singleton_Some in Hi as [Hi ->].
    assert (i = length past) as -> by lia. split_and!; [done..|]. intros y.
    rewrite insert_app_r_alt by lia. by rewrite Nat.sub_diag.
Qed.

Lemma in_order_step w0 a s w s' w' :
  concurrency opts = 1 -> others s = [] -> step opts h a (s, w) (s', w') -> in_order w0 s w ->
  others s' = [] /\ in_order w0 s' w'.
Proof.
  intros H1c Ho Hs (past & cur & os0 & w1 & Ew & Hp & Hr & Hc).
  inversion Hs; subst; simpl in *; subst; try (split; [done|]; by exists past, cur, os0, w1).
  - match goal with Hg : can_go _ _ = true |- _ => apply Hgo in Hg; [|lia]; rename Hg into Hlt end.
    rewrite H1c in Hlt. split; [done|].
    destruct cur as [x|].
    { exfalso. rewrite count_app in Hlt. simpl in Hlt. rewrite count_one in Hlt.
      destruct x as [d' [p|o|o]]; simpl in Hlt; [lia..|done]. }
    destruct Hc as [-> ->]. rewrite app_nil_r.
    by eexists past, (Some (_, _)), _, _.
  - match goal with Hx : _ !! i = Some _ |- _ => rename Hx into Hi end.
    destruct (current_worker _ _ _ _ Hp Hi eq_refl) as (-> & -> & Ei). rewrite Ei.
    split; [done|]. destruct Hc as [-> Hc]. exists past, (Some (d, Working p')), os0, w1.
    split_and!; [done..|]. rewrite <- Hc.
    destruct p as [|X op k]; simpl in *; [done|]. destruct (op w). by simplify_eq.
  - match goal with Hx : _ !! i = Some _ |- _ => rename Hx into Hi end.
    destruct (current_worker _ _ _ _ Hp Hi eq_refl) as (-> & -> & Ei). rewrite Ei.
    split; [done|]. destruct Hc as [-> Hc]. exists past, (Some (d, Answered o)), os0, w1.
    split_and!; done.
  - match goal with Hx : _ !! i = Some _ |- _ => rename Hx into Hi end.
    destruct (current_worker _ _ _ _ Hp Hi eq_refl) as (-> & -> & Ei). rewrite Ei.
    split; [done|]. destruct Hc as [-> Hc].
    eexists (past ++ [(d, Finished o)]), None, _, w'. simpl. rewrite app_nil_r.
    split_and!; [done|by apply Forall_app_2, Forall_singleton| |done..].
    rewrite map_app. by eapply run_handle_all_snoc.
Qed.

Lemma in_order_steps w0 x :
  concurrency opts = 1 -> steps opts h (start [], w0) x -> others x.1 = [] /\ in_order w0 x.1 x.2.
Proof.
  intros H1c. revert x. apply (rtc_ind_r (fun x => others x.1 = [] /\ in_order w0 x.1 x.2)).
  - split; [done|]. by exists [], None, [], w0.
  - intros [s w] [s' w'] _ (a & Ha) [Ho Hi]. by eapply in_order_step.
Qed.

Lemma sequential_when_idle w0 s w :
  concurrency opts = 1 -> steps opts h (start [], w0) (s, w) -> active s = 0%nat ->
  run (handle_all (started s)) w0 = (settlements s, w).
Proof.
  intros H1c Hs Ha. destruct (in_order_steps _ _ H1c Hs) as [_ (past & cur & os & w1 & Ew & _ & Hr & Hc)].
  unfold active in Ha. simpl in *. rewrite Ew, count_app in Ha. unfold started. rewrite Ew.
  destruct cur as [[d [p|o|o]]|]; simpl in *; rewrite ?count_one in Ha; simpl in Ha; [lia..|done|].
  destruct Hc as [<- ->]. by rewrite app_nil_r.
Qed.
End Sequential.

(** ** Draining ends *)

Definition worker_below {D} (y x : delivery * worker D) : Prop :=
  match x.2, y.2 with
  | Working p, Working p' => prog_below p' p
  | Working _, Answered _ => True
  | Answered _, Finished _ => True
  | _, _ => False
  end.

Lemma worker_below_wf {D} : well_founded (@worker_below D).
Proof.
  assert (forall d o, Acc worker_below (d, @Finished D o)) as Hf.
  { intros d o. constructor. by intros [? []]. }
  assert (forall d o, Acc worker_below (d, @Answered D o)) as Ha.
  { intros d o. constructor. intros [d' []]; [done..|]. intros _. apply Hf. }
  intros [d [p|o|o]]; [|apply Ha|apply Hf].
  revert d. induction (prog_below_wf p) as [p _ IH]. intros d.
  constructor. intros [d' [p'|o|o]]; [intros Hp; by apply IH|intros _; apply Ha|done].
Qed.

Section Draining.
Context `{Platform} `{TimeText} {D : Type} `{Limits}.
Variable opts : ConsumeOptions.
Variable h : @Handler D.
Hypothesis Hgo : errgroup_law.
Hypothesis Hqos : qos_law.

(** The channel is closed, or the loop has left its [select] for good. *)
Definition winding (s : pool D) : Prop :=
  msgs_closed s = true \/ exists r, loop s = Waiting r \/ loop s = Exited r.

(** What is left of the loop: receiving, starting, waiting. *)
Definition loop_rank (s : pool D) : nat :=
  match loop s with
  | Selecting => 2 * length (msgs s) + 2
  | Going _ => 2 * length (msgs s) + 3
  | Waiting _ => 1
  | Exited _ => 0
  end.

Definition capacity (s : pool D) : nat := (Z.to_nat (prefetch opts) - unsettled s)%nat.

Definition rank (x : pool D * world D) :
    (nat * (nat * (list (delivery * worker D) * (list (M D unit) * nat))))%type :=
  (loop_rank x.1, (Nat.b2n (negb (msgs_closed x.1)), (workers x.1, (others x.1, capacity x.1)))).

Definition rank_below := slexprod _ _ lt (slexprod _ _ lt
  (slexprod _ _ (one_below (@worker_below D)) (slexprod _ _ (one_below (@prog_below (world D) unit)) lt))).

Lemma rank_below_wf : well_founded rank_below.
Proof.
  repeat apply wf_slexprod; auto using lt_wf, one_below_wf, worker_below_wf, prog_below_wf.
Qed.

Lemma step_rank a x y :
  step opts h a x y -> winding x.1 -> rank_below (rank y) (rank x) /\ winding y.1.
Proof.
  unfold winding. intros Hs Hw. unfold rank, rank_below, capacity, loop_rank.
  inversion Hs; subst; simpl in *.
  - assert (exists r, l = Waiting r) as (r & ->).
    { destruct Hw as [|(r & [->| ->])]; [done|by eexists|]. exfalso.
      match goal with Hx : forall _, _ <> _ |- _ => by apply (Hx r) end. }
    split; [|by right; eexists; left].
    match goal with Hd : can_deliver _ _ = true |- _ => apply Hqos in Hd; [|apply prefetch_pos] end.
    do 4 apply right_slex. unfold unsettled in *; simpl in *. rewrite length_app. simpl. lia.
  - assert (exists r, l = Waiting r \/ l = Exited r) as (r & Hl).
    { destruct Hw; [done|auto]. }
    split; [|by left]. destruct Hl as [-> | ->]; apply right_slex, left_slex; simpl; lia.
  - split; [apply left_slex; lia|]. by right; eexists; left.
  - split; [apply left_slex; lia|]. destruct Hw as [|(r & [|])]; [by left|done..].
  - split; [apply left_slex; lia|by left].
  - split; [apply left_slex; lia|]. destruct Hw as [|(r & [|])]; [by left|done..].
  - split; [|done]. apply right_slex, right_slex, left_slex. do 3 eexists. split; [eassumption|].
    split; [|reflexivity]. do 2 eexists; eassumption.
  - split; [|done]. apply right_slex, right_slex, left_slex. do 3 eexists.
    split; [eassumption|]. by split; [|reflexivity].
  - split; [|done]. apply right_slex, right_slex, left_slex. do 3 eexists.
    split; [eassumption|]. by split; [|reflexivity].
  - split; [apply left_slex; lia|]. by right; eexists; right.
  - split; [|done]. apply right_slex, right_slex, right_slex, left_slex. do 3 eexists.
    split; [done|]. split; [|done]. do 2 eexists; eassumption.
Qed.

Definition next (y x : pool D * world D) : Prop := exists a, step opts h a x y.

Lemma winding_acc x : winding x.1 -> Acc next x.
Proof.
  remember (rank x) as n eqn:En. revert x En.
  induction (rank_below_wf n) as [n _ IH]. intros x -> Hw.
  constructor. intros y (a & Ha). destruct (step_rank _ _ _ Ha Hw) as [Hr Hy].
  by apply (IH _ Hr).
Qed.

(** The actions that do not depend on the broker, the caller or other programs. *)
Definition own (a : action) : bool :=
  match a with Deliver _ | Close _ | SelectDone | Other _ => false | _ => true end.

Definition of_worker (a : action) : bool :=
  match a with Work _ | Settle _ | Finish _ => true | _ => false end.

Lemma of_worker_own a : of_worker a = true -> own a = true.
Proof. by destruct a. Qed.

Lemma active_steps ms c n l ws st os (w : world D) :
  count is_active ws <> 0%nat ->
  exists a y, of_worker a = true /\ step opts h a (Pool ms c n l ws st os, w) y.
Proof.
  intros Hc. assert (exists i x, ws !! i = Some x /\ is_active x = true) as (i & [d k] & Hi & Hx).
  { destruct (decide (Exists (fun x => is_active x = true) ws)) as [He|Hn].
    - apply Exists_exists in He as (x & (i & Hi)%list_elem_of_lookup & Hx). eauto.
    - exfalso. apply Hc, count_zero, Forall_forall. intros x Hin.
      destruct (is_active x) eqn:Ex; [|done]. exfalso. apply Hn, Exists_exists. eauto. }
  destruct k as [[o|B op k]|o|o]; [| | |done].
  - eexists (Settle i), _. split; [done|by econstructor].
  - destruct (op w) as [b w'] eqn:E. eexists (Work i), _. split; [done|]. econstructor; [done|].
    simpl. by rewrite E.
  - eexists (Finish i), _. split; [done|by econstructor].
Qed.

(** No deadlock: until the loop has returned, it or a worker can move. *)
Lemma winding_progress s w :
  winding s -> (forall r, loop s <> Exited r) ->
  exists a y, own a = true /\ step opts h a (s, w) y.
Proof.
  intros Hw He. destruct s as [ms c n l ws st os].
  destruct (decide (count is_active ws = 0%nat)) as [H0'|Hc].
  2: { destruct (active_steps ms c n l ws st os w Hc) as (a & y & Ha & Hs). eauto using of_worker_own. }
  destruct l as [|d|r|r].
  - destruct Hw as [Hc|(r & [|])]; [|done..]. simpl in Hc. subst c.
    destruct ms as [|d ms]; [eexists SelectClosed, _|eexists SelectMsg, _]; (split; [done|constructor]).
  - eexists StartWorker, _. split; [done|]. constructor. rewrite H0'.
    apply Hgo; pose proof (concurrency_pos opts); lia.
  - eexists WaitDone, _. split; [done|by constructor].
  - by destruct (He r).
Qed.
End Draining.

(** ** Properties *)

Section Settling.
Context `{Platform} `{TimeText} {D : Type} `{Limits}.
Variable opts : ConsumeOptions.

Lemma settled_tags (ws : list (delivery * worker D)) :
  exists l, omap settlement ws = l /\ map fst l `sublist_of` map tag (map fst ws)
    /\ (count is_active ws = 0%nat -> map fst l = map tag (map fst ws)).
Proof.
  eexists. split; [reflexivity|]. induction ws as [|[d [p|o|o]] ws [IHs IHe]]; csimpl; [by split|..].
  - split; [by constructor|]. unfold count. by simpl.
  - split; [by constructor|]. unfold count. by simpl.
  - split; [by constructor|]. intros Hc. by rewrite IHe.
Qed.

Lemma tags_taken (s : pool D) : inv opts s -> map tag (taken s) = seq 0 (length (taken s)).
Proof.
  intros [(k & Ek & _) _ _ _ _ _]. rewrite map_app in Ek.
  apply (f_equal (take (length (taken s)))) in Ek. rewrite take_seq, take_app_le in Ek
    by (by rewrite length_map).
  rewrite take_ge in Ek by (by rewrite length_map). rewrite Ek. f_equal.
  apply (f_equal length) in Ek. rewrite length_map, length_seq in Ek. lia.
Qed.

Lemma settlements_once (s : pool D) : inv opts s ->
  NoDup (map fst (settlements s)) /\
  (count is_active (workers s) = 0%nat -> map fst (settlements s) ≡ₚ map tag (started s)).
Proof.
  intros Hi. destruct (settled_tags (workers s)) as (l & El & Hsub & Heq).
  pose proof (inv_settled _ _ Hi) as Hs. rewrite El in Hs.
  assert (map fst (settlements s) ≡ₚ map fst l) as Hm by (by apply (fmap_Permutation fst)).
  split; [|intros Ha; by rewrite Hm, (Heq Ha)].
  rewrite Hm. eapply sublist_NoDup; [|exact Hsub].
  pose proof (tags_taken s Hi) as Ht. unfold taken in Ht. rewrite map_app in Ht.
  assert (NoDup (map tag (map fst (workers s)) ++ map tag (going (loop s)))) as Hn.
  { rewrite Ht. apply NoDup_seq. }
  by apply NoDup_app in Hn as [? _].
Qed.
End Settling.

(** C7: the worker pool of a consumer.  However the broker, the loop, its
    workers and the other programs of the service interleave, at most
    [Concurrency] handlers are active and at most [Prefetch] deliveries are
    unsettled; deliveries are taken from the channel in order, each once; none is
    acknowledged or rejected twice, and only with an outcome that [process] of its
    own body came to, its calls being steps of the interleaving in which the bodies
    taken and the other programs run as one pool; and when the loop returns no handler is left behind and every delivery it took
    was settled exactly once: it returns without an error only when the context is
    cancelled, and the error "channel closed" only when nothing was left in the
    channel. *)
Theorem worker_pool_settles `{Platform} `{TimeText} {D} `{Limits} opts (h : @Handler D) ps w0 s w :
  errgroup_law -> qos_law -> steps opts h (start ps, w0) (s, w) ->
  Z.of_nat (active s) <= concurrency opts /\ Z.of_nat (unsettled s) <= prefetch opts
  /\ map tag (taken s) = seq 0 (length (taken s))
  /\ NoDup (map fst (settlements s))
  /\ (forall t o, (t, o) ∈ settlements s ->
        exists d, d ∈ taken s /\ tag d = t
          /\ rtc (fun p p' => prog_below p' p) (process h (msg_Body d)) (Ret o))
  /\ rtc pool_step (ps ++ map (fun d => forget (process h (msg_Body d))) (started s), w0) (programs s, w)
  /\ (forall r, loop s = Exited r ->
        active s = 0%nat /\ map fst (settlements s) ≡ₚ map tag (taken s)
        /\ (r = Ok tt \/ (r = channel_closed /\ msgs s = [] /\ msgs_closed s = true))).
Proof.
  intros Hgo Hqos Hs.
  pose proof (inv_steps opts h Hgo Hqos _ _ Hs (inv_start opts ps)) as Hi. simpl in Hi.
  destruct (settlements_once opts s Hi) as [Hn Hp].
  split_and!; [by apply (inv_active _ _ Hi)|by apply (inv_unsettled _ _ Hi)|by eapply tags_taken|done|..].
  - intros t o Hin. rewrite (inv_settled _ _ Hi) in Hin.
    apply list_elem_of_omap in Hin as ([d x] & Hin & Hx). exists d.
    split; [apply elem_of_app; left; apply list_elem_of_fmap; by exists (d, x)|].
    pose proof (own_steps opts h _ _ Hs (Forall_nil_2 _)) as Hf. rewrite Forall_forall in Hf.
    specialize (Hf _ Hin). unfold settlement in Hx. destruct x; by simplify_eq/=.
  - exact (steps_pool opts h ps w0 (s, w) Hs).
  - intros r Hr. pose proof (inv_exited _ _ Hi r Hr) as Ha. split_and!; [done| |].
    + unfold taken. rewrite Hr. simpl. rewrite app_nil_r. by apply Hp.
    + apply (inv_result _ _ Hi). by right.
Qed.

(** C38: with [Concurrency] 1 (the default) the pool is the sequential consumer:
    once no handler is active, the world is the one reached by handling the
    deliveries one after the other in the order of the channel, and the broker was
    told the outcomes in that order. *)
Theorem one_worker_is_sequential `{Platform} `{TimeText} {D} `{Limits} opts (h : @Handler D) w0 s w :
  errgroup_law -> Concurrency opts <= 1 -> steps opts h (start [], w0) (s, w) -> active s = 0%nat ->
  run (handle_all h (started s)) w0 = (settlements s, w).
Proof.
  intros Hgo Hc. apply sequential_when_idle; [done|]. unfold concurrency.
  destruct (Z.ltb_spec (Concurrency opts) 1); lia.
Qed.

(** C11: a consumer drains.  Once the channel is closed, or the loop has seen the
    cancelled context, every execution ends, whatever the broker and the other
    programs still do; until the loop has returned it or one of its workers can
    move (no deadlock on the limit of the group); so it returns, and then every
    delivery it took has been settled once. *)
Theorem consumer_drains `{Platform} `{TimeText} {D} `{Limits} opts (h : @Handler D) ps w0 s w :
  errgroup_law -> qos_law -> steps opts h (start ps, w0) (s, w) -> winding s ->
  Acc (fun y x => exists a, step opts h a x y) (s, w) /\
  forall s' w', steps opts h (s, w) (s', w') ->
    (exists a y, own a = true /\ step opts h a (s', w') y) \/
    (exists r, loop s' = Exited r /\ map fst (settlements s') ≡ₚ map tag (started s')).
Proof.
  intros Hgo Hqos Hs Hw. split; [by apply winding_acc|]. intros s' w' Hs'.
  assert (winding s') as Hw'.
  { clear -Hs' Hw Hgo Hqos. remember (s, w) as x eqn:Ex. remember (s', w') as y eqn:Ey.
    revert s w Ex Hw. induction Hs' as [x|x z y (a & Ha) _ IH]; intros s w -> Hw; [by simplify_eq|].
    destruct z as [s1 w1]. eapply IH; [done..|]. by apply (step_rank opts h Hqos a) in Ha as [_ Ha]. }
  assert (steps opts h (start ps, w0) (s', w')) as Hss by (unfold steps in *; by etransitivity).
  pose proof (inv_steps opts h Hgo Hqos _ _ Hss (inv_start opts ps)) as Hi. simpl in Hi. destruct (loop s') as [|d|r|r] eqn:El;
    try (left; apply winding_progress; [done..|]; by rewrite El).
  right. exists r. split; [done|]. apply (settlements_once opts s' Hi).
  by apply (inv_exited _ _ Hi r).
Qed.

(** *** A consumer of two workers *)

Module Workers_demo.
Definition P : Platform := {|
  now_at t := Z.of_nat t; uuid_at t := pretty t; uuid_ok _ := true; fault_at _ := None;
  done_at t := (4 <=? t)%nat; conn_closed_at _ := false; chan_closed_at _ := false |}.

Definition T : TimeText := demo_time_text.

Definition limits : Limits := {|
  can_go limit n := Z.of_nat n <? limit;
  can_deliver c n := Z.of_nat n <? c |}.

Lemma limits_errgroup : @errgroup_law limits.
Proof. intros limit n _. apply Z.ltb_lt. Qed.

Lemma limits_qos : @qos_law limits.
Proof. intros c n _. apply Z.ltb_lt. Qed.

(** A handler of two calls, each of which writes a line. *)
Definition h : @Handler (list string) := fun env =>
  let line s := @call P (list string) unit (fun _ _ d => Ok (tt, d ++ [s +:+ Envelope.ID env])) in
  let! _ := line "begin " in
  let! _ := line "end " in
  Ret (if String.eqb (Envelope.ID env) "b" then Returned (Err (ErrNew "no")) else Returned (Ok tt)).

Definition msg (id : string) : option json := Some (JObj [("id", JStr id)]).

Definition opts (n : Z) : ConsumeOptions := Build_ConsumeOptions n 0 0.

Definition two : list action :=
  [Deliver (msg "a"); Deliver (msg "b"); SelectMsg; StartWorker; SelectMsg; StartWorker;
   Work 0; Work 1; Work 1; Settle 1; Work 0; Finish 1; SelectDone; Settle 0; Finish 0; WaitDone]%nat.

Definition one : list action :=
  [Deliver (msg "a"); SelectMsg; StartWorker; Work 0; Work 0; Settle 0; Deliver (msg "b"); SelectMsg; Finish 0;
   StartWorker; Work 1; Work 1; SelectDone; Settle 1; Finish 1; WaitDone]%nat.

Definition outcome_of (n : Z) (l : list action) : pool (list string) * world (list string) :=
  default (start [], World 0 []) (@fire_all P T _ limits (opts n) h l (start [], World 0 [])).

Definition final2 := outcome_of 2 two.
Definition final1 := outcome_of 1 one.

Example two_interleave :
  data final2.2 = ["begin a"; "begin b"; "end b"; "end a"]
  /\ settlements final2.1 = [(1, Nack true); (0, Ack)]%nat.
Proof. by vm_compute. Qed.
End Workers_demo.

Import Workers_demo.

Lemma demo_steps n l : @fire_all P T _ limits (opts n) h l (start [], World 0 []) = Some (outcome_of n l) ->
  @steps P T _ limits (opts n) h (start [], World 0 []) (outcome_of n l).
Proof. apply fire_all_steps. Qed.

Lemma worker_pool_settles_witness :
  (active final2.1 = 0%nat /\ length (taken final2.1) = 2%nat
   /\ settlements final2.1 = [(1, Nack true); (0, Ack)]%nat) /\
  NoDup (map fst (settlements final2.1)) /\
  (forall t o, (t, o) ∈ settlements final2.1 -> exists d, d ∈ taken final2.1 /\ tag d = t
     /\ rtc (fun p p' => prog_below p' p) (@process T _ h (msg_Body d)) (Ret o)).
Proof.
  split; [by vm_compute|].
  destruct (@worker_pool_settles P T _ limits (opts 2) h [] (World 0 []) final2.1 final2.2
    limits_errgroup limits_qos) as (_ & _ & _ & Hn & Ho & _).
  - apply (demo_steps 2 two). by vm_compute.
  - by split.
Defined.

Lemma one_worker_is_sequential_witness :
  settlements final1.1 = [(0, Ack); (1, Nack true)]%nat /\
  run (@handle_all T _ h (started final1.1)) (World 0 []) = (settlements final1.1, final1.2).
Proof.
  split; [by vm_compute|].
  apply (@one_worker_is_sequential P T _ limits (opts 1) h (World 0 []) final1.1 final1.2 limits_errgroup).
  - simpl. lia.
  - apply (demo_steps 1 one). by vm_compute.
  - by vm_compute.
Defined.

(** The loop of two workers, cancelled while both are busy. *)
Definition cancelled2 := outcome_of 2 (take 13 two).

Lemma consumer_drains_witness :
  active cancelled2.1 = 1%nat /\
  Acc (fun y x => exists a, @step P T _ limits (opts 2) h a x y) cancelled2.
Proof.
  split; [by vm_compute|].
  destruct (@consumer_drains P T _ limits (opts 2) h [] (World 0 []) cancelled2.1 cancelled2.2
    limits_errgroup limits_qos) as [Hacc _].
  - apply (demo_steps 2 (take 13 two)). by vm_compute.
  - right. exists (Ok tt). left. by vm_compute.
  - exact Hacc.
Defined.
