(* ===== verification/Messages.v ===== *)
(** * The messages of the bus and what their readers make of them

    Every message the services publish has one of five types, fixed by its
    exchange and routing key.  [typed] says which payload a message of a type
    carries; a typed message reads back as that payload. *)

From S2P Require Import Prelude Effects Json Events Interleaving Amqp.
Open Scope go_scope.

(** ** Types of messages *)

Section Typed.
Context `{TimeText}.

(** [b] is what [Wrap] makes of a payload, at some time and with some id. *)
Definition wraps {A} `{Events.Payload A} (ty tenant : string) (payload : A) (b : json) : Prop :=
  exists id now raw, payload_encode payload = Some raw
    /\ Envelope.encode (Envelope.mk id Envelope.envelopeVersion ty tenant now (Some raw)) = Some b.

Inductive typed : message -> Prop :=
| typed_alert a b :
    wraps RoutingKeyAlertReceived (Alert.TenantID a) a b ->
    typed (Message ExchangeAlerts RoutingKeyAlertReceived b)
| typed_created ev b :
    wraps RoutingKeyIncidentCreated (IncidentChanged.TenantID ev) ev b ->
    typed (Message ExchangeIncidents RoutingKeyIncidentCreated b)
| typed_updated ev b :
    wraps RoutingKeyIncidentUpdated (IncidentChanged.TenantID ev) ev b ->
    typed (Message ExchangeIncidents RoutingKeyIncidentUpdated b)
| typed_triggered ev b :
    in_int64 (EscalationTriggered.Tier ev) ->
    wraps RoutingKeyEscalationTriggered (EscalationTriggered.TenantID ev) ev b ->
    typed (Message ExchangeEscalations RoutingKeyEscalationTriggered b)
| typed_exhausted ev b :
    wraps RoutingKeyEscalationExhausted (EscalationExhausted.TenantID ev) ev b ->
    typed (Message ExchangeEscalations RoutingKeyEscalationExhausted b).

(** The queue a binding of the topology routes a message to. *)
Definition routed (queue : string) (m : message) : bool :=
  existsb (fun b => String.eqb b.1.1 queue && String.eqb b.1.2 (exchange m)
                    && (String.eqb b.2 "#" || String.eqb b.2 (routingKey m))) bindings.

(** What the reader of a queue does with a message before it acts on it: the
    envelope decodes, its type is the routing key, and the payload decodes into
    the variable the reader has for that type, with the tenant of the envelope. *)
Definition reads_as {A} `{Events.Payload A} (tenant_of : A -> string) (m : message) : Prop :=
  exists env a, Decode Envelope.decode (Some (body m)) Envelope.zero = Ok env
    /\ Envelope.Type_ env = routingKey m /\ Envelope.DecodePayload env payload_zero = Ok a
    /\ Envelope.TenantID env = tenant_of a.

Definition understood (queue : string) (m : message) : Prop :=
  routed queue m = true /\
  if String.eqb queue QueueAlertsIncident then reads_as Alert.TenantID m
  else if String.eqb queue QueueIncidentsEscalation then reads_as IncidentChanged.TenantID m
  else if String.eqb (routingKey m) RoutingKeyEscalationTriggered then reads_as EscalationTriggered.TenantID m
  else reads_as EscalationExhausted.TenantID m.

(** The queue of the messages of an exchange. *)
Definition queue_of (m : message) : string :=
  if String.eqb (exchange m) ExchangeAlerts then QueueAlertsIncident
  else if String.eqb (exchange m) ExchangeIncidents then QueueIncidentsEscalation
  else QueueEscalationsNotification.

(** Documented behaviour of package time: the JSON text of an instant, where there
    is one, reads back as the instant. *)
Definition time_text_law : Prop := forall t s, time_MarshalJSON t = Some s -> time_UnmarshalJSON s = Some t.

(** ** Lemmas *)

Lemma wraps_reads {A} `{PayloadLaws A valid} ty tenant (payload : A) b :
  time_text_law -> valid payload -> wraps ty tenant payload b ->
  exists env, Decode Envelope.decode (Some b) Envelope.zero = Ok env /\ Envelope.Type_ env = ty
    /\ Envelope.TenantID env = tenant /\ Envelope.DecodePayload env payload_zero = Ok payload.
Proof.
  intros Hlaw Hv (id & now & raw & He & Henv).
  destruct (payload_round_trip payload Hv) as (raw' & He' & Hd). rewrite He in He'. injection He' as <-.
  unfold Envelope.encode in Henv. cbn in Henv.
  destruct (time_MarshalJSON now) as [txt|] eqn:Em; [|done]. injection Henv as <-.
  unfold Decode, Unmarshal, Envelope.decode, dec_struct. cbn. rewrite (Hlaw _ _ Em). cbn. eexists. split; [reflexivity|].
  split; [done|]. split; [done|]. unfold Envelope.DecodePayload, Decode, Unmarshal. cbn. by rewrite Hd.
Qed.

Lemma wraps_reads_as {A} `{PayloadLaws A valid} (tenant_of : A -> string) ex ty (payload : A) b :
  time_text_law -> valid payload -> wraps ty (tenant_of payload) payload b ->
  reads_as tenant_of (Message ex ty b).
Proof.
  intros Hlaw Hv Hw. destruct (wraps_reads _ _ _ _ Hlaw Hv Hw) as (env & Hd & Ht & Hten & Hp).
  exists env, payload. done.
Qed.

(** An alert that has an encoding has instants that can be written. *)
Lemma encoded_alert_ok (a : Alert.t) ty tenant b :
  time_text_law -> wraps ty tenant a b -> time_text_ok (Alert.FiredAt a) /\ time_text_ok (Alert.ReceivedAt a).
Proof.
  intros Hlaw (id & now & raw & He & _). cbn in He. unfold Alert.encode in He.
  destruct (time_MarshalJSON (Alert.FiredAt a)) as [s1|] eqn:E1; [|done]. cbn in He.
  destruct (time_MarshalJSON (Alert.ReceivedAt a)) as [s2|] eqn:E2; [|done].
  split; eexists; split; eauto.
Qed.

Lemma typed_understood m : time_text_law -> typed m -> understood (queue_of m) m.
Proof.
  intros Hlaw Hm. split; [by destruct Hm|].
  destruct Hm as [a b Hw|ev b Hw|ev b Hw|ev b Ht Hw|ev b Hw]; simpl.
  - apply (wraps_reads_as Alert.TenantID _ _ a); [done|by eapply encoded_alert_ok|done].
  - by apply (wraps_reads_as IncidentChanged.TenantID _ _ ev).
  - by apply (wraps_reads_as IncidentChanged.TenantID _ _ ev).
  - by apply (wraps_reads_as EscalationTriggered.TenantID _ _ ev).
  - by apply (wraps_reads_as EscalationExhausted.TenantID _ _ ev).
Qed.

End Typed.

(** ** Publishing keeps what is known of the message handed to the brokers *)

Section Publishing.
Context `{Platform} `{TimeText} {D : Type} `{Broker D}.
Variable I : D -> Prop.

(** [I] allows the connection to change, and typed messages to be handed over. *)
Class NetInvariant := {
  ni_quiet : forall d n, I d -> handed n = handed (net d) -> I (set_net n d);
  ni_emit : forall d n m, I d -> typed m -> handed n = handed (net d) ++ [m] -> I (set_net n d)
}.

Context `{NetInvariant}.

Lemma Publish_keeps ex key b : typed (Message ex key b) -> keeps I (Publish ex key b) (fun _ => True).
Proof.
  intros Hm. eapply keeps_budget; [..|apply Publish_budget].
  - intros w w' (n & -> & En) Hi. by apply ni_quiet.
  - intros w w' (n & -> & En) Hi. by eapply ni_emit.
Qed.

(** ** Answers

    Errors that do not tell [process] to drop the message, and answers that are
    such an error or a value with [P]. *)

Definition plain (e : err) : Prop := errors_Is e ErrDrop = false.

Definition sound {A} (P : A -> Prop) (r : res A) : Prop :=
  match r with Ok a => P a | Err e => plain e end.

Definition always_true {A} (_ : A) : Prop := True.

Lemma plain_Wrap m e : plain e -> plain (Wrap m e).
Proof. done. Qed.

Lemma foreign_plain e : foreign e -> plain e.
Proof. by intros (_ & _ & ?). Qed.

#[local] Hint Resolve plain_Wrap foreign_plain : core.

Lemma sound_weaken {A} (P : A -> Prop) r : sound P r -> sound always_true r.
Proof. by destruct r. Qed.

(** A Go call followed by [if err != nil { return ..., g(err) }]. *)
Lemma keeps_let {A B} (P : A -> Prop) (Q : B -> Prop) (p : M D (res A)) (k : A -> M D (res B)) g :
  keeps I p (sound P) -> (forall a, P a -> keeps I (k a) (sound Q)) -> (forall e, plain e -> plain (g e)) ->
  keeps I (bind p (fun r => match r with Ok x => k x | Err e => Ret (Err (g e)) end)) (sound Q).
Proof. intros Hp Hk Hg. eapply keeps_bind; [exact Hp|]. intros [a|e]; simpl; auto. Qed.

(** A statement that leaves the state, or changes it within the invariant. *)
Lemma keeps_stmt {A} (P : A -> Prop) q uuids (f : Time -> string -> D -> res (A * D)) :
  foreign_faults ->
  (forall now uuid d, I d -> match f now uuid d with Ok (a, d') => I d' /\ P a | Err e => plain e end) ->
  keeps I (sql q uuids f) (sound P).
Proof. intros Hff Hf. apply keeps_sql; [done|by apply foreign_plain|exact Hf]. Qed.

Lemma keeps_True {A} (p : M D A) Q : keeps I p Q -> keeps I p always_true.
Proof. by apply keeps_mono. Qed.

Lemma keeps_tx {A} (P : A -> Prop) (body : dbConn -> M D (res A)) :
  foreign_faults -> (forall q, keeps I (body q) (sound P)) -> keeps I (withTx body) (sound P).
Proof. intros Hff Hb. apply keeps_withTx; [done|by apply foreign_plain|exact Hb]. Qed.

Lemma keeps_process (h : Handler) body (Q : outcome -> Prop) :
  (forall env, Decode Envelope.decode body Envelope.zero = Ok env -> keeps I (h env)
     (fun r => Q (match r with
                  | Panicked => Nack false
                  | Returned (Ok _) => Ack
                  | Returned (Err e) => Nack (negb (errors_Is e ErrDrop))
                  end))) ->
  (forall e, Decode Envelope.decode body Envelope.zero = Err e -> Q (Nack false)) ->
  keeps I (process h body) Q.
Proof.
  intros Hh He. unfold process. destruct (Decode _ _ _) as [env|e] eqn:Ed; [|by apply (He e)].
  eapply keeps_bind; [by apply Hh|]. intros [|[u|e]]; simpl; [done..|]. by destruct (errors_Is e ErrDrop).
Qed.

Lemma Wrap_keeps {A} `{Events.Payload A} ty tenant (payload : A) :
  keeps I (Envelope.Wrap ty tenant payload)
    (fun r => match r with Ok b => wraps ty tenant payload b | Err e => plain e end).
Proof.
  unfold Envelope.Wrap. destruct (payload_encode payload) as [raw|] eqn:He; [|done].
  apply keeps_then; [by apply keeps_read|]. intros id.
  apply keeps_then; [by apply keeps_read|]. intros now.
  destruct (Envelope.encode _) as [b|] eqn:Eb; [|done]. by exists id, now, raw.
Qed.

Lemma wrap_publish_keeps {A} `{Events.Payload A} ty tenant (payload : A) ex key m :
  (forall b, wraps ty tenant payload b -> typed (Message ex key b)) ->
  keeps I (let? b := Envelope.Wrap ty tenant payload wrap m in Publish ex key b) always_true.
Proof.
  intros Ht. eapply keeps_bind; [apply Wrap_keeps|]. intros [b|e] Hb; [|done]. by apply Publish_keeps, Ht.
Qed.

End Publishing.

#[export] Hint Resolve plain_Wrap foreign_plain : core.

(** ** Time goes on

    The number of calls never decreases: what is generated later is new. *)

Definition onward {D} (w w' : world D) : Prop := (tick w <= tick w')%nat.

#[export] Instance onward_PreOrder {D} : PreOrder (onward (D := D)).
Proof. split; [by intros w; unfold onward|]. intros w1 w2 w3. unfold onward. lia. Qed.

Lemma onward_atomic {D A} (op : world D -> A * world D) emit :
  (forall w, (tick w <= tick (op w).2)%nat) -> budget onward emit (Atomic op Ret) 0.
Proof. intros Ho w. left. split; [apply Ho|done]. Qed.

(** Both of two relations at every step. *)
Lemma budget_and {W A} (q1 q2 : W -> W -> Prop) (p : prog W A) :
  budget q1 (fun _ _ => False) p 0 -> budget q2 (fun _ _ => False) p 0 ->
  budget (fun w w' => q1 w w' /\ q2 w w') (fun _ _ => False) p 0.
Proof.
  induction p as [a|B op k IH]; [done|]. intros H1 H2 w.
  destruct (H1 w) as [[Hq1 Hk1]|[[] _]], (H2 w) as [[Hq2 Hk2]|[[] _]]. left. split; [done|]. by apply IH.
Qed.

Ltac onward :=
  repeat first
    [ done
    | match goal with |- budget _ _ (match ?x with _ => _ end) _ => destruct x end
    | apply onward_atomic; intros ?; simpl; repeat case_match; simpl; lia
    | apply budget_quiet_bind; [|intros ?] ].

Section Onward.
Context `{Platform} `{TimeText} {D : Type} `{Broker D}.
Variable emit : world D -> world D -> Prop.

Lemma onward_dial_loop n i e : budget onward emit (dial_loop (D := D) n i e) 0.
Proof. revert i e. induction n as [|n IH]; intros i e; cbn [dial_loop]; unfold dial; onward; auto. Qed.

Lemma onward_channel : budget onward emit (channel (D := D)) 0.
Proof.
  unfold channel, Channel, reconnect, conn_Channel, current, dialWithRetry. onward; apply onward_dial_loop.
Qed.

Lemma onward_Publish ex key b : budget onward emit (Publish (D := D) ex key b) 0.
Proof.
  unfold Publish, publishWithRetry. generalize 3%nat, 0%Z, (ErrNew "<nil>").
  intros n. induction n as [|n IH]; intros i e; cbn [publish_loop]; [done|].
  unfold publish, resetChannel. apply budget_quiet_bind.
  - apply budget_quiet_bind; [apply onward_channel|]. intros ?. onward.
  - intros ?. onward; auto.
Qed.

Lemma onward_Wrap {A} `{Events.Payload A} ty tenant (a : A) : budget onward emit (Envelope.Wrap (D := D) ty tenant a) 0.
Proof. unfold Envelope.Wrap. onward. Qed.

End Onward.

(** ** Publishing when nothing fails *)

(** The broker keeps the connection. *)
Definition steady `{Platform} : Prop := forall t, conn_closed_at t = false.

(** The clock gives times that can be written in JSON. *)
Definition writable_clock `{Platform} `{TimeText} : Prop := forall t, is_Some (time_MarshalJSON (now_at t)).

Section Reliable.
Context `{Platform} `{TimeText} {D : Type} `{Broker D}.
Hypothesis Hrel : reliable.

Lemma run_net_call f (w : world D) :
  run (net_call f) w = (Ok tt, World (S (tick w)) (upd_net f (data w))).
Proof. unfold net_call. by rewrite run_call_ok by apply Hrel. Qed.

Hypothesis Hsteady : steady.

Lemma run_Channel (w : world D) :
  exists w', run Channel w = (Ok tt, w').
Proof.
  unfold Channel, current, conn_Channel. rewrite run_bind. cbn [run tick data]. rewrite Hsteady, andb_true_r.
  destruct (conn (net (data w))) eqn:Ec.
  - eexists. apply run_net_call.
  - rewrite run_bind. unfold reconnect, current. rewrite run_bind. cbn [run tick data].
    rewrite Hsteady, Ec, andb_true_r. cbn [dialWithRetry dial_loop]. unfold dialWithRetry. cbn [dial_loop].
    rewrite run_bind. unfold dial, amqp_Dial. rewrite run_bind, run_net_call, run_bind.
    cbn [run tick data net_local local_step]. rewrite run_bind.
    cbn [run tick data]. unfold upd_net. rewrite !net_set_net, Hsteady. cbn [set_conn conn negb andb].
    eexists. apply run_net_call.
Qed.

Lemma run_publish m (w : world D) : exists w', run (publish m) w = (Ok tt, w').
Proof.
  unfold publish. rewrite run_bind.
  assert (exists w1, run channel w = (Ok tt, w1)) as [w1 ->].
  { unfold channel. rewrite run_bind. cbn [run tick data]. destruct (_ && _); [by eexists|].
    rewrite run_bind. match goal with |- context [run Channel ?x] => destruct (run_Channel x) as [w1 ->] end.
    rewrite run_bind. cbn. by eexists. }
  rewrite run_bind, run_net_call. by eexists.
Qed.

(** One copy of the message, and nothing else. *)
Lemma run_Publish ex key b (w : world D) :
  exists t n, run (Publish ex key b) w = (Ok tt, World t (set_net n (data w)))
    /\ handed n = handed (net (data w)) ++ [Message ex key b].
Proof.
  destruct (run_publish (Message ex key b) w) as [w1 E1].
  destruct (run_budget _ _ _ _ _ _ (publish_budget (Message ex key b)) E1) as (k & n & _ & Ed & _).
  exists (tick w1), n. split.
  - unfold Publish, publishWithRetry. cbn [publish_loop]. rewrite run_bind, E1. destruct w1. simpl in *. by subst.
  - apply publish_ok in E1. by rewrite Ed, net_set_net in E1.
Qed.

Hypothesis Hclock : writable_clock.

Lemma run_wrap_publish {A} `{Events.Payload A} ty tenant (payload : A) raw ex key m (w : world D) :
  payload_encode payload = Some raw ->
  exists t n b, run (let? b := Envelope.Wrap ty tenant payload wrap m in Publish ex key b) w
      = (Ok tt, World t (set_net n (data w)))
    /\ handed n = handed (net (data w)) ++ [Message ex key b] /\ wraps ty tenant payload b.
Proof.
  intros He. unfold Envelope.Wrap. rewrite He, run_bind. cbn -[Publish Envelope.encode].
  destruct (Hclock (S (tick w))) as [txt Htxt].
  destruct (Envelope.encode _) as [b|] eqn:Eb; [|unfold Envelope.encode in Eb; cbn in Eb; by rewrite Htxt in Eb].
  match goal with |- context [run (Publish _ _ _) ?x] => destruct (run_Publish ex key b x) as (t & n & -> & Ea) end.
  exists t, n, b. split; [done|]. split; [done|]. by do 3 eexists.
Qed.

End Reliable.

(** *** Programs made of such calls *)

Create HintDb bus.

(** One step through a program that keeps [I]; [stmt] is for its statements. *)
Ltac bus_step I stmt :=
  first
    [ done
    | match goal with |- keeps _ (Ret _) _ => cbn [keeps]; go_cases; done end
    | solve [auto with bus]
    | apply (keeps_True I _ (sound always_true)); solve [auto with bus]
    | stmt
    | apply keeps_read; done
    | apply keeps_tx; [assumption|intros ?]
    | eapply (keeps_let I always_true always_true); [|intros ? _|by auto]
    | apply keeps_then; [solve [auto with bus]|intros ?]
    | eapply (keeps_bind I _ _ (sound always_true)); [|intros [?|?] ?]
    | apply keeps_then; [|intros ?]
    | match goal with |- keeps _ (if ?b then _ else _) _ => destruct b end
    | match goal with |- keeps _ (match ?r with _ => _ end) _ => destruct r eqn:? end ].
