(* ===== verification/Http.v ===== *)
(** * HTTP: responses, service-to-service calls, readiness

    pkg/httpclient/httpclient.go, pkg/httpserver/ready.go and the response
    helpers of the handlers.  Servers of other processes are not part of a
    service's code: [http_reply] is what a GET answers. *)

From S2P Require Import Prelude Effects Json.
Open Scope go_scope.

Definition StatusOK : Z := 200.
Definition StatusCreated : Z := 201.
Definition StatusAccepted : Z := 202.
Definition StatusNoContent : Z := 204.
Definition StatusBadRequest : Z := 400.
Definition StatusUnauthorized : Z := 401.
Definition StatusForbidden : Z := 403.
Definition StatusNotFound : Z := 404.
Definition StatusConflict : Z := 409.
Definition StatusUnprocessableEntity : Z := 422.
Definition StatusTooManyRequests : Z := 429.
Definition StatusInternalServerError : Z := 500.
Definition StatusBadGateway : Z := 502.
Definition StatusServiceUnavailable : Z := 503.

(** A response: its status and the value [writeJSON] encodes, an error message
    or no body at all. *)
Inductive response (B : Type) :=
| Json (code : Z) (v : B)
| Error (code : Z) (msg : string)
| NoBody (code : Z).
Arguments Json {_} _ _.
Arguments Error {_} _ _.
Arguments NoBody {_} _.

Definition Code {B} (r : response B) : Z :=
  match r with Json c _ | Error c _ | NoBody c => c end.

(** Status and body of an answer to a GET; [None] is a transport error, and a
    body that is not JSON. *)
Class HttpEnv := {
  http_reply : nat -> string -> option (Z * option json)
}.

Section Client.
Context `{HttpEnv} {D : Type}.

Definition Do (url : string) : M D (option (Z * option json)) :=
  Atomic (fun w => (http_reply (tick w) url, World (S (tick w)) (data w))) Ret.

Record Client := { baseURL : string; adminKey : string }.

Definition New (baseURL adminKey : string) : Client :=
  {| baseURL := TrimRight baseURL "/"; adminKey := adminKey |}.

Definition GetJSON {A} (c : Client) (path : string) (dec : decoder A) (out : A) : M D (res A) :=
  let! resp := Do (baseURL c +:+ path) in
  Ret (match resp with
       | None => Err (ErrNew "httpclient: do request")
       | Some (code, body) =>
           if code =? StatusNotFound then Err ErrNotFound
           else if code =? StatusConflict then Err ErrConflict
           else if (code <? 200) || (300 <=? code) then Err (ErrNew "httpclient: unexpected status")
           else match Decode dec body out with
                | Ok a => Ok a
                | Err e => Err (Wrap "httpclient: decode" e)
                end
       end).

End Client.

(** ** ready.go *)

(** A check with the outcome of its probe. *)
Record check := { Name : string; Probe : res unit }.

Definition errUnavailable : err := ErrNew "dependency unavailable".

Definition BoolCheck (name : string) (ok : bool) : check :=
  {| Name := name; Probe := if ok then Ok tt else Err errUnavailable |}.

Fixpoint run_checks (checks : list check) (results : gmap string string) (ready : bool)
    : gmap string string * bool :=
  match checks with
  | [] => (results, ready)
  | c :: checks =>
      match Probe c with
      | Err _ => run_checks checks (<[Name c := "down"]> results) false
      | Ok _ => run_checks checks (<[Name c := "ok"]> results) ready
      end
  end.

(** The state word and the word of each check. *)
Definition ReadyHandler (checks : list check) : response (string * gmap string string) :=
  let '(results, ready) := run_checks checks ∅ true in
  if ready then Json StatusOK ("ready", results)
  else Json StatusServiceUnavailable ("unavailable", results).

(** The readiness answer is 200 exactly when every probe passes. *)
Lemma run_checks_ready checks results ready :
  (run_checks checks results ready).2 = ready && forallb (fun c => is_ok (Probe c)) checks.
Proof.
  revert results ready. induction checks as [|c checks IH]; intros results ready; simpl.
  - by rewrite andb_true_r.
  - destruct (Probe c); simpl; rewrite IH; [done|]. by rewrite andb_false_r.
Qed.

Lemma ReadyHandler_code checks :
  Code (ReadyHandler checks)
  = if forallb (fun c => is_ok (Probe c)) checks then StatusOK else StatusServiceUnavailable.
Proof.
  unfold ReadyHandler. pose proof (run_checks_ready checks ∅ true) as Hr.
  destruct (run_checks checks ∅ true) as [results ready]. simpl in Hr. rewrite <- Hr.
  by destruct ready.
Qed.
