(* ===== verification/Server.v ===== *)
(** * pkg/httpserver: the server loop of Run, readiness within its deadline

    [Run] starts [ListenAndServe] in a goroutine and waits for its error or for
    the end of the context; then [Shutdown] closes the listener and waits for the
    requests in flight, at most [shutdownTimeout].  A labelled transition system:
    requests are programs that step in any order next to the two goroutines.
    Also the settings of the HTTP clients, and the clock of the readiness
    handler. *)

From S2P Require Import Prelude Effects Interleaving Http.
From Stdlib Require Import Relation_Operators Wellfounded.

(** ** httpserver.go *)

Definition readTimeout : Duration := 15 * Second.
Definition readHeaderTimeout : Duration := 15 * Second.
Definition writeTimeout : Duration := 15 * Second.
Definition idleTimeout : Duration := 60 * Second.
Definition shutdownTimeout : Duration := 10 * Second.

Section Server.
Context `{Platform} {D : Type}.

(** [ListenAndServe]: not yet called, serving, failed, or closed by [Shutdown]. *)
Inductive listener := Starting | Serving | Failed (e : err) | Closed.

(** How [Run] came to return; a shutdown knows when it began. *)
Inductive reason := ListenerError | Drained | TimedOut (since now : Time).

(** Where [Run] stands: at its [select], in [Shutdown], or returned. *)
Inductive main_state :=
| AtSelect
| Stopping (since : Time)
| Done (r : res unit) (why : reason).

Record server := Srv {
  listening : listener;
  errCh : option (res unit);      (* the buffered channel *)
  main : main_state;
  accepted : list (M D unit);     (* the requests as they came in *)
  requests : list (M D unit)      (* what is left of each *)
}.

Definition init : server := Srv Starting None AtSelect [] [].

Definition finished (p : M D unit) : Prop := p = Ret tt.

Local Abbreviation state := (server * world D)%type.

Inductive action := Listen | ListenFails (e : err) | Accept (p : M D unit) | Serve (i : nat)
| ServerClosed | SelectErr | SelectDone | ShutdownDone | ShutdownTimeout.

Inductive step : action -> state -> state -> Prop :=
| step_listen c m acc rs w :
    step Listen (Srv Starting c m acc rs, w) (Srv Serving c m acc rs, w)
| step_fails l m acc rs w e :
    l = Starting \/ l = Serving ->
    step (ListenFails e) (Srv l None m acc rs, w) (Srv (Failed e) (Some (Err e)) m acc rs, w)
| step_accept c m acc rs w p :
    step (Accept p) (Srv Serving c m acc rs, w) (Srv Serving c m (acc ++ [p]) (rs ++ [p]), w)
| step_serve l c m acc rs w i p p' w' :
    rs !! i = Some p -> pstep p w = Some (p', w') ->
    step (Serve i) (Srv l c m acc rs, w) (Srv l c m acc (<[i := p']> rs), w')
| step_server_closed m acc rs w :
    step ServerClosed (Srv Closed None m acc rs, w) (Srv Closed (Some (Ok tt)) m acc rs, w)
| step_select_err l r acc rs w :
    step SelectErr (Srv l (Some r) AtSelect acc rs, w) (Srv l None (Done r ListenerError) acc rs, w)
| step_select_done l c acc rs w :
    done_at (tick w) = true ->
    step SelectDone (Srv l c AtSelect acc rs, w)
      (Srv (match l with Failed e => Failed e | _ => Closed end) c (Stopping (now_at (tick w))) acc rs, w)
| step_shutdown_done l c since acc rs w :
    Forall finished rs ->
    step ShutdownDone (Srv l c (Stopping since) acc rs, w) (Srv l c (Done (Ok tt) Drained) acc rs, w)
| step_shutdown_timeout l c since acc rs w :
    Before (now_at (tick w)) (Add since shutdownTimeout) = false ->
    step ShutdownTimeout (Srv l c (Stopping since) acc rs, w)
      (Srv l c (Done (Ok tt) (TimedOut since (now_at (tick w)))) acc rs, w).

Definition steps : relation state := rtc (fun x y => exists a, step a x y).

Definition is_finished (p : M D unit) : bool := match p with Ret _ => true | _ => false end.

Lemma is_finished_spec p : is_finished p = true <-> finished p.
Proof. unfold finished. by destruct p as [[]|]. Qed.

Lemma all_finished_spec ps : forallb is_finished ps = true <-> Forall finished ps.
Proof.
  rewrite List.forallb_forall, Forall_forall. setoid_rewrite list_elem_of_In. by setoid_rewrite is_finished_spec.
Qed.

(** One rule, executed. *)
Definition fire (a : action) (x : state) : option state :=
  let '(Srv l c m acc rs, w) := x in
  match a with
  | Listen => match l with Starting => Some (Srv Serving c m acc rs, w) | _ => None end
  | ListenFails e =>
      match l, c with
      | (Starting | Serving), None => Some (Srv (Failed e) (Some (Err e)) m acc rs, w)
      | _, _ => None
      end
  | Accept p => match l with Serving => Some (Srv Serving c m (acc ++ [p]) (rs ++ [p]), w) | _ => None end
  | Serve i =>
      match rs !! i with
      | Some p => match pstep p w with Some (p', w') => Some (Srv l c m acc (<[i := p']> rs), w') | None => None end
      | None => None
      end
  | ServerClosed => match l, c with Closed, None => Some (Srv Closed (Some (Ok tt)) m acc rs, w) | _, _ => None end
  | SelectErr =>
      match c, m with Some r, AtSelect => Some (Srv l None (Done r ListenerError) acc rs, w) | _, _ => None end
  | SelectDone =>
      match m with
      | AtSelect =>
          if done_at (tick w)
          then Some (Srv (match l with Failed e => Failed e | _ => Closed end) c (Stopping (now_at (tick w))) acc rs, w)
          else None
      | _ => None
      end
  | ShutdownDone =>
      match m with
      | Stopping _ => if forallb is_finished rs then Some (Srv l c (Done (Ok tt) Drained) acc rs, w) else None
      | _ => None
      end
  | ShutdownTimeout =>
      match m with
      | Stopping since =>
          if Before (now_at (tick w)) (Add since shutdownTimeout) then None
          else Some (Srv l c (Done (Ok tt) (TimedOut since (now_at (tick w)))) acc rs, w)
      | _ => None
      end
  end.

Lemma server_fire_step a x x' : fire a x = Some x' <-> step a x x'.
Proof.
  split.
  - destruct x as [[l c m acc rs] w]. destruct a; simpl; repeat case_match; intros; simplify_eq;
      repeat match goal with Hf : forallb is_finished _ = true |- _ => apply all_finished_spec in Hf end;
      by econstructor; eauto.
  - intros Hs; inversion Hs; subst; simpl; try done;
      repeat match goal with
      | Hx : ?a = _ |- context [?a] => rewrite Hx; simpl
      | Hx : _ \/ _ |- _ => destruct Hx as [->| ->]
      end; try done.
    match goal with Hf : Forall finished _ |- _ => by rewrite (proj2 (all_finished_spec _) Hf) end.
Qed.

(** ** Invariant *)

Definition returned_ok (s : server) (r : res unit) (why : reason) : Prop :=
  match why with
  | ListenerError => exists e, r = Err e /\ listening s = Failed e
  | Drained => r = Ok tt /\ Forall finished (requests s)
  | TimedOut since now => r = Ok tt /\ since + shutdownTimeout <= now
  end.

Record inv (s : server) : Prop := Inv {
  inv_closed : main s <> AtSelect -> listening s <> Serving /\ listening s <> Starting;
  inv_open : main s = AtSelect -> listening s <> Closed;
  inv_chan : forall r, errCh s = Some r ->
    (exists e, r = Err e /\ listening s = Failed e) \/ (r = Ok tt /\ listening s = Closed);
  inv_done : forall r why, main s = Done r why -> returned_ok s r why
}.

Lemma inv_init : inv init.
Proof. by split. Qed.

Lemma server_inv_step a x y : step a x y -> inv x.1 -> inv y.1.
Proof.
  intros Hs [Hc Ho Hch Hd]. inversion Hs; subst; simpl in *.
  - assert (m = AtSelect) as ->.
    { destruct m; [done|..]; exfalso; by destruct Hc as [? ?]. }
    split; simpl; try done. intros r Hr. by destruct (Hch r Hr) as [(? & _ & ?)|[_ ?]].
  - assert (m = AtSelect) as ->.
    { destruct m; [done|..]; exfalso; destruct Hc as [? ?]; try done;
        match goal with Hl : _ \/ _ |- _ => by destruct Hl end. }
    split; simpl; try done. intros r [= <-]. left. by eexists.
  - assert (m = AtSelect) as ->.
    { destruct m; [done|..]; exfalso; by destruct Hc as [? ?]. }
    by split.
  - split; simpl; try done. intros r why E. specialize (Hd r why E). destruct why; simpl in *; [done| |done].
    destruct Hd as [-> Hf]. exfalso. rewrite Forall_lookup in Hf. 
    match goal with Hi : rs !! i = Some p, Hp : pstep p w = _ |- _ => rewrite (Hf _ _ Hi) in Hp end. done.
  - split; simpl; try done. intros r [= <-]. by right.
  - split; simpl; try done.
    + intros _. destruct (Hch r eq_refl) as [(e & _ & ->)|[_ ->]]; done.
    + intros r' why [= <- <-]. simpl. destruct (Hch r eq_refl) as [(e & -> & ->)|[_ ->]]; [by eexists|].
      by destruct Ho.
  - split; simpl; try done.
    + intros _. by destruct l.
    + intros r Hr. destruct (Hch r Hr) as [(e & -> & ->)|[-> ->]]; [left; by eexists|by right].
  - split; simpl; try done; [intros _; by apply Hc|]. by intros r why [= <- <-].
  - split; simpl; try done; [intros _; by apply Hc|]. intros r why [= <- <-]. simpl. split; [done|].
    by apply Z.ltb_ge.
Qed.

Lemma server_inv_steps x y : steps x y -> inv x.1 -> inv y.1.
Proof. induction 1 as [|x z y (a & Ha) _ IH]; [done|]. intros Hi. apply IH. by eapply server_inv_step. Qed.

(** What was served is an execution of the requests as programs of one pool. *)
Lemma served_pool w0 x : steps (init, w0) x -> rtc pool_step (accepted x.1, w0) (requests x.1, x.2).
Proof.
  revert x. apply (rtc_ind_r (fun x => rtc pool_step (accepted x.1, w0) (requests x.1, x.2))); [done|].
  intros x y _ (a & Ha) IH. inversion Ha; subst; simpl in *; try done.
  - by apply pool_steps_app.
  - eapply rtc_r; [exact IH|]. by econstructor.
Qed.

(** ** Shutdown ends *)

Definition main_rank (m : main_state) : nat := match m with AtSelect => 2 | Stopping _ => 1 | Done _ _ => 0 end.

Definition rank (x : state) : (nat * (nat * list (M D unit)))%type :=
  (main_rank (main x.1), (match errCh x.1 with None => 1 | Some _ => 0 end, requests x.1))%nat.

Definition rank_below := slexprod _ _ lt (slexprod _ _ lt (one_below (@prog_below (world D) unit))).

Lemma server_rank_wf : well_founded rank_below.
Proof. repeat apply wf_slexprod; auto using lt_wf, one_below_wf, prog_below_wf. Qed.

Lemma stopping_rank a x y :
  step a x y -> inv x.1 -> main x.1 <> AtSelect -> rank_below (rank y) (rank x) /\ main y.1 <> AtSelect.
Proof.
  intros Ha Hi Hm. pose proof (inv_closed _ Hi Hm) as [Hs Hst]. unfold rank_below, rank.
  inversion Ha; subst; simpl in *; try done.
  - exfalso. match goal with Hl : _ \/ _ |- _ => destruct Hl as [->| ->]; done end.
  - split; [|done]. apply right_slex, right_slex. do 3 eexists. split; [eassumption|].
    split; [|reflexivity]. do 2 eexists; eassumption.
  - split; [|done]. apply right_slex, left_slex. lia.
  - split; [|done]. apply left_slex. lia.
  - split; [|done]. apply left_slex. lia.
Qed.

Lemma stopping_acc x : inv x.1 -> main x.1 <> AtSelect -> Acc (fun y x => exists a, step a x y) x.
Proof.
  remember (rank x) as n eqn:En. revert x En. induction (server_rank_wf n) as [n _ IH].
  intros x -> Hi Hm. constructor. intros y (a & Ha).
  destruct (stopping_rank _ _ _ Ha Hi Hm) as [Hr Hy].
  apply (IH _ Hr y eq_refl); [by eapply server_inv_step|done].
Qed.

(** Until it is over, a request or [Shutdown] itself can move. *)
Lemma stopping_progress s w since :
  main s = Stopping since ->
  (exists i y, step (Serve i) (s, w) y) \/ exists y, step ShutdownDone (s, w) y.
Proof.
  intros Hm. destruct s as [l c m acc rs]. simpl in Hm. subst m.
  assert (forall p : M D unit, {finished p} + {~ finished p}) as Hdec.
  { intros [[]|B op k]; [by left|by right]. }
  destruct (Forall_Exists_dec _ _ Hdec rs) as [Hf|He]; [right; eexists; by constructor|left].
  apply Exists_exists in He as (p & (i & Hi)%list_elem_of_lookup & Hn).
  destruct p as [[]|B op k]; [by destruct Hn|]. destruct (op w) as [b w'] eqn:E.
  eexists i, _. econstructor; [done|]. simpl. by rewrite E.
Qed.
End Server.

(** ** pkg/httpclient: the settings of a client *)

Record std_client := StdClient {
  Timeout : Duration;
  MaxIdleConns : Z;
  MaxIdleConnsPerHost : Z;
  IdleConnTimeout : Duration
}.

Definition defaultTimeout : Duration := 10 * Second.

Definition sharedTransport (timeout : Duration) : std_client := StdClient timeout 100 50 (90 * Second).

Definition NewStdClient (timeout : Duration) : std_client :=
  sharedTransport (if timeout <=? 0 then defaultTimeout else timeout).

(** No client waits for ever. *)
Lemma NewStdClient_timeout t : 0 < Timeout (NewStdClient t).
Proof. unfold NewStdClient. simpl. destruct (Z.leb_spec t 0); [done|lia]. Qed.

(** ** ready.go: the handler and its clock *)

Definition readyTimeout : Duration := 3 * Second.

(** A probe started at a time under a deadline: its answer, and when it came. *)
Record timed_check := TimedCheck { tc_Name : string; tc_Probe : Time -> Time -> res unit * Time }.

Fixpoint run_timed (deadline : Time) (checks : list timed_check) (now : Time) : list check * Time :=
  match checks with
  | [] => ([], now)
  | c :: checks =>
      let '(r, t) := tc_Probe c deadline now in
      let '(cs, t') := run_timed deadline checks t in
      ({| Name := tc_Name c; Probe := r |} :: cs, t')
  end.

Definition ReadyHandler_at (checks : list timed_check) (now : Time)
    : response (string * gmap string string) * Time :=
  let '(cs, t) := run_timed (Add now readyTimeout) checks now in (ReadyHandler cs, t).

(** A probe that stops at the deadline of its context, and fails when it is cut
    short by it. *)
Definition prompt (c : timed_check) : Prop :=
  forall deadline now, let '(r, t) := tc_Probe c deadline now in now <= t /\ t <= Z.max now deadline.

Definition fails_late (c : timed_check) : Prop :=
  forall deadline now, deadline <= now -> is_ok (tc_Probe c deadline now).1 = false.

Lemma run_timed_prompt deadline checks now :
  Forall prompt checks -> now <= deadline -> now <= (run_timed deadline checks now).2 <= deadline.
Proof.
  intros Hp. revert now. induction Hp as [|c cs Hc _ IH]; intros now Hn; simpl; [lia|].
  specialize (Hc deadline now). destruct (tc_Probe c deadline now) as [r t].
  specialize (IH t ltac:(lia)). destruct (run_timed deadline cs t) as [l t']. simpl in *. lia.
Qed.

Lemma run_timed_app deadline cs1 cs2 now :
  run_timed deadline (cs1 ++ cs2) now =
    let '(l1, t1) := run_timed deadline cs1 now in
    let '(l2, t2) := run_timed deadline cs2 t1 in (l1 ++ l2, t2).
Proof.
  revert now. induction cs1 as [|c cs1 IH]; intros now; simpl; [by destruct (run_timed _ _ _)|].
  destruct (tc_Probe c deadline now) as [r t]. rewrite IH.
  destruct (run_timed deadline cs1 t) as [l1 t1]. by destruct (run_timed deadline cs2 t1).
Qed.

(** ** Properties *)

(** The server stops as it should.  In every interleaving of the listener,
    the requests and the shutdown: no request is accepted once [Run] has seen the
    cancelled context or an error of the listener; [Run] returns an error only when
    the listener failed with it, and otherwise nil, after every accepted request was
    served to its end or ten seconds after the shutdown began; once it stops, every
    execution ends, and until it is over a request or the shutdown can move; and the
    requests ran as the programs of one pool. *)
Lemma Run_drains `{Platform} {D} (w0 : world D) s w :
  steps (init, w0) (s, w) ->
  (main s <> AtSelect -> forall p y, ~ step (Accept p) (s, w) y)
  /\ (forall r why, main s = Done r why -> returned_ok s r why)
  /\ (forall since, main s = Stopping since ->
        Acc (fun y x => exists a, step a x y) (s, w)
        /\ ((exists i y, step (Serve i) (s, w) y) \/ exists y, step ShutdownDone (s, w) y))
  /\ rtc pool_step (accepted s, w0) (requests s, w).
Proof.
  intros Hs. pose proof (server_inv_steps _ _ Hs inv_init) as Hi. simpl in Hi. split_and!.
  - intros Hm p y Ha. destruct (inv_closed _ Hi Hm) as [Hn _]. by inversion Ha; subst.
  - apply Hi.
  - intros since Hm. split; [apply stopping_acc; [done|by simpl; rewrite Hm]|by eapply stopping_progress].
  - exact (served_pool w0 _ Hs).
Qed.

(** /readyz answers within three seconds, whatever its dependencies do, when
    the probes stop at the deadline of their context; it says 200 exactly when all
    passed, and 503 when one of those that respect the deadline came too late. *)
Lemma readyz_bounded checks now :
  Forall prompt checks ->
  let '(resp, t) := ReadyHandler_at checks now in
  now <= t <= now + readyTimeout
  /\ (Code resp = StatusOK <->
      Forall (fun c => is_ok (Probe c) = true) (run_timed (Add now readyTimeout) checks now).1)
  /\ (forall before c after, checks = before ++ c :: after -> fails_late c ->
        (run_timed (Add now readyTimeout) before now).2 = now + readyTimeout ->
        Code resp = StatusServiceUnavailable).
Proof.
  intros Hp. unfold ReadyHandler_at.
  pose proof (run_timed_prompt (Add now readyTimeout) checks now Hp) as Ht.
  destruct (run_timed (Add now readyTimeout) checks now) as [cs t] eqn:Er. simpl in Ht.
  unfold Add, readyTimeout, Second in Ht. split; [unfold readyTimeout, Second; lia|].
  rewrite ReadyHandler_code. split.
  - split.
    + intros Hc. apply Forall_forall. intros c Hin. destruct (forallb _ cs) eqn:Ef; [|done].
      rewrite forallb_forall in Ef. by apply Ef, list_elem_of_In.
    + intros Hf. replace (forallb _ cs) with true; [done|]. symmetry. apply forallb_forall.
      intros c Hin%list_elem_of_In. rewrite Forall_forall in Hf. by apply Hf.
  - intros before c after -> Hl Hb. rewrite run_timed_app in Er. cbn [run_timed] in Er.
    destruct (run_timed _ before now) as [l1 t1]. simpl in Hb. subst t1.
    specialize (Hl (Add now readyTimeout) (now + readyTimeout) ltac:(unfold Add; lia)).
    destruct (tc_Probe c _ _) as [r t2]. simpl in Hl. destruct (run_timed _ after t2) as [l2 t3].
    injection Er as <- <-. rewrite forallb_app. simpl. rewrite Hl. by rewrite andb_false_r.
Qed.

(** *** A shutdown with one request in flight, and a hung dependency *)

Module Server_demo.
Definition P : Platform := {|
  now_at t := Z.of_nat t * Second; uuid_at t := pretty t; uuid_ok _ := true; fault_at _ := None;
  done_at t := (1 <=? t)%nat; conn_closed_at _ := false; chan_closed_at _ := false |}.

Definition request : M (list nat) unit :=
  bind (@call P (list nat) unit (fun _ _ d => Ok (tt, d ++ [1%nat])))
    (fun _ => bind (@call P (list nat) unit (fun _ _ d => Ok (tt, d ++ [2%nat]))) (fun _ => Ret tt)).

Definition w0 : world (list nat) := World 0 [].

(** A probe that answers at once, and one whose server never answers. *)
Definition up : timed_check := TimedCheck "redis" (fun deadline now =>
  if deadline <=? now then (Err (ErrNew "context deadline exceeded"), now) else (Ok tt, now)).
Definition hung : timed_check := TimedCheck "postgres" (fun deadline now =>
  (Err (ErrNew "context deadline exceeded"), Z.max now deadline)).

Lemma up_prompt : prompt up.
Proof. intros d n. simpl. destruct (d <=? n); lia. Qed.

Lemma hung_prompt : prompt hung.
Proof. intros d n. simpl. lia. Qed.

Lemma up_fails_late : fails_late up.
Proof. intros d n Hd. simpl. by destruct (Z.leb_spec d n); [|lia]. Qed.
End Server_demo.
Import Server_demo.

Lemma Run_drains_witness :
  exists s w, @steps P (list nat) (init, w0) (s, w)
    /\ main s = Done (Ok tt) Drained /\ data w = [1; 2]%nat
    /\ Forall finished (requests s) /\ forall p y, ~ @step P (list nat) (Accept p) (s, w) y.
Proof.
  assert (exists s w, @steps P (list nat) (init, w0) (s, w)
    /\ main s = Done (Ok tt) Drained /\ data w = [1; 2]%nat) as (s & w & Hs & Hm & Hd).
  { do 2 eexists. split; [|split].
    - eapply rtc_l; [exists Listen; apply step_listen|].
      eapply rtc_l; [exists (Accept request); apply step_accept|].
      eapply rtc_l; [exists (Serve 0); by eapply (step_serve _ _ _ _ _ _ 0%nat)|].
      eapply rtc_l; [exists SelectDone; by apply step_select_done|].
      eapply rtc_l; [exists (Serve 0); by eapply (step_serve _ _ _ _ _ _ 0%nat)|].
      eapply rtc_l; [exists ShutdownDone; apply step_shutdown_done; by repeat constructor|].
      reflexivity.
    - reflexivity.
    - reflexivity. }
  exists s, w. split; [done|]. split; [done|]. split; [done|].
  destruct (@Run_drains P (list nat) w0 s w Hs) as (Ha & Hr & _). split.
  - by apply (Hr _ _ Hm).
  - apply Ha. by rewrite Hm.
Defined.

Lemma readyz_bounded_witness :
  Code (ReadyHandler_at [hung; up] 5).1 = StatusServiceUnavailable
  /\ 5 <= (ReadyHandler_at [hung; up] 5).2 <= 5 + readyTimeout.
Proof.
  split; [reflexivity|].
  exact (proj1 (readyz_bounded [hung; up] 5
    (Forall_cons_2 _ _ _ hung_prompt (Forall_cons_2 _ _ _ up_prompt (Forall_nil_2 _))))).
Defined.
