(* ===== verification/Process.v ===== *)
(** * A service process, from its boot to its exit

    The tail of the mains under services/*/cmd/server/main.go: the HTTP server of
    [Server], the goroutines of the errgroup (the supervisor of [Consume] around
    the delivery loop of [Workers], the loop of the monitor), and the main
    goroutine, which joins them and then closes the publisher and the connection.
    They take steps in any order on one world. *)

From S2P Require Import Prelude Effects Json Interleaving Amqp Workers Server.
From Stdlib Require Import Relation_Operators Wellfounded.
Open Scope go_scope.

(** ** The members of the errgroup *)

Section Members.
Context `{Platform} `{TimeText} {D : Type} `{Broker D} `{Limits}.

(** One reading of the context or of a timer. *)
Definition tock (w : world D) : world D := World (S (tick w)) (data w).

Definition pause : M D unit := Atomic (fun w => (tt, tock w)) Ret.

Definition erase {A} (p : M D A) : M D unit := let! _ := p in Ret tt.

(** [consumeOnce] up to its loop: whether [ch.Close] was deferred, and its error. *)
Definition open_consumer : M D (bool * res unit) :=
  let! c := Channel in
  match c with
  | Err e => Ret (false, Err (Wrap "consumer: channel" e))
  | Ok _ =>
      let! q := net_call id in
      match q with
      | Err e => Ret (true, Err (Wrap "consumer: qos" e))
      | Ok _ =>
          let! s := net_call id in
          match s with
          | Err e => Ret (true, Err (Wrap "consumer: consume" e))
          | Ok _ =>
              let! _ := net_local (set_probe true) in
              Ret (true, Ok tt)
          end
      end
  end.

(** The deferred calls of [consumeOnce], before and after its loop has begun. *)
Definition close_channel (opened : bool) (r : res unit) : M D (res unit) :=
  if opened then let! _ := net_call id in Ret r else Ret r.

Definition leave_loop (r : res unit) : M D (res unit) :=
  let! _ := net_local (set_probe false) in
  close_channel true r.

(** The end of [Consume]: its deferred call, and the nil it returns. *)
Definition stop_probe : M D (res unit) :=
  let! _ := net_local (set_probe false) in
  Ret (Ok tt).

(** [Consume]: at the test of its loop, in [consumeOnce] before its loop, in it
    and after it, at the [select] of the backoff, in the deferred call. *)
Inductive supervisor :=
| Checking (backoff : Duration)
| Opening (p : M D (bool * res unit)) (backoff : Duration)
| Consuming (s : pool D) (backoff : Duration)
| Leaving (p : M D (res unit)) (backoff : Duration)
| Backing (backoff : Duration)
| Ending (p : M D (res unit)).

(** A goroutine of the group: a consumer, the monitor at its [select] or in a
    step, or what the function returned. *)
Inductive member :=
| Consumer (c : supervisor)
| Ticker
| Ticking (p : M D unit)
| Stopped (r : res unit).

Variable opts : ConsumeOptions.
Variable h : @Handler D.
Variable body : M D unit.    (* a step of the monitor *)

Local Abbreviation state := (member * world D)%type.

Inductive mstep : state -> state -> Prop :=
| check_done b w :
    done_at (tick w) = true -> mstep (Consumer (Checking b), w) (Consumer (Ending stop_probe), tock w)
| check_on b w :
    done_at (tick w) = false -> mstep (Consumer (Checking b), w) (Consumer (Opening open_consumer b), tock w)
| opening p p' b w w' :
    pstep p w = Some (p', w') -> mstep (Consumer (Opening p b), w) (Consumer (Opening p' b), w')
| opened c b w :
    mstep (Consumer (Opening (Ret (c, Ok tt)) b), w) (Consumer (Consuming (start []) b), w)
| not_opened c e b w :
    mstep (Consumer (Opening (Ret (c, Err e)) b), w) (Consumer (Leaving (close_channel c (Err e)) b), w)
| consuming a s s' b w w' :
    Workers.step opts h a (s, w) (s', w') -> mstep (Consumer (Consuming s b), w) (Consumer (Consuming s' b), w')
| consumed s r b w :
    loop s = Exited r -> mstep (Consumer (Consuming s b), w) (Consumer (Leaving (leave_loop r) b), w)
| leaving p p' b w w' :
    pstep p w = Some (p', w') -> mstep (Consumer (Leaving p b), w) (Consumer (Leaving p' b), w')
| left_done r b w :
    done_at (tick w) = true -> mstep (Consumer (Leaving (Ret r) b), w) (Consumer (Ending stop_probe), tock w)
| left_on r b w :
    done_at (tick w) = false -> mstep (Consumer (Leaving (Ret r) b), w) (Consumer (Backing b), tock w)
| back_done b w :
    done_at (tick w) = true -> mstep (Consumer (Backing b), w) (Consumer (Ending stop_probe), tock w)
| back_timer b w :
    mstep (Consumer (Backing b), w) (Consumer (Checking (next_backoff b)), tock w)
| ending p p' w w' :
    pstep p w = Some (p', w') -> mstep (Consumer (Ending p), w) (Consumer (Ending p'), w')
| ended r w :
    mstep (Consumer (Ending (Ret r)), w) (Stopped r, w)
| tick_done w :
    done_at (tick w) = true -> mstep (Ticker, w) (Stopped (Ok tt), tock w)
| tick_on w :
    mstep (Ticker, w) (Ticking body, tock w)
| ticking p p' w w' :
    pstep p w = Some (p', w') -> mstep (Ticking p, w) (Ticking p', w')
| ticked w :
    mstep (Ticking (Ret tt), w) (Ticker, w).

(** The choices of the scheduler: the next call, what a [select] sees, a rule of
    the delivery loop. *)
Inductive choice := Next | SeeDone | InLoop (a : Workers.action).

Definition advance {A} (f : M D A -> member) (p : M D A) (w : world D) (k : A -> state) : state :=
  match p with
  | Ret a => k a
  | Atomic op q => let '(b, w') := op w in (f (q b), w')
  end.

(** One rule, executed. *)
Definition mfire (a : choice) (x : state) : option state :=
  let '(m, w) := x in
  let done := done_at (tick w) in
  let stop := (Consumer (Ending stop_probe), tock w) in
  match a, m with
  | Next, Consumer (Checking b) => Some (if done then stop else (Consumer (Opening open_consumer b), tock w))
  | Next, Consumer (Opening p b) =>
      Some (advance (fun p => Consumer (Opening p b)) p w (fun r =>
        match r with
        | (_, Ok _) => (Consumer (Consuming (start []) b), w)
        | (c, Err e) => (Consumer (Leaving (close_channel c (Err e)) b), w)
        end))
  | InLoop a, Consumer (Consuming s b) =>
      match Workers.fire opts h a (s, w) with
      | Some (s', w') => Some (Consumer (Consuming s' b), w')
      | None => None
      end
  | Next, Consumer (Consuming s b) =>
      match loop s with Exited r => Some (Consumer (Leaving (leave_loop r) b), w) | _ => None end
  | Next, Consumer (Leaving p b) =>
      Some (advance (fun p => Consumer (Leaving p b)) p w (fun _ => if done then stop else (Consumer (Backing b), tock w)))
  | Next, Consumer (Backing b) => Some (Consumer (Checking (next_backoff b)), tock w)
  | SeeDone, Consumer (Backing _) => if done then Some stop else None
  | Next, Consumer (Ending p) => Some (advance (fun p => Consumer (Ending p)) p w (fun r => (Stopped r, w)))
  | Next, Ticker => Some (Ticking body, tock w)
  | SeeDone, Ticker => if done then Some (Stopped (Ok tt), tock w) else None
  | Next, Ticking p => Some (advance Ticking p w (fun _ => (Ticker, w)))
  | _, _ => None
  end.

Lemma advance_step {A} (f : M D A -> member) p w k x :
  (forall p p' w w', pstep p w = Some (p', w') -> mstep (f p, w) (f p', w')) ->
  (forall a, p = Ret a -> mstep (f (Ret a), w) (k a)) -> Some (advance f p w k) = Some x -> mstep (f p, w) x.
Proof.
  intros Hf Hk. destruct p as [a|B op q]; simpl; [intros [= <-]; by apply Hk|].
  destruct (op w) as [b w'] eqn:E. intros [= <-]. apply Hf. simpl. by rewrite E.
Qed.

Lemma mfire_step a x x' : mfire a x = Some x' -> mstep x x'.
Proof.
  destruct x as [m w]. destruct a as [| |a], m as [[b|p b|s b|p b|b|p]| |p|r]; try done; cbn -[Workers.fire].
  - destruct (done_at _) eqn:E; intros [= <-]; by constructor.
  - apply (advance_step (fun p => Consumer (Opening p b))); [by constructor|]. intros [c [[]|e]] _; constructor.
  - destruct (loop s) eqn:E; try done. intros [= <-]. by constructor.
  - apply (advance_step (fun p => Consumer (Leaving p b))); [by constructor|].
    intros r _. destruct (done_at _) eqn:E; by constructor.
  - intros [= <-]. constructor.
  - apply (advance_step (fun p => Consumer (Ending p))); [by constructor|]. intros r _. constructor.
  - intros [= <-]. constructor.
  - apply (advance_step Ticking); [by constructor|]. intros [] _. constructor.
  - destruct (done_at _) eqn:E; [|done]. intros [= <-]. by constructor.
  - destruct (done_at _) eqn:E; [|done]. intros [= <-]. by constructor.
  - destruct (Workers.fire opts h a (s, w)) as [[s' w']|] eqn:E; [|done]. intros [= <-]. eapply consuming. by apply fire_step.
Qed.

(** As the mains start them. *)
Definition fresh (m : member) : Prop := m = Consumer (Checking Second) \/ m = Ticker.

(** The programs that run in a member. *)
Definition live (m : member) : list (M D unit) :=
  match m with
  | Consumer (Opening p _) => [erase p]
  | Consumer (Consuming s _) => programs s
  | Consumer (Leaving p _) | Consumer (Ending p) => [erase p]
  | Ticking p => [p]
  | _ => []
  end.

End Members.
Arguments supervisor : clear implicits.
Arguments member : clear implicits.

(** The parts of [consumeOnce], one after the other. *)
Lemma consumeOnce_parts `{Platform} `{TimeText} {D} `{Broker D} select_at fuel (h : @Handler D) w :
  run (consumeOnce select_at fuel h) w =
  run (let! o := open_consumer in
       match o with
       | (c, Err e) => let! r := close_channel c (Err e) in Ret (Some r)
       | (_, Ok _) =>
           let! r := delivery_loop select_at fuel h in
           match r with
           | Some (_, e) => let! r := leave_loop e in Ret (Some r)
           | None => let! _ := leave_loop (Ok tt) in Ret None
           end
       end) w.
Proof.
  unfold consumeOnce, open_consumer, leave_loop, close_channel. rewrite !run_bind.
  destruct (run Channel w) as [[u|e] w1]; [|done]. rewrite !run_bind.
  destruct (run (net_call id) w1) as [[q|e] w2] eqn:E2; cbv iota beta; [|by rewrite ?run_bind].
  rewrite !run_bind. destruct (run (net_call id) w2) as [[s|e] w3] eqn:E3; cbv iota beta; [|by rewrite ?run_bind].
  rewrite !run_bind. destruct (run (net_local (set_probe true)) w3) as [v w4]. cbn [run]. rewrite !run_bind.
  destruct (run (delivery_loop select_at fuel h) w4) as [[[os e]|] w5]; rewrite ?run_bind;
    destruct (run (net_local (set_probe false)) w5) as [v' w6]; cbn [run]; rewrite ?run_bind;
    by destruct (run (net_call id) w6).
Qed.

(** ** The process *)

Section Process.
Context `{Platform} `{TimeText} {D : Type} `{Broker D} `{Limits}.
Variable opts : ConsumeOptions.
Variable h : @Handler D.
Variable body : M D unit.
Variable request : M D unit -> Prop.    (* the requests that can come in *)
Variable closing : M D unit.            (* the calls of main after [g.Wait] *)

(** The main goroutine: in [httpserver.Run], in [g.Wait], closing, or gone. *)
Inductive stage :=
| Running
| Joining
| Closing (p : M D unit)
| Gone (code : Z).

Record process := Proc {
  http : @server D;
  group : list (member D);
  main : stage
}.

Definition boot (ms : list (member D)) : process := Proc Server.init ms Running.

Local Abbreviation state := (process * world D)%type.

Definition is_gone (m : stage) : bool := match m with Gone _ => true | _ => false end.

Definition is_stopped (m : member D) : Prop := exists r, m = Stopped r.

Inductive move : state -> state -> Prop :=
| http_moves a s s' g m w w' :
    is_gone m = false -> (forall p, a = Server.Accept p -> request p) ->
    Server.step a (s, w) (s', w') -> move (Proc s g m, w) (Proc s' g m, w')
| member_moves i x x' s g m w w' :
    is_gone m = false -> g !! i = Some x -> mstep opts h body (x, w) (x', w') ->
    move (Proc s g m, w) (Proc s (<[i := x']> g) m, w')
| run_failed s e why g w :
    Server.main s = Done (Err e) why -> move (Proc s g Running, w) (Proc s g (Gone 1), w)
| run_returned s why g w :
    Server.main s = Done (Ok tt) why -> move (Proc s g Running, w) (Proc s g Joining, w)
| joined s g w :
    Forall is_stopped g -> move (Proc s g Joining, w) (Proc s g (Closing closing), w)
| closes s g p p' w w' :
    pstep p w = Some (p', w') -> move (Proc s g (Closing p), w) (Proc s g (Closing p'), w')
| exits s g w :
    move (Proc s g (Closing (Ret tt)), w) (Proc s g (Gone 0), w).

Definition moves : relation state := rtc move.

Inductive turn := Http (a : @Server.action D) | Member (i : nat) (a : choice) | Main.

Definition stopped (m : member D) : bool := match m with Stopped _ => true | _ => false end.

Lemma all_stopped g : forallb stopped g = true <-> Forall is_stopped g.
Proof.
  rewrite List.forallb_forall, Forall_forall. setoid_rewrite list_elem_of_In.
  split; intros Hg m Hm; specialize (Hg m Hm); unfold is_stopped, stopped in *; destruct m; try done; eauto;
    by destruct Hg.
Qed.

(** One rule, executed, whatever requests come in. *)
Definition fire (t : turn) (x : state) : option state :=
  let '(Proc s g m, w) := x in
  match t with
  | Http a =>
      if is_gone m then None
      else match Server.fire a (s, w) with Some (s', w') => Some (Proc s' g m, w') | None => None end
  | Member i a =>
      if is_gone m then None
      else match g !! i with
           | Some x =>
               match mfire opts h body a (x, w) with
               | Some (x', w') => Some (Proc s (<[i := x']> g) m, w')
               | None => None
               end
           | None => None
           end
  | Main =>
      match m, Server.main s with
      | Running, Done (Err _) _ => Some (Proc s g (Gone 1), w)
      | Running, Done (Ok _) _ => Some (Proc s g Joining, w)
      | Joining, _ => if forallb stopped g then Some (Proc s g (Closing closing), w) else None
      | Closing (Ret _), _ => Some (Proc s g (Gone 0), w)
      | Closing (Atomic op q), _ => let '(b, w') := op w in Some (Proc s g (Closing (q b)), w')
      | _, _ => None
      end
  end.

Fixpoint fire_all (l : list turn) (x : state) : option state :=
  match l with
  | [] => Some x
  | t :: l => match fire t x with Some x' => fire_all l x' | None => None end
  end.

Definition expected (t : turn) : Prop := forall p, t = Http (Server.Accept p) -> request p.

Lemma fire_move t x x' : expected t -> fire t x = Some x' -> move x x'.
Proof.
  intros Ht. destruct x as [[s g m] w]. destruct t as [a|i a|]; cbn -[Server.fire mfire].
  - destruct (is_gone m) eqn:E; [done|]. destruct (Server.fire a (s, w)) as [[s' w']|] eqn:Ef; [|done]. intros [= <-].
    eapply http_moves; [done| |by apply server_fire_step]. intros p ->. by apply Ht.
  - destruct (is_gone m) eqn:E; [done|]. destruct (g !! i) as [x|] eqn:Ei; [|done].
    destruct (mfire _ _ _ _ _) as [[y w']|] eqn:Ef; [|done]. intros [= <-].
    eapply member_moves; [done..|]. by eapply mfire_step.
  - destruct m as [| |[[]|B op q]|code]; try done.
    + destruct (Server.main s) as [| |[[]|e] why] eqn:E; [done..| |]; intros [= <-]; by econstructor.
    + destruct (forallb stopped g) eqn:E; [|done]. intros [= <-]. constructor. by apply all_stopped.
    + intros [= <-]. constructor.
    + destruct (op w) as [b w'] eqn:E. intros [= <-]. constructor. simpl. by rewrite E.
Qed.

Lemma fire_all_moves l x x' : Forall expected l -> fire_all l x = Some x' -> moves x x'.
Proof.
  revert x. induction l as [|t l IH]; intros x Hl; simpl; [by intros [= ->]|].
  apply Forall_cons in Hl as [Ht Hl]. destruct (fire t x) as [x1|] eqn:E; [|done]. intros Hr.
  eapply rtc_l; [by eapply fire_move|by apply IH].
Qed.

(** The programs that run in the process. *)
Definition live_all (s : process) : list (M D unit) :=
  requests (http s) ++ flat_map live (group s) ++ match main s with Closing p => [p] | _ => [] end.

End Process.

(** ** Everything runs as the programs of one pool *)

Lemma insert_delete_Permutation {A} (l : list A) i x y : l !! i = Some x -> <[i := y]> l ≡ₚ y :: delete i l.
Proof.
  intros Hi. rewrite insert_take_drop by (by eapply lookup_lt_Some). rewrite delete_take_drop.
  by rewrite Permutation_middle.
Qed.

Section Cover.
Context {W : Type}.
Variable P : prog W unit -> Prop.
Variable w0 : W.

(** The programs [l] are what is left of some of a pool of programs that [P]. *)
Definition covered (l : list (prog W unit)) (w : W) : Prop :=
  exists ps qs, Forall P ps /\ rtc pool_step (ps, w0) (qs, w) /\ l ⊆+ qs.

Lemma covered_nil : covered [] w0.
Proof. exists [], []. split; [done|]. by split. Qed.

Lemma covered_sub l l' w : l' ⊆+ l -> covered l w -> covered l' w.
Proof. intros Hs (ps & qs & Hp & Hr & Hl). exists ps, qs. split_and!; [done..|by transitivity l]. Qed.

#[export] Instance covered_perm : Proper ((≡ₚ) ==> (=) ==> iff) covered.
Proof. intros l l' E w ? <-. split; apply covered_sub; by rewrite E. Qed.

Lemma covered_start p l w : P p -> covered l w -> covered (p :: l) w.
Proof.
  intros Hp (ps & qs & Hps & Hr & Hl). exists (ps ++ [p]), (qs ++ [p]). split_and!.
  - by apply Forall_app_2; [|apply Forall_singleton].
  - by apply pool_steps_app.
  - rewrite (Permutation_app_comm qs). by apply submseteq_skip.
Qed.

Lemma covered_at i p p' l w w' :
  l !! i = Some p -> pstep p w = Some (p', w') -> covered l w -> covered (<[i := p']> l) w'.
Proof.
  intros Hi Hp (ps & qs & Hps & Hr & Hl).
  pose proof (delete_Permutation _ _ _ Hi) as El.
  assert (p ∈ qs) as (j & Hj)%list_elem_of_lookup
    by (eapply elem_of_submseteq; [|exact Hl]; rewrite El; left).
  exists ps, (<[j := p']> qs). split_and!; [done|by eapply rtc_r; [exact Hr|econstructor]|].
  rewrite (insert_delete_Permutation _ _ _ p' Hi), (insert_delete_Permutation _ _ _ p' Hj).
  apply submseteq_skip. apply submseteq_Permutation in Hl as (k & Ek).
  rewrite El, (delete_Permutation _ _ _ Hj) in Ek. apply (Permutation_cons_inv (l' := _ ++ _)) in Ek.
  rewrite Ek. by apply submseteq_inserts_r.
Qed.

Lemma covered_step l l' w w' : pool_step (l, w) (l', w') -> covered l w -> covered l' w'.
Proof. intros Hs. inversion Hs; subst. by eapply covered_at. Qed.

End Cover.

Section Refinement.
Context `{Platform} `{TimeText} {D : Type} `{Broker D} `{Limits}.
Variable opts : ConsumeOptions.
Variable h : @Handler D.
Variable body : M D unit.
Variable request : M D unit -> Prop.
Variable closing : M D unit.

Inductive program : M D unit -> Prop :=
| request_program p : request p -> program p
| delivery_program b : program (forget (Amqp.process h b))
| step_program : program body
| own_program p : housekeeping p -> program p.

Lemma erase_housekeeping {A} (p : M D A) : budget net_quiet (fun _ _ => False) p 0 -> housekeeping (erase p).
Proof. intros Hp. by apply budget_quiet_bind. Qed.

Lemma pause_housekeeping : housekeeping pause.
Proof. apply quiet_read. Qed.

Lemma open_consumer_quiet : budget net_quiet (fun _ _ => False) open_consumer 0.
Proof.
  unfold open_consumer. apply budget_quiet_bind; [apply quiet_Channel|]. intros [u|e]; [|done].
  apply budget_quiet_bind; [by apply quiet_net_call|]. intros [q|e]; [|done].
  apply budget_quiet_bind; [by apply quiet_net_call|]. intros [s|e]; [|done].
  by apply budget_quiet_bind; [apply quiet_net_local|].
Qed.

Lemma close_channel_quiet c r : budget net_quiet (fun _ _ => False) (close_channel c r) 0.
Proof. destruct c; [|done]. by apply budget_quiet_bind; [apply quiet_net_call|]. Qed.

Lemma leave_loop_quiet r : budget net_quiet (fun _ _ => False) (leave_loop r) 0.
Proof. apply budget_quiet_bind; [by apply quiet_net_local|intros _; apply close_channel_quiet]. Qed.

Lemma stop_probe_quiet : budget net_quiet (fun _ _ => False) stop_probe 0.
Proof. by apply budget_quiet_bind; [apply quiet_net_local|]. Qed.

Hypothesis Hclosing : housekeeping closing.

Variable w0 : world D.
Local Abbreviation cov l w := (covered program w0 l w).

Lemma cov_started {A} (p : M D A) l w :
  budget net_quiet (fun _ _ => False) p 0 -> cov l w -> cov (erase p :: l) w.
Proof. intros Hp. apply covered_start. by apply own_program, erase_housekeeping. Qed.

Lemma cov_tock l w : cov l w -> cov l (tock w).
Proof.
  intros Hc. eapply (covered_sub _ _ (Ret tt :: l)); [by apply submseteq_cons|].
  apply (covered_at _ _ 0 pause _ (pause :: l) w); [done..|].
  apply covered_start; [by apply own_program, pause_housekeeping|done].
Qed.

Lemma cov_erase {A} (p p' : M D A) l w w' :
  pstep p w = Some (p', w') -> cov (erase p :: l) w -> cov (erase p' :: l) w'.
Proof.
  intros Hp. apply (covered_at _ _ 0 (erase p) (erase p') (erase p :: l)); [done|].
  exact (pstep_bind _ _ (fun _ => Ret tt) _ _ Hp).
Qed.

Lemma cov_drop p l w : cov (p :: l) w -> cov l w.
Proof. apply covered_sub. by apply submseteq_cons. Qed.

Lemma mstep_covered x x' l w w' :
  mstep opts h body (x, w) (x', w') -> cov (live x ++ l) w -> cov (live x' ++ l) w'.
Proof.
  intros Hs Hc. inversion Hs; subst; simpl in *;
    try match goal with |- cov _ (tock _) => apply cov_tock end;
    eauto using cov_started, cov_drop, cov_erase, open_consumer_quiet, close_channel_quiet, leave_loop_quiet, stop_probe_quiet.
  - match goal with Ha : Workers.step _ _ _ _ _ |- _ => destruct (step_programs _ _ _ _ _ _ _ Ha) as
      [(-> & _ & ->)|[(d & -> & _ & ->)|(Hp & _)]] end; [done| |].
    + rewrite <- app_assoc. simpl. apply (covered_sub _ _ (program_of h d :: programs s ++ l)).
      * by rewrite <- Permutation_middle.
      * by apply covered_start; [apply delivery_program|].
    + eapply covered_step; [|exact Hc]. inversion Hp; subst. rewrite <- insert_app_l by (by eapply lookup_lt_Some).
      econstructor; [by apply lookup_app_l_Some|done].
  - apply cov_started; [apply leave_loop_quiet|]. eapply covered_sub; [|exact Hc]. by apply submseteq_inserts_l.
  - by apply covered_start; [apply step_program|].
  - by eapply (covered_at _ _ 0 _ _ (_ :: l)); [| |exact Hc].
Qed.

Lemma live_group_at (g : list (member D)) i x :
  g !! i = Some x -> flat_map live g ≡ₚ live x ++ flat_map live (delete i g).
Proof. intros Hi. by rewrite (delete_Permutation _ _ _ Hi) at 1. Qed.

Lemma live_group_set (g : list (member D)) i x x' :
  g !! i = Some x -> flat_map live (<[i := x']> g) ≡ₚ live x' ++ flat_map live (delete i g).
Proof. intros Hi. by rewrite (insert_delete_Permutation _ _ _ x' Hi). Qed.

Lemma move_covered s s' w w' :
  move opts h body request closing (s, w) (s', w') -> cov (live_all s) w -> cov (live_all s') w'.
Proof.
  intros Hs Hc. unfold live_all in *. inversion Hs; subst; simpl in *.
  - match goal with Ha : Server.step _ _ _ |- _ => inversion Ha; subst; simpl in *; try done end.
    + rewrite <- app_assoc. simpl. eapply covered_sub; [by rewrite <- Permutation_middle|].
      apply covered_start; [apply request_program; auto|done].
    + rewrite <- insert_app_l by (by eapply lookup_lt_Some).
      eapply covered_at; [by apply lookup_app_l_Some|done..].
  - match goal with Hi : g !! i = Some _ |- _ => rename Hi into Hg end.
    eapply covered_sub; [|eapply mstep_covered; [eassumption|eapply covered_sub; [|exact Hc]]].
    + rewrite (live_group_set _ _ _ x' Hg).
      rewrite <- (app_assoc (live x')), (Permutation_app_comm (requests s0)), <- !app_assoc. reflexivity.
    + rewrite (live_group_at _ _ _ Hg). rewrite <- (app_assoc (live x)).
      rewrite (Permutation_app_comm (requests s0)), <- !app_assoc. reflexivity.
  - done.
  - done.
  - rewrite app_nil_r in Hc. eapply covered_sub; [|apply covered_start; [by apply own_program|exact Hc]].
    rewrite app_assoc. by rewrite Permutation_app_comm.
  - rewrite !app_assoc in *.
    match goal with Hp : pstep _ _ = _ |- _ => rename Hp into Hp1 end.
    rewrite Permutation_app_comm in Hc. rewrite Permutation_app_comm.
    by eapply (covered_at _ _ 0 _ _ (_ :: _)); [|exact Hp1|].
  - rewrite !app_assoc in Hc. rewrite app_assoc, app_nil_r. eapply covered_sub; [|exact Hc]. by apply submseteq_inserts_r.
Qed.

Lemma fresh_live ms : Forall fresh ms -> flat_map (@live D) ms = [].
Proof. induction 1 as [|m ms [-> | ->] _ IH]; done. Qed.

(** An execution of the process is one of a pool of requests, deliveries, steps
    of the monitor, and programs on the connection only. *)
Lemma moves_covered ms s w :
  Forall fresh ms -> moves opts h body request closing (boot ms, w0) (s, w) ->
  exists ps order qs, Forall program ps /\ run_schedule order ps w0 = (qs, w).
Proof.
  intros Hf Hr. assert (cov (live_all s) w) as (ps & qs & Hp & Hq & _).
  { change (cov (live_all (s, w).1) (s, w).2). revert Hr. generalize (s, w).
    apply (rtc_ind_r (fun x => cov (live_all x.1) x.2)).
    - unfold live_all. simpl. rewrite app_nil_r, fresh_live by done. apply covered_nil.
    - intros [s1 w1] [s2 w2] _ Hm. by eapply move_covered. }
  apply rtc_run_schedule in Hq as (order & Ho). eauto.
Qed.

End Refinement.
