(* ===== verification/Shutdown.v ===== *)
(** * The shutdown of a service process

    What [Process] does once its context is cancelled: the order in which main
    closes the service down, that it can always come to its exit, and that nothing
    goes on for ever once everything has noticed. *)

From S2P Require Import Prelude Effects Json Events Interleaving Amqp Workers Http Server Process.
From Stdlib Require Import Relation_Operators Wellfounded.
Open Scope go_scope.

(** ** The clock *)

(** [p] never sets the clock back. *)
Definition forward {D} (w w' : world D) : Prop := (tick w <= tick w')%nat.
Definition forwards {D A} (p : M D A) : Prop := budget forward (fun _ _ => False) p 0.

Section Forward.
Context `{Platform} {D : Type}.

Lemma forwards_bind {A B} (p : M D A) (f : A -> M D B) :
  forwards p -> (forall a, forwards (f a)) -> forwards (bind p f).
Proof. apply budget_quiet_bind. Qed.

Lemma forwards_step {A} (p p' : M D A) w w' :
  pstep p w = Some (p', w') -> forwards p -> forwards p' /\ (tick w <= tick w')%nat.
Proof.
  destruct p as [a|B op k]; simpl; [done|]. destruct (op w) as [b w1] eqn:E. intros [= <- <-] Hf.
  destruct (Hf w) as [[Hq Hk]|[[] _]]. by rewrite E in Hq, Hk.
Qed.

Lemma forwards_call {A} (f : Time -> string -> D -> res (A * D)) : forwards (call f).
Proof.
  intros w. left. split; [|done]. unfold forward. simpl.
  repeat case_match; simpl; lia.
Qed.

Lemma forwards_sql {A} q uuids (f : Time -> string -> D -> res (A * D)) : forwards (sql q uuids f).
Proof. apply forwards_call. Qed.

Lemma forwards_local {A} (f : D -> A * D) : forwards (local_step f).
Proof. intros w. left. split; [|done]. unfold forward. simpl. by destruct (f _). Qed.

Lemma forwards_read {A} (g : world D -> A) :
  forwards (Atomic (fun w => (g w, World (S (tick w)) (data w))) Ret).
Proof. intros w. left. split; [|done]. unfold forward. simpl. lia. Qed.

Lemma forwards_run {A} (p : M D A) w : forwards p -> (tick w <= tick (run p w).2)%nat.
Proof.
  revert w. induction p as [a|B op k IH]; intros w Hf; simpl; [done|].
  destruct (Hf w) as [[Hq Hk]|[[] _]]. destruct (op w) as [b w1]. unfold forward in Hq. simpl in *.
  specialize (IH b w1 Hk). lia.
Qed.

Lemma forwards_withTx {A} (b : dbConn -> M D (res A)) : (forall q, forwards (b q)) -> forwards (withTx b).
Proof.
  intros Hb w. left. split; [|done]. unfold forward. simpl.
  destruct (fault_at (tick w)) as [[e|e]|]; simpl; [lia..|].
  pose proof (forwards_run _ (World (S (tick w)) (data w)) (Hb (Tx (now_at (tick w))))) as Hr. simpl in Hr.
  destruct (run _ _) as [[a|e] w']; simpl in *; [|lia]. repeat case_match; simpl; lia.
Qed.

Lemma forwards_for_each {X} (l : list X) (f : X -> M D unit) : (forall x, forwards (f x)) -> forwards (for_each l f).
Proof. intros Hf. induction l as [|x l IH]; simpl; [done|]. by apply forwards_bind. Qed.

End Forward.

Create HintDb forward.
#[export] Hint Resolve forwards_call forwards_sql forwards_local forwards_read forwards_withTx forwards_for_each : forward.

(** A program is cut at its binds and branches; the calls are in the database. *)
Ltac forward_step :=
  match goal with
  | |- forwards (bind _ _) => apply forwards_bind
  | |- forwards (Ret _) => exact I
  | |- forwards (withTx _) => apply forwards_withTx
  | |- forwards (for_each _ _) => apply forwards_for_each
  | |- forwards (match ?x with _ => _ end) => destruct x
  | |- forall _, _ => intros ?
  | |- forwards _ => solve [auto with forward nocore]
  end.

Section Forward_amqp.
Context `{Platform} {D : Type} `{Broker D}.

Lemma forwards_net_call f : forwards (net_call f).
Proof. apply forwards_call. Qed.

Lemma forwards_net_local f : forwards (net_local f).
Proof. apply forwards_local. Qed.

#[local] Hint Resolve forwards_net_call forwards_net_local : forward.

Lemma forwards_dial_loop n i e : forwards (dial_loop n i e).
Proof. revert i e. induction n as [|n IH]; intros i e; cbn [dial_loop]; [done|]. unfold dial, amqp_Dial, sleep_or_Done. repeat forward_step. Qed.

#[local] Hint Resolve forwards_dial_loop : forward.

Lemma forwards_Channel : forwards Channel.
Proof. unfold Channel, reconnect, dialWithRetry, conn_Channel, current. repeat forward_step. Qed.

#[local] Hint Resolve forwards_Channel : forward.

Lemma forwards_open_consumer : forwards open_consumer.
Proof. unfold open_consumer. repeat forward_step. Qed.

Lemma forwards_close_channel c r : forwards (close_channel c r).
Proof. unfold close_channel. repeat forward_step. Qed.

Lemma forwards_leave_loop r : forwards (leave_loop r).
Proof. pose proof forwards_close_channel. unfold leave_loop. repeat forward_step. Qed.

Lemma forwards_stop_probe : forwards stop_probe.
Proof. unfold stop_probe. repeat forward_step. Qed.

Lemma forwards_publish_loop n i e m : forwards (publish_loop n i e m).
Proof.
  revert i e. induction n as [|n IH]; intros i e; cbn [publish_loop]; [done|].
  unfold publish, channel, resetChannel, sleep_or_Done. repeat forward_step.
Qed.

Lemma forwards_Publish ex key b : forwards (Publish ex key b).
Proof. apply forwards_publish_loop. Qed.

Lemma forwards_Wrap `{TimeText} {A} `{Events.Payload A} ty tenant (a : A) : forwards (D := D) (Envelope.Wrap ty tenant a).
Proof. unfold Envelope.Wrap, uuid_NewString, time_Now. repeat forward_step. Qed.

Lemma forwards_GetJSON `{HttpEnv} {A} c path (dec : decoder A) out : forwards (D := D) (GetJSON c path dec out).
Proof. unfold GetJSON, Do. repeat forward_step. Qed.

Lemma forwards_process `{TimeText} (h : @Handler D) b : (forall env, forwards (h env)) -> forwards (Amqp.process h b).
Proof. intros Hh. unfold Amqp.process. repeat forward_step. Qed.

End Forward_amqp.

#[export] Hint Resolve forwards_net_call forwards_net_local forwards_Channel forwards_open_consumer forwards_close_channel
  forwards_leave_loop forwards_stop_probe forwards_process forwards_Publish forwards_Wrap forwards_GetJSON : forward.

Lemma always_step {W A} (p p' : prog W A) w w' (Q : A -> Prop) :
  pstep p w = Some (p', w') -> always p Q -> always p' Q.
Proof. destruct p as [a|B op k]; simpl; [done|]. intros Hp Ha. specialize (Ha w). destruct (op w). by simplify_eq. Qed.

Section Shutdown.
Context `{Platform} `{TimeText} {D : Type} `{Broker D} `{Limits}.
Variable opts : ConsumeOptions.
Variable h : @Handler D.
Variable body : M D unit.
Variable request : M D unit -> Prop.
Variable closing : M D unit.
Hypothesis Hgo : errgroup_law.
Hypothesis Hqos : qos_law.

(** No program of the process sets the clock back. *)
Record clocked : Prop := Clocked {
  request_clocked : forall p, request p -> forwards p;
  handler_clocked : forall env, forwards (h env);
  body_clocked : forwards body;
  closing_clocked : forwards closing
}.
Hypothesis Hclocked : clocked.

(** ** Invariant *)

Definition sup_inv (c : supervisor D) : Prop :=
  match c with
  | Opening p _ => forwards p
  | Consuming s _ => Workers.inv opts s /\ Forall (fun x => forwards (remaining x.2)) (workers s) /\ others s = []
  | Leaving p _ => forwards p
  | Ending p => forwards p /\ always p (eq (Ok tt))
  | _ => True
  end.

(** No member returns an error: the context of the group is that of the process. *)
Definition member_inv (m : member D) : Prop :=
  match m with
  | Consumer c => sup_inv c
  | Ticker => True
  | Ticking p => forwards p
  | Stopped r => r = Ok tt
  end.

(** Everything the process started is over: the members, and the requests unless
    the ten seconds of the shutdown have passed. *)
Definition quiesced (s : @process D) : Prop :=
  Forall (fun m => m = Stopped (Ok tt)) (group s)
  /\ exists why, Server.main (http s) = Done (Ok tt) why /\ returned_ok (http s) (Ok tt) why.

Definition run_error (s : @process D) : Prop :=
  exists e, Server.main (http s) = Done (Err e) ListenerError /\ listening (http s) = Failed e.

Record inv (s : @process D) : Prop := Inv {
  inv_http : Server.inv (http s);
  inv_requests : Forall forwards (requests (http s));
  inv_group : Forall member_inv (group s);
  inv_stage :
    match main s with
    | Running => True
    | Joining => exists why, Server.main (http s) = Done (Ok tt) why
    | Closing p => quiesced s /\ forwards p
    | Gone code => (code = 0 /\ quiesced s) \/ (code = 1 /\ run_error s)
    end
}.

Lemma worker_forwards a s w s' w' :
  Workers.step opts h a (s, w) (s', w') -> others s = [] ->
  Forall (fun x => forwards (remaining x.2)) (workers s) ->
  Forall (fun x => forwards (remaining x.2)) (workers s') /\ others s' = [] /\ (tick w <= tick w')%nat.
Proof.
  intros Hs Ho Hf. inversion Hs; subst; simpl in *; subst; try done.
  - split; [|done]. apply Forall_app_2; [done|]. apply Forall_singleton. simpl.
    apply forwards_process, Hclocked.
  - match goal with Hp : pstep _ _ = _, Hi : _ !! _ = Some _ |- _ =>
      pose proof (proj1 (Forall_lookup _ _) Hf _ _ Hi) as Hx; destruct (forwards_step _ _ _ _ Hp Hx) as [Hy Hle] end.
    split; [by apply Forall_insert|done].
  - split; [by apply Forall_insert|done].
  - split; [by apply Forall_insert|done].
Qed.

Lemma mstep_inv x x' w w' :
  mstep opts h body (x, w) (x', w') -> member_inv x -> member_inv x' /\ (tick w <= tick w')%nat.
Proof.
  intros Hs Hi. inversion Hs; subst; simpl in *; unfold tock; simpl;
    try match goal with Hp : pstep _ _ = _ |- _ => rename Hp into Hp1 end.
  all: try by eapply forwards_step.
  all: try by (split; [auto with forward|lia]).
  - split; [|lia]. split; [apply inv_start|done].
  - destruct Hi as (Hinv & Hf & Ho).
    match goal with Ha : Workers.step _ _ _ _ _ |- _ => destruct (worker_forwards _ _ _ _ _ Ha Ho Hf) as (Hf' & Ho' & Hle);
      pose proof (Workers.inv_step opts h Hgo Hqos _ _ _ _ _ Ha Hinv) end.
    done.
  - destruct Hi as [Hf Ha]. destruct (forwards_step _ _ _ _ Hp1 Hf) as [Hf' Hle]. split; [|done]. split; [done|].
    by eapply always_step.
  - destruct Hi as [_ Hr]. by split; [symmetry|].
  - split; [by apply body_clocked|lia].
Qed.

Lemma server_done_kept a s w s' w' r why :
  Server.step a (s, w : world D) (s', w') -> Server.main s = Done r why -> Server.main s' = Done r why.
Proof. intros Hs. inversion Hs; subst; simpl in *; congruence. Qed.

Lemma server_step_forwards a s w s' w' :
  (forall p, a = Server.Accept p -> request p) -> Server.step a (s, w) (s', w') ->
  Forall forwards (requests s) -> Forall forwards (requests s') /\ (tick w <= tick w')%nat.
Proof.
  intros Hr Hs Hf. inversion Hs; subst; simpl in *; try (split; [done|lia]).
  - split; [|lia]. apply Forall_app_2; [done|]. apply Forall_singleton. apply Hclocked. by apply Hr.
  - match goal with Hp : pstep _ _ = _, Hi : _ !! _ = Some _ |- _ =>
      pose proof (proj1 (Forall_lookup _ _) Hf _ _ Hi) as Hx; destruct (forwards_step _ _ _ _ Hp Hx) as [Hy Hle] end.
    split; [by apply Forall_insert|done].
Qed.

Lemma stopped_stays x w y : is_stopped x -> ~ mstep opts h body (x, w) y.
Proof. intros (r & ->) Hs. inversion Hs. Qed.

Lemma quiesced_http a s s' g m w w' :
  Server.step a (s, w) (s', w') -> Server.inv s' -> quiesced (Proc s g m) -> quiesced (Proc s' g m).
Proof.
  intros Hs Hi [Hg (why & Hd & _)]. split; [done|]. exists why. simpl in *.
  pose proof (server_done_kept _ _ _ _ _ _ _ Hs Hd) as Hd'. split; [done|]. by apply Hi.
Qed.

Lemma move_inv s s' w w' :
  move opts h body request closing (s, w) (s', w') -> inv s -> inv s' /\ (tick w <= tick w')%nat.
Proof.
  intros Hm [Hh Hr Hg Hst]. inversion Hm; subst; simpl in *.
  - match goal with Ha : Server.step _ _ _ |- _ => rename Ha into Ha1 end.
    destruct (server_step_forwards _ _ _ _ _ ltac:(eassumption) Ha1 Hr) as [Hr' Hle]. split; [|done].
    pose proof (server_inv_step _ _ _ Ha1 Hh) as Hh'. simpl in Hh'.
    split; simpl; [done..|]. destruct m; [done| | |done].
    + destruct Hst as (why & Hd). exists why. by eapply server_done_kept.
    + destruct Hst as [Hq Hf]. split; [|done]. by eapply quiesced_http.
  - match goal with Ha : mstep _ _ _ _ _, Hx : g !! _ = Some _ |- _ => rename Ha into Ha1; rename Hx into Hx1 end.
    pose proof (proj1 (Forall_lookup _ _) Hg _ _ Hx1) as Hmx.
    destruct (mstep_inv _ _ _ _ Ha1 Hmx) as [Hmx' Hle]. split; [|done].
    split; simpl; [done|done|by apply Forall_insert|]. destruct m; [done|done| |done].
    destruct Hst as [[Hall _] _]. exfalso. simpl in Hall.
    pose proof (proj1 (Forall_lookup _ _) Hall _ _ Hx1) as ->. by inversion Ha1.
  - split; [|lia]. split; simpl; [done..|]. right. split; [done|].
    match goal with Hd : Server.main s0 = _ |- _ => rename Hd into Hd1 end.
    pose proof (Server.inv_done _ Hh _ _ Hd1) as Hret. unfold run_error. destruct why; simpl in *.
    + destruct Hret as (e' & [= <-] & Hl). eauto.
    + by destruct Hret.
    + by destruct Hret.
  - split; [|lia]. split; simpl; eauto.
  - split; [|lia]. split; simpl; [done..|]. destruct Hst as (why & Hd). split; [|by apply closing_clocked].
    split; simpl; [|exists why; split; [done|by apply (Server.inv_done _ Hh)]].
    match goal with Hall : Forall is_stopped g |- _ => rename Hall into Hall1 end.
    rewrite Forall_forall in *. intros x Hx. destruct (Hall1 x Hx) as (r & ->). by rewrite (Hg _ Hx).
  - destruct Hst as [Hq Hf]. match goal with Hp : pstep _ _ = _ |- _ => destruct (forwards_step _ _ _ _ Hp Hf) end.
    split; [by split|done].
  - split; [|lia]. split; simpl; [done..|]. left. split; [done|]. by destruct Hst.
Qed.

Lemma inv_boot ms : Forall fresh ms -> inv (boot ms).
Proof.
  intros Hf. split; simpl; [apply Server.inv_init|done| |done].
  eapply Forall_impl; [exact Hf|]. by intros m [-> | ->].
Qed.

Lemma moves_inv x y :
  moves opts h body request closing x y -> inv x.1 -> inv y.1 /\ (tick x.2 <= tick y.2)%nat.
Proof.
  induction 1 as [x|[s w] [s1 w1] y Hm _ IH]; intros Hi; [done|].
  destruct (move_inv _ _ _ _ Hm Hi) as [Hi1 Hle]. destruct (IH Hi1) as [? ?]. simpl in *. split; [done|lia].
Qed.

(** ** It can always come to its end *)

(** Once cancelled, the context stays cancelled. *)
Hypothesis Hstable : forall t t', (t <= t')%nat -> done_at t = true -> done_at t' = true.

Definition cancelled (w : world D) : Prop := done_at (tick w) = true.

Lemma cancelled_later w w' : (tick w <= tick w')%nat -> cancelled w -> cancelled w'.
Proof. apply Hstable. Qed.

Local Abbreviation msteps := (rtc (mstep opts h body)).

(** A member that only runs [p] runs it to its end. *)
Lemma runs_out {A} (f : M D A -> member D) (p : M D A) w :
  (forall p p' w w', pstep p w = Some (p', w') -> mstep opts h body (f p, w) (f p', w')) -> forwards p ->
  exists a w', msteps (f p, w) (f (Ret a), w') /\ (tick w <= tick w')%nat.
Proof.
  intros Hf. revert w. induction p as [a|B op k IH]; intros w Hp; [by exists a, w|].
  destruct (op w) as [b w1] eqn:E.
  assert (pstep (Atomic op k) w = Some (k b, w1)) as Hs by (simpl; by rewrite E).
  destruct (forwards_step _ _ _ _ Hs Hp) as [Hk Hle]. destruct (IH b w1 Hk) as (a & w' & Hr & Hle').
  exists a, w'. split; [|lia]. eapply rtc_l; [by apply Hf|exact Hr].
Qed.

(** *** The delivery loop *)

Definition pool_ok (s : pool D) : Prop := sup_inv (Consuming s 0).

Lemma pool_steps_ok x y : Workers.steps opts h x y -> pool_ok x.1 -> pool_ok y.1 /\ (tick x.2 <= tick y.2)%nat.
Proof.
  induction 1 as [x|[s w] [s1 w1] y (a & Ha) _ IH]; intros Hi; [done|]. simpl in *.
  assert (mstep opts h body (Consumer (Consuming s 0), w) (Consumer (Consuming s1 0), w1)) as Hm by by eapply consuming.
  destruct (mstep_inv _ _ _ _ Hm Hi) as [Hi1 Hle]. destruct (IH Hi1). split; [done|lia].
Qed.

Lemma worker_step_below a s w y :
  of_worker a = true -> Workers.step opts h a (s, w) y ->
  loop y.1 = loop s /\ one_below worker_below (workers y.1) (workers s).
Proof.
  intros Ha Hs. inversion Hs; subst; try done; simpl; (split; [done|]); do 3 eexists; (split; [eassumption|]);
    (split; [|reflexivity]); try done.
  do 2 eexists. eassumption.
Qed.

(** A loop that waits for the limit of the group gets its turn. *)
Lemma going_starts s w d :
  loop s = Going d -> exists s' w', Workers.steps opts h (s, w) (s', w') /\ loop s' = Selecting.
Proof.
  remember (workers s) as ws eqn:Ews. revert s w Ews. induction (one_below_wf _ worker_below_wf ws) as [ws _ IH].
  intros s w -> Hl. destruct (can_go (concurrency opts) (count is_active (workers s))) eqn:Hc.
  - destruct s as [ms c n l ws st os]; simpl in *; subst. eexists (Pool ms c n Selecting _ st os), w. split; [|reflexivity].
    apply rtc_once. exists StartWorker. by constructor.
  - assert (count is_active (workers s) <> 0%nat) as Ha.
    { intros E. rewrite E in Hc. pose proof (concurrency_pos opts) as Hp.
      apply not_true_iff_false in Hc. apply Hc, Hgo; [done|]. simpl. lia. }
    destruct s as [ms c n l ws st os]. destruct (active_steps opts h ms c n l ws st os w Ha) as (a & [s1 w1] & Hw & Hs).
    destruct (worker_step_below _ _ _ _ Hw Hs) as [El Hb]. simpl in *.
    destruct (IH _ Hb s1 w1 eq_refl) as (s' & w' & Hr & Hsel); [congruence|].
    exists s', w'. split; [|done]. eapply rtc_l; [by exists a|exact Hr].
Qed.

Lemma pool_winds s w :
  pool_ok s -> cancelled w -> exists s' w', Workers.steps opts h (s, w) (s', w') /\ winding s'.
Proof.
  assert (forall s w, loop s = Selecting -> cancelled w ->
    exists s' w', Workers.steps opts h (s, w) (s', w') /\ winding s') as Hsel.
  { clear s w. intros [ms c n l ws st os] w Hl Hc. simpl in Hl. subst l. eexists (Pool ms c n (Waiting _) ws st os), w. split.
    - apply rtc_once. exists Workers.SelectDone. by constructor.
    - right. eexists. by left. }
  intros Hi Hc. destruct (loop s) as [|d|r|r] eqn:El.
  - by apply Hsel.
  - destruct (going_starts s w d El) as (s1 & w1 & Hr & El1). destruct (pool_steps_ok _ _ Hr Hi) as [_ Hle].
    destruct (Hsel s1 w1 El1 (cancelled_later _ _ Hle Hc)) as (s' & w' & Hr' & Hw). exists s', w'. split; [|done].
    by etransitivity.
  - exists s, w. split; [done|]. right. eauto.
  - exists s, w. split; [done|]. right. eauto.
Qed.

Lemma pool_exits s w :
  winding s -> exists s' w' r, Workers.steps opts h (s, w) (s', w') /\ loop s' = Exited r.
Proof.
  intros Hw. pose proof (winding_acc opts h Hqos (s, w) Hw) as Ha. remember (s, w) as x eqn:Ex. revert s w Ex Hw.
  induction Ha as [x _ IH]. intros s w -> Hw.
  assert ((exists r, loop s = Exited r) \/ forall r, loop s <> Exited r) as [[r Hr]|Hn].
  { destruct (loop s); eauto; by right. }
  - by exists s, w, r.
  - destruct (winding_progress opts h Hgo s w Hw Hn) as (a & [s1 w1] & _ & Hs).
    destruct (step_rank opts h Hqos _ _ _ Hs Hw) as [_ Hw1].
    destruct (IH (s1, w1) ltac:(by exists a) s1 w1 eq_refl Hw1) as (s' & w' & r & Hr & El).
    exists s', w', r. split; [|done]. eapply rtc_l; [by exists a|exact Hr].
Qed.

Lemma pool_lift b s w s' w' :
  Workers.steps opts h (s, w) (s', w') -> msteps (Consumer (Consuming s b), w) (Consumer (Consuming s' b), w').
Proof.
  intros Hr. remember (s, w) as x eqn:Ex. remember (s', w') as y eqn:Ey. revert s w Ex.
  induction Hr as [x|x [s1 w1] y (a & Ha) _ IH]; intros s w ->; [by simplify_eq|].
  eapply rtc_l; [by eapply consuming|by apply IH].
Qed.

(** *** A member *)

Lemma ending_ends p w :
  forwards p -> exists m w', msteps (Consumer (Ending p), w) (m, w') /\ is_stopped m.
Proof.
  intros Hf. destruct (runs_out (fun p => Consumer (Ending p)) p w) as (r & w' & Hr & _); [by constructor|done|].
  exists (Stopped r), w'. split; [|by exists r]. eapply rtc_r; [exact Hr|constructor].
Qed.

Lemma leaving_ends p b w :
  forwards p -> cancelled w -> exists m w', msteps (Consumer (Leaving p b), w) (m, w') /\ is_stopped m.
Proof.
  intros Hf Hc. destruct (runs_out (fun p => Consumer (Leaving p b)) p w) as (r & w1 & Hr & Hle); [by constructor|done|].
  destruct (ending_ends stop_probe (tock w1) (forwards_stop_probe (D := D))) as (m & w' & Hr' & Hm).
  exists m, w'. split; [|done]. etransitivity; [exact Hr|]. eapply rtc_l; [|exact Hr'].
  constructor. by eapply cancelled_later.
Qed.

Lemma consuming_ends s b w :
  pool_ok s -> cancelled w -> exists m w', msteps (Consumer (Consuming s b), w) (m, w') /\ is_stopped m.
Proof.
  intros Hi Hc. destruct (pool_winds s w Hi Hc) as (s1 & w1 & Hr1 & Hw).
  destruct (pool_steps_ok _ _ Hr1 Hi) as [Hi1 Hle1]. destruct (pool_exits s1 w1 Hw) as (s2 & w2 & r & Hr2 & El).
  destruct (pool_steps_ok _ _ Hr2 Hi1) as [_ Hle2]. simpl in *.
  destruct (leaving_ends (leave_loop r) b w2 (forwards_leave_loop (D := D) r)) as (m & w' & Hr3 & Hm).
  { eapply cancelled_later; [|exact Hc]. lia. }
  exists m, w'. split; [|done]. etransitivity; [by apply pool_lift|].
  etransitivity; [by apply pool_lift|]. eapply rtc_l; [by apply consumed|exact Hr3].
Qed.

Lemma member_ends m w :
  member_inv m -> cancelled w -> exists m' w', msteps (m, w) (m', w') /\ is_stopped m'.
Proof.
  assert (forall w, cancelled w -> exists m' w', msteps (Ticker, w) (m', w') /\ is_stopped m') as Hticker.
  { intros w1 Hc. exists (Stopped (Ok tt)), (tock w1). split; [by apply rtc_once; constructor|by eexists]. }
  intros Hi Hc. destruct m as [[b|p b|s b|p b|b|p]| |p|r]; simpl in Hi.
  - destruct (ending_ends stop_probe (tock w) (forwards_stop_probe (D := D))) as (m & w' & Hr & Hm).
    exists m, w'. split; [|done]. eapply rtc_l; [by constructor|exact Hr].
  - destruct (runs_out (fun p => Consumer (Opening p b)) p w) as ([c r] & w1 & Hr & Hle); [by constructor|done|].
    pose proof (cancelled_later _ _ Hle Hc) as Hc1. destruct r as [[]|e].
    + destruct (consuming_ends (start []) b w1) as (m & w' & Hr' & Hm); [|done|].
      { split; [apply inv_start|done]. }
      exists m, w'. split; [|done]. etransitivity; [exact Hr|]. eapply rtc_l; [constructor|exact Hr'].
    + destruct (leaving_ends (close_channel c (Err e)) b w1 (forwards_close_channel (D := D) _ _) Hc1) as (m & w' & Hr' & Hm).
      exists m, w'. split; [|done]. etransitivity; [exact Hr|]. eapply rtc_l; [constructor|exact Hr'].
  - by apply consuming_ends.
  - by apply leaving_ends.
  - destruct (ending_ends stop_probe (tock w) (forwards_stop_probe (D := D))) as (m & w' & Hr & Hm).
    exists m, w'. split; [|done]. eapply rtc_l; [by constructor|exact Hr].
  - apply ending_ends. by destruct Hi.
  - by apply Hticker.
  - destruct (runs_out Ticking p w) as ([] & w1 & Hr & Hle); [by constructor|done|].
    destruct (Hticker w1 (cancelled_later _ _ Hle Hc)) as (m & w' & Hr' & Hm). exists m, w'. split; [|done].
    etransitivity; [exact Hr|]. eapply rtc_l; [constructor|exact Hr'].
  - exists (Stopped r), w. split; [done|by eexists].
Qed.

(** *** The process *)

Local Abbreviation pmoves := (moves opts h body request closing).

Lemma member_lift s g1 g2 m x x' w w' :
  is_gone m = false -> msteps (x, w) (x', w') -> pmoves (Proc s (g1 ++ x :: g2) m, w) (Proc s (g1 ++ x' :: g2) m, w').
Proof.
  intros Hm Hr. remember (x, w) as a eqn:Ea. remember (x', w') as b eqn:Eb. revert x w Ea.
  induction Hr as [a|a [x1 w1] b Hs _ IH]; intros x w ->; [by simplify_eq|].
  eapply rtc_l; [|by apply IH].
  assert (g1 ++ x1 :: g2 = <[length g1 := x1]> (g1 ++ x :: g2)) as -> by (rewrite insert_app_r_alt by done; by rewrite Nat.sub_diag).
  apply (member_moves _ _ _ _ _ (length g1) x); [done|by rewrite list_lookup_middle|done].
Qed.

Lemma group_ends s g m w :
  is_gone m = false -> Forall member_inv g -> cancelled w ->
  exists g' w', pmoves (Proc s g m, w) (Proc s g' m, w') /\ Forall is_stopped g' /\ (tick w <= tick w')%nat.
Proof.
  intros Hm. assert (forall g1 w, Forall member_inv g -> cancelled w -> exists g' w',
    pmoves (Proc s (g1 ++ g) m, w) (Proc s (g1 ++ g') m, w') /\ Forall is_stopped g' /\ (tick w <= tick w')%nat) as Hall;
    [|by apply (Hall [])].
  clear w. induction g as [|x g IH]; intros g1 w Hg Hc; [by exists [], w|].
  apply Forall_cons in Hg as [Hx Hg]. destruct (member_ends x w Hx Hc) as (x' & w1 & Hr & Hst).
  assert (forall a b, msteps a b -> member_inv a.1 -> (tick a.2 <= tick b.2)%nat) as Hmono.
  { clear -Hgo Hqos Hclocked. induction 1 as [a|[x w] [x1 w1] b Hs _ IH]; intros Hi; [done|].
    destruct (mstep_inv _ _ _ _ Hs Hi) as [Hi1 Hle]. specialize (IH Hi1). simpl in *. lia. }
  pose proof (Hmono _ _ Hr Hx) as Hle. simpl in Hle.
  destruct (IH (g1 ++ [x']) w1 Hg (cancelled_later _ _ Hle Hc)) as (g' & w' & Hr' & Hs' & Hle').
  exists (x' :: g'), w'. rewrite <- !app_assoc in Hr'. split_and!; [|by constructor|lia].
  etransitivity; [by apply member_lift|exact Hr'].
Qed.

Lemma http_stops s g m w :
  is_gone m = false -> Server.main s <> AtSelect ->
  Server.inv s -> exists s' w' r why, pmoves (Proc s g m, w) (Proc s' g m, w') /\ Server.main s' = Done r why.
Proof.
  intros Hm Hn Hi. pose proof (Server.stopping_acc (s, w) Hi Hn) as Ha. remember (s, w) as x eqn:Ex.
  revert s w Ex Hn Hi. induction Ha as [x _ IH]. intros s w -> Hn Hi.
  destruct (Server.main s) as [|since|r why] eqn:E; [done| |by exists s, w, r, why].
  assert (exists a y, (forall p, a <> Server.Accept p) /\ Server.step a (s, w) y) as (a & [s1 w1] & Hacc & Hs).
  { destruct (stopping_progress s w since E) as [(i & y & Hs)|(y & Hs)]; eexists _, y; (split; [|exact Hs]); by intros p. }
  destruct (stopping_rank _ _ _ Hs Hi) as [_ Hn1]; [by simpl; rewrite E|].
  pose proof (server_inv_step _ _ _ Hs Hi) as Hi1.
  destruct (IH (s1, w1) ltac:(by exists a) s1 w1 eq_refl Hn1 Hi1) as (s' & w' & r & why & Hr & Hd).
  exists s', w', r, why. split; [|done]. eapply rtc_l; [|exact Hr].
  apply (http_moves _ _ _ _ _ a); [done| |done]. intros p ->. by destruct (Hacc p).
Qed.

Lemma closing_ends s g p w : exists w', pmoves (Proc s g (Closing p), w) (Proc s g (Gone 0), w').
Proof.
  revert w. induction p as [[]|B op k IH]; intros w; [exists w; apply rtc_once; constructor|].
  destruct (op w) as [b w1] eqn:E. destruct (IH b w1) as (w' & Hr). exists w'.
  eapply rtc_l; [|exact Hr]. constructor. simpl. by rewrite E.
Qed.

Lemma joining_ends s g w : Forall is_stopped g -> exists w', pmoves (Proc s g Joining, w) (Proc s g (Gone 0), w').
Proof.
  intros Hg. destruct (closing_ends s g closing w) as (w' & Hr). exists w'. eapply rtc_l; [by constructor|exact Hr].
Qed.

Lemma process_ends s w :
  inv s -> cancelled w -> exists s' w' code, pmoves (s, w) (s', w') /\ main s' = Gone code.
Proof.
  intros [Hh _ Hg Hst] Hc. destruct s as [s g m]. simpl in *.
  destruct (is_gone m) eqn:Em; [destruct m; try done; by exists (Proc s g (Gone code)), w, code|].
  destruct (group_ends s g m w Em Hg Hc) as (g' & w1 & Hr & Hs & Hle).
  pose proof (cancelled_later _ _ Hle Hc) as Hc1. destruct m as [| |p|]; [| | |done].
  - assert (exists s2, pmoves (Proc s g' Running, w1) (Proc s2 g' Running, w1) /\ Server.main s2 <> AtSelect /\ Server.inv s2)
      as (s2 & Hr2 & Hn2 & Hi2).
    { destruct s as [l c [|since|r why] acc rs]; [|eexists; by split_and!..].
      assert (Server.step SelectDone (Srv l c AtSelect acc rs, w1)
        (Srv (match l with Server.Failed e => Server.Failed e | _ => Closed end) c (Stopping (now_at (tick w1))) acc rs, w1))
        as Hsel by by constructor.
      eexists. split; [apply rtc_once; eapply http_moves; [done| |exact Hsel]; by intros p|]. split; [done|].
      by apply (server_inv_step _ _ _ Hsel). }
    destruct (http_stops s2 g' Running w1 eq_refl Hn2 Hi2) as (s3 & w3 & r & why & Hr3 & Hd).
    assert (pmoves (Proc s g Running, w) (Proc s3 g' Running, w3)) as Hr'.
    { etransitivity; [exact Hr|]. by etransitivity. }
    destruct r as [[]|e].
    + destruct (joining_ends s3 g' w3 Hs) as (w4 & Hr4). exists (Proc s3 g' (Gone 0)), w4, 0. split; [|done].
      etransitivity; [exact Hr'|]. eapply rtc_l; [by eapply run_returned|exact Hr4].
    + exists (Proc s3 g' (Gone 1)), w3, 1. split; [|done]. eapply rtc_r; [exact Hr'|]. by eapply run_failed.
  - destruct (joining_ends s g' w1 Hs) as (w2 & Hr2). exists (Proc s g' (Gone 0)), w2, 0. split; [|done]. by etransitivity.
  - destruct (closing_ends s g p w) as (w' & Hr'). by exists (Proc s g (Gone 0)), w', 0.
Qed.

(** ** Once everything has noticed, nothing goes on for ever *)

Definition sup_noticed (c : supervisor D) : Prop :=
  match c with Opening _ _ => False | Consuming s _ => winding s | _ => True end.

(** A consumer has not begun a session it could receive in; the monitor has returned. *)
Definition member_noticed (m : member D) : Prop :=
  match m with Consumer c => sup_noticed c | Ticker | Ticking _ => False | Stopped _ => True end.

Definition noticed (s : @process D) : Prop :=
  Server.main (http s) <> AtSelect /\ Forall member_noticed (group s).

Definition member_below (m' m : member D) : Prop :=
  member_noticed m /\ exists w w', cancelled w /\ mstep opts h body (m, w) (m', w').

Lemma member_noticed_step m m' w w' :
  cancelled w -> member_noticed m -> mstep opts h body (m, w) (m', w') -> member_noticed m'.
Proof.
  intros Hc Hn Hs. inversion Hs; subst; simpl in *; try done; unfold cancelled in *; try congruence.
  match goal with Ha : Workers.step _ _ _ _ _ |- _ => by destruct (step_rank opts h Hqos _ _ _ Ha Hn) end.
Qed.

Lemma member_below_wf : well_founded member_below.
Proof.
  assert (forall r, Acc member_below (Stopped r)) as Hst.
  { intros r. constructor. intros m (_ & w & w' & _ & Hs). inversion Hs. }
  assert (forall p, Acc member_below (Consumer (Ending p))) as Hend.
  { intros p. induction (prog_below_wf p) as [p _ IH]. constructor. intros m (_ & w & w' & _ & Hs).
    inversion Hs; subst; [|apply Hst]. apply IH. by exists w, w'. }
  assert (forall b, Acc member_below (Consumer (Checking b))) as Hch.
  { intros b. constructor. intros m (_ & w & w' & Hc & Hs). inversion Hs; subst; [apply Hend|].
    unfold cancelled in Hc. congruence. }
  assert (forall b, Acc member_below (Consumer (Backing b))) as Hba.
  { intros b. constructor. intros m (_ & w & w' & Hc & Hs). inversion Hs; subst; [apply Hend|apply Hch]. }
  assert (forall p b, Acc member_below (Consumer (Leaving p b))) as Hle.
  { intros p b. induction (prog_below_wf p) as [p _ IH]. constructor. intros m (_ & w & w' & Hc & Hs).
    inversion Hs; subst; [|apply Hend|apply Hba]. apply IH. by exists w, w'. }
  assert (forall s b (w : world D), Acc member_below (Consumer (Consuming s b))) as Hco.
  { intros s b w. remember (Workers.rank opts (s, w)) as n eqn:En. revert s w En.
    induction (Workers.rank_below_wf n) as [n _ IH]. intros s w ->. constructor. intros m (Hn & w1 & w1' & Hc & Hs).
    inversion Hs; subst; [|apply Hle].
    match goal with Ha : Workers.step _ _ _ _ _ |- _ => destruct (step_rank opts h Hqos _ _ _ Ha Hn) as [Hb _] end.
    by apply (IH _ Hb s' w1'). }
  assert (forall m, (member_noticed m -> False) -> Acc member_below m) as Hno.
  { intros m Hn. constructor. intros m' [Hm _]. by destruct Hn. }
  intros [[b|p b|s b|p b|b|p]| |p|r].
  - apply Hch.
  - by apply Hno.
  - constructor. intros m (Hn & w & w' & Hc & Hs). apply (Acc_inv (Hco s b w)). split; [done|]. by exists w, w'.
  - apply Hle.
  - apply Hba.
  - apply Hend.
  - by apply Hno.
  - by apply Hno.
  - apply Hst.
Qed.

Definition stage_rank (m : @stage D) : nat :=
  match m with Running => 3 | Joining => 2 | Closing _ => 1 | Gone _ => 0 end.

Definition process_rank (s : @process D) (w : world D) :
    (nat * (M D unit * ((nat * (nat * list (M D unit))) * list (member D))))%type :=
  (stage_rank (main s), (match main s with Closing p => p | _ => Ret tt end, (Server.rank (http s, w), group s))).

Definition process_below := slexprod _ _ lt (slexprod _ _ (@prog_below (world D) unit)
  (slexprod _ _ (@Server.rank_below D) (one_below member_below))).

Lemma process_below_wf : well_founded process_below.
Proof. repeat apply wf_slexprod; auto using lt_wf, prog_below_wf, one_below_wf, server_rank_wf, member_below_wf. Qed.

Lemma noticed_step s w s' w' :
  move opts h body request closing (s, w) (s', w') -> inv s -> cancelled w -> noticed s ->
  process_below (process_rank s' w') (process_rank s w) /\ noticed s'.
Proof.
  intros Hm [Hh _ _ _] Hc [Hn Hg]. unfold process_rank, process_below, noticed in *. inversion Hm; subst; simpl in *.
  - match goal with Ha : Server.step _ _ _ |- _ => destruct (stopping_rank _ _ _ Ha Hh Hn) as [Hr Hn'] end.
    split; [|done]. by apply right_slex, right_slex, left_slex.
  - match goal with Ha : mstep _ _ _ _ _, Hx : g !! _ = Some _ |- _ => rename Ha into Ha1; rename Hx into Hx1 end.
    pose proof (proj1 (Forall_lookup _ _) Hg _ _ Hx1) as Hnx. split.
    + apply right_slex, right_slex, right_slex. exists i, x, x'. split; [done|]. split; [|done]. split; [done|].
      by exists w, w'.
    + split; [done|]. apply Forall_insert; [done|]. by eapply member_noticed_step.
  - split; [|done]. apply left_slex. lia.
  - split; [|done]. apply left_slex. lia.
  - split; [|done]. apply left_slex. lia.
  - split; [|done]. apply right_slex, left_slex. by exists w, w'.
  - split; [|done]. apply left_slex. lia.
Qed.

Lemma noticed_acc s w :
  inv s -> cancelled w -> noticed s -> Acc (fun y x => move opts h body request closing x y) (s, w).
Proof.
  remember (process_rank s w) as n eqn:En. revert s w En. induction (process_below_wf n) as [n _ IH].
  intros s w -> Hi Hc Hn. constructor. intros [s' w'] Hm. destruct (noticed_step _ _ _ _ Hm Hi Hc Hn) as [Hb Hn'].
  destruct (move_inv _ _ _ _ Hm Hi) as [Hi' Hle]. apply (IH _ Hb s' w'); [done|done| |done]. by eapply cancelled_later.
Qed.

End Shutdown.

(** ** Properties *)

(** Once cancelled, the context stays cancelled. *)
Definition ctx_stays `{Platform} : Prop := forall t t', (t <= t')%nat -> done_at t = true -> done_at t' = true.

(** C10: the shutdown of a service.  Main closes the publisher and the connection
    only after every goroutine of the group has returned nil and the HTTP server has
    served every accepted request to its end, or ten seconds have passed; the exit
    code is 0 exactly then, and 1 only when the listener failed; no goroutine
    returns an error, so none ever cancels the others.  From every state with a
    cancelled context the process can come to its exit, whatever it was doing;
    and once the server and the goroutines have noticed the cancellation, every
    execution ends. *)
Theorem process_shuts_down `{Platform} `{TimeText} {D} `{Broker D} `{Limits} opts (h : @Handler D) body request closing
    ms w0 s w :
  errgroup_law -> qos_law -> clocked h body request closing -> ctx_stays -> Forall fresh ms ->
  moves opts h body request closing (boot ms, w0) (s, w) ->
  match main s with
  | Closing _ => quiesced s
  | Gone code => (code = 0 /\ quiesced s) \/ (code = 1 /\ run_error s)
  | _ => True
  end
  /\ (forall r, Stopped r ∈ group s -> r = Ok tt)
  /\ (cancelled w -> exists s' w' code, moves opts h body request closing (s, w) (s', w') /\ main s' = Gone code)
  /\ (cancelled w -> noticed s -> Acc (fun y x => move opts h body request closing x y) (s, w)).
Proof.
  intros Hgo Hqos Hck Hst Hms Hr.
  destruct (moves_inv opts h body request closing Hgo Hqos Hck _ _ Hr) as [Hi _].
  { by apply (inv_boot opts). }
  simpl in Hi. split_and!.
  - pose proof (inv_stage _ _ Hi) as Hs. destruct (main s); try done. by destruct Hs.
  - intros r Hin. exact (proj1 (Forall_forall _ _) (inv_group _ _ Hi) _ Hin).
  - by apply (process_ends opts h body request closing Hgo Hqos Hck Hst).
  - by apply (noticed_acc opts h body request closing Hgo Hqos Hck Hst).
Qed.

(** *** A process with a consumer and a monitor, cancelled while both are busy *)

Module Process_demo.
Definition P : Platform := {|
  now_at t := Z.of_nat t * Second; uuid_at t := pretty t; uuid_ok _ := true; fault_at _ := None;
  done_at t := (9 <=? t)%nat; conn_closed_at _ := false; chan_closed_at _ := false |}.

(** The connection, and the lines that were written. *)
Record lines := Lines { bus : netstate; written : list string }.

#[export] Instance lines_Broker : Broker lines :=
  {| net := bus; set_net n d := Lines n (written d);
     net_set_net _ _ := eq_refl; set_net_net d := match d with Lines _ _ => eq_refl end;
     set_net_set_net _ _ _ := eq_refl |}.

Definition line (s : string) : M lines (res unit) :=
  @call P lines unit (fun _ _ d => Ok (tt, Lines (bus d) (written d ++ [s]))).

Definition h : @Handler lines := fun env =>
  let! _ := line ("begin " +:+ Envelope.ID env) in
  let! r := line ("end " +:+ Envelope.ID env) in
  Ret (Returned r).

Definition tick_body : M lines unit := let! _ := line "tick" in Ret tt.

Definition get : M lines unit := let! _ := line "get" in let! _ := line "got" in Ret tt.

Definition closers : M lines unit :=
  let! _ := @Publisher_Close P lines _ in
  let! _ := @Connection_Close P lines _ in
  Ret tt.

Definition w0 : world lines := World 0 (Lines (Net true true false [] []) []).

Definition ms : list (member lines) := [Consumer (Checking Second); Ticker].

Definition consumer (a : Workers.action) : @turn lines := Member 0 (InLoop a).

(** A request, a delivery and a tick have begun when the context is cancelled. *)
Definition busy : list turn :=
  [Http Server.Listen; Http (Server.Accept get)] ++ replicate 7 (Member 0 Next)
  ++ [consumer (Deliver (Workers_demo.msg "a")); consumer SelectMsg; consumer StartWorker; consumer (Work 0);
      Member 1 Next; Http (Server.Serve 0); Member 1 Next]%nat.

(** Everything notices it. *)
Definition winding_down : list turn :=
  [Member 1 Next; Member 1 SeeDone; consumer Workers.SelectDone; Http Server.SelectDone]%nat.

(** The rest: the delivery and the request end, the members return, main closes. *)
Definition ending : list turn :=
  [Http (Server.Serve 0); consumer (Work 0); consumer (Settle 0); consumer (Finish 0); consumer WaitDone]%nat
  ++ replicate 6 (Member 0 Next) ++ [Http ShutdownDone] ++ replicate 8 Main.

Definition outcome_of (l : list turn) : process * world lines :=
  default (boot ms, w0) (@fire_all P demo_time_text lines _ Workers_demo.limits (Workers_demo.opts 1) h tick_body closers l (boot ms, w0)).
End Process_demo.
Import Process_demo.

Lemma demo_clocked : clocked h tick_body (eq get) closers.
Proof.
  split.
  - intros p <-. unfold get, line. repeat forward_step.
  - unfold h, line. repeat forward_step.
  - unfold tick_body, line. repeat forward_step.
  - unfold closers, Publisher_Close, Connection_Close, current. repeat forward_step.
Qed.

Lemma demo_ctx_stays : @ctx_stays P.
Proof. intros t t' Hle Ht%Nat.leb_le. apply Nat.leb_le. lia. Qed.

Lemma demo_fresh : Forall fresh ms.
Proof. constructor; [by left|]. constructor; [by right|done]. Qed.

Lemma demo_moves l :
  Forall (expected (eq get)) l ->
  @fire_all P demo_time_text lines _ Workers_demo.limits (Workers_demo.opts 1) h tick_body closers l (boot ms, w0)
    = Some (outcome_of l) ->
  @moves P demo_time_text lines _ Workers_demo.limits (Workers_demo.opts 1) h tick_body (eq get) closers (boot ms, w0)
    ((outcome_of l).1, (outcome_of l).2).
Proof. rewrite <- surjective_pairing. apply fire_all_moves. Qed.

Lemma demo_expected : Forall (expected (eq get)) (busy ++ winding_down ++ ending).
Proof. repeat constructor; intros p [=]; by subst. Qed.

Lemma demo_expected_mid : Forall (expected (eq get)) (busy ++ winding_down).
Proof. pose proof demo_expected as He. rewrite app_assoc in He. by apply Forall_app in He as [? _]. Qed.

Lemma process_shuts_down_witness :
  let mid := outcome_of (busy ++ winding_down) in
  let fin := outcome_of (busy ++ winding_down ++ ending) in
  (main mid.1 = Running /\ written (data fin.2) = ["begin a"; "get"; "tick"; "got"; "end a"] /\ main fin.1 = Gone 0) /\
  ((0 = 0 /\ quiesced fin.1) \/ (0 = 1 /\ run_error fin.1)) /\
  Acc (fun y x => @move P demo_time_text lines _ Workers_demo.limits (Workers_demo.opts 1) h tick_body (eq get) closers x y) mid.
Proof.
  intros mid fin. split; [by vm_compute|].
  pose proof (fun l He Hf => @process_shuts_down P demo_time_text lines _ Workers_demo.limits (Workers_demo.opts 1) h tick_body
    (eq get) closers ms w0 (outcome_of l).1 (outcome_of l).2 Workers_demo.limits_errgroup Workers_demo.limits_qos
    demo_clocked demo_ctx_stays demo_fresh (demo_moves l He Hf)) as Hth.
  split.
  - destruct (Hth (busy ++ winding_down ++ ending) demo_expected) as (Hq & _); [by vm_compute|].
    assert (main fin.1 = Gone 0) as E by (by vm_compute). fold fin in Hq. rewrite E in Hq. exact Hq.
  - destruct (Hth (busy ++ winding_down)) as (_ & _ & _ & Hacc).
    + by apply demo_expected_mid.
    + by vm_compute.
    + rewrite <- surjective_pairing in Hacc. apply Hacc; [by vm_compute|]. split; [by vm_compute|].
      constructor; [right; exists (Ok tt); left; by vm_compute|]. constructor; [exact I|constructor].
Defined.
