(* ===== verification/EscalationStore.v ===== *)
(** * Escalation: domain and store

    services/escalation/internal/domain/policy.go, store/store.go and the tables
    of migrations/.  A table is the list of its rows, in the order they were
    inserted; a statement is a function on the data base, run on the pool or in
    a transaction.  UUID texts are in canonical form. *)

From S2P Require Import Prelude Effects Json Events Interleaving Amqp.
Open Scope go_scope.

(** ** Domain *)

Module PolicyTier.
Record t := mk {
  ID : string;
  PolicyID : string;
  TierNumber : Z;
  TimeoutSeconds : Z;
  NotifyScheduleID : string
}.
End PolicyTier.

Module Policy.
Record t := mk {
  ID : string;
  TenantID : string;
  Name : string;
  Tiers : list PolicyTier.t;
  CreatedAt : Time
}.
End Policy.

Module EscalationState.
Record t := mk {
  ID : string;
  IncidentID : string;
  TenantID : string;
  TenantSlug : string;
  PolicyID : string;
  CurrentTier : Z;
  Status : string;
  IncidentTitle : string;
  IncidentSeverity : string;
  IncidentStatus : string;
  EscalateAt : Time;
  CreatedAt : Time;
  UpdatedAt : Time
}.

Definition set_step (tier : Z) (status : string) (escalate_at : Time) (s : t) : t :=
  mk (ID s) (IncidentID s) (TenantID s) (TenantSlug s) (PolicyID s) tier status
     (IncidentTitle s) (IncidentSeverity s) (IncidentStatus s) escalate_at (CreatedAt s) (UpdatedAt s).

Definition set_UpdatedAt (now : Time) (s : t) : t :=
  mk (ID s) (IncidentID s) (TenantID s) (TenantSlug s) (PolicyID s) (CurrentTier s) (Status s)
     (IncidentTitle s) (IncidentSeverity s) (IncidentStatus s) (EscalateAt s) (CreatedAt s) now.

(** What [RETURNING id, created_at, updated_at] scans into the struct. *)
Definition set_created (id : string) (now : Time) (s : t) : t :=
  mk id (IncidentID s) (TenantID s) (TenantSlug s) (PolicyID s) (CurrentTier s) (Status s)
     (IncidentTitle s) (IncidentSeverity s) (IncidentStatus s) (EscalateAt s) now now.
End EscalationState.

Module EscalationHistory.
Record t := mk {
  ID : string;
  IncidentID : string;
  TenantID : string;
  EventType : string;
  Tier : option Z;
  OncallUserID : string;
  OncallUsername : string;
  CreatedAt : Time
}.
End EscalationHistory.

Module TenantConfig.
Record t := mk {
  TenantID : string;
  DefaultPolicyID : option string;
  UpdatedAt : Time
}.
End TenantConfig.

(** ** Tables *)

(** The rows of [policies] have no tiers: they are the rows of [policy_tiers]. *)
Record db := Db {
  policies : list Policy.t;
  policy_tiers : list PolicyTier.t;
  states : list EscalationState.t;
  history : list EscalationHistory.t;
  configs : list TenantConfig.t;
  broker : netstate
}.

#[export] Instance db_Broker : Broker db :=
  {| net := broker;
     set_net n d := Db (policies d) (policy_tiers d) (states d) (history d) (configs d) n;
     net_set_net _ _ := eq_refl;
     set_net_net d := match d with Db _ _ _ _ _ _ => eq_refl end;
     set_net_set_net _ _ _ := eq_refl |}.

Definition set_states (l : list EscalationState.t) (d : db) : db :=
  Db (policies d) (policy_tiers d) l (history d) (configs d) (broker d).

Definition set_history (l : list EscalationHistory.t) (d : db) : db :=
  Db (policies d) (policy_tiers d) (states d) l (configs d) (broker d).

Definition set_configs (l : list TenantConfig.t) (d : db) : db :=
  Db (policies d) (policy_tiers d) (states d) (history d) l (broker d).

Definition set_policies (l : list Policy.t) (lt : list PolicyTier.t) (d : db) : db :=
  Db l lt (states d) (history d) (configs d) (broker d).

Definition int4_range : err := ErrNew "is greater than maximum value for int4".

Definition policy_exists (id : string) (d : db) : bool :=
  existsb (fun p => String.eqb (Policy.ID p) id) (policies d).

Section Store.
Context `{Platform}.

Local Abbreviation Prog A := (M db A).

(** ** Policies *)

Definition insert_policy (q : dbConn) (tenantID name : string) : Prog (res (string * Time)) :=
  sql q [] (fun now uuid d =>
    if policy_exists uuid d then Err unique_violation
    else Ok ((uuid, now), set_policies (policies d ++ [Policy.mk uuid tenantID name [] now]) (policy_tiers d) d)).

Definition insert_tier (q : dbConn) (policyID : string) (t : PolicyTier.t) : Prog (res string) :=
  sql q [policyID] (fun _ uuid d =>
    if negb (int4_ok (PolicyTier.TierNumber t) && int4_ok (PolicyTier.TimeoutSeconds t)) then Err int4_range
    else if existsb (fun r => String.eqb (PolicyTier.ID r) uuid
                     || (String.eqb (PolicyTier.PolicyID r) policyID
                         && (PolicyTier.TierNumber r =? PolicyTier.TierNumber t))) (policy_tiers d)
    then Err unique_violation
    else if negb (policy_exists policyID d) then Err fk_violation
    else Ok (uuid, set_policies (policies d) (policy_tiers d ++
           [PolicyTier.mk uuid policyID (PolicyTier.TierNumber t) (PolicyTier.TimeoutSeconds t)
              (PolicyTier.NotifyScheduleID t)]) d)).

Fixpoint insert_tiers (q : dbConn) (policyID : string) (ts : list PolicyTier.t)
    : Prog (res (list PolicyTier.t)) :=
  match ts with
  | [] => Ret (Ok [])
  | t :: ts =>
      let? id := insert_tier q policyID t in
      let? ts := insert_tiers q policyID ts in
      Ret (Ok (PolicyTier.mk id policyID (PolicyTier.TierNumber t) (PolicyTier.TimeoutSeconds t)
                 (PolicyTier.NotifyScheduleID t) :: ts))
  end.

(** The policy as the call leaves it in the caller's struct. *)
Definition CreatePolicy (p : Policy.t) : Prog (res Policy.t) :=
  withTx (fun tx =>
    let? r := insert_policy tx (Policy.TenantID p) (Policy.Name p) in
    let? tiers := insert_tiers tx r.1 (Policy.Tiers p) in
    Ret (Ok (Policy.mk r.1 (Policy.TenantID p) (Policy.Name p) tiers r.2))).

(** [ORDER BY tier_number ASC]: the numbers of a policy are distinct. *)
Definition by_tier_number (a b : PolicyTier.t) : Prop :=
  PolicyTier.TierNumber a <= PolicyTier.TierNumber b.

#[export] Instance by_tier_number_dec : RelDecision by_tier_number.
Proof. intros a b. apply Z_le_dec. Defined.

Definition tiers_of (policyID : string) (d : db) : list PolicyTier.t :=
  merge_sort by_tier_number (List.filter (fun t => String.eqb (PolicyTier.PolicyID t) policyID) (policy_tiers d)).

Definition listTiers (policyID : string) : Prog (res (list PolicyTier.t)) :=
  sql Pool [policyID] (fun _ _ d => Ok (tiers_of policyID d, d)).

Definition select_policy (tenantID id : string) : Prog (res Policy.t) :=
  sql Pool [id] (fun _ _ d =>
    match find (fun p => String.eqb (Policy.ID p) id && String.eqb (Policy.TenantID p) tenantID) (policies d) with
    | Some p => Ok (p, d)
    | None => Err ErrNotFound
    end).

Definition GetPolicy (tenantID id : string) : Prog (res Policy.t) :=
  let? p := select_policy tenantID id in
  let? tiers := listTiers (Policy.ID p) in
  Ret (Ok (Policy.mk (Policy.ID p) (Policy.TenantID p) (Policy.Name p) tiers (Policy.CreatedAt p))).

Definition by_created (a b : Policy.t) : Prop := Policy.CreatedAt a <= Policy.CreatedAt b.

#[export] Instance by_created_dec : RelDecision by_created.
Proof. intros a b. apply Z_le_dec. Defined.

Fixpoint with_tiers (ps : list Policy.t) : Prog (res (list Policy.t)) :=
  match ps with
  | [] => Ret (Ok [])
  | p :: ps =>
      let? tiers := listTiers (Policy.ID p) in
      let? ps := with_tiers ps in
      Ret (Ok (Policy.mk (Policy.ID p) (Policy.TenantID p) (Policy.Name p) tiers (Policy.CreatedAt p) :: ps))
  end.

Definition ListPolicies (tenantID : string) : Prog (res (list Policy.t)) :=
  let? ps := sql Pool [] (fun _ _ d =>
    Ok (merge_sort by_created (List.filter (fun p => String.eqb (Policy.TenantID p) tenantID) (policies d)), d)) in
  with_tiers ps.

(** Deleting a policy cascades to its tiers, sets the defaults that name it to
    NULL, and fails when a state names it. *)
Definition DeletePolicy (tenantID id : string) : Prog (res unit) :=
  let? n := sql Pool [id] (fun _ _ d =>
    let hit p := String.eqb (Policy.ID p) id && String.eqb (Policy.TenantID p) tenantID in
    if negb (existsb hit (policies d)) then Ok (0, d)
    else if existsb (fun s => String.eqb (EscalationState.PolicyID s) id) (states d) then Err fk_violation
    else Ok (1, Db (List.filter (fun p => negb (hit p)) (policies d))
                   (List.filter (fun t => negb (String.eqb (PolicyTier.PolicyID t) id)) (policy_tiers d))
                   (states d) (history d)
                   (map (fun c => if decide (TenantConfig.DefaultPolicyID c = Some id)
                                  then TenantConfig.mk (TenantConfig.TenantID c) None (TenantConfig.UpdatedAt c)
                                  else c) (configs d))
                   (broker d))) in
  Ret (if n =? 0 then Err ErrNotFound else Ok tt).

Definition GetTierByNumber (policyID : string) (tierNumber : Z) : Prog (res PolicyTier.t) :=
  sql Pool [policyID] (fun _ _ d =>
    if negb (int4_ok tierNumber) then Err int4_range
    else match find (fun t => String.eqb (PolicyTier.PolicyID t) policyID
                              && (PolicyTier.TierNumber t =? tierNumber)) (policy_tiers d) with
         | Some t => Ok (t, d)
         | None => Err ErrNotFound
         end).

(** ** Tenant escalation config *)

Definition GetTenantConfig (tenantID : string) : Prog (res TenantConfig.t) :=
  sql Pool [] (fun _ _ d =>
    match find (fun c => String.eqb (TenantConfig.TenantID c) tenantID) (configs d) with
    | Some c => Ok (c, d)
    | None => Err ErrNotFound
    end).

Definition UpsertTenantConfig (c : TenantConfig.t) : Prog (res unit) :=
  sql Pool (option_list (TenantConfig.DefaultPolicyID c)) (fun now _ d =>
    if negb (match TenantConfig.DefaultPolicyID c with Some p => policy_exists p d | None => true end)
    then Err fk_violation
    else
      let row := TenantConfig.mk (TenantConfig.TenantID c) (TenantConfig.DefaultPolicyID c) now in
      let hit r := String.eqb (TenantConfig.TenantID r) (TenantConfig.TenantID c) in
      Ok (tt, set_configs (if existsb hit (configs d)
                           then map (fun r => if hit r then row else r) (configs d)
                           else configs d ++ [row]) d)).

Definition DeleteTenantConfig (tenantID : string) : Prog (res unit) :=
  sql Pool [] (fun now _ d =>
    Ok (tt, set_configs (map (fun r => if String.eqb (TenantConfig.TenantID r) tenantID
                                       then TenantConfig.mk tenantID None now else r) (configs d)) d)).

(** ** Escalation states *)

Definition CreateEscalationState (st : EscalationState.t) : Prog (res EscalationState.t) :=
  sql Pool [EscalationState.PolicyID st] (fun now uuid d =>
    if negb (int4_ok (EscalationState.CurrentTier st)) then Err int4_range
    else if existsb (fun s => String.eqb (EscalationState.ID s) uuid
                     || String.eqb (EscalationState.IncidentID s) (EscalationState.IncidentID st)) (states d)
    then Err unique_violation
    else if negb (policy_exists (EscalationState.PolicyID st) d) then Err fk_violation
    else
      let row := EscalationState.set_step (EscalationState.CurrentTier st) "active" (EscalationState.EscalateAt st)
                   (EscalationState.set_created uuid now st) in
      Ok (EscalationState.set_created uuid now st, set_states (states d ++ [row]) d)).

Definition GetEscalationStateByIncident (tenantID incidentID : string) : Prog (res EscalationState.t) :=
  sql Pool [] (fun _ _ d =>
    match find (fun s => String.eqb (EscalationState.IncidentID s) incidentID
                         && String.eqb (EscalationState.TenantID s) tenantID) (states d) with
    | Some s => Ok (s, d)
    | None => Err ErrNotFound
    end).

Definition ListEscalationStatesByIncidents (tenantID : string) (ids : list string)
    : Prog (res (list EscalationState.t)) :=
  match ids with
  | [] => Ret (Ok [])
  | _ => sql Pool [] (fun _ _ d =>
           Ok (List.filter (fun s => String.eqb (EscalationState.TenantID s) tenantID
                              && existsb (String.eqb (EscalationState.IncidentID s)) ids) (states d), d))
  end.

(** [UPDATE ... SET current_tier, status, escalate_at, updated_at=now() WHERE cond]:
    the number of rows and the new table. *)
Definition update_states (cond : EscalationState.t -> bool) (st : EscalationState.t) (now : Time) (d : db)
    : Z * db :=
  let upd s := EscalationState.set_UpdatedAt now
                 (EscalationState.set_step (EscalationState.CurrentTier st) (EscalationState.Status st)
                    (EscalationState.EscalateAt st) s) in
  (Z.of_nat (length (List.filter cond (states d))),
   set_states (map (fun s => if cond s then upd s else s) (states d)) d).

Definition UpdateEscalationState (st : EscalationState.t) : Prog (res unit) :=
  let? n := sql Pool [EscalationState.ID st] (fun now _ d =>
    if negb (int4_ok (EscalationState.CurrentTier st)) then Err int4_range
    else Ok (update_states (fun s => String.eqb (EscalationState.ID s) (EscalationState.ID st)) st now d)) in
  Ret (if n =? 0 then Err ErrNotFound else Ok tt).

Definition appendHistory (q : dbConn) (e : EscalationHistory.t) : Prog (res unit) :=
  sql q [] (fun now uuid d =>
    if negb (match EscalationHistory.Tier e with Some t => int4_ok t | None => true end) then Err int4_range
    else if existsb (fun r => String.eqb (EscalationHistory.ID r) uuid) (history d) then Err unique_violation
    else Ok (tt, set_history (history d ++
           [EscalationHistory.mk uuid (EscalationHistory.IncidentID e) (EscalationHistory.TenantID e)
              (EscalationHistory.EventType e) (EscalationHistory.Tier e) (EscalationHistory.OncallUserID e)
              (EscalationHistory.OncallUsername e) now]) d)).

Definition AppendHistory (e : EscalationHistory.t) : Prog (res unit) := appendHistory Pool e.

(** [WHERE id=$4 AND current_tier=$5 AND status=$6]. *)
Definition guard (st : EscalationState.t) (expectedTier : Z) (expectedStatus : string)
    (s : EscalationState.t) : bool :=
  String.eqb (EscalationState.ID s) (EscalationState.ID st)
  && (EscalationState.CurrentTier s =? expectedTier)
  && String.eqb (EscalationState.Status s) expectedStatus.

(** The body of the transaction. *)
Definition advance_tx (st : EscalationState.t) (expectedTier : Z) (expectedStatus : string)
    (hist : option EscalationHistory.t) (tx : dbConn) : Prog (res unit) :=
  let? n := sql tx [EscalationState.ID st] (fun now _ d =>
    if negb (int4_ok (EscalationState.CurrentTier st) && int4_ok expectedTier) then Err int4_range
    else Ok (update_states (guard st expectedTier expectedStatus) st now d)) in
  if n =? 0 then Ret (Err ErrConflict)
  else match hist with
       | Some h => appendHistory tx h
       | None => Ret (Ok tt)
       end.

Definition AdvanceEscalationState (st : EscalationState.t) (expectedTier : Z) (expectedStatus : string)
    (hist : option EscalationHistory.t) : Prog (res unit) :=
  withTx (advance_tx st expectedTier expectedStatus hist).

Definition by_escalate_at (a b : EscalationState.t) : Prop :=
  EscalationState.EscalateAt a <= EscalationState.EscalateAt b.

#[export] Instance by_escalate_at_dec : RelDecision by_escalate_at.
Proof. intros a b. apply Z_le_dec. Defined.

(** The row locks of [FOR UPDATE SKIP LOCKED] end with the statement, which
    commits on its own. *)
Definition ListExpiredStates (limit : nat) : Prog (res (list EscalationState.t)) :=
  let? l := sql Pool [] (fun now _ d =>
    Ok (take limit (merge_sort by_escalate_at
          (List.filter (fun s => String.eqb (EscalationState.Status s) "active"
                            && (EscalationState.EscalateAt s <=? now)) (states d))), d))
  wrap "list expired states" in
  Ret (Ok l).

(** ** History *)

Definition by_history_time (a b : EscalationHistory.t) : Prop :=
  EscalationHistory.CreatedAt a <= EscalationHistory.CreatedAt b.

#[export] Instance by_history_time_dec : RelDecision by_history_time.
Proof. intros a b. apply Z_le_dec. Defined.

Definition ListHistory (tenantID incidentID : string) : Prog (res (list EscalationHistory.t)) :=
  sql Pool [] (fun _ _ d =>
    Ok (merge_sort by_history_time
          (List.filter (fun h => String.eqb (EscalationHistory.IncidentID h) incidentID
                            && String.eqb (EscalationHistory.TenantID h) tenantID) (history d)), d)).

End Store.
