(* ===== verification/Escalator.v ===== *)
(** * Escalation: escalator, monitor and consumer

    services/escalation/internal/escalator/escalator.go, monitor/monitor.go,
    consumer/consumer.go, publisher/publisher.go and schedclient/client.go, as
    programs over the tables of [EscalationStore].  Logs and metrics are left
    out. *)

From S2P Require Import Prelude Effects Json Events Interleaving Amqp Http EscalationStore.
Open Scope go_scope.

Local Abbreviation Prog A := (M db A).

(** ** publisher.go *)

(** The interface the escalator publishes through. *)
Class EscalationPublisher := {
  PublishTriggered : EscalationTriggered.t -> Prog (res unit);
  PublishExhausted : EscalationExhausted.t -> Prog (res unit)
}.

Section Publisher.
Context `{Platform} `{TimeText}.

Definition publish_triggered (ev : EscalationTriggered.t) : Prog (res unit) :=
  let? body := Envelope.Wrap RoutingKeyEscalationTriggered (EscalationTriggered.TenantID ev) ev
    wrap "publisher: wrap triggered" in
  Publish ExchangeEscalations RoutingKeyEscalationTriggered body.

Definition publish_exhausted (ev : EscalationExhausted.t) : Prog (res unit) :=
  let? body := Envelope.Wrap RoutingKeyEscalationExhausted (EscalationExhausted.TenantID ev) ev
    wrap "publisher: wrap exhausted" in
  Publish ExchangeEscalations RoutingKeyEscalationExhausted body.

(** The publisher of a service that is connected to the broker. *)
Definition Publisher : EscalationPublisher :=
  {| PublishTriggered := publish_triggered; PublishExhausted := publish_exhausted |}.

(** The one of a service without AMQP. *)
Definition Noop : EscalationPublisher :=
  {| PublishTriggered _ := Ret (Ok tt); PublishExhausted _ := Ret (Ok tt) |}.

End Publisher.

(** ** schedclient/client.go *)

Module OncallResult.
Record t := mk {
  UserID : string;
  Username : string;
  StartsAt : Time;
  EndsAt : Time
}.

Definition zero : t := mk "" "" Alert.zero_time Alert.zero_time.

Definition json_fields `{TimeText} : fields t := [
  field "user_id" UserID (fun v a => mk v (Username a) (StartsAt a) (EndsAt a)) dec_string;
  field "username" Username (fun v a => mk (UserID a) v (StartsAt a) (EndsAt a)) dec_string;
  field "starts_at" StartsAt (fun v a => mk (UserID a) (Username a) v (EndsAt a)) dec_time;
  field "ends_at" EndsAt (fun v a => mk (UserID a) (Username a) (StartsAt a) v) dec_time].
End OncallResult.

Section Escalator.
Context `{Platform} `{TimeText} `{HttpEnv} `{EscalationPublisher}.

(** [e.sched]. *)
Variable sched : Client.

Definition GetOnCall (tenantSlug scheduleID : string) : Prog (res OncallResult.t) :=
  let? result := GetJSON sched ("/api/schedules/v1/" +:+ tenantSlug +:+ "/schedules/" +:+ scheduleID +:+ "/oncall")
                   (dec_struct OncallResult.json_fields) OncallResult.zero
    wrap "schedclient: oncall for schedule" in
  Ret (Ok result).

(** ** escalator.go *)

Record IncidentInfo := Info { Title : string; Severity : string; Status : string }.

Definition triggerTier (st : EscalationState.t) (tier : PolicyTier.t) : Prog (res unit) :=
  let! user :=
    (if String.eqb (PolicyTier.NotifyScheduleID tier) EmptyString then Ret (EmptyString, EmptyString)
     else
       let! result := GetOnCall (EscalationState.TenantSlug st) (PolicyTier.NotifyScheduleID tier) in
       Ret (match result with
            | Err _ => (EmptyString, EmptyString)
            | Ok r => (OncallResult.UserID r, OncallResult.Username r)
            end)) in
  let! _ := AppendHistory (EscalationHistory.mk EmptyString (EscalationState.IncidentID st)
              (EscalationState.TenantID st) "triggered" (Some (PolicyTier.TierNumber tier)) user.1 user.2 0) in
  let? _ := PublishTriggered (EscalationTriggered.mk (EscalationState.IncidentID st)
              (EscalationState.TenantID st) (EscalationState.TenantSlug st) (PolicyTier.TierNumber tier)
              user.1 user.2 (EscalationState.IncidentTitle st) (EscalationState.IncidentSeverity st)
              (EscalationState.IncidentStatus st))
    wrap "trigger tier: publish" in
  Ret (Ok tt).

Definition AssignPolicy (tenantID tenantSlug incidentID policyID : string) (inc : IncidentInfo)
    : Prog (res unit) :=
  let! r := GetPolicy tenantID policyID in
  match r with
  | Err e =>
      if errors_Is e ErrNotFound then Ret (Err ErrNotFound)
      else Ret (Err (Wrap "assign policy: get policy" e))
  | Ok policy =>
      match Policy.Tiers policy with
      | [] => Ret (Err (ErrNew "policy has no tiers"))
      | tier1 :: _ =>
          let! now := time_Now in
          let st := EscalationState.mk EmptyString incidentID tenantID tenantSlug policyID
                      (PolicyTier.TierNumber tier1) EmptyString (Title inc) (Severity inc) (Status inc)
                      (Add now (int64 (PolicyTier.TimeoutSeconds tier1 * Second)))
                      Alert.zero_time Alert.zero_time in
          let? st := CreateEscalationState st wrap "assign policy: create state" in
          let! _ := triggerTier st tier1 in
          Ret (Ok tt)
      end
  end.

(** The two guarded writes of AdvanceOrExhaust: a lost race is not an error. *)
Definition skip_conflict (msg : string) (e : err) : Prog (res unit) :=
  if errors_Is e ErrConflict then Ret (Ok tt) else Ret (Err (Wrap msg e)).

Definition AdvanceOrExhaust (st : EscalationState.t) : Prog (res unit) :=
  let expectedTier := EscalationState.CurrentTier st in
  let nextTierNum := int64 (EscalationState.CurrentTier st + 1) in
  let! nextTier := GetTierByNumber (EscalationState.PolicyID st) nextTierNum in
  match nextTier with
  | Err e =>
      if errors_Is e ErrNotFound then
        let! now := time_Now in
        let st := EscalationState.set_step expectedTier "exhausted" now st in
        let hist := EscalationHistory.mk EmptyString (EscalationState.IncidentID st)
                      (EscalationState.TenantID st) "exhausted" (Some expectedTier) EmptyString EmptyString 0 in
        let! r := AdvanceEscalationState st expectedTier "active" (Some hist) in
        match r with
        | Err e => skip_conflict "advance: set exhausted" e
        | Ok _ =>
            let! _ := PublishExhausted (EscalationExhausted.mk (EscalationState.IncidentID st)
                        (EscalationState.TenantID st) (EscalationState.TenantSlug st)) in
            Ret (Ok tt)
        end
      else Ret (Err (Wrap "advance: get next tier" e))
  | Ok nextTier =>
      let! now := time_Now in
      let st := EscalationState.set_step (PolicyTier.TierNumber nextTier) (EscalationState.Status st)
                  (Add now (int64 (PolicyTier.TimeoutSeconds nextTier * Second))) st in
      let! r := AdvanceEscalationState st expectedTier "active" None in
      match r with
      | Err e => skip_conflict "advance: update state" e
      | Ok _ =>
          let! _ := triggerTier st nextTier in
          Ret (Ok tt)
      end
  end.

Definition Stop (tenantID incidentID reason : string) : Prog (res unit) :=
  let! r := GetEscalationStateByIncident tenantID incidentID in
  match r with
  | Err e =>
      if errors_Is e ErrNotFound then Ret (Ok tt) else Ret (Err (Wrap "stop: get state" e))
  | Ok st =>
      if negb (String.eqb (EscalationState.Status st) "active") then Ret (Ok tt)
      else
        let! now := time_Now in
        let st := EscalationState.set_step (EscalationState.CurrentTier st) reason now st in
        let? _ := UpdateEscalationState st wrap "stop: update state" in
        let! _ := AppendHistory (EscalationHistory.mk EmptyString incidentID tenantID reason
                    (Some (EscalationState.CurrentTier st)) EmptyString EmptyString 0) in
        Ret (Ok tt)
  end.

Definition ManualEscalate (tenantID incidentID : string) : Prog (res unit) :=
  let! r := GetEscalationStateByIncident tenantID incidentID in
  match r with
  | Err e =>
      if errors_Is e ErrNotFound then Ret (Err ErrNotFound)
      else Ret (Err (Wrap "manual escalate: get state" e))
  | Ok st =>
      if negb (String.eqb (EscalationState.Status st) "active")
      then Ret (Err (ErrNew "escalation is not active"))
      else AdvanceOrExhaust st
  end.

Definition AutoAssign (tenantID tenantSlug incidentID : string) (inc : IncidentInfo) : Prog (res unit) :=
  let! r := GetTenantConfig tenantID in
  match r with
  | Err e =>
      if errors_Is e ErrNotFound then Ret (Ok tt)
      else Ret (Err (Wrap "auto assign: get tenant config" e))
  | Ok cfg =>
      match TenantConfig.DefaultPolicyID cfg with
      | None => Ret (Ok tt)
      | Some policyID =>
          let? _ := AssignPolicy tenantID tenantSlug incidentID policyID inc
            wrap "auto assign: assign policy" in
          Ret (Ok tt)
      end
  end.

(** ** monitor.go: one tick *)

Definition step : Prog unit :=
  let! r := ListExpiredStates 50 in
  match r with
  | Err _ => Ret tt
  | Ok states =>
      for_each states (fun st =>
        let! _ := AdvanceOrExhaust st in
        Ret tt)
  end.

(** Run: a tick at each interval until the context is cancelled.  [None] is running
    out of fuel. *)
Fixpoint monitor_Run (fuel : nat) (interval : Duration) : Prog (option unit) :=
  match fuel with
  | O => Ret None
  | S fuel =>
      let! stop := sleep_or_Done interval in
      if stop then Ret (Some tt)
      else
        let! _ := step in
        monitor_Run fuel interval
  end.

(** ** consumer.go *)

Definition handle (env : Envelope.t) : Prog (res unit) :=
  match Envelope.DecodePayload env IncidentChanged.zero with
  | Err e => Ret (Err (Drop e))
  | Ok payload =>
      if String.eqb (Envelope.Type_ env) RoutingKeyIncidentCreated then
        let tenantSlug := if String.eqb (IncidentChanged.TenantSlug payload) EmptyString
                          then IncidentChanged.TenantID payload else IncidentChanged.TenantSlug payload in
        let inc := Info (IncidentChanged.Title payload) (IncidentChanged.Severity payload)
                     (IncidentChanged.Status payload) in
        let? _ := AutoAssign (IncidentChanged.TenantID payload) tenantSlug (IncidentChanged.IncidentID payload) inc
          wrap "auto assign incident" in
        Ret (Ok tt)
      else if String.eqb (Envelope.Type_ env) RoutingKeyIncidentUpdated then
        if String.eqb (IncidentChanged.Status payload) "acknowledged"
           || String.eqb (IncidentChanged.Status payload) "resolved" then
          let? _ := Stop (IncidentChanged.TenantID payload) (IncidentChanged.IncidentID payload)
                      (IncidentChanged.Status payload)
            wrap "stop escalation incident" in
          Ret (Ok tt)
        else Ret (Ok tt)
      else Ret (Ok tt)
  end.

(** The handler as [Consume] calls it: it does not panic. *)
Definition consumer_handler (env : Envelope.t) : Prog handled :=
  let! r := handle env in
  Ret (Returned r).

(** The entry for one delivery outside [Consume]. *)
Definition ProcessDelivery (body : json) : Prog (res unit) :=
  match Unmarshal Envelope.decode body Envelope.zero with
  | Err e => Ret (Err (Wrap "unmarshal envelope" e))
  | Ok env => handle env
  end.

End Escalator.
