(* ===== verification/EscalationHandler.v ===== *)
(** * Escalation: HTTP handlers

    services/escalation/internal/handler/handler.go.  A request gives a handler
    the URL parameters, the query and the body ([None]: not JSON). *)

From S2P Require Import Prelude Effects Json Events Interleaving Amqp Http EscalationStore Escalator.
Open Scope go_scope.

Local Abbreviation Prog A := (M db A).

(** incclient/client.go *)
Module Incident.
Record t := mk {
  ID : string;
  Title : string;
  Severity : string;
  Status : string
}.

Definition zero : t := mk "" "" "" "".

Definition json_fields : fields t := [
  field "id" ID (fun v a => mk v (Title a) (Severity a) (Status a)) dec_string;
  field "title" Title (fun v a => mk (ID a) v (Severity a) (Status a)) dec_string;
  field "severity" Severity (fun v a => mk (ID a) (Title a) v (Status a)) dec_string;
  field "status" Status (fun v a => mk (ID a) (Title a) (Severity a) v) dec_string].
End Incident.

(** The bodies the handlers decode. *)
Definition tier_fields : fields PolicyTier.t := [
  field "tier_number" PolicyTier.TierNumber (fun v a => PolicyTier.mk (PolicyTier.ID a) (PolicyTier.PolicyID a) v (PolicyTier.TimeoutSeconds a) (PolicyTier.NotifyScheduleID a)) dec_int;
  field "timeout_seconds" PolicyTier.TimeoutSeconds (fun v a => PolicyTier.mk (PolicyTier.ID a) (PolicyTier.PolicyID a) (PolicyTier.TierNumber a) v (PolicyTier.NotifyScheduleID a)) dec_int;
  field "notify_schedule_id" PolicyTier.NotifyScheduleID (fun v a => PolicyTier.mk (PolicyTier.ID a) (PolicyTier.PolicyID a) (PolicyTier.TierNumber a) (PolicyTier.TimeoutSeconds a) v) dec_string].

Record create_body := CreateBody { Name : string; Tiers : list PolicyTier.t }.

Definition create_fields : fields create_body := [
  field "name" Name (fun v a => CreateBody v (Tiers a)) dec_string;
  field "tiers" Tiers (fun v a => CreateBody (Name a) v)
    (dec_slice (PolicyTier.mk "" "" 0 0 "") (dec_struct tier_fields))].

Record policy_body := PolicyBody { PolicyID : string; TenantSlug : string }.

Definition put_fields : fields policy_body := [
  field "policy_id" PolicyID (fun v a => PolicyBody v (TenantSlug a)) dec_string].

Definition attach_fields : fields policy_body := [
  field "policy_id" PolicyID (fun v a => PolicyBody v (TenantSlug a)) dec_string;
  field "tenant_slug" TenantSlug (fun v a => PolicyBody (PolicyID a) v) dec_string].

(** The values the handlers write. *)
Inductive body :=
| Policies (l : list EscalationStore.Policy.t)
| APolicy (p : EscalationStore.Policy.t)
| AConfig (c : TenantConfig.t)
| AState (s : EscalationState.t)
| States (l : list EscalationState.t)
| History (l : list EscalationHistory.t).

Definition internal_error : response body := Error StatusInternalServerError "internal error".

Section Handler.
Context `{Platform} `{TimeText} `{HttpEnv} `{EscalationPublisher}.
Variable sched : Client.

(** [h.incident], nil when the service is not configured. *)
Variable incident : option Client.

Definition ListPolicies (tenant : string) : Prog (response body) :=
  let! r := EscalationStore.ListPolicies tenant in
  Ret (match r with Err _ => internal_error | Ok l => Json StatusOK (Policies l) end).

(** The tiers of the new policy, or [None] when a timeout is not positive. *)
Fixpoint check_tiers (ts : list PolicyTier.t) : option (list PolicyTier.t) :=
  match ts with
  | [] => Some []
  | t :: ts =>
      if PolicyTier.TimeoutSeconds t <=? 0 then None
      else ts ← check_tiers ts;
           Some (PolicyTier.mk "" "" (PolicyTier.TierNumber t) (PolicyTier.TimeoutSeconds t)
                   (PolicyTier.NotifyScheduleID t) :: ts)
  end.

Definition CreatePolicy (tenant : string) (req : option json) : Prog (response body) :=
  match Decode (dec_struct create_fields) req (CreateBody "" []) with
  | Err _ => Ret (Error StatusBadRequest "invalid JSON")
  | Ok b =>
      if String.eqb (Name b) "" then Ret (Error StatusUnprocessableEntity "name is required")
      else match Tiers b with
      | [] => Ret (Error StatusUnprocessableEntity "at least one tier is required")
      | ts =>
          match check_tiers ts with
          | None => Ret (Error StatusUnprocessableEntity "timeout_seconds must be positive")
          | Some tiers =>
              let! r := EscalationStore.CreatePolicy (EscalationStore.Policy.mk "" tenant (Name b) tiers Alert.zero_time) in
              Ret (match r with Err _ => internal_error | Ok p => Json StatusCreated (APolicy p) end)
          end
      end
  end.

Definition GetPolicy (tenant policyId : string) : Prog (response body) :=
  let! r := EscalationStore.GetPolicy tenant policyId in
  Ret (match r with
       | Err e => if errors_Is e ErrNotFound then Error StatusNotFound "not found" else internal_error
       | Ok p => Json StatusOK (APolicy p)
       end).

Definition DeletePolicy (tenant policyId : string) : Prog (response body) :=
  let! r := EscalationStore.DeletePolicy tenant policyId in
  Ret (match r with
       | Err e => if errors_Is e ErrNotFound then Error StatusNotFound "not found" else internal_error
       | Ok _ => NoBody StatusNoContent
       end).

Definition GetDefaultPolicy (tenant : string) : Prog (response body) :=
  let! r := GetTenantConfig tenant in
  Ret (match r with
       | Err e => if errors_Is e ErrNotFound then Error StatusNotFound "no default policy configured"
                  else internal_error
       | Ok c => Json StatusOK (AConfig c)
       end).

Definition PutDefaultPolicy (tenant : string) (req : option json) : Prog (response body) :=
  match Decode (dec_struct put_fields) req (PolicyBody "" "") with
  | Err _ => Ret (Error StatusBadRequest "invalid JSON")
  | Ok b =>
      if String.eqb (PolicyID b) "" then Ret (Error StatusUnprocessableEntity "policy_id is required")
      else
        let! r := EscalationStore.GetPolicy tenant (PolicyID b) in
        match r with
        | Err e => Ret (if errors_Is e ErrNotFound
                        then Error StatusUnprocessableEntity "policy not found for this tenant"
                        else internal_error)
        | Ok _ =>
            let cfg := TenantConfig.mk tenant (Some (PolicyID b)) Alert.zero_time in
            let! r := UpsertTenantConfig cfg in
            Ret (match r with Err _ => internal_error | Ok _ => Json StatusOK (AConfig cfg) end)
        end
  end.

Definition DeleteDefaultPolicy (tenant : string) : Prog (response body) :=
  let! r := DeleteTenantConfig tenant in
  Ret (match r with Err _ => internal_error | Ok _ => NoBody StatusNoContent end).

(** incclient: [GET /api/incidents/v1/{tenant}/incidents/{id}]. *)
Definition GetIncident (c : Client) (tenantID incidentID : string) : Prog (res Incident.t) :=
  let? inc := GetJSON c ("/api/incidents/v1/" +:+ tenantID +:+ "/incidents/" +:+ incidentID)
                (dec_struct Incident.json_fields) Incident.zero
    wrap "incclient: incident" in
  Ret (Ok inc).

Definition AttachPolicy (tenant incidentID : string) (req : option json) : Prog (response body) :=
  match Decode (dec_struct attach_fields) req (PolicyBody "" "") with
  | Err _ => Ret (Error StatusBadRequest "invalid JSON")
  | Ok b =>
      if String.eqb (PolicyID b) "" then Ret (Error StatusUnprocessableEntity "policy_id is required")
      else
        let tenantSlug := if String.eqb (TenantSlug b) "" then tenant else TenantSlug b in
        let! info :=
          (match incident with
           | None => Ret (Info "" "" "")
           | Some c =>
               let! r := GetIncident c tenant incidentID in
               Ret (match r with
                    | Err _ => Info "" "" ""
                    | Ok inc => Info (Incident.Title inc) (Incident.Severity inc) (Incident.Status inc)
                    end)
           end) in
        let! r := AssignPolicy sched tenant tenantSlug incidentID (PolicyID b) info in
        match r with
        | Err e => Ret (if errors_Is e ErrNotFound then Error StatusNotFound "policy not found"
                        else Error StatusInternalServerError (error_text e))
        | Ok _ =>
            let! r := GetEscalationStateByIncident tenant incidentID in
            Ret (match r with Err _ => internal_error | Ok st => Json StatusCreated (AState st) end)
        end
  end.

Definition GetEscalationState (tenant incidentID : string) : Prog (response body) :=
  let! r := GetEscalationStateByIncident tenant incidentID in
  Ret (match r with
       | Err e => if errors_Is e ErrNotFound then Error StatusNotFound "not found" else internal_error
       | Ok st => Json StatusOK (AState st)
       end).

Definition parseIncidentIDs (csv : string) : list string :=
  if String.eqb csv "" then []
  else List.filter (fun id => negb (String.eqb id "")) (map TrimSpace (Split csv ",")).

Definition GetEscalationStates (tenant csv : string) : Prog (response body) :=
  let! r := ListEscalationStatesByIncidents tenant (parseIncidentIDs csv) in
  Ret (match r with Err _ => internal_error | Ok l => Json StatusOK (States l) end).

Definition ManualEscalate (tenant incidentID : string) : Prog (response body) :=
  let! r := Escalator.ManualEscalate sched tenant incidentID in
  match r with
  | Err e => Ret (if errors_Is e ErrNotFound
                  then Error StatusNotFound "no active escalation for this incident"
                  else Error StatusConflict (error_text e))
  | Ok _ =>
      let! r := GetEscalationStateByIncident tenant incidentID in
      Ret (match r with Err _ => internal_error | Ok st => Json StatusOK (AState st) end)
  end.

Definition GetHistory (tenant incidentID : string) : Prog (response body) :=
  let! r := ListHistory tenant incidentID in
  Ret (match r with Err _ => internal_error | Ok l => Json StatusOK (History l) end).

(** The routes of the service (cmd/server/main.go), behind the authentication. *)
Inductive request :=
| RListPolicies
| RCreatePolicy (req : option json)
| RGetPolicy (policyId : string)
| RDeletePolicy (policyId : string)
| RGetDefaultPolicy
| RPutDefaultPolicy (req : option json)
| RDeleteDefaultPolicy
| RGetEscalationStates (csv : string)
| RAttachPolicy (incidentId : string) (req : option json)
| RGetEscalationState (incidentId : string)
| RManualEscalate (incidentId : string)
| RGetHistory (incidentId : string).

Definition serve (tenant : string) (r : request) : Prog (response body) :=
  match r with
  | RListPolicies => ListPolicies tenant
  | RCreatePolicy req => CreatePolicy tenant req
  | RGetPolicy id => GetPolicy tenant id
  | RDeletePolicy id => DeletePolicy tenant id
  | RGetDefaultPolicy => GetDefaultPolicy tenant
  | RPutDefaultPolicy req => PutDefaultPolicy tenant req
  | RDeleteDefaultPolicy => DeleteDefaultPolicy tenant
  | RGetEscalationStates csv => GetEscalationStates tenant csv
  | RAttachPolicy id req => AttachPolicy tenant id req
  | RGetEscalationState id => GetEscalationState tenant id
  | RManualEscalate id => ManualEscalate tenant id
  | RGetHistory id => GetHistory tenant id
  end.

End Handler.
