(* ===== verification/EscalationSafety.v ===== *)
(** * Escalation: safety under concurrency

    Replicas of the monitor, consumers and HTTP requests run at the same time
    on one data base.  The theorems hold for every interleaving of their steps:
    a tier of an incident is triggered at most once, the tier only grows, and a
    state that left [active] never becomes active again. *)

From S2P Require Import Prelude Effects Json Events Interleaving Amqp Http EscalationStore Escalator EscalationHandler.
Open Scope go_scope.

(** The incident and tier of an [escalation.triggered] message. *)
Definition triggered_event `{TimeText} (m : message) : option (string * Z) :=
  if String.eqb (exchange m) ExchangeEscalations
     && String.eqb (routingKey m) RoutingKeyEscalationTriggered
  then
    env ← Envelope.decode (Amqp.body m) Envelope.zero;
    raw ← Envelope.Payload env;
    ev ← EscalationTriggered.decode raw EscalationTriggered.zero;
    Some (EscalationTriggered.IncidentID ev, EscalationTriggered.Tier ev)
  else None.

(** How many times the trigger of a tier was handed to the broker. *)
Definition published `{TimeText} (l : list message) (x : string * Z) : nat :=
  length (List.filter (fun m => bool_decide (triggered_event m = Some x)) l).

(** The row of an incident. *)
Definition row_of (incidentID : string) (d : db) : option EscalationState.t :=
  find (fun s => String.eqb (EscalationState.IncidentID s) incidentID) (states d).

Definition ids (d : db) : list (string * string) :=
  map (fun s => (EscalationState.ID s, EscalationState.IncidentID s)) (states d).

Definition active (s : EscalationState.t) : bool := String.eqb (EscalationState.Status s) "active".

(** An incident that was answered. *)
Definition stopped (s : EscalationState.t) : Prop :=
  EscalationState.Status s = "acknowledged" \/ EscalationState.Status s = "resolved".

(** What ends an escalation, and what may follow.  Only an active one is exhausted,
    at its tier or a higher one; one that has ended stays as it is, or is stopped
    (again): [Stop] reads the state and updates it in two statements, so the update
    may find a state that has ended meanwhile. *)
Definition ends (s s' : EscalationState.t) : Prop :=
  (active s = false -> s' = s \/ stopped s')
  /\ (EscalationState.Status s' = "exhausted" ->
      s' = s \/ (active s = true /\ EscalationState.CurrentTier s <= EscalationState.CurrentTier s'))
  /\ (s' = s \/ active s' = true \/ stopped s' \/ EscalationState.Status s' = "exhausted").

(** What a row may become: it keeps its identity and its policy, while it is
    active it is what it was or has climbed to a higher tier, and it ends as
    [ends] says. *)
Definition le_row (s s' : EscalationState.t) : Prop :=
  EscalationState.ID s' = EscalationState.ID s
  /\ EscalationState.IncidentID s' = EscalationState.IncidentID s
  /\ EscalationState.PolicyID s' = EscalationState.PolicyID s
  /\ (active s' = true ->
      active s = true /\ (s' = s \/ EscalationState.CurrentTier s < EscalationState.CurrentTier s'))
  /\ ends s s'.

Lemma stopped_inactive s : stopped s -> active s = false.
Proof. unfold active. by intros [-> | ->]. Qed.

#[export] Instance le_row_PreOrder : PreOrder le_row.
Proof.
  split; [intros s; unfold le_row, ends; split_and!; auto|].
  intros s1 s2 s3 (? & ? & ? & H12 & K12 & E12 & N12) (? & ? & ? & H23 & K23 & E23 & N23).
  split_and!; [congruence..| |split_and!].
  - intros Ha. destruct (H23 Ha) as [Ha2 [->|Hlt]]; [by apply H12|].
    destruct (H12 Ha2) as [? [->|?]]; (split; [done|right; lia]).
  - intros Ha. destruct (K12 Ha) as [->|Hs]; [by apply K23|].
    destruct (K23 (stopped_inactive _ Hs)) as [->|?]; by right.
  - intros Hx. destruct (E23 Hx) as [->|[Ha2 Hle]]; [by apply E12|].
    destruct (H12 Ha2) as [? [->|?]]; (right; split; [done|lia]).
  - destruct N23 as [->|?]; [done|by right].
Qed.

(** Rows are never deleted, and move along [le_row]. *)
Definition leD (d d' : db) : Prop :=
  exists l1 l2, states d' = l1 ++ l2 /\ Forall2 le_row (states d) l1.

#[export] Instance leD_PreOrder : PreOrder leD.
Proof.
  split.
  - intros d. exists (states d), []. rewrite app_nil_r. split; [done|].
    induction (states d); constructor; [reflexivity|done].
  - intros d1 d2 d3 (l1 & l2 & E & F) (m1 & m2 & E' & F').
    rewrite E in F'. apply Forall2_app_inv_l in F' as (k1 & k2 & Fk & _ & ->).
    exists k1, (k2 ++ m2). rewrite E', app_assoc. split; [done|].
    clear - F Fk. revert k1 Fk. induction F; intros k1 Fk; inversion Fk; subst; constructor; [by etransitivity|auto].
Qed.

(** The primary key and the UNIQUE constraint of the table. *)
Definition unique_rows (d : db) : Prop :=
  NoDup (map EscalationState.ID (states d)) /\ NoDup (map EscalationState.IncidentID (states d)).

(** Whether the tier can still be reached: the incident has no state yet, or an
    active one at a lower tier. *)
Definition available (d : db) (x : string * Z) : nat :=
  match row_of x.1 d with
  | None => 1
  | Some s =>
      if String.eqb (EscalationState.Status s) "active" && (EscalationState.CurrentTier s <? x.2)
      then 1 else 0
  end.

Definition potential `{TimeText} (copies : nat) (d : db) (x : string * Z) : nat :=
  published (handed (broker d)) x + copies * available d x.

(** The credit to trigger one tier. *)
Definition credit (copies : nat) (y x : string * Z) : nat :=
  if decide (x = y) then copies else 0.

(** ** Lemmas on the table of states *)

Lemma ids_update cond st now d : ids (update_states cond st now d).2 = ids d.
Proof.
  unfold ids, update_states; simpl. rewrite map_map. apply map_ext. intros s. by destruct (cond s).
Qed.

Lemma row_of_update cond st now d i :
  row_of i (update_states cond st now d).2 =
  (fun s => if cond s then
      EscalationState.set_UpdatedAt now
        (EscalationState.set_step (EscalationState.CurrentTier st) (EscalationState.Status st)
           (EscalationState.EscalateAt st) s) else s) <$> row_of i d.
Proof.
  unfold row_of, update_states; simpl.
  rewrite (find_map_same _ (fun s => String.eqb (EscalationState.IncidentID s) i)); [done|].
  intros s. by destruct (cond s).
Qed.

Lemma row_of_unique d s :
  unique_rows d -> s ∈ states d -> row_of (EscalationState.IncidentID s) d = Some s.
Proof. intros [_ Hn] Hs. by apply (find_unique EscalationState.IncidentID). Qed.

Lemma ids_unique_row d s id inc :
  unique_rows d -> s ∈ states d -> EscalationState.ID s = id -> (id, inc) ∈ ids d ->
  EscalationState.IncidentID s = inc.
Proof.
  intros [Hn _] Hs <- Hin. apply list_elem_of_fmap in Hin as (s' & [= He ->] & Hs').
  f_equal. by eapply NoDup_map_inj.
Qed.

Lemma leD_elem d d' x : leD d d' -> x ∈ ids d -> x ∈ ids d'.
Proof.
  intros (l1 & l2 & E & F) Hx. unfold ids in *. rewrite E, map_app. apply elem_of_app. left.
  clear E. revert Hx. induction F as [|s s' l l' (E1 & E2 & _) _ IH]; [done|]. simpl.
  rewrite !elem_of_cons, E1, E2. tauto.
Qed.

Lemma leD_states d d' : states d' = states d -> leD d d'.
Proof.
  intros E. assert (leD d d) as (l1 & l2 & E1 & F) by reflexivity.
  exists l1, l2. split; [congruence|done].
Qed.

(** An update of an active row that climbs or exhausts, or of any row that stops. *)
Lemma le_row_update s st now :
  (active s = true /\ ((active st = true /\ EscalationState.CurrentTier s < EscalationState.CurrentTier st)
                      \/ (EscalationState.Status st = "exhausted"
                          /\ EscalationState.CurrentTier s <= EscalationState.CurrentTier st)))
  \/ stopped st ->
  le_row s (EscalationState.set_UpdatedAt now (EscalationState.set_step (EscalationState.CurrentTier st)
              (EscalationState.Status st) (EscalationState.EscalateAt st) s)).
Proof.
  intros Hc. split_and!; [done..| |].
  - unfold active. cbn. intros Ha. destruct Hc as [[Hs [[_ Hlt]|[Hx _]]]|Hs].
    + split; [done|by right].
    + by rewrite Hx in Ha.
    + apply stopped_inactive in Hs. unfold active in Hs. by rewrite Hs in Ha.
  - destruct Hc as [[Hs Ht]|Hs]; split_and!.
    + by rewrite Hs.
    + cbn. intros Hx. right. split; [done|]. destruct Ht as [[Ha _]|[_ Hle]]; [|done].
      unfold active in Ha. by rewrite Hx in Ha.
    + right. destruct Ht as [[Ha _]|[Hx _]]; [by left|by do 2 right].
    + intros _. by right.
    + cbn. intros Hx. destruct Hs as [Hs|Hs]; by rewrite Hs in Hx.
    + right. right. by left.
Qed.

Lemma leD_update cond st now d d' :
  states d' = states (update_states cond st now d).2 ->
  (forall s, cond s = true ->
     (active s = true /\ ((active st = true /\ EscalationState.CurrentTier s < EscalationState.CurrentTier st)
                         \/ (EscalationState.Status st = "exhausted"
                             /\ EscalationState.CurrentTier s <= EscalationState.CurrentTier st)))
     \/ stopped st) ->
  leD d d'.
Proof.
  intros E Hc. exists (states d'), []. rewrite app_nil_r. split; [done|]. rewrite E. clear E. simpl.
  induction (states d) as [|s l IH]; simpl; constructor; [|done].
  destruct (cond s) eqn:Es; [|reflexivity]. by apply le_row_update, Hc.
Qed.

Lemma leD_insert d row : leD d (set_states (states d ++ [row]) d).
Proof.
  assert (leD d d) as (l1 & l2 & E1 & F) by reflexivity.
  exists l1, (l2 ++ [row]). split; [cbn; by rewrite app_assoc, <- E1|done].
Qed.

Lemma unique_rows_ids d d' : ids d' = ids d -> unique_rows d -> unique_rows d'.
Proof.
  unfold unique_rows, ids. intros He.
  assert (map EscalationState.ID (states d') = map EscalationState.ID (states d)) as ->.
  { apply (f_equal (map fst)) in He. rewrite !map_map in He. exact He. }
  assert (map EscalationState.IncidentID (states d') = map EscalationState.IncidentID (states d)) as ->.
  { apply (f_equal (map snd)) in He. rewrite !map_map in He. exact He. }
  done.
Qed.

Section Potential.
Context `{TimeText}.
Variable copies : nat.

Lemma potential_ext d d' x :
  states d' = states d -> broker d' = broker d -> potential copies d' x = potential copies d x.
Proof. intros Hs Hb. unfold potential, available, row_of. by rewrite Hs, Hb. Qed.

(** The guarded write of an advance pays for one trigger of the next tier. *)
Lemma cas_potential d st now expected inc :
  unique_rows d -> (EscalationState.ID st, inc) ∈ ids d ->
  (exists s, s ∈ states d /\ guard st expected "active" s = true) ->
  expected < EscalationState.CurrentTier st ->
  forall x, (potential copies (update_states (guard st expected "active") st now d).2 x
             + credit copies (inc, EscalationState.CurrentTier st) x
             <= potential copies d x)%nat.
Proof.
  intros Hu Hid (s & Hs & Hc) Ht [i t]. unfold potential. cbn [update_states snd broker set_states].
  enough (copies * available (update_states (guard st expected "active") st now d).2 (i, t)
          + credit copies (inc, EscalationState.CurrentTier st) (i, t)
          <= copies * available d (i, t))%nat.
  { unfold update_states in *. cbn in *. lia. }
  unfold guard in Hc. apply andb_prop in Hc as [[Hi%String.eqb_eq Htier%Z.eqb_eq]%andb_prop Hact].
  pose proof (ids_unique_row d s _ inc Hu Hs Hi Hid) as Hinc.
  unfold available, credit. cbn [fst snd]. rewrite row_of_update.
  destruct (decide (i = inc)) as [->|Hne].
  - rewrite <- Hinc, (row_of_unique d s Hu Hs). cbn [fmap option_fmap option_map].
    unfold guard. rewrite Hi, String.eqb_refl, Htier, Z.eqb_refl, Hact. cbn [andb].
    cbn [EscalationState.set_UpdatedAt EscalationState.set_step EscalationState.Status EscalationState.CurrentTier].
    destruct (Z.ltb_spec (EscalationState.CurrentTier st) t), (Z.ltb_spec expected t);
      case_decide; simplify_eq; try lia;
      destruct (String.eqb (EscalationState.Status st) "active"); simpl; lia.
  - destruct (decide ((i, t) = (inc, EscalationState.CurrentTier st))) as [?|_]; [by simplify_eq|].
    destruct (row_of i d) as [s'|] eqn:Er; [|simpl; lia]. cbn [fmap option_fmap option_map].
    unfold row_of in Er. apply find_elem in Er as [Hs' Hi'%String.eqb_eq].
    assert (guard st expected "active" s' = false) as ->; [|lia].
    unfold guard. destruct (String.eqb_spec (EscalationState.ID s') (EscalationState.ID st)) as [He|]; [|done].
    exfalso. apply Hne. rewrite <- Hi'. eapply ids_unique_row; eauto.
Qed.

(** A write that leaves no row active lowers the potential. *)
Lemma stop_potential d cond st now :
  String.eqb (EscalationState.Status st) "active" = false ->
  forall x, (potential copies (update_states cond st now d).2 x <= potential copies d x)%nat.
Proof.
  intros Ha [i t]. unfold potential, available. cbn [fst snd]. rewrite row_of_update.
  cbn [update_states snd broker set_states].
  destruct (row_of i d) as [s|]; [|simpl; lia]. cbn [fmap option_fmap option_map].
  destruct (cond s); [|lia].
  cbn [EscalationState.set_UpdatedAt EscalationState.set_step EscalationState.Status].
  rewrite Ha. simpl. lia.
Qed.

(** The first row of an incident pays for one trigger of its tier. *)
Lemma insert_potential d row :
  row_of (EscalationState.IncidentID row) d = None ->
  forall x, (potential copies (set_states (states d ++ [row]) d) x
             + credit copies (EscalationState.IncidentID row, EscalationState.CurrentTier row) x
             <= potential copies d x)%nat.
Proof.
  intros Hn [i t]. unfold potential, available, credit, row_of in *. cbn [fst snd states set_states broker].
  rewrite find_app. destruct (decide (i = EscalationState.IncidentID row)) as [->|Hne].
  - rewrite Hn. simpl. rewrite String.eqb_refl.
    destruct (decide _) as [E|_].
    + injection E as ->. rewrite Z.ltb_irrefl, andb_false_r. lia.
    + destruct (_ && _); lia.
  - destruct (decide _) as [?|_]; [by simplify_eq|].
    clear Hn. destruct (find _ (states d)); [lia|]. simpl.
    destruct (String.eqb_spec (EscalationState.IncidentID row) i); [by subst|lia].
Qed.

(** The broker accepting one message. *)
Lemma emit_potential m d n x :
  handed n = handed (broker d) ++ [m] ->
  (potential copies (set_net n d) x
   <= potential copies d x + if decide (triggered_event m = Some x) then 1 else 0)%nat.
Proof.
  intros Hn. unfold potential, available, row_of. cbn. rewrite Hn.
  unfold published. rewrite List.filter_app, length_app. simpl.
  case_bool_decide; case_decide; simpl; try done; lia.
Qed.

End Potential.

(** ** The operations *)

Section Safety.
Context `{Platform} `{TimeText} `{HttpEnv}.
Variable copies : nat.

Local Abbreviation safe p c d0 Q := (wpD leD unique_rows (potential copies) p c d0 Q).

(** Ends in a world that is later than the one it began with. *)
Local Abbreviation safely p c d0 := (safe p c d0 (fun _ _ d => leD d0 d)).

Lemma safe_bind {A B} (p : M db A) (f : A -> M db B) c d0 Q :
  (forall a c' d, leD d0 d -> safe (f a) c' d Q) -> safely p c d0 -> safe (bind p f) c d0 Q.
Proof. intros Hf Hp. apply wpD_bind. eapply wpD_mono; [|exact Hp]. auto. Qed.

Lemma safely_later {A} (p : M db A) c d0 d : leD d0 d -> safely p c d -> safe p c d (fun _ _ d' => leD d0 d').
Proof. intros Hle Hp. eapply wpD_mono; [|exact Hp]. intros a c' d'. by transitivity d. Qed.

(** Statements on the other tables keep states, messages and potential. *)
Lemma safe_other {A} q uuids (f : Time -> string -> db -> res (A * db)) c d0 Q :
  (forall now uuid d a d', f now uuid d = Ok (a, d') -> states d' = states d /\ broker d' = broker d) ->
  (forall r d, leD d0 d -> Q r c d) ->
  safe (sql q uuids f) c d0 Q.
Proof.
  intros Hf HQ. apply (wpD_sql leD unique_rows (potential copies)); [by intros; apply HQ|].
  intros now uuid d a d' Hle Hi Hok. destruct (Hf _ _ _ _ _ Hok) as [Hs Hb].
  assert (ids d' = ids d) as Hids by (unfold ids; by rewrite Hs).
  assert (leD d d') as Hle' by (by apply leD_states).
  split; [done|]. split; [by eapply unique_rows_ids|]. exists c.
  split; [|split; intros; apply HQ; by transitivity d].
  intros x. by rewrite (potential_ext copies d d' x Hs Hb).
Qed.

Lemma appendHistory_safe q e c d0 : safely (appendHistory q e) c d0.
Proof. apply safe_other; [|done]. intros now uuid d a d' Hf. go_cases; done. Qed.

(** What the guarded write did when it succeeded. *)
Lemma advance_tx_inv st expected status hist start t d u t' d' :
  run (advance_tx st expected status hist (Tx start)) (World t d) = (Ok u, World t' d') ->
  exists now, states d' = states (update_states (guard st expected status) st now d).2
    /\ broker d' = broker d
    /\ (exists s, s ∈ states d /\ guard st expected status s = true)
    /\ int4_ok (EscalationState.CurrentTier st) = true /\ int4_ok expected = true.
Proof.
  intros Hr. unfold advance_tx in Hr. rewrite run_bind in Hr.
  destruct (run (sql _ _ _) _) as [[n|e] [t1 d1]] eqn:E1; [|done].
  apply run_sql_inv in E1 as (now & uuid & Hf). cbn [data] in Hf.
  destruct (int4_ok (EscalationState.CurrentTier st)) eqn:I1; [|done].
  destruct (int4_ok expected) eqn:I2; [|done]. cbn [negb andb] in Hf.
  injection Hf as Hn Hd. exists now.
  destruct (Z.eqb_spec n 0) as [|Hn0]; [done|].
  assert (states d' = states d1 /\ broker d' = broker d1) as [-> ->].
  { destruct hist as [h|]; [|by injection Hr as _ _ ->].
    apply run_sql_inv in Hr as (now' & uuid' & Hh). cbn [data] in Hh.
    repeat case_match; simplify_eq; done. }
  split_and!; [by rewrite <- Hd|by rewrite <- Hd| |done|done].
  apply filter_nonempty. intros E. apply Hn0. rewrite <- Hn. exact E.
Qed.

(** Clients of a publisher see it through this contract: triggering a tier costs
    the credit for that tier. *)
Class PublisherLaws `{EscalationPublisher} := {
  triggered_safe : forall ev c d0,
    (forall x, credit copies (EscalationTriggered.IncidentID ev, EscalationTriggered.Tier ev) x <= c x)%nat ->
    safely (PublishTriggered ev) c d0;
  exhausted_safe : forall ev c d0, safely (PublishExhausted ev) c d0
}.

Context `{EP : EscalationPublisher} `{EL : !PublisherLaws}.
Variable sched : Client.

Lemma GetJSON_safe {A} cl path (dec : decoder A) out c d0 (Q : res A -> (string * Z -> nat) -> db -> Prop) :
  (forall r d, leD d0 d -> Q r c d) -> safe (GetJSON cl path dec out) c d0 Q.
Proof.
  intros HQ. unfold GetJSON, Do. apply wpD_bind. apply (wpD_read leD unique_rows (potential copies)).
  intros a d Hle. apply wpD_ret. by apply HQ.
Qed.

Lemma time_Now_safe c d0 (Q : Time -> (string * Z -> nat) -> db -> Prop) :
  (forall t d, leD d0 d -> Q t c d) -> safe time_Now c d0 Q.
Proof. intros HQ. by apply (wpD_read leD unique_rows (potential copies)). Qed.

Lemma triggerTier_safe st tier c d0 :
  (forall x, credit copies (EscalationState.IncidentID st, PolicyTier.TierNumber tier) x <= c x)%nat ->
  safely (triggerTier sched st tier) c d0.
Proof.
  intros Hc. unfold triggerTier. apply wpD_bind.
  apply (wpD_mono leD unique_rows (potential copies) _ _ _
           (fun _ c' d => leD d0 d /\ c' = c)).
  2: { destruct (String.eqb _ _); [by apply wpD_ret|]. apply wpD_bind. unfold GetOnCall.
       apply wpD_bind. apply GetJSON_safe. intros [r|e] d Hle; repeat apply wpD_ret; done. }
  intros user c' d [Hle ->]. apply wpD_bind.
  apply safe_other; [intros; go_cases; done|].
  intros r d1 Hle1. apply (safe_bind (PublishTriggered _)).
  - intros [[]|e] c2 d2 Hle2; apply wpD_ret; by (transitivity d; [|transitivity d1]).
  - by apply triggered_safe.
Qed.

Lemma skip_conflict_safe msg e c d0 d : leD d0 d -> safe (skip_conflict msg e) c d (fun _ _ d => leD d0 d).
Proof. intros. unfold skip_conflict. destruct (errors_Is _ _); by apply wpD_ret. Qed.

Lemma AdvanceOrExhaust_safe st c d0 :
  (EscalationState.ID st, EscalationState.IncidentID st) ∈ ids d0 ->
  EscalationState.Status st = "active" ->
  safely (AdvanceOrExhaust sched st) c d0.
Proof.
  intros Hid Hact. unfold AdvanceOrExhaust. apply wpD_bind.
  apply (wpD_query leD unique_rows (potential copies)).
  - (* the lookup failed *)
    intros e d1 Hle1. destruct (errors_Is e ErrNotFound); [|by apply wpD_ret].
    apply wpD_bind, time_Now_safe. intros now d2 Hle2. apply wpD_bind.
    unfold AdvanceEscalationState. apply (wpD_withTx leD unique_rows (potential copies)).
    + intros e' d3 Hle3. apply skip_conflict_safe. by (transitivity d1; [|transitivity d2]).
    + intros start t d u t' d' Hle Hi Hr. apply advance_tx_inv in Hr as (now' & Hs & Hb & _).
      set (st' := EscalationState.set_step _ _ _ _) in *.
      assert (ids d' = ids d) as Hids by (unfold ids; rewrite Hs; apply (ids_update _ st' now' d)).
      assert (leD d d') as Hle'.
      { apply (leD_update _ _ _ _ _ Hs). intros s Hg. left. unfold guard in Hg. bool_to_prop.
        split; [done|]. right. split; [done|]. cbn. lia. }
      assert (leD d0 d') by (transitivity d; [transitivity d2; [by transitivity d1|done]|done]).
      split; [done|]. split; [by eapply unique_rows_ids|]. exists c. split; [|split].
      * intros x. pose proof (stop_potential copies d (guard st' (EscalationState.CurrentTier st) "active") st' now' eq_refl x) as Hp.
        rewrite (potential_ext copies _ d' x Hs Hb). lia.
      * apply (safe_bind (PublishExhausted _)); [|apply exhausted_safe].
        intros r c2 d4 Hle4. apply wpD_ret. by transitivity d'.
      * intros e'. by apply skip_conflict_safe.
  - (* the next tier *)
    intros now uuid d1 tier d1' Hle1 Hi1 Hf. 
    destruct (int4_ok (int64 (EscalationState.CurrentTier st + 1))) eqn:I1; [|done].
    cbn [negb] in Hf. destruct (find _ _) as [tier'|] eqn:Ef; [|done]. injection Hf as -> ->.
    split; [done|]. apply find_elem in Ef as [_ [_ Ht%Z.eqb_eq]%andb_prop].
    apply wpD_bind, time_Now_safe. intros now2 d2 Hle2. apply wpD_bind.
    unfold AdvanceEscalationState. apply (wpD_withTx leD unique_rows (potential copies)).
    + intros e' d3 Hle3. apply skip_conflict_safe. by (transitivity d1'; [|transitivity d2]).
    + intros start t d u t' d' Hle Hi Hr.
      apply advance_tx_inv in Hr as (now' & Hs & Hb & Hex & I2 & I3).
      set (st' := EscalationState.set_step _ _ _ _) in *.
      assert (ids d' = ids d) as Hids by (unfold ids; rewrite Hs; apply (ids_update _ st' now' d)).
      assert (leD d0 d) as Hle0 by (transitivity d2; [by transitivity d1'|done]).
      assert (EscalationState.CurrentTier st < EscalationState.CurrentTier st') as Hlt.
      { cbn. rewrite Ht. rewrite int64_id; [lia|]. unfold int4_ok in I3. bool_to_prop.
        unfold in_int64, minInt64, maxInt64. lia. }
      assert (leD d d') as Hle'.
      { apply (leD_update _ _ _ _ _ Hs). intros s Hg. left. unfold guard in Hg. bool_to_prop.
        split; [done|]. left. split; [unfold active; cbn; by rewrite ?Hact|]. lia. }
      assert (leD d0 d') by (by transitivity d).
      pose proof (cas_potential copies d st' now' (EscalationState.CurrentTier st)
                    (EscalationState.IncidentID st) Hi (leD_elem _ _ _ Hle0 Hid) Hex) as Hp.
      specialize (Hp Hlt). split; [done|]. split; [by eapply unique_rows_ids|].
      exists (fun x => c x + credit copies (EscalationState.IncidentID st, EscalationState.CurrentTier st') x)%nat.
      split; [|split].
      * intros x. specialize (Hp x). rewrite (potential_ext copies _ d' x Hs Hb). lia.
      * apply (safe_bind (triggerTier _ _ _)).
        -- intros r c2 d4 Hle4. apply wpD_ret. by transitivity d'.
        -- apply triggerTier_safe. intros x. cbn. lia.
      * intros e'. by apply skip_conflict_safe.
Qed.

Lemma elem_ids d s : s ∈ states d -> (EscalationState.ID s, EscalationState.IncidentID s) ∈ ids d.
Proof. intros Hs. apply list_elem_of_fmap. by exists s. Qed.

(** Reading the row of an incident: it is a row of the table. *)
Lemma GetState_safe tenantID incidentID c d0 (Q : res EscalationState.t -> (string * Z -> nat) -> db -> Prop) :
  (forall e d, leD d0 d -> Q (Err e) c d) ->
  (forall st d, leD d0 d -> (EscalationState.ID st, EscalationState.IncidentID st) ∈ ids d -> Q (Ok st) c d) ->
  safe (GetEscalationStateByIncident tenantID incidentID) c d0 Q.
Proof.
  intros He Ho. apply (wpD_query leD unique_rows (potential copies)); [done|].
  intros now uuid d st d' Hle Hi Hf. destruct (find _ _) as [s|] eqn:Ef; [|done].
  injection Hf as -> ->. split; [done|]. apply find_elem in Ef as [Hs _].
  apply Ho; [done|by apply elem_ids].
Qed.

Lemma ManualEscalate_safe tenantID incidentID c d0 :
  safely (Escalator.ManualEscalate sched tenantID incidentID) c d0.
Proof.
  unfold Escalator.ManualEscalate. apply wpD_bind, GetState_safe.
  - intros e d Hle. destruct (errors_Is _ _); by apply wpD_ret.
  - intros st d Hle Hid. destruct (String.eqb_spec (EscalationState.Status st) "active") as [Ha|]; simpl;
      [|by apply wpD_ret].
    apply (safely_later (AdvanceOrExhaust _ _)); [done|]. by apply AdvanceOrExhaust_safe.
Qed.

Lemma UpdateEscalationState_safe st c d0 :
  stopped st -> safely (UpdateEscalationState st) c d0.
Proof.
  intros Hst. pose proof (stopped_inactive _ Hst) as Ha. unfold UpdateEscalationState. apply (safe_bind (sql _ _ _)).
  { intros [n|e] c' d Hle; by apply wpD_ret. }
  apply (wpD_sql leD unique_rows (potential copies)); [done|].
  intros now uuid d n d' Hle Hi Hf. destruct (int4_ok _); [|done].
  set (cond := fun s => String.eqb (EscalationState.ID s) (EscalationState.ID st)) in Hf.
  assert (d' = (update_states cond st now d).2) as -> by by injection Hf.
  pose proof (ids_update cond st now d) as Hids.
  assert (leD d (update_states cond st now d).2) as Hle'.
  { apply (leD_update cond st now); [done|]. by right. }
  assert (leD d0 (update_states cond st now d).2) by (by transitivity d).
  split; [done|]. split; [by eapply unique_rows_ids|]. exists c. split; [|done].
  intros x. pose proof (stop_potential copies d cond st now Ha x). lia.
Qed.

Lemma Stop_safe tenantID incidentID reason c d0 :
  reason = "acknowledged" \/ reason = "resolved" -> safely (Stop tenantID incidentID reason) c d0.
Proof.
  intros Hr. unfold Stop. apply wpD_bind, GetState_safe.
  - intros e d Hle. destruct (errors_Is _ _); by apply wpD_ret.
  - intros st d Hle _. destruct (negb _); [by apply wpD_ret|].
    apply wpD_bind, time_Now_safe. intros now d1 Hle1.
    apply (safe_bind (UpdateEscalationState _)).
    + intros [[]|e] c' d2 Hle2; [|apply wpD_ret; by (transitivity d; [|transitivity d1])].
      apply (safe_bind (AppendHistory _)); [|apply appendHistory_safe].
      intros r c3 d3 Hle3. apply wpD_ret. transitivity d; [done|]. transitivity d1; [done|]. by transitivity d2.
    + by apply UpdateEscalationState_safe.
Qed.

Lemma CreateEscalationState_safe st c d0 (Q : res EscalationState.t -> (string * Z -> nat) -> db -> Prop) :
  (forall e d c', leD d0 d -> Q (Err e) c' d) ->
  (forall st' c' d, leD d0 d ->
     EscalationState.IncidentID st' = EscalationState.IncidentID st ->
     (forall x, credit copies (EscalationState.IncidentID st, EscalationState.CurrentTier st) x <= c' x)%nat ->
     Q (Ok st') c' d) ->
  safe (CreateEscalationState st) c d0 Q.
Proof.
  intros He Ho. apply (wpD_sql leD unique_rows (potential copies)); [intros; by apply He|].
  intros now uuid d st' d' Hle Hi Hf.
  destruct (negb (int4_ok _)); [done|]. destruct (existsb _ _) eqn:Ex; [done|].
  destruct (negb _); [done|]. injection Hf as <- <-.
  rewrite existsb_false in Ex.
  set (row := EscalationState.set_step _ _ _ _).
  pose proof (leD_insert d row) as Hle'.
  assert (leD d0 (set_states (states d ++ [row]) d)) by (by transitivity d).
  split; [done|]. split.
  { destruct Hi as [H1' H2']. split; cbn [states set_states]; rewrite map_app; apply NoDup_app;
      (split; [done|]; split; [|apply NoDup_singleton]).
    - intros id (s & -> & Hs)%list_elem_of_fmap Heq%list_elem_of_singleton.
      specialize (Ex s Hs). apply orb_false_iff in Ex as [Hx _]. cbn in Heq. rewrite Heq in Hx.
      by rewrite String.eqb_refl in Hx.
    - intros id (s & -> & Hs)%list_elem_of_fmap Heq%list_elem_of_singleton.
      specialize (Ex s Hs). apply orb_false_iff in Ex as [_ Hx]. cbn in Heq. rewrite Heq in Hx.
      by rewrite String.eqb_refl in Hx. }
  exists (fun x => c x + credit copies (EscalationState.IncidentID st, EscalationState.CurrentTier st) x)%nat.
  split; [|split].
  - intros x. pose proof (insert_potential copies d row) as Hp.
    assert (row_of (EscalationState.IncidentID row) d = None) as Hn.
    { apply find_none_iff. intros s Hs. specialize (Ex s Hs). by apply orb_false_iff in Ex as [_ ?]. }
    specialize (Hp Hn x). cbn in Hp |- *. lia.
  - apply Ho; [done|done|]. intros x. lia.
  - intros e. by apply He.
Qed.

Lemma with_tiers_safe ps c d0 (Q : res (list Policy.t) -> (string * Z -> nat) -> db -> Prop) :
  (forall r d, leD d0 d -> Q r c d) -> safe (with_tiers ps) c d0 Q.
Proof.
  revert d0 Q. induction ps as [|p ps IH]; intros d0 Q HQ.
  - apply wpD_ret. by apply HQ.
  - cbn [with_tiers]. apply wpD_bind. apply safe_other; [intros; go_cases; done|].
    intros [tiers|e] d Hle; [|apply wpD_ret; by apply HQ].
    apply wpD_bind. apply IH. intros [l|e] d2 Hle2; apply wpD_ret; apply HQ; by transitivity d.
Qed.

Lemma GetPolicy_safe tenantID id c d0 (Q : res Policy.t -> (string * Z -> nat) -> db -> Prop) :
  (forall r d, leD d0 d -> Q r c d) -> safe (EscalationStore.GetPolicy tenantID id) c d0 Q.
Proof.
  intros HQ. unfold EscalationStore.GetPolicy. apply wpD_bind.
  apply safe_other; [intros; go_cases; done|].
  intros [p|e] d Hle; [|apply wpD_ret; by apply HQ].
  apply wpD_bind. apply safe_other; [intros; go_cases; done|].
  intros [ts|e] d2 Hle2; apply wpD_ret; apply HQ; by transitivity d.
Qed.

Lemma AssignPolicy_safe tenantID slug incidentID policyID inc c d0 :
  safely (AssignPolicy sched tenantID slug incidentID policyID inc) c d0.
Proof.
  unfold AssignPolicy. apply wpD_bind, GetPolicy_safe. intros [p|e] d Hle.
  2: { destruct (errors_Is _ _); by apply wpD_ret. }
  destruct (Policy.Tiers p) as [|tier1 ts]; [by apply wpD_ret|].
  apply wpD_bind, time_Now_safe. intros now d1 Hle1.
  apply wpD_bind, CreateEscalationState_safe.
  - intros e d2 c' Hle2. apply wpD_ret. by (transitivity d; [|transitivity d1]).
  - intros st' c' d2 Hle2 Hinc Hc. apply (safe_bind (triggerTier _ _ _)).
    + intros r c3 d3 Hle3. apply wpD_ret. transitivity d; [done|]. transitivity d1; [done|]. by transitivity d2.
    + apply triggerTier_safe. by rewrite Hinc.
Qed.

Lemma AutoAssign_safe tenantID slug incidentID inc c d0 :
  safely (AutoAssign sched tenantID slug incidentID inc) c d0.
Proof.
  unfold AutoAssign. apply wpD_bind. apply safe_other; [intros; go_cases; done|].
  intros [cfg|e] d Hle; [|destruct (errors_Is _ _); by apply wpD_ret].
  destruct (TenantConfig.DefaultPolicyID cfg) as [p|]; [|by apply wpD_ret].
  apply (safe_bind (AssignPolicy _ _ _ _ _ _)); [|apply AssignPolicy_safe].
  intros [[]|e] c' d2 Hle2; apply wpD_ret; by transitivity d.
Qed.

(** One tick of the monitor works on what it read: the rows may have moved. *)
Lemma step_safe c d0 : safely (step sched) c d0.
Proof.
  unfold step, ListExpiredStates. apply wpD_bind, wpD_bind.
  apply (wpD_query leD unique_rows (potential copies)); [intros e d Hle; by repeat apply wpD_ret|].
  intros now uuid d l d' Hle Hi Hf. injection Hf as <- <-. split; [done|].
  apply wpD_ret. apply (safely_later (for_each _ _)); [done|].
  apply wpD_for_each; [exact leD_PreOrder|]. intros st c' d1 Hin Hle1.
  apply (safe_bind (AdvanceOrExhaust _ _)).
  { intros r c2 d2 Hle2. by apply wpD_ret. }
  assert (st ∈ states d /\ EscalationState.Status st = "active") as [Hs Ha].
  { apply elem_of_take in Hin as (n & Hn & _). apply list_elem_of_lookup_2 in Hn.
    rewrite (merge_sort_Permutation by_escalate_at) in Hn.
    apply list_elem_of_In, filter_In in Hn as [Hn [Ha%String.eqb_eq _]%andb_prop].
    by apply list_elem_of_In in Hn. }
  apply AdvanceOrExhaust_safe; [|done]. eapply leD_elem; [exact Hle1|]. by apply elem_ids.
Qed.

Lemma handle_safe env c d0 : safely (handle sched env) c d0.
Proof.
  unfold handle. destruct (Envelope.DecodePayload _ _) as [p|e]; [|by apply wpD_ret].
  destruct (String.eqb _ RoutingKeyIncidentCreated).
  { apply (safe_bind (AutoAssign _ _ _ _ _)); [|apply AutoAssign_safe].
    intros [[]|e] c' d Hle; by apply wpD_ret. }
  destruct (String.eqb _ RoutingKeyIncidentUpdated); [|by apply wpD_ret].
  destruct (_ || _) eqn:Er; [|by apply wpD_ret].
  apply (safe_bind (Stop _ _ _)); [intros [[]|e] c' d Hle; by apply wpD_ret|].
  apply Stop_safe. apply orb_prop in Er as [->%String.eqb_eq| ->%String.eqb_eq]; auto.
Qed.

End Safety.

(** ** The publisher keeps the contract *)

Section PublisherSafe.
Context `{Platform} `{TimeText}.
Variable copies : nat.

(** How many copies one publication can leave: [Publish_budget] and
    [Publish_budget_once]. *)
Hypothesis Hbudget : forall ex key b,
  budget net_quiet (net_emit (Message ex key b)) (@Publish _ db _ ex key b) copies.

Lemma quiet_keeps (w w' : world db) :
  net_quiet w w' -> unique_rows (data w) ->
  leD (data w) (data w') /\ unique_rows (data w')
  /\ forall x, (potential copies (data w') x <= potential copies (data w) x)%nat.
Proof.
  intros (n & -> & Ha) Hi. split; [by apply leD_states|]. split; [done|]. intros x.
  unfold potential, available, row_of. cbn in *. rewrite Ha. lia.
Qed.

Lemma housekeeping_safe p c d0 :
  housekeeping p -> wpD leD unique_rows (potential copies) p c d0 (fun _ _ d => leD d0 d).
Proof.
  intros Hp. eapply (wpD_budget leD unique_rows (potential copies) net_quiet (fun _ _ => False) (fun _ => 0%nat) _ 0);
    [apply quiet_keeps|done|exact Hp|intros x; lia].
Qed.

Lemma Publish_safe ex key b c d0 :
  (forall x, copies * (if decide (triggered_event (Message ex key b) = Some x) then 1 else 0) <= c x)%nat ->
  wpD leD unique_rows (potential copies) (Publish ex key b) c d0 (fun _ _ d => leD d0 d).
Proof.
  intros Hc.
  apply (wpD_budget leD unique_rows (potential copies) net_quiet (net_emit (Message ex key b))
           (fun x => if decide (triggered_event (Message ex key b) = Some x) then 1 else 0)%nat _ copies); [| |done|done].
  - apply quiet_keeps.
  - intros w w' (n & -> & Ha) Hi. split; [by apply leD_states|]. split; [done|]. intros x.
    by apply emit_potential.
Qed.

Lemma Wrap_safe {A} `{Events.Payload A} ty tenant (a : A) c d0
    (Q : res json -> (string * Z -> nat) -> db -> Prop) :
  (forall e d, leD d0 d -> Q (Err e) c d) ->
  (forall env j d, leD d0 d -> Envelope.encode env = Some j ->
     payload_encode a = Envelope.Payload env -> Q (Ok j) c d) ->
  wpD leD unique_rows (potential copies) (Envelope.Wrap ty tenant a) c d0 Q.
Proof.
  intros He Ho. unfold Envelope.Wrap.
  destruct (payload_encode a) as [raw|] eqn:Er; [|apply wpD_ret; by apply He].
  apply wpD_bind, (wpD_read leD unique_rows (potential copies)). intros id d1 Hle1.
  apply wpD_bind, (wpD_read leD unique_rows (potential copies)). intros now d2 Hle2.
  assert (leD d0 d2) by (by transitivity d1).
  apply wpD_ret. destruct (Envelope.encode _) as [j|] eqn:Ee; [|by apply He].
  by eapply Ho.
Qed.

Lemma triggered_event_wrapped ex key env j ev x :
  Envelope.encode env = Some j -> EscalationTriggered.encode ev = Envelope.Payload env ->
  triggered_event (Message ex key j) = Some x ->
  x = (EscalationTriggered.IncidentID ev, EscalationTriggered.Tier ev).
Proof.
  unfold Envelope.encode. destruct (time_MarshalJSON _) as [txt|]; [|done].
  intros [= <-] [= Hp]. unfold triggered_event. destruct (_ && _); [|done].
  unfold Envelope.decode, dec_struct. cbn. destruct (time_UnmarshalJSON txt); [|done]. cbn.
  rewrite <- Hp. unfold EscalationTriggered.decode, dec_struct. cbn -[dec_int].
  destruct (dec_int _ _) as [n|] eqn:En; [|done]. cbn. intros [= <-].
  unfold dec_int in En. case_bool_decide; [|done]. congruence.
Qed.

Lemma Publisher_laws : @PublisherLaws _ copies Publisher.
Proof.
  split.
  - intros ev c d0 Hc. cbn [PublishTriggered Publisher]. unfold publish_triggered.
    apply wpD_bind, Wrap_safe; [intros e d Hle; by apply wpD_ret|].
    intros env j d Hle He Hp.
    eapply wpD_mono; [|apply Publish_safe].
    { intros r c' d'. by transitivity d. }
    intros x. specialize (Hc x). unfold credit in Hc.
    destruct (decide (triggered_event _ = Some x)) as [Ht|]; [|lia].
    rewrite decide_True in Hc; [lia|]. by eapply triggered_event_wrapped.
  - intros ev c d0. cbn [PublishExhausted Publisher]. unfold publish_exhausted.
    apply wpD_bind, Wrap_safe; [intros e d Hle; by apply wpD_ret|].
    intros env j d Hle He Hp.
    eapply wpD_mono; [|apply Publish_safe].
    { intros r c' d'. by transitivity d. }
    intros x. rewrite decide_False; [lia|done].
Qed.

End PublisherSafe.

(** ** All the programs of the service *)

Section Service.
Context `{Platform} `{TimeText} `{HttpEnv} `{EP : EscalationPublisher}.
Variable sched : Client.
Variable incident : option Client.

(** The work of the service: monitor ticks, deliveries, HTTP requests, and what
    its goroutines do to the connection. *)
Inductive service_program : M db unit -> Prop :=
| tick_of_monitor : service_program (step sched)
| delivery (b : option json) :
    service_program (let! _ := process (consumer_handler sched) b in Ret tt)
| http_request (tenant : string) (r : request) :
    service_program (let! _ := serve sched incident tenant r in Ret tt)
| on_connection p : housekeeping p -> service_program p.

Variable copies : nat.
Context `{EL : !PublisherLaws copies}.

Local Abbreviation safely p c d0 := (wpD leD unique_rows (potential copies) p c d0 (fun _ _ d => leD d0 d)).

(** A handler that ends with a reading of what the statement answered. *)
Lemma safely_ret_bind {A B} (p : M db A) (f : A -> B) c d0 :
  safely p c d0 -> safely (bind p (fun a => Ret (f a))) c d0.
Proof. intros Hp. apply (safe_bind copies p); [|done]. intros a c' d Hle. by apply wpD_ret. Qed.

Lemma safely_other {A} q uuids (f : Time -> string -> db -> res (A * db)) c d0 :
  (forall now uuid d a d', f now uuid d = Ok (a, d') -> states d' = states d /\ broker d' = broker d) ->
  safely (sql q uuids f) c d0.
Proof. intros Hf. by apply safe_other. Qed.

(** Creating a policy touches neither states nor messages. *)
Definition same_states (d d' : db) : Prop := states d' = states d /\ broker d' = broker d.

#[local] Instance same_states_PreOrder : PreOrder (fun w w' : world db => same_states (data w) (data w')).
Proof. split; [done|]. intros w1 w2 w3 [E1 E2] [E3 E4]. split; congruence. Qed.

Lemma insert_tiers_same q pid ts emit :
  budget (fun w w' => same_states (data w) (data w')) emit (insert_tiers q pid ts) 0.
Proof.
  induction ts as [|t ts IH]; [done|]. cbn [insert_tiers]. apply budget_quiet_bind.
  - apply budget_sql; [done|]. intros now uuid d a d' Hf. unfold same_states. go_cases; done.
  - intros [id|e]; [|done]. apply budget_quiet_bind; [apply IH|]. by intros [].
Qed.

Lemma CreatePolicy_safe p c d0 : safely (EscalationStore.CreatePolicy p) c d0.
Proof.
  apply (wpD_withTx leD unique_rows (potential copies)); [done|].
  intros start t d a t' d' Hle Hi Hr.
  match type of Hr with run ?q ?w = _ =>
    assert (same_states (data w) (data (run q w).2)) as [Hs Hb] end.
  { apply (run_quiet (fun w w' => same_states (data w) (data w'))).
    apply budget_quiet_bind.
    - apply budget_sql; [done|]. intros now uuid d1 a1 d1' Hf. unfold same_states. go_cases; done.
    - intros [r|e]; [|done]. apply budget_quiet_bind; [apply insert_tiers_same|]. by intros []. }
  rewrite Hr in Hs, Hb. cbn in Hs, Hb.
  assert (ids d' = ids d) as Hids by (unfold ids; by rewrite Hs).
  assert (leD d d') as Hle' by (by apply leD_states).
  assert (leD d0 d') by (by transitivity d).
  split; [done|]. split; [by eapply unique_rows_ids|]. exists c. split; [|done].
  intros x. by rewrite (potential_ext copies d d' x Hs Hb).
Qed.

Lemma GetState_answer_safe tenant id (f : res EscalationState.t -> response body) c d0 :
  safely (let! r := GetEscalationStateByIncident tenant id in Ret (f r)) c d0.
Proof. apply safely_ret_bind. by apply GetState_safe. Qed.

Lemma serve_safe tenant r c d0 : safely (serve sched incident tenant r) c d0.
Proof.
  destruct r as [|req|id|id| |req| |csv|id req|id|id|id]; cbn [serve].
  - apply safely_ret_bind. unfold EscalationStore.ListPolicies. apply wpD_bind.
    apply safe_other; [intros; go_cases; done|].
    intros [l|e] d Hle; [|by apply wpD_ret]. apply with_tiers_safe. intros r d2. by transitivity d.
  - unfold CreatePolicy. destruct (Decode _ _ _) as [b|]; [|by apply wpD_ret].
    destruct (String.eqb _ _); [by apply wpD_ret|]. destruct (Tiers b); [by apply wpD_ret|].
    destruct (check_tiers _); [|by apply wpD_ret]. apply safely_ret_bind, CreatePolicy_safe.
  - apply safely_ret_bind. by apply GetPolicy_safe.
  - apply safely_ret_bind. unfold EscalationStore.DeletePolicy. apply (safe_bind copies (sql _ _ _)).
    + intros [n|e] c' d Hle; by apply wpD_ret.
    + apply safely_other. intros; go_cases; done.
  - apply safely_ret_bind, safely_other. intros; go_cases; done.
  - unfold PutDefaultPolicy. case_match; [|by apply wpD_ret]. case_match; [by apply wpD_ret|].
    apply wpD_bind, GetPolicy_safe. intros [p|e] d Hle; [|by apply wpD_ret].
    eapply wpD_mono; [|apply safely_ret_bind, safely_other; intros; go_cases; done].
    intros a' c' d'. by transitivity d.
  - apply safely_ret_bind, safely_other. intros; go_cases; done.
  - apply safely_ret_bind. unfold ListEscalationStatesByIncidents. case_match; [by apply wpD_ret|].
    apply safely_other. intros; go_cases; done.
  - (* AttachPolicy *) unfold AttachPolicy. case_match; [|by apply wpD_ret]. case_match; [by apply wpD_ret|].
    apply (safe_bind copies (match incident with Some _ => _ | None => _ end)).
    + intros info c' d Hle. apply (safe_bind copies (AssignPolicy _ _ _ _ _ _)); [|].
      * intros [u|e] c2 d2 Hle2; [|apply wpD_ret; by transitivity d].
        eapply wpD_mono; [|apply GetState_answer_safe]. intros a' c3 d3 Hle3.
        transitivity d; [done|]. by transitivity d2.
      * by apply AssignPolicy_safe.
    + destruct incident; [|by apply wpD_ret]. apply safely_ret_bind. unfold GetIncident.
      apply wpD_bind, GetJSON_safe. intros [i|e] d Hle; by apply wpD_ret.
  - apply GetState_answer_safe.
  - unfold ManualEscalate. apply (safe_bind copies (Escalator.ManualEscalate _ _ _)).
    + intros [u|e] c' d Hle; [|by apply wpD_ret].
      eapply wpD_mono; [|apply GetState_answer_safe]. intros a' c3 d3. by transitivity d.
    + by apply ManualEscalate_safe.
  - apply safely_ret_bind, safely_other. intros; go_cases; done.
Qed.

Lemma service_program_safe p c d0 : service_program p -> safely p c d0.
Proof.
  intros [|b|tenant r|q Hq].
  - by apply step_safe.
  - apply (safely_ret_bind (process _ _) (fun _ => tt)). unfold process.
    destruct (Decode _ _ _) as [env|e]; [|by apply wpD_ret].
    apply wpD_bind. unfold consumer_handler.
    eapply wpD_mono; [|apply safely_ret_bind; by apply handle_safe].
    intros a c' d Hle. repeat case_match; by apply wpD_ret.
  - apply (safely_ret_bind (serve _ _ _ _) (fun _ => tt)), serve_safe.
  - by apply housekeeping_safe.
Qed.

(** Whatever runs at the same time, the potential never grows. *)
Lemma service_potential sched_order ps (w : world db) :
  Forall service_program ps -> unique_rows (data w) ->
  let w' := (run_schedule sched_order ps w).2 in
  leD (data w) (data w') /\ unique_rows (data w')
  /\ forall x, (potential copies (data w') x <= potential copies (data w) x)%nat.
Proof.
  intros Hps Hi w'.
  pose proof (run_schedule_rtc sched_order ps w) as Hr.
  destruct (run_schedule sched_order ps w) as [ps' w1] eqn:E. cbn in w'.
  apply (pool_sound_nocredit (le_world leD) (inv_world unique_rows) (pot_world (potential copies)) ps ps' w w1 Hr Hi).
  rewrite Forall_forall in Hps |- *. intros p Hp. unfold verified.
  eapply wp_mono; [|apply wp_start; by apply service_program_safe, Hps]. done.
Qed.

End Service.

(** ** Properties of every interleaving *)

Section Interleavings.
Context `{Platform} `{TimeText} `{HttpEnv}.
Variable sched : Client.
Variable incident : option Client.

Local Abbreviation service ps := (Forall (@service_program _ _ _ Publisher sched incident) ps).

Lemma published_bound copies order ps (w : world db) x :
  (forall ex key b, budget net_quiet (net_emit (Message ex key b)) (@Publish _ db _ ex key b) copies) ->
  service ps -> unique_rows (data w) -> published (handed (broker (data w))) x = 0%nat ->
  (published (handed (broker (data (run_schedule order ps w).2))) x <= copies)%nat.
Proof.
  intros Hb Hps Hi H0'.
  destruct (service_potential (EP := Publisher) (EL := Publisher_laws copies Hb) sched incident copies
              order ps w Hps Hi) as (_ & _ & Hpot).
  specialize (Hpot x). unfold potential in Hpot. rewrite H0' in Hpot.
  assert (available (data w) x <= 1)%nat.
  { unfold available. destruct (row_of _ _); [|lia]. destruct (_ && _); lia. }
  nia.
Qed.

(** Nothing triggers a tier that is not available: of an escalation that has ended,
    or that is already at the tier or above it. *)
Lemma unavailable_untriggered order ps (w : world db) x :
  service ps -> unique_rows (data w) -> available (data w) x = 0%nat ->
  (published (handed (broker (data (run_schedule order ps w).2))) x <= published (handed (broker (data w))) x)%nat.
Proof.
  intros Hps Hi Ha.
  destruct (service_potential (EP := Publisher) (EL := Publisher_laws 3 (fun ex key b => Publish_budget ex key b))
              sched incident 3 order ps w Hps Hi) as (_ & _ & Hpot).
  specialize (Hpot x). unfold potential in Hpot. rewrite Ha in Hpot. lia.
Qed.

Lemma ended_untriggered order ps (w : world db) incidentID s tier :
  service ps -> unique_rows (data w) -> row_of incidentID (data w) = Some s -> active s = false ->
  (published (handed (broker (data (run_schedule order ps w).2))) (incidentID, tier)
   <= published (handed (broker (data w))) (incidentID, tier))%nat.
Proof.
  intros Hps Hi Hrow Ha. apply unavailable_untriggered; [done..|]. unfold available. simpl. rewrite Hrow.
  unfold active in Ha. by rewrite Ha.
Qed.

(** The page of a tier the escalation has reached and not sent is lost: nothing
    sends it later. *)
Lemma reached_untriggered order ps (w : world db) incidentID s tier :
  service ps -> unique_rows (data w) -> row_of incidentID (data w) = Some s -> tier <= EscalationState.CurrentTier s ->
  (published (handed (broker (data (run_schedule order ps w).2))) (incidentID, tier)
   <= published (handed (broker (data w))) (incidentID, tier))%nat.
Proof.
  intros Hps Hi Hrow Ha. apply unavailable_untriggered; [done..|]. unfold available. simpl. rewrite Hrow.
  rewrite (proj2 (Z.ltb_ge _ _) Ha). by rewrite andb_false_r.
Qed.

(** A tier of an incident is triggered at most once, however many replicas
    of the monitor, deliveries (and redeliveries) of incident events and HTTP
    requests run at the same time, and in whatever order their steps
    interleave: the broker accepts at most one [escalation.triggered] message
    for it, or at most three (one per publishing attempt) when replies of the
    broker can be lost. *)
Lemma tier_triggered_at_most_once order ps (w : world db) x :
  service ps -> unique_rows (data w) -> published (handed (broker (data w))) x = 0%nat ->
  let log := handed (broker (data (run_schedule order ps w).2)) in
  (published log x <= 3)%nat /\ (no_lost_replies -> (published log x <= 1)%nat).
Proof.
  intros Hps Hi H0'. split.
  - apply published_bound; try done. intros. apply Publish_budget.
  - intros Hn. apply published_bound; try done. intros. by apply Publish_budget_once.
Qed.

(** C22: the life of an escalation refines the state machine
    [active(1) -> active(2) -> ... -> acknowledged | resolved | exhausted]:
    whatever runs at the same time, no state is lost or moved to another
    incident or policy; a state that is active was active before, and is unchanged
    or at a higher tier, and so a state that left [active] never comes back; only
    an active state is exhausted, not below its tier; and a state that has ended
    does not change any more, except that it may be acknowledged or resolved. *)
Theorem escalation_progress order ps (w : world db) s :
  service ps -> unique_rows (data w) -> s ∈ states (data w) ->
  exists s', row_of (EscalationState.IncidentID s) (data (run_schedule order ps w).2) = Some s'
    /\ le_row s s'.
Proof.
  intros Hps Hi Hs.
  destruct (service_potential (EP := Publisher)
              (EL := Publisher_laws 3 (fun ex key b => Publish_budget ex key b)) sched incident 3
              order ps w Hps Hi) as ((l1 & l2 & E & F) & Hi' & _).
  apply list_elem_of_lookup in Hs as [n Hn].
  destruct (Forall2_lookup_l _ _ _ _ _ F Hn) as (s' & Hn' & Hle).
  exists s'. split; [|done]. destruct Hle as (_ & <- & _).
  apply row_of_unique; [done|]. rewrite E. apply elem_of_app. left. by eapply list_elem_of_lookup_2.
Qed.

End Interleavings.

(** *** Witnesses: two replicas of the monitor race for one expired state *)

Definition demo_http : HttpEnv := {| http_reply _ _ := None |}.

Definition demo_client : Client := New "http://scheduling:8080/" "key".

Definition demo_state : EscalationState.t :=
  EscalationState.mk "s1" "inc1" "acme" "acme" "p1" 1 "active" "t" "critical" "open" 0 0 0.

Definition demo_db : db :=
  Db [Policy.mk "p1" "acme" "default" [] 0]
     [PolicyTier.mk "t1" "p1" 1 300 "sch1"; PolicyTier.mk "t2" "p1" 2 300 "sch1"]
     [demo_state] [] [] (Net true false false [] []).

Definition demo_tick : M db unit :=
  @step (demo_platform []) demo_time_text demo_http (@Publisher (demo_platform []) demo_time_text) demo_client.

(** Both replicas read the state, then run to the end in turn. *)
Definition demo_order : list nat :=
  [0; 1; 0; 1; 0; 1]%nat ++ flat_map (fun _ => [0; 1]%nat) (seq 0 40).

Definition demo_run : world db := (run_schedule demo_order [demo_tick; demo_tick] (World 0 demo_db)).2.

Lemma demo_unique_rows : unique_rows demo_db.
Proof. split; apply NoDup_singleton. Qed.

Lemma demo_service :
  Forall (@service_program (demo_platform []) demo_time_text demo_http
            (@Publisher (demo_platform []) demo_time_text) demo_client None) [demo_tick; demo_tick].
Proof. repeat constructor. Qed.

Lemma tier_triggered_at_most_once_witness :
  @published demo_time_text (handed (broker (data demo_run))) ("inc1", 2%Z) = 1%nat /\
  (@published demo_time_text (handed (broker (data demo_run))) ("inc1", 2%Z) <= 3)%nat /\
  (@no_lost_replies (demo_platform []) ->
   (@published demo_time_text (handed (broker (data demo_run))) ("inc1", 2%Z) <= 1)%nat).
Proof.
  split; [vm_compute; reflexivity|].
  exact (@tier_triggered_at_most_once (demo_platform []) demo_time_text demo_http demo_client None
           demo_order [demo_tick; demo_tick] (World 0 demo_db) ("inc1", 2%Z)
           demo_service demo_unique_rows eq_refl).
Defined.

Lemma escalation_progress_witness :
  EscalationState.CurrentTier <$> row_of "inc1" (data demo_run) = Some 2%Z /\
  exists s', row_of "inc1" (data demo_run) = Some s' /\ le_row demo_state s'.
Proof.
  split; [vm_compute; reflexivity|].
  exact (@escalation_progress (demo_platform []) demo_time_text demo_http demo_client None
           demo_order [demo_tick; demo_tick] (World 0 demo_db) demo_state
           demo_service demo_unique_rows ltac:(left)).
Defined.
