(* ===== verification/EscalationBus.v ===== *)
(** * Escalation: what the service puts on the bus, and how it settles events

    Every message of the escalation service is an event of its type, whatever it
    is asked to do; and an event it can read is never dropped.  The tier of an
    event is the number of a row of [policy_tiers], so it fits in an int4. *)

From S2P Require Import Prelude Effects Json Events Interleaving Amqp Messages Http EscalationStore Escalator EscalationHandler.
Open Scope go_scope.

(** *** Tiers *)

Definition tier_ok (t : PolicyTier.t) : Prop := in_int64 (PolicyTier.TierNumber t).

Lemma int4_tier t : int4_ok (PolicyTier.TierNumber t) = true -> tier_ok t.
Proof. apply int4_ok_int64. Qed.

Lemma Forall_kept {A} (P : A -> Prop) f l : Forall P l -> Forall P (List.filter f l).
Proof. rewrite !Forall_forall. intros Hl a [Ha _]%list_elem_of_In%filter_In. apply Hl. by apply list_elem_of_In. Qed.

Lemma tiers_of_ok id d : Forall tier_ok (policy_tiers d) -> Forall tier_ok (tiers_of id d).
Proof.
  intros Hd. unfold tiers_of. rewrite merge_sort_Permutation. by apply Forall_kept.
Qed.

Section Bus.
Context `{Platform} `{TimeText} `{HttpEnv}.
Hypothesis Hff : foreign_faults.

(** Everything the broker was handed by the service has one of the types, and
    the numbers of the tiers are int4. *)
Definition typed_bus (d : db) : Prop :=
  Forall typed (handed (broker d)) /\ Forall tier_ok (policy_tiers d).

#[export] Instance typed_bus_net : NetInvariant typed_bus.
Proof.
  split; unfold typed_bus; simpl; [by intros d n [? ?] ->|].
  intros d n m [Hd Ht] Hm ->. split; [|done]. by apply Forall_app_2; [|apply Forall_singleton].
Qed.

Local Abbreviation keeps_bus p := (keeps typed_bus p (sound always_true)).

(** Statements touch the tables, not the bus; their errors are no [ErrDrop]. *)
Ltac stmt :=
  apply keeps_stmt; [exact Hff|]; unfold typed_bus; intros ? ? ? [? ?]; cbv zeta; go_cases; done.

Ltac bus := repeat bus_step typed_bus stmt.

Lemma insert_tiers_bus q id ts : keeps_bus (insert_tiers q id ts).
Proof.
  induction ts as [|t ts IH]; cbn [insert_tiers]; [done|].
  apply (keeps_let typed_bus always_true always_true); [|intros ? _; bus|done].
  apply keeps_stmt; [exact Hff|]. intros now uuid d [Hb Hd].
  destruct (int4_ok (PolicyTier.TierNumber t)) eqn:E; simpl; [|done]. go_cases; try done.
  split; [|done]. split; [done|]. apply Forall_app_2; [done|]. apply Forall_singleton. by apply int4_tier.
Qed.

Lemma DeletePolicy_bus tenant id : keeps_bus (EscalationStore.DeletePolicy tenant id).
Proof.
  apply (keeps_let typed_bus always_true always_true); [|intros ? _; bus|done].
  apply keeps_stmt; [exact Hff|]. intros now uuid d [Hb Hd]. cbv zeta. go_cases; try done.
  split; [|done]. split; [done|]. by apply Forall_kept.
Qed.

Lemma GetPolicy_bus tenant id :
  keeps typed_bus (EscalationStore.GetPolicy tenant id) (sound (fun p => Forall tier_ok (Policy.Tiers p))).
Proof.
  eapply (keeps_let typed_bus always_true); [unfold select_policy; stmt|intros p _|done].
  eapply (keeps_let typed_bus (Forall tier_ok)); [|done..].
  apply keeps_stmt; [exact Hff|]. intros now uuid d [Hb Hd]. split; [done|]. by apply tiers_of_ok.
Qed.

Lemma GetTierByNumber_bus id n : keeps typed_bus (GetTierByNumber id n) (sound tier_ok).
Proof.
  apply keeps_stmt; [exact Hff|]. intros now uuid d [Hb Hd]. go_cases; try done. split; [done|].
  rewrite Forall_forall in Hd. apply Hd, list_elem_of_In. by eapply find_some.
Qed.

#[local] Hint Resolve insert_tiers_bus DeletePolicy_bus : bus.

(** What the clients of a publisher rely on. *)
Class TypedPublisher `{EscalationPublisher} := {
  triggered_typed : forall ev, in_int64 (EscalationTriggered.Tier ev) ->
    keeps typed_bus (PublishTriggered ev) (fun _ => True);
  exhausted_typed : forall ev, keeps typed_bus (PublishExhausted ev) (fun _ => True)
}.

#[export] Instance Publisher_typed : @TypedPublisher Publisher.
Proof.
  split.
  - intros ev Hev. apply (wrap_publish_keeps typed_bus). by constructor 4 with ev.
  - intros ev. apply (wrap_publish_keeps typed_bus). by constructor 5 with ev.
Qed.

#[export] Instance Noop_typed : @TypedPublisher Noop.
Proof. done. Qed.

Context `{EP : EscalationPublisher} `{TP : !TypedPublisher}.
Variable sched : Client.

Lemma GetJSON_bus {A} cl path (dec : decoder A) out :
  keeps typed_bus (GetJSON cl path dec out) (fun _ => True).
Proof. unfold GetJSON, Do. apply keeps_then; [by apply keeps_read|done]. Qed.

Lemma GetOnCall_bus slug id : keeps typed_bus (GetOnCall sched slug id) (fun _ => True).
Proof. unfold GetOnCall. apply keeps_then; [apply GetJSON_bus|]. by intros []. Qed.

Lemma escalation_GetIncident_bus cl tenant id : keeps typed_bus (GetIncident cl tenant id) (fun _ => True).
Proof. unfold GetIncident. apply keeps_then; [apply GetJSON_bus|]. by intros []. Qed.

Lemma escalation_appendHistory_bus q e : keeps_bus (appendHistory q e).
Proof. stmt. Qed.

#[local] Hint Resolve escalation_GetIncident_bus GetOnCall_bus escalation_appendHistory_bus exhausted_typed : bus.

Lemma triggerTier_bus st tier : tier_ok tier -> keeps typed_bus (triggerTier sched st tier) (fun _ => True).
Proof.
  intros Ht. unfold triggerTier, AppendHistory. apply keeps_then; [bus|]. intros user.
  apply keeps_then; [bus|]. intros _. apply keeps_then; [by apply triggered_typed|]. by intros [].
Qed.

Lemma CreateEscalationState_bus st : keeps_bus (CreateEscalationState st).
Proof. stmt. Qed.

Lemma AdvanceEscalationState_bus st tier status h : keeps_bus (AdvanceEscalationState st tier status h).
Proof. unfold AdvanceEscalationState, advance_tx. bus. Qed.

#[local] Hint Resolve CreateEscalationState_bus AdvanceEscalationState_bus : bus.

Lemma skip_conflict_bus m e : plain e -> keeps_bus (skip_conflict m e).
Proof. intros He. unfold skip_conflict. bus. Qed.

Lemma AssignPolicy_bus tenant slug incidentID policyID inc :
  keeps_bus (AssignPolicy sched tenant slug incidentID policyID inc).
Proof.
  unfold AssignPolicy. eapply keeps_bind; [apply GetPolicy_bus|]. intros [p|e] Hp; [|bus]. simpl in Hp.
  destruct (Policy.Tiers p) as [|tier1 ts]; [done|]. apply Forall_cons in Hp as [Ht _].
  apply keeps_then; [by apply keeps_read|]. intros now. cbv zeta.
  eapply (keeps_let typed_bus always_true); [bus|intros st' _|done].
  apply keeps_then; [by apply triggerTier_bus|done].
Qed.

Lemma AdvanceOrExhaust_bus st : keeps_bus (AdvanceOrExhaust sched st).
Proof.
  unfold AdvanceOrExhaust. cbv zeta. eapply keeps_bind; [apply GetTierByNumber_bus|].
  pose proof skip_conflict_bus. intros [tier|e] Ht; [|bus].
  apply keeps_then; [by apply keeps_read|]. intros now.
  eapply (keeps_bind typed_bus _ _ (sound always_true)); [bus|]. intros [u|e] He; [|bus].
  apply keeps_then; [by apply triggerTier_bus|done].
Qed.

Lemma Stop_bus tenant incidentID reason : keeps_bus (Stop tenant incidentID reason).
Proof. unfold Stop, GetEscalationStateByIncident, UpdateEscalationState, AppendHistory. bus. Qed.

#[local] Hint Resolve AssignPolicy_bus AdvanceOrExhaust_bus Stop_bus : bus.

Lemma ManualEscalate_bus tenant incidentID : keeps_bus (Escalator.ManualEscalate sched tenant incidentID).
Proof. unfold Escalator.ManualEscalate, GetEscalationStateByIncident. bus. Qed.

Lemma AutoAssign_bus tenant slug incidentID inc : keeps_bus (AutoAssign sched tenant slug incidentID inc).
Proof. unfold AutoAssign, GetTenantConfig. bus. Qed.

#[local] Hint Resolve ManualEscalate_bus AutoAssign_bus : bus.

Lemma step_bus : keeps typed_bus (step sched) (fun _ => True).
Proof.
  unfold step, ListExpiredStates. apply (keeps_bind typed_bus _ _ (sound always_true)); [bus|].
  intros [l|e] _; [|done]. apply keeps_for_each. intros st _. bus.
Qed.

Lemma monitor_bus fuel interval : keeps typed_bus (monitor_Run sched fuel interval) (fun _ => True).
Proof.
  induction fuel as [|fuel IH]; cbn [monitor_Run]; [done|].
  apply keeps_then; [by apply keeps_read|]. intros []; [done|].
  apply keeps_then; [apply step_bus|done].
Qed.

Lemma escalation_handle_bus env :
  is_ok (Envelope.DecodePayload env IncidentChanged.zero) = true -> keeps_bus (handle sched env).
Proof. intros He. unfold handle. bus. Qed.

Lemma CreatePolicy_bus p : keeps_bus (EscalationStore.CreatePolicy p).
Proof. unfold EscalationStore.CreatePolicy, insert_policy. bus. Qed.

Lemma with_tiers_bus ps : keeps_bus (with_tiers ps).
Proof. induction ps as [|p ps IH]; cbn [with_tiers]; [done|]. unfold listTiers. bus. Qed.

#[local] Hint Resolve CreatePolicy_bus with_tiers_bus : bus.

Lemma escalation_serve_bus incident tenant r : keeps typed_bus (serve sched incident tenant r) always_true.
Proof.
  assert (forall t id, keeps_bus (EscalationStore.GetPolicy t id)) as Hget.
  { intros t id. eapply keeps_mono; [|apply GetPolicy_bus]. intros [?|?] Hr; done. }
  destruct r; cbn [serve]; unfold ListPolicies, CreatePolicy, GetPolicy, DeletePolicy, GetDefaultPolicy,
    PutDefaultPolicy, DeleteDefaultPolicy, GetEscalationStates, AttachPolicy, GetEscalationState, ManualEscalate,
    GetHistory, EscalationStore.ListPolicies, GetTenantConfig, UpsertTenantConfig, DeleteTenantConfig,
    ListEscalationStatesByIncidents, GetEscalationStateByIncident, ListHistory; bus.
Qed.

(** A message of the queue of the service is acknowledged or requeued. *)
Lemma escalation_delivery_bus m :
  reads_as IncidentChanged.TenantID m ->
  keeps typed_bus (process (consumer_handler sched) (Some (Amqp.body m))) (fun o => o <> Nack false).
Proof.
  intros (env & a & He & _ & Ha & _). apply keeps_process; rewrite He; [|done].
  intros env' [= <-]. eapply keeps_bind;
    [apply escalation_handle_bus; by rewrite (Ha : Envelope.DecodePayload env IncidentChanged.zero = Ok a)|].
  intros [u|e] Hr; [done|]. simpl. by rewrite Hr.
Qed.

End Bus.
