(* ===== verification/EscalationProps.v ===== *)
(** * Escalation: what one operation does

    The functional behaviour of the escalator, tenant isolation of the HTTP
    interface, and the error paths. *)

From S2P Require Import Prelude Effects Json Events Interleaving Amqp Messages Http EscalationStore Escalator EscalationHandler EscalationSafety.
Open Scope go_scope.

(** ** Tenant isolation *)

(** Every record of an answer belongs to the tenant. *)
Definition of_tenant (tenant : string) (r : response body) : Prop :=
  match r with
  | Json _ (Policies l) => Forall (fun p => Policy.TenantID p = tenant) l
  | Json _ (APolicy p) => Policy.TenantID p = tenant
  | Json _ (AConfig c) => TenantConfig.TenantID c = tenant
  | Json _ (AState s) => EscalationState.TenantID s = tenant
  | Json _ (States l) => Forall (fun s => EscalationState.TenantID s = tenant) l
  | Json _ (History l) => Forall (fun h => EscalationHistory.TenantID h = tenant) l
  | Error _ _ | NoBody _ => True
  end.

Lemma Forall_filter_tenant {A} (tenant_of : A -> string) tenant (p : A -> bool) l :
  (forall a, p a = true -> tenant_of a = tenant) ->
  Forall (fun a => tenant_of a = tenant) (List.filter p l).
Proof. intros Hp. apply Forall_forall. intros a [_ Ha]%list_elem_of_In%filter_In. auto. Qed.

Lemma Forall_merge_sort {A} (R : relation A) `{!RelDecision R} (P : A -> Prop) l :
  Forall P l -> Forall P (merge_sort R l).
Proof. intros HP. by rewrite (merge_sort_Permutation R). Qed.

Section Tenant.
Context `{Platform} `{TimeText} `{HttpEnv} `{EscalationPublisher}.
Variable sched : Client.
Variable incident : option Client.

Lemma GetPolicy_tenant tenant id :
  always (EscalationStore.GetPolicy tenant id)
    (fun r => match r with Ok p => Policy.TenantID p = tenant | Err _ => True end).
Proof.
  unfold EscalationStore.GetPolicy.
  apply (always_bind _ _ (fun r => match r with Ok p => Policy.TenantID p = tenant | Err _ => True end)).
  - apply always_sql; [done|]. intros now uuid d p d'. destruct (find _ _) as [p'|] eqn:Ef; [|done].
    intros [= -> ->]. by apply find_elem in Ef as [_ [_ ?%String.eqb_eq]%andb_prop].
  - intros [p|e] Hp; [|done]. apply always_any. by intros [ts|e].
Qed.

Lemma GetState_tenant tenant id :
  always (GetEscalationStateByIncident tenant id)
    (fun r => match r with Ok s => EscalationState.TenantID s = tenant | Err _ => True end).
Proof.
  apply always_sql; [done|]. intros now uuid d s d'. destruct (find _ _) as [s'|] eqn:Ef; [|done].
  intros [= -> ->]. by apply find_elem in Ef as [_ [_ ?%String.eqb_eq]%andb_prop].
Qed.

Lemma with_tiers_tenant tenant ps :
  Forall (fun p => Policy.TenantID p = tenant) ps ->
  always (with_tiers ps)
    (fun r => match r with Ok l => Forall (fun p => Policy.TenantID p = tenant) l | Err _ => True end).
Proof.
  induction 1 as [|p ps Hp Hps IH]; [by simpl|]. cbn [with_tiers].
  apply always_any. intros [ts|e]; [|done]. eapply always_bind; [exact IH|].
  intros [l|e] Hl; [|done]. by constructor.
Qed.

(** C28: tenant isolation.  Whatever the request and whatever other programs do
    meanwhile, every policy, state, configuration and history entry in the
    answer to a request of a tenant belongs to that tenant. *)
Theorem serve_tenant_isolation tenant (r : request) :
  always (serve sched incident tenant r) (of_tenant tenant).
Proof.
  destruct r as [|req|id|id| |req| |csv|id req|id|id|id]; cbn [serve].
  - apply (always_bind _ _ (fun r => match r with Ok l => Forall (fun p => Policy.TenantID p = tenant) l | Err _ => True end));
      [|by intros [|]].
    unfold EscalationStore.ListPolicies.
    apply (always_bind _ _ (fun r => match r with Ok l => Forall (fun p => Policy.TenantID p = tenant) l | Err _ => True end)).
    + apply always_sql; [done|]. intros now uuid d l d' [= <- <-]. apply Forall_merge_sort.
      apply Forall_filter_tenant. by intros p ?%String.eqb_eq.
    + intros [l|e] Hl; [by apply with_tiers_tenant|done].
  - unfold CreatePolicy. destruct (Decode _ _ _) as [b|]; [|done]. destruct (String.eqb _ _); [done|].
    destruct (Tiers b); [done|]. destruct (check_tiers _); [|done].
    apply (always_bind _ _ (fun r => match r with Ok p => Policy.TenantID p = tenant | Err _ => True end));
      [|by intros [|]].
    apply always_withTx; [done|]. intros q. apply always_any. intros [r|]; [|done].
    apply always_any. by intros [ts|].
  - eapply always_bind; [apply GetPolicy_tenant|]. intros [p|e] Hp; [done|]. simpl.
    by destruct (errors_Is _ _).
  - apply always_any. intros [u|e]; simpl; [done|]. by destruct (errors_Is _ _).
  - apply (always_bind _ _ (fun r => match r with Ok c => TenantConfig.TenantID c = tenant | Err _ => True end)).
    + apply always_sql; [done|]. intros now uuid d c d'. destruct (find _ _) as [c'|] eqn:Ef; [|done].
      intros [= -> ->]. by apply find_elem in Ef as [_ ?%String.eqb_eq].
    + intros [c|e] Hc; [done|]. simpl. by destruct (errors_Is _ _).
  - unfold PutDefaultPolicy. destruct (Decode _ _ _) as [b|]; [|done]. destruct (String.eqb _ _); [done|].
    apply always_any. intros [p|e]; [|simpl; by destruct (errors_Is _ _)].
    apply always_any. by intros [u|e].
  - apply always_any. by intros [u|e].
  - unfold GetEscalationStates, ListEscalationStatesByIncidents.
    destruct (parseIncidentIDs csv) as [|id ids]; [by simpl|].
    apply (always_bind _ _ (fun r => match r with
      Ok l => Forall (fun s => EscalationState.TenantID s = tenant) l | Err _ => True end)); [|by intros [|]].
    apply always_sql; [done|]. intros now uuid d l d' [= <- <-].
    apply Forall_filter_tenant. by intros s [?%String.eqb_eq _]%andb_prop.
  - unfold AttachPolicy. destruct (Decode _ _ _) as [b|]; [|done]. destruct (String.eqb _ _); [done|].
    apply always_any. intros info. apply always_any. intros [u|e]; [|simpl; by destruct (errors_Is _ _)].
    eapply always_bind; [apply GetState_tenant|]. by intros [s|e].
  - eapply always_bind; [apply GetState_tenant|]. intros [s|e] Hs; [done|]. simpl. by destruct (errors_Is _ _).
  - apply always_any. intros [u|e]; [|simpl; by destruct (errors_Is _ _)].
    eapply always_bind; [apply GetState_tenant|]. by intros [s|e].
  - apply (always_bind _ _ (fun r => match r with
      Ok l => Forall (fun h => EscalationHistory.TenantID h = tenant) l | Err _ => True end)); [|by intros [|]].
    apply always_sql; [done|]. intros now uuid d l d' [= <- <-]. apply Forall_merge_sort.
    apply Forall_filter_tenant. by intros h [_ ?%String.eqb_eq]%andb_prop.
Qed.

End Tenant.

(** ** Error paths *)

Section Errors.
Context `{Platform} `{TimeText} `{HttpEnv} `{EscalationPublisher}.
Variable sched : Client.

(** The largest tier number is a dead end.  Looking for the tier after it
    does not fit the column, which is an error of the statement and not "no such
    tier": the advance reports an error and changes nothing, so the monitor
    retries the same state for ever instead of exhausting it. *)
Lemma max_tier_never_exhausts (st : EscalationState.t) (w : world db) :
  foreign_faults -> EscalationState.CurrentTier st = 2 ^ 31 - 1 ->
  exists e w', run (AdvanceOrExhaust sched st) w = (Err e, w') /\ data w' = data w.
Proof.
  intros Hff Ht. unfold AdvanceOrExhaust. rewrite Ht, run_bind.
  destruct (run (GetTierByNumber _ _) w) as [r w1] eqn:E.
  apply run_sql_cases in E as [(now & uuid & a & Hf & _)|(Hd & e & -> & He)]; [| |done].
  - by vm_compute in Hf.
  - assert (errors_Is e ErrNotFound = false) as ->; [|by do 2 eexists].
    destruct He as [He|(now & uuid & Hf)]; [apply He|]. vm_compute in Hf. by injection Hf as <-.
Qed.

(** What [AutoAssign] finds for a tenant with a default policy. *)
Definition has_default (tenantID : string) (d : db) : Prop :=
  exists cfg p, find (fun c => String.eqb (TenantConfig.TenantID c) tenantID) (configs d) = Some cfg
    /\ TenantConfig.DefaultPolicyID cfg = Some (Policy.ID p)
    /\ find (fun q => String.eqb (Policy.ID q) (Policy.ID p) && String.eqb (Policy.TenantID q) tenantID)
         (policies d) = Some p
    /\ tiers_of (Policy.ID p) d <> [].

Lemma GetPolicy_run tenantID p w r w' :
  foreign_faults ->
  find (fun q => String.eqb (Policy.ID q) (Policy.ID p) && String.eqb (Policy.TenantID q) tenantID)
    (policies (data w)) = Some p ->
  run (EscalationStore.GetPolicy tenantID (Policy.ID p)) w = (r, w') ->
  data w' = data w /\ match r with
    | Ok q => Policy.Tiers q = tiers_of (Policy.ID p) (data w)
    | Err e => foreign e
    end.
Proof.
  intros Hff Hp. unfold EscalationStore.GetPolicy. rewrite run_bind.
  destruct (run (select_policy _ _) w) as [r1 w1] eqn:E1.
  apply run_sql_cases in E1 as [(now & uuid & a & Hf & Hr1)|(Hd & e & -> & He)]; [| |done].
  - rewrite Hp in Hf. injection Hf as <- Hd. destruct Hr1 as [->|(e & -> & He)]; [|by intros [= <- <-]].
    rewrite run_bind. destruct (run (listTiers _) w1) as [r2 w2] eqn:E2.
    apply run_sql_cases in E2 as [(now2 & uuid2 & ts & [= <- Hd2] & Hr2)|(Hd2 & e & -> & He)]; [| |done].
    + destruct Hr2 as [->|(e & -> & He)]; intros [= <- <-]; rewrite <- Hd2, <- Hd; done.
    + intros [= <- <-]. rewrite Hd2, <- Hd. split; [done|]. destruct He as [|(? & ? & ?)]; done.
  - intros [= <- <-]. split; [done|]. destruct He as [He|(? & ? & Hf)]; [done|]. by rewrite Hp in Hf.
Qed.

Lemma AssignPolicy_again tenantID slug incidentID p inc w :
  foreign_faults -> row_of incidentID (data w) <> None ->
  find (fun q => String.eqb (Policy.ID q) (Policy.ID p) && String.eqb (Policy.TenantID q) tenantID)
    (policies (data w)) = Some p ->
  tiers_of (Policy.ID p) (data w) <> [] ->
  exists e w', run (AssignPolicy sched tenantID slug incidentID (Policy.ID p) inc) w = (Err e, w')
    /\ data w' = data w /\ errors_Is e ErrDrop = false.
Proof.
  intros Hff Hrow Hp Hts. unfold AssignPolicy. rewrite run_bind.
  destruct (run (EscalationStore.GetPolicy _ _) w) as [r w1] eqn:E1.
  apply (GetPolicy_run _ p _ _ _ Hff Hp) in E1 as [Hd1 Hr].
  destruct r as [q|e].
  2: { destruct (errors_Is e ErrNotFound); do 2 eexists; (split; [reflexivity|]); (split; [done|]); [done|].
       simpl. apply Hr. }
  destruct (Policy.Tiers q) as [|t1 ts]; [congruence|].
  rewrite run_bind. cbn [time_Now run]. rewrite run_bind.
  destruct (run (CreateEscalationState _) _) as [r2 w2] eqn:E2.
  apply run_sql_cases in E2 as [(now & uuid & a & Hf & _)|(Hd & e & -> & He)]; [| |done].
  - exfalso. destruct (negb (int4_ok _)); [done|]. destruct (existsb _ _) eqn:Ex; [done|].
    apply Hrow, find_none_iff. intros s Hs. rewrite existsb_false in Ex. cbn [data] in Ex.
    rewrite Hd1 in Ex. specialize (Ex s Hs). by apply orb_false_iff in Ex as [_ ?].
  - do 2 eexists. split; [reflexivity|]. split; [by rewrite Hd|]. simpl.
    destruct He as [(_ & _ & He)|(now & uuid & Hf)]; [done|].
    repeat case_match; by simplify_eq.
Qed.

(** Assigning the default policy is not idempotent.  When an
    [incident.created] message is delivered again for an incident that already
    has an escalation, and the tenant has a default policy with tiers, the
    delivery changes nothing and is requeued: the message never leaves the
    queue. *)
Lemma created_redelivery_requeues (env : Envelope.t) payload body w :
  foreign_faults ->
  Decode Envelope.decode body Envelope.zero = Ok env ->
  Envelope.Type_ env = RoutingKeyIncidentCreated ->
  Envelope.DecodePayload env IncidentChanged.zero = Ok payload ->
  row_of (IncidentChanged.IncidentID payload) (data w) <> None ->
  has_default (IncidentChanged.TenantID payload) (data w) ->
  exists w', run (process (consumer_handler sched) body) w = (Nack true, w') /\ data w' = data w.
Proof.
  intros Hff Hb Hty Hpl Hrow (cfg & p & Hcfg & Hdef & Hp & Hts).
  enough (exists e w', run (handle sched env) w = (Err e, w') /\ data w' = data w
                       /\ errors_Is e ErrDrop = false) as (e & w' & Hr & Hd & He).
  { exists w'. unfold process, consumer_handler. rewrite Hb, run_bind, run_bind, Hr. cbn. by rewrite He. }
  unfold handle. rewrite Hpl, Hty, String.eqb_refl.
  set (slug := if String.eqb _ _ then _ else _). set (inc := Info _ _ _).
  rewrite run_bind. unfold AutoAssign. rewrite run_bind.
  destruct (run (GetTenantConfig _) w) as [r w1] eqn:E1.
  apply run_sql_cases in E1 as [(now & uuid & a & Hf & Hr)|(Hd & e & -> & He)]; [| |done].
  - rewrite Hcfg in Hf. injection Hf as <- Hd. destruct Hr as [->|(e & -> & He)].
    + rewrite Hdef, run_bind. rewrite Hd in *.
      destruct (AssignPolicy_again (IncidentChanged.TenantID payload) slug (IncidentChanged.IncidentID payload)
                  p inc w1 Hff Hrow Hp Hts) as (e & w2 & -> & Hd2 & He).
      do 2 eexists. split; [reflexivity|]. split; [done|]. simpl. by rewrite He.
    + destruct He as (-> & _ & Hdr). do 2 eexists. split; [reflexivity|]. split; [done|]. simpl. by rewrite Hdr.
  - assert (foreign e) as (-> & _ & Hdr).
    { destruct He as [|(? & ? & Hf)]; [done|]. by rewrite Hcfg in Hf. }
    do 2 eexists. split; [reflexivity|]. split; [done|]. simpl. by rewrite Hdr.
Qed.

End Errors.

(** ** The advance of one state *)

Section Advance.
Context `{Platform} `{TimeText} `{HttpEnv}.
Variable sched : Client.

#[local] Instance broker_publisher : EscalationPublisher := Publisher.

(** No row of the audit has an id that the generator has still to give. *)
Definition fresh_history (w : world db) : Prop :=
  forall t h, (tick w <= t)%nat -> h ∈ history (data w) -> EscalationHistory.ID h <> uuid_at t.

(** The audit only gets rows with generated ids, and the policies stay. *)
Definition grows (w w' : world db) : Prop :=
  onward w w' /\ policy_tiers (data w') = policy_tiers (data w)
  /\ history (data w) `prefix_of` history (data w')
  /\ forall h, h ∈ history (data w') ->
       h ∈ history (data w) \/ exists t, (tick w <= t < tick w')%nat /\ EscalationHistory.ID h = uuid_at t.

#[export] Instance grows_PreOrder : PreOrder grows.
Proof.
  split; [by intros w; split_and!; auto; unfold onward|].
  intros w1 w2 w3 (L & E & P & Hh) (L' & E' & P' & Hh'). split; [by etransitivity|]. split; [congruence|].
  split; [by etransitivity|]. unfold onward in *. intros h [Hin|(t & Ht & Hid)]%Hh'.
  - destruct (Hh h Hin) as [?|(t & Ht & Hid)]; [by left|right; exists t; split; [lia|done]].
  - right. exists t. split; [lia|done].
Qed.

Lemma grows_same (w w' : world db) :
  onward w w' -> policy_tiers (data w') = policy_tiers (data w) -> history (data w') = history (data w) -> grows w w'.
Proof. intros L E Eh. split; [done|]. split; [done|]. rewrite Eh. split; [done|]. intros h Hh. by left. Qed.

Lemma grows_row (w w' : world db) t e :
  history (data w') = history (data w) ++ [e] -> EscalationHistory.ID e = uuid_at t -> (tick w <= t < tick w')%nat ->
  policy_tiers (data w') = policy_tiers (data w) -> grows w w'.
Proof.
  intros Eh He Ht E. split; [unfold onward; lia|]. split; [done|]. rewrite Eh. split; [by apply prefix_app_r|].
  intros h [Hin|Hin%list_elem_of_singleton]%elem_of_app; [by left|subst; right; by exists t].
Qed.

Lemma grows_fresh (w w' : world db) :
  Inj eq eq uuid_at -> grows w w' -> fresh_history w -> fresh_history w'.
Proof.
  intros Hinj (L & _ & _ & Hh) Hf t h Ht Hin. unfold onward in L.
  destruct (Hh h Hin) as [Hold|(t' & Ht' & ->)]; [apply Hf; [lia|done]|].
  intros Eq%Hinj. lia.
Qed.

(** The rows of the states stay as well. *)
Definition quiet (w w' : world db) : Prop := states (data w') = states (data w) /\ grows w w'.

#[export] Instance quiet_PreOrder : PreOrder quiet.
Proof.
  split; [by intros w|]. intros w1 w2 w3 [E G] [E' G']. split; [congruence|by etransitivity].
Qed.

Local Abbreviation stays p := (budget quiet (fun _ _ => False) p 0).

Lemma quiet_onward {A} (p : M db A) :
  budget (fun w w' => (exists n, data w' = set_net n (data w)) /\ onward w w') (fun _ _ => False) p 0 -> stays p.
Proof.
  apply budget_weaken; [|done]. intros w w' [(n & E) L]. split; [by rewrite E|]. apply grows_same; [done|by rewrite E..].
Qed.

Lemma quiet_Publish ex key b : stays (@Publish _ db _ ex key b).
Proof.
  apply quiet_onward, budget_and; [|apply onward_Publish].
  eapply budget_weaken; [| |apply Publish_budget]; intros w w' (n & E & _); by exists n.
Qed.

Lemma quiet_Wrap {A} `{Events.Payload A} ty tenant (a : A) : stays (@Envelope.Wrap _ _ db A _ ty tenant a).
Proof.
  apply quiet_onward, budget_and; [|apply onward_Wrap]. unfold Envelope.Wrap. destruct (payload_encode a); [|done].
  assert (forall (d : db), exists n, d = set_net n d) as Hn by (intros []; by eexists).
  apply budget_quiet_bind; [intros w; left; split; [apply Hn|done]|]. intros id.
  apply budget_quiet_bind; [intros w; left; split; [apply Hn|done]|done].
Qed.

Lemma quiet_AppendHistory e : stays (AppendHistory e).
Proof.
  intros w. left. split; [|done]. simpl. repeat case_match; simplify_eq/=; (split; [done|]).
  all: first [ apply grows_same; [unfold onward; simpl; lia|done..]
             | eapply (grows_row _ _ (tick w)); simpl; [reflexivity|reflexivity|lia|reflexivity] ].
Qed.

Lemma quiet_triggerTier st tier : stays (triggerTier sched st tier).
Proof.
  unfold triggerTier. apply budget_quiet_bind.
  - destruct (String.eqb _ _); [done|]. apply budget_quiet_bind; [|done].
    unfold GetOnCall, GetJSON, Do. apply budget_quiet_bind; [|by intros []].
    apply budget_quiet_bind; [|done]. intros w. left. split; [|done]. split; [done|].
    apply grows_same; [unfold onward; simpl; lia|done..].
  - intros user. apply budget_quiet_bind; [apply quiet_AppendHistory|].
    intros _. apply budget_quiet_bind; [|by intros []].
    apply budget_quiet_bind; [apply quiet_Wrap|]. intros [j|e]; [apply quiet_Publish|done].
Qed.

Lemma quiet_PublishExhausted ev : stays (publish_exhausted ev).
Proof. apply budget_quiet_bind; [apply quiet_Wrap|]. intros [j|e]; [apply quiet_Publish|done]. Qed.

(** The table with the row of [s'] put in place. *)
Definition put_row (s' : EscalationState.t) : list EscalationState.t -> list EscalationState.t :=
  map (fun x => if String.eqb (EscalationState.ID x) (EscalationState.ID s') then s' else x).

(** A guarded write that matches a row puts its new version in place. *)
Lemma update_put_row st s now expected d :
  unique_rows d -> s ∈ states d -> guard st expected "active" s = true ->
  states (update_states (guard st expected "active") st now d).2 =
    put_row (EscalationState.set_UpdatedAt now (EscalationState.set_step (EscalationState.CurrentTier st)
      (EscalationState.Status st) (EscalationState.EscalateAt st) s)) (states d).
Proof.
  intros [Hid _] Hs Hg. unfold put_row. cbn -[guard]. apply map_ext_in. intros x Hx%list_elem_of_In.
  assert (EscalationState.ID x = EscalationState.ID s -> x = s) as Hsame
    by (intros E; by eapply (NoDup_map_inj EscalationState.ID)).
  destruct (String.eqb_spec (EscalationState.ID x) (EscalationState.ID s)) as [E|E].
  - apply Hsame in E as ->. by rewrite Hg.
  - destruct (guard st expected "active" x) eqn:Hgx; [|done]. exfalso. apply E. unfold guard in Hg, Hgx. bool_to_prop.
    repeat match goal with H : String.eqb _ _ = true |- _ => apply String.eqb_eq in H end. congruence.
Qed.

(** The guarded write alone on a reliable data base, when the row is as expected. *)
Lemma AdvanceEscalationState_ok st s expected hist w :
  reliable -> uuid_ok (EscalationState.ID st) = true ->
  int4_ok (EscalationState.CurrentTier st) = true -> int4_ok expected = true ->
  s ∈ states (data w) -> guard st expected "active" s = true -> fresh_history w ->
  match hist with Some h => EscalationHistory.Tier h = Some expected | None => True end ->
  exists now w', run (AdvanceEscalationState st expected "active" hist) w = (Ok tt, w')
    /\ states (data w') = states (update_states (guard st expected "active") st now (data w)).2
    /\ grows w w'
    /\ match hist with
       | Some h => exists h', h' ∈ history (data w')
           /\ EscalationHistory.EventType h' = EscalationHistory.EventType h
           /\ EscalationHistory.IncidentID h' = EscalationHistory.IncidentID h
       | None => True
       end.
Proof.
  intros Hr Hu I1 I2 Hs Hg Hfresh Hh. unfold AdvanceEscalationState. rewrite run_withTx_ok by done.
  exists (now_at (tick w)). unfold advance_tx. rewrite run_bind.
  rewrite run_sql_ok by (first [apply Hr|simpl; by rewrite Hu]). cbn [data tick]. rewrite I1, I2. cbn [andb negb].
  destruct (Z.eqb_spec (Z.of_nat (length (List.filter (guard st expected "active") (states (data w))))) 0) as [E|E].
  { exfalso. assert (s ∈ List.filter (guard st expected "active") (states (data w))) as Hin.
    { apply list_elem_of_In, filter_In. by rewrite <- list_elem_of_In. }
    destruct (List.filter _ _); [by apply not_elem_of_nil in Hin|done]. }
  cbn [update_states]. rewrite (proj2 (Z.eqb_neq _ 0) E).
  destruct hist as [h|]; cbn [run].
  - unfold appendHistory. rewrite run_sql_ok by (first [apply Hr|done]). cbn [data tick]. rewrite Hh, I2. cbn [negb].
    destruct (existsb _ _) eqn:Ex.
    { exfalso. apply existsb_exists in Ex as (h0 & Hin%list_elem_of_In & He%String.eqb_eq).
      cbn in Hin. by eapply (Hfresh (S (S (tick w)))); [lia|..]. }
    eexists. split; [reflexivity|]. split; [done|]. split.
    + eapply (grows_row _ _ (S (S (tick w)))); simpl; [reflexivity|reflexivity|lia|reflexivity].
    + eexists. split; [apply elem_of_app; right; by left|done].
  - eexists. split; [reflexivity|]. split; [done|]. split; [|done]. apply grows_same; [unfold onward; simpl; lia|done..].
Qed.

(** On a reliable platform and without competition an advance puts the new version
    of its row in place. *)
Lemma run_AdvanceOrExhaust s w :
  reliable -> uuid_ok (EscalationState.ID s) = true -> uuid_ok (EscalationState.PolicyID s) = true ->
  unique_rows (data w) -> s ∈ states (data w) -> active s = true ->
  int4_ok (EscalationState.CurrentTier s) = true -> int4_ok (EscalationState.CurrentTier s + 1) = true ->
  fresh_history w ->
  exists w' now tier status at_, let s' := EscalationState.set_UpdatedAt now (EscalationState.set_step tier status at_ s) in
    run (AdvanceOrExhaust sched s) w = (Ok tt, w')
    /\ states (data w') = put_row s' (states (data w)) /\ grows w w'
    /\ match find (fun t => String.eqb (PolicyTier.PolicyID t) (EscalationState.PolicyID s)
                            && (PolicyTier.TierNumber t =? EscalationState.CurrentTier s + 1))
             (policy_tiers (data w)) with
       | Some nt =>
           status = "active" /\ tier = EscalationState.CurrentTier s + 1
           /\ at_ = now_at (S (tick w)) + int64 (PolicyTier.TimeoutSeconds nt * Second)
       | None =>
           status = "exhausted" /\ tier = EscalationState.CurrentTier s
           /\ exists h, h ∈ history (data w') /\ EscalationHistory.EventType h = "exhausted"
                /\ EscalationHistory.IncidentID h = EscalationState.IncidentID s
       end.
Proof.
  intros Hr Hu Hp Hun Hs Ha I1 I2 Hfresh. unfold AdvanceOrExhaust. rewrite run_bind.
  unfold GetTierByNumber. rewrite run_sql_ok by (first [apply Hr|simpl; by rewrite Hp]).
  rewrite int64_id by eauto with oncall. rewrite I2. cbn [negb].
  assert (forall st, EscalationState.ID st = EscalationState.ID s ->
    guard st (EscalationState.CurrentTier s) "active" s = true) as Hguard.
  { intros st E. unfold guard. by rewrite E, String.eqb_refl, Z.eqb_refl. }
  assert (forall n, grows w (World (n + tick w) (data w))) as Hlate
    by (intros n; apply grows_same; [unfold onward; simpl; lia|done..]).
  destruct (find _ _) as [nt|] eqn:Ef.
  - pose proof (find_elem _ _ _ Ef) as [_ [_ Hnt%Z.eqb_eq]%andb_prop].
    rewrite run_bind. cbn [time_Now run tick data]. rewrite run_bind.
    set (st := EscalationState.set_step _ _ _ _).
    set (w1 := World _ _).
    destruct (AdvanceEscalationState_ok st s (EscalationState.CurrentTier s) None w1 Hr Hu)
      as (now & w2 & -> & Hst & Hg & _); [cbn; by rewrite Hnt|done|done|by apply Hguard| |done|].
    { intros t h Ht. apply Hfresh. simpl in Ht. lia. }
    rewrite run_bind. pose proof (run_quiet quiet (triggerTier sched st nt) w2 (quiet_triggerTier st nt)) as [Hq Hqg].
    destruct (run (triggerTier sched st nt) w2) as [r w3]. cbn [run snd] in *. rewrite Hst in Hq.
    rewrite (update_put_row st s) in Hq by auto.
    eexists w3, now, _, _, _. split; [reflexivity|]. split; [exact Hq|].
    split; [by etransitivity; [exact (Hlate 2%nat)|etransitivity]|].
    split; [by apply String.eqb_eq|]. by split.
  - rewrite errors_Is_refl, run_bind. cbn [time_Now run tick data]. rewrite run_bind.
    set (st := EscalationState.set_step _ _ _ _). set (hist := EscalationHistory.mk _ _ _ _ _ _ _ _).
    set (w1 := World _ _).
    destruct (AdvanceEscalationState_ok st s (EscalationState.CurrentTier s) (Some hist) w1 Hr Hu)
      as (now & w2 & -> & Hst & Hg & (h & Hh & Hty & Hin)); [done|done|done|by apply Hguard| |done|].
    { intros t h Ht. apply Hfresh. simpl in Ht. lia. }
    rewrite run_bind. set (ev := EscalationExhausted.mk _ _ _).
    pose proof (run_quiet quiet (PublishExhausted ev) w2 (quiet_PublishExhausted ev)) as [Hq Hqg].
    destruct (run (PublishExhausted ev) w2) as [r w3]. cbn [run snd] in *. rewrite Hst in Hq.
    rewrite (update_put_row st s) in Hq by auto.
    eexists w3, now, _, _, _. split; [reflexivity|]. split; [exact Hq|].
    split; [by etransitivity; [exact (Hlate 2%nat)|etransitivity]|].
    split; [done|]. split; [done|]. exists h. split; [|done].
    destruct Hqg as (_ & _ & [l ->] & _). set_solver.
Qed.

(** Where the rows are after a row was put in place. *)
Lemma row_of_put s s' d d' :
  unique_rows d -> s ∈ states d -> EscalationState.ID s' = EscalationState.ID s ->
  EscalationState.IncidentID s' = EscalationState.IncidentID s -> states d' = put_row s' (states d) ->
  row_of (EscalationState.IncidentID s) d' = Some s'
  /\ forall i, i <> EscalationState.IncidentID s -> row_of i d' = row_of i d.
Proof.
  intros Hun Hs Hid Hinc E.
  assert (forall i, row_of i d' = (fun x => if String.eqb (EscalationState.ID x) (EscalationState.ID s') then s' else x)
            <$> row_of i d) as Hrow.
  { intros i. unfold row_of. rewrite E. apply find_map_in_same. intros x Hx.
    destruct (String.eqb_spec (EscalationState.ID x) (EscalationState.ID s')) as [Ex|]; [|done].
    rewrite Hinc. do 2 f_equal. eapply (NoDup_map_inj EscalationState.ID); [apply Hun|done..|congruence]. }
  split; [|intros i Hi]; rewrite Hrow.
  - rewrite (row_of_unique d s Hun Hs). cbn. by rewrite Hid, String.eqb_refl.
  - destruct (row_of i d) as [x|] eqn:Er; [|done]. cbn.
    destruct (String.eqb_spec (EscalationState.ID x) (EscalationState.ID s')) as [Ex|]; [|done]. exfalso. apply Hi.
    unfold row_of in Er. apply find_elem in Er as [Hx <-%String.eqb_eq].
    f_equal. eapply (NoDup_map_inj EscalationState.ID); [apply Hun|done..|congruence].
Qed.

(** On a reliable platform and without competition, advancing an active
    state moves its row, and only that row: to the next tier, active, with the
    timeout of that tier counted from now, when the policy has a tier with the
    next number; and to [exhausted] at the same tier, with the audit entry
    written in the same transaction, when it has none. *)
Lemma AdvanceOrExhaust_advances s w :
  reliable -> uuid_ok (EscalationState.ID s) = true -> uuid_ok (EscalationState.PolicyID s) = true ->
  unique_rows (data w) -> s ∈ states (data w) -> active s = true ->
  int4_ok (EscalationState.CurrentTier s) = true -> int4_ok (EscalationState.CurrentTier s + 1) = true ->
  fresh_history w ->
  exists w' s', run (AdvanceOrExhaust sched s) w = (Ok tt, w')
    /\ row_of (EscalationState.IncidentID s) (data w') = Some s'
    /\ (forall i, i <> EscalationState.IncidentID s -> row_of i (data w') = row_of i (data w))
    /\ match find (fun t => String.eqb (PolicyTier.PolicyID t) (EscalationState.PolicyID s)
                            && (PolicyTier.TierNumber t =? EscalationState.CurrentTier s + 1))
             (policy_tiers (data w)) with
       | Some nt =>
           active s' = true /\ EscalationState.CurrentTier s' = EscalationState.CurrentTier s + 1
           /\ EscalationState.EscalateAt s'
              = now_at (S (tick w)) + int64 (PolicyTier.TimeoutSeconds nt * Second)
       | None =>
           EscalationState.Status s' = "exhausted"
           /\ EscalationState.CurrentTier s' = EscalationState.CurrentTier s
           /\ exists h, h ∈ history (data w') /\ EscalationHistory.EventType h = "exhausted"
                /\ EscalationHistory.IncidentID h = EscalationState.IncidentID s
       end.
Proof.
  intros Hr Hu Hp Hun Hs Ha I1 I2 Hf.
  destruct (run_AdvanceOrExhaust s w) as (w' & now & tier & status & at_ & Hrun & Hst & _ & Hm); [done..|].
  eexists w', _. split; [exact Hrun|].
  destruct (row_of_put s (EscalationState.set_UpdatedAt now (EscalationState.set_step tier status at_ s))
    (data w) (data w') Hun Hs eq_refl eq_refl Hst) as [Hrow Ho].
  split; [exact Hrow|]. split; [exact Ho|]. destruct (find _ _); [destruct Hm as (-> & -> & ->)|destruct Hm as (-> & -> & ?)]; done.
Qed.

End Advance.

(** ** A created incident that pages, down to the bus *)

(** The scheduling service answers that [r] is on call. *)
Definition answers_oncall `{TimeText} `{HttpEnv} (sched : Client) (slug scheduleID : string) (r : OncallResult.t) : Prop :=
  exists b, (forall t, http_reply t (baseURL sched +:+ ("/api/schedules/v1/" +:+ slug +:+ "/schedules/" +:+ scheduleID
                 +:+ "/oncall")) = Some (200, b))
    /\ Decode (dec_struct OncallResult.json_fields) b OncallResult.zero = Ok r.

(** The first tier of the default policy of a tenant. *)
Definition first_tier `{Platform} (tenant : string) (tier : PolicyTier.t) (d : db) : Prop :=
  exists cfg p ts, find (fun c => String.eqb (TenantConfig.TenantID c) tenant) (configs d) = Some cfg
    /\ TenantConfig.DefaultPolicyID cfg = Some (Policy.ID p)
    /\ find (fun q => String.eqb (Policy.ID q) (Policy.ID p) && String.eqb (Policy.TenantID q) tenant) (policies d) = Some p
    /\ tiers_of (Policy.ID p) d = tier :: ts
    /\ uuid_ok (Policy.ID p) = true /\ int4_ok (PolicyTier.TierNumber tier) = true.

(** No state has an id the generator may give. *)
Definition fresh_state_ids `{Platform} (d : db) : Prop :=
  forall t s, s ∈ states d -> EscalationState.ID s <> uuid_at t.

Section Paging.
Context `{Platform} `{TimeText} `{HttpEnv}.
Variable sched : Client.
Hypothesis Hrel : reliable.
Hypothesis Hsteady : steady.
Hypothesis Hclock : writable_clock.

#[local] Existing Instance Publisher.

Lemma run_GetOnCall slug scheduleID r (w : world db) :
  answers_oncall sched slug scheduleID r ->
  run (GetOnCall sched slug scheduleID) w = (Ok r, World (S (tick w)) (data w)).
Proof.
  intros (b & Hb & Hd). unfold GetOnCall, GetJSON, Do. rewrite !run_bind. cbn [run tick data]. rewrite Hb.
  cbn -[Decode dec_struct String.append]. rewrite Hd. done.
Qed.

(** The event of a tier that [r] is on call for. *)
Definition triggered (st : EscalationState.t) (tier : PolicyTier.t) (r : OncallResult.t) : EscalationTriggered.t :=
  EscalationTriggered.mk (EscalationState.IncidentID st) (EscalationState.TenantID st) (EscalationState.TenantSlug st)
    (PolicyTier.TierNumber tier) (OncallResult.UserID r) (OncallResult.Username r) (EscalationState.IncidentTitle st)
    (EscalationState.IncidentSeverity st) (EscalationState.IncidentStatus st).

Lemma run_triggerTier st tier r (w : world db) :
  PolicyTier.NotifyScheduleID tier <> EmptyString ->
  answers_oncall sched (EscalationState.TenantSlug st) (PolicyTier.NotifyScheduleID tier) r ->
  exists t d n b, run (triggerTier sched st tier) w = (Ok tt, World t (set_net n d))
    /\ states d = states (data w)
    /\ handed n = handed (net (data w)) ++ [Message ExchangeEscalations RoutingKeyEscalationTriggered b]
    /\ wraps RoutingKeyEscalationTriggered (EscalationState.TenantID st) (triggered st tier r) b.
Proof.
  intros Hn Ho. unfold triggerTier. rewrite run_bind, (proj2 (String.eqb_neq _ _) Hn), run_bind, (run_GetOnCall _ _ r) by done.
  cbn [run fst snd]. rewrite run_bind.
  match goal with |- context [run (AppendHistory ?h) ?x] => destruct (run (AppendHistory h) x) as [r1 w1] eqn:E1 end.
  assert (states (data w1) = states (data w) /\ broker (data w1) = broker (data w)) as [Es Eb].
  { unfold AppendHistory, appendHistory in E1. rewrite run_sql_ok in E1 by (apply Hrel || done). cbn [tick data] in E1.
    repeat case_match; simplify_eq; done. }
  rewrite run_bind. cbn [PublishTriggered Publisher]. unfold publish_triggered.
  assert (exists raw, payload_encode (triggered st tier r) = Some raw) as [raw Hraw] by (by eexists).
  destruct (run_wrap_publish Hrel Hsteady Hclock RoutingKeyEscalationTriggered (EscalationState.TenantID st)
    (triggered st tier r) raw ExchangeEscalations RoutingKeyEscalationTriggered "publisher: wrap triggered" w1 Hraw)
    as (t & n & b & Hr & Ea & Hw).
  exists t, (data w1), n, b. split; [|split; [done|split; [|done]]].
  - unfold triggered in Hr. cbn [EscalationTriggered.TenantID]. rewrite Hr. done.
  - rewrite Ea. simpl. by rewrite Eb.
Qed.

Lemma run_CreateState st (w : world db) :
  uuid_ok (EscalationState.PolicyID st) = true -> int4_ok (EscalationState.CurrentTier st) = true ->
  row_of (EscalationState.IncidentID st) (data w) = None -> fresh_state_ids (data w) ->
  policy_exists (EscalationState.PolicyID st) (data w) = true ->
  exists st' row, run (CreateEscalationState st) w
      = (Ok st', World (S (tick w)) (set_states (states (data w) ++ [row]) (data w)))
    /\ (exists id now, st' = EscalationState.set_created id now st)
    /\ EscalationState.IncidentID row = EscalationState.IncidentID st /\ active row = true
    /\ EscalationState.CurrentTier row = EscalationState.CurrentTier st.
Proof.
  intros Hu Hi Hrow Hfresh Hp. unfold CreateEscalationState.
  rewrite run_sql_ok by (simpl; rewrite ?Hu; apply Hrel || done). rewrite Hi, Hp. cbn [negb].
  replace (existsb _ (states (data w))) with false.
  - do 2 eexists. split; [reflexivity|]. split; [by do 2 eexists|]. done.
  - symmetry. apply existsb_false. intros s Hs. apply orb_false_iff. split.
    + apply String.eqb_neq. by apply Hfresh.
    + unfold row_of in Hrow. rewrite find_none_iff in Hrow. exact (Hrow s Hs).
Qed.

(** The handling of an [incident.updated] that ends an escalation. *)
Lemma updated_stops ev b st t d :
  time_text_law -> wraps RoutingKeyIncidentUpdated (IncidentChanged.TenantID ev) ev b ->
  IncidentChanged.Status ev = "acknowledged" \/ IncidentChanged.Status ev = "resolved" ->
  row_of (IncidentChanged.IncidentID ev) d = Some st -> EscalationState.TenantID st = IncidentChanged.TenantID ev ->
  active st = true -> uuid_ok (EscalationState.ID st) = true -> int4_ok (EscalationState.CurrentTier st) = true ->
  unique_rows d ->
  exists t' d' st', run (process (consumer_handler sched) (Some b)) (World t d) = (Ack, World t' d')
    /\ row_of (IncidentChanged.IncidentID ev) d' = Some st'
    /\ EscalationState.Status st' = IncidentChanged.Status ev /\ unique_rows d'.
Proof.
  intros Hlaw Hw Hs Hrow Hten Ha Hu Hi Hun.
  destruct (wraps_reads _ _ _ _ Hlaw I Hw) as (env & Hd & Ht & _ & Hpay).
  unfold process. rewrite Hd. unfold consumer_handler, handle.
  change (Envelope.DecodePayload env IncidentChanged.zero)
    with (Envelope.DecodePayload env (payload_zero (A := IncidentChanged.t))).
  rewrite Hpay, Ht. change (String.eqb RoutingKeyIncidentUpdated RoutingKeyIncidentCreated) with false.
  rewrite String.eqb_refl. cbv iota.
  replace (String.eqb (IncidentChanged.Status ev) "acknowledged" || String.eqb (IncidentChanged.Status ev) "resolved")
    with true by (by destruct Hs as [->| ->]).
  rewrite run_bind, run_bind, run_bind. unfold Stop. rewrite run_bind. unfold GetEscalationStateByIncident.
  rewrite run_sql_ok by (apply Hrel || done). cbn [tick data].
  assert (find (fun s => String.eqb (EscalationState.IncidentID s) (IncidentChanged.IncidentID ev)
            && String.eqb (EscalationState.TenantID s) (IncidentChanged.TenantID ev)) (states d) = Some st) as ->.
  { unfold row_of in Hrow. by apply find_and; [|by apply String.eqb_eq]. }
  cbv iota beta. unfold active in Ha. rewrite Ha. cbv iota beta. cbn [negb]. rewrite run_bind. cbn [time_Now run tick data]. rewrite run_bind.
  unfold UpdateEscalationState. rewrite run_bind.
  rewrite run_sql_ok by (simpl; rewrite ?Hu; apply Hrel || done). cbn [tick data].
  cbn [EscalationState.CurrentTier EscalationState.set_step EscalationState.ID]. rewrite Hi. cbn [negb]. cbv iota beta.
  match goal with |- context [update_states ?c ?x ?n d] =>
    pose proof (row_of_update c x n d (IncidentChanged.IncidentID ev)) as Hrow';
    pose proof (ids_update c x n d) as Hids; destruct (update_states c x n d) as [k d1] eqn:Eup end.
  rewrite Hrow in Hrow'. cbn [snd fmap option_fmap option_map] in Hrow'. rewrite String.eqb_refl in Hrow'.
  assert (k <> 0) as Hk.
  { intros ->. unfold update_states in Eup. injection Eup as Ek _. unfold row_of in Hrow.
    apply find_elem in Hrow as [Hin%list_elem_of_In _].
    destruct (List.filter _ _) as [|x l] eqn:El; [|done].
    assert (In st (List.filter (fun s => String.eqb (EscalationState.ID s) (EscalationState.ID st)) (states d))) as Hf
      by (apply filter_In; by rewrite String.eqb_refl).
    by rewrite El in Hf. }
  rewrite (proj2 (Z.eqb_neq _ _) Hk). cbn [run]. cbv iota beta. rewrite run_bind.
  match goal with |- context [run (AppendHistory ?h) ?x] => destruct (run (AppendHistory h) x) as [r1 [t1 d2]] eqn:E1 end.
  assert (states d2 = states d1) as Es.
  { unfold AppendHistory, appendHistory in E1. rewrite run_sql_ok in E1 by (apply Hrel || done). cbn [tick data] in E1.
    repeat case_match; simplify_eq; done. }
  cbn [run]. exists t1, d2. eexists. split; [done|]. unfold row_of in *. rewrite Es. split; [exact Hrow'|]. split; [done|].
  apply (unique_rows_ids d); [|done]. unfold ids in *. rewrite Es. exact Hids.
Qed.

(** The handling of an [incident.created] whose tenant has a default policy. *)
Lemma created_pages ev b tier r t d :
  time_text_law -> wraps RoutingKeyIncidentCreated (IncidentChanged.TenantID ev) ev b ->
  IncidentChanged.TenantSlug ev = IncidentChanged.TenantID ev ->
  first_tier (IncidentChanged.TenantID ev) tier d -> row_of (IncidentChanged.IncidentID ev) d = None ->
  fresh_state_ids d -> PolicyTier.NotifyScheduleID tier <> EmptyString ->
  answers_oncall sched (IncidentChanged.TenantID ev) (PolicyTier.NotifyScheduleID tier) r ->
  exists t' d' st b', run (process (consumer_handler sched) (Some b)) (World t d) = (Ack, World t' d')
    /\ row_of (IncidentChanged.IncidentID ev) d' = Some st /\ active st = true
    /\ EscalationState.CurrentTier st = PolicyTier.TierNumber tier
    /\ handed (broker d') = handed (broker d) ++ [Message ExchangeEscalations RoutingKeyEscalationTriggered b']
    /\ wraps RoutingKeyEscalationTriggered (IncidentChanged.TenantID ev)
         (EscalationTriggered.mk (IncidentChanged.IncidentID ev) (IncidentChanged.TenantID ev) (IncidentChanged.TenantID ev)
            (PolicyTier.TierNumber tier) (OncallResult.UserID r) (OncallResult.Username r) (IncidentChanged.Title ev)
            (IncidentChanged.Severity ev) (IncidentChanged.Status ev)) b'.
Proof.
  intros Hlaw Hw Hslug (cfg & p & ts & Hc & Hdef & Hp & Hts & Hu & Hi) Hrow Hfresh Hn Ho.
  destruct (wraps_reads _ _ _ _ Hlaw I Hw) as (env & Hd & Ht & _ & Hpay).
  unfold process. rewrite Hd. unfold consumer_handler, handle.
  change (Envelope.DecodePayload env IncidentChanged.zero)
    with (Envelope.DecodePayload env (payload_zero (A := IncidentChanged.t))).
  rewrite Hpay, Ht, String.eqb_refl. cbv zeta. rewrite Hslug.
  replace (if String.eqb (IncidentChanged.TenantID ev) EmptyString then IncidentChanged.TenantID ev
           else IncidentChanged.TenantID ev) with (IncidentChanged.TenantID ev) by (by destruct (String.eqb _ _)).
  rewrite run_bind, run_bind, run_bind. unfold AutoAssign. rewrite run_bind. unfold GetTenantConfig.
  rewrite run_sql_ok by (apply Hrel || done). cbn [tick data]. rewrite Hc. cbv iota beta. rewrite Hdef, run_bind.
  unfold AssignPolicy. rewrite run_bind. unfold EscalationStore.GetPolicy, select_policy, listTiers.
  rewrite run_bind, run_sql_ok by (simpl; rewrite ?Hu; apply Hrel || done). cbn [tick data]. rewrite Hp. cbv iota beta.
  rewrite run_bind, run_sql_ok by (simpl; rewrite ?Hu; apply Hrel || done). cbn [tick data run Policy.Tiers]. rewrite Hts.
  rewrite run_bind. cbn [run time_Now tick data]. rewrite run_bind.
  match goal with |- context [run (CreateEscalationState ?x) ?w] =>
    destruct (run_CreateState x w) as (st' & row & -> & (id & now & ->) & Hid & Hact & Htier); [done|done|done|done| |] end.
  { unfold policy_exists. apply existsb_exists. exists p. split; [|apply String.eqb_refl].
    apply list_elem_of_In. by apply find_elem in Hp as [? _]. }
  cbv iota beta. rewrite run_bind.
  match goal with |- context [run (triggerTier sched ?x tier) ?w] =>
    destruct (run_triggerTier x tier r w Hn Ho) as (t2 & d2 & n & b' & -> & Es & Ea & Hb) end.
  cbn [run errors_Is]. exists t2, (set_net n d2), row, b'. split; [done|]. split; [|done].
  unfold row_of. cbn [states set_net db_Broker]. rewrite Es. cbn [data states set_states]. rewrite find_app.
  unfold row_of in Hrow. rewrite Hrow. cbn [find]. rewrite Hid. cbn [EscalationState.IncidentID]. by rewrite String.eqb_refl.
Qed.

End Paging.

(** *** Witnesses *)

#[local] Instance demo_publisher : EscalationPublisher := @Publisher (demo_platform []) demo_time_text.

Lemma demo_foreign : @foreign_faults (demo_platform []).
Proof. by intros t e [|]. Qed.

Definition last_tier_state : EscalationState.t :=
  EscalationState.mk "s1" "inc1" "acme" "acme" "p1" (2 ^ 31 - 1) "active" "t" "critical" "open" 0 0 0.

Lemma max_tier_never_exhausts_witness :
  exists e w', run (@AdvanceOrExhaust (demo_platform []) demo_time_text demo_http demo_publisher demo_client
                      last_tier_state) (World 0 demo_db) = (Err e, w') /\ data w' = demo_db.
Proof.
  exact (@max_tier_never_exhausts (demo_platform []) demo_time_text demo_http demo_publisher demo_client
           last_tier_state (World 0 demo_db) demo_foreign eq_refl).
Defined.

Definition demo_created : IncidentChanged.t :=
  IncidentChanged.mk "inc1" "acme" "acme" "open" "disk full" "critical".

Definition demo_envelope : Envelope.t :=
  Envelope.mk "m1" "1" RoutingKeyIncidentCreated "acme" 0
    (IncidentChanged.encode demo_created).

Definition demo_default_db : db :=
  set_configs [TenantConfig.mk "acme" (Some "p1") 0] demo_db.

Lemma created_redelivery_requeues_witness :
  exists w', run (@process demo_time_text db
                    (@consumer_handler (demo_platform []) demo_time_text demo_http demo_publisher demo_client)
                    (@Envelope.encode demo_time_text demo_envelope)) (World 0 demo_default_db)
             = (Nack true, w') /\ data w' = demo_default_db.
Proof.
  refine (@created_redelivery_requeues (demo_platform []) demo_time_text demo_http demo_publisher demo_client
            demo_envelope demo_created (@Envelope.encode demo_time_text demo_envelope)
            (World 0 demo_default_db) demo_foreign eq_refl eq_refl eq_refl _ _).
  - discriminate.
  - exists (TenantConfig.mk "acme" (Some "p1") 0), (Policy.mk "p1" "acme" "default" [] 0).
    split; [reflexivity|]. split; [reflexivity|]. split; [reflexivity|]. vm_compute. discriminate.
Defined.

Lemma AdvanceOrExhaust_advances_witness :
  exists w' s', run (@AdvanceOrExhaust (demo_platform []) demo_time_text demo_http demo_publisher demo_client
                       demo_state) (World 0 demo_db) = (Ok tt, w')
    /\ row_of "inc1" (data w') = Some s'
    /\ (forall i, i <> "inc1" -> row_of i (data w') = row_of i demo_db)
    /\ active s' = true /\ EscalationState.CurrentTier s' = 2
    /\ EscalationState.EscalateAt s' = @now_at (demo_platform []) 1 + 300 * Second.
Proof.
  refine (@AdvanceOrExhaust_advances (demo_platform []) demo_time_text demo_http demo_client demo_state
            (World 0 demo_db) (fun _ => eq_refl) eq_refl eq_refl demo_unique_rows _ eq_refl eq_refl eq_refl _).
  - left.
  - intros t h _ Hh. by apply not_elem_of_nil in Hh.
Defined.
