(* ===== verification/EscalationLiveness.v ===== *)
(** * Escalation: every escalation nobody answers ends

    The monitor on a reliable platform: each tick advances what is due, and the
    tiers above an escalation are finitely many. *)

From S2P Require Import Prelude Effects Json Events Interleaving Amqp Messages Http EscalationStore Escalator EscalationSafety EscalationProps.
Open Scope go_scope.

(** ** Specification *)

(** The policy has a tier with the number. *)
Definition tier_of (policyID : string) (n : Z) (t : PolicyTier.t) : bool :=
  String.eqb (PolicyTier.PolicyID t) policyID && (PolicyTier.TierNumber t =? n).

Definition has_tier (tiers : list PolicyTier.t) (policyID : string) (n : Z) : Prop :=
  exists t, t ∈ tiers /\ tier_of policyID n t = true.

(** How a row can have moved: an active one went up through consecutive tiers of
    its policy, and is exhausted only where there is no next one. *)
Definition climbed (tiers : list PolicyTier.t) (s s' : EscalationState.t) : Prop :=
  EscalationState.ID s' = EscalationState.ID s /\ EscalationState.IncidentID s' = EscalationState.IncidentID s
  /\ EscalationState.PolicyID s' = EscalationState.PolicyID s
  /\ EscalationState.CurrentTier s <= EscalationState.CurrentTier s'
  /\ (forall n, EscalationState.CurrentTier s < n <= EscalationState.CurrentTier s' ->
        has_tier tiers (EscalationState.PolicyID s) n)
  /\ (active s' = true \/
      EscalationState.Status s' = "exhausted"
      /\ ~ has_tier tiers (EscalationState.PolicyID s) (EscalationState.CurrentTier s' + 1)).

Definition moved (tiers : list PolicyTier.t) (s s' : EscalationState.t) : Prop :=
  s' = s \/ (active s = true /\ climbed tiers s s').

(** The rows hold what the column types hold. *)
Record columns_hold `{Platform} (w : world db) : Prop := {
  ch_unique : unique_rows (data w);
  ch_fresh : fresh_history w;
  ch_rows : forall s, s ∈ states (data w) ->
    uuid_ok (EscalationState.ID s) = true /\ uuid_ok (EscalationState.PolicyID s) = true
    /\ int4_ok (EscalationState.CurrentTier s) = true;
  ch_tiers : forall t, t ∈ policy_tiers (data w) -> int4_ok (PolicyTier.TierNumber t) = true
}.

(** No tier has the last number an [int4] column holds: there the monitor's query
    for the next tier fails, and the escalation is never exhausted. *)
Definition below_last_tier (d : db) : Prop :=
  (forall s, s ∈ states d -> EscalationState.CurrentTier s < 2 ^ 31 - 1)
  /\ (forall t, t ∈ policy_tiers d -> PolicyTier.TierNumber t < 2 ^ 31 - 1).

(** Both. *)
Record stored `{Platform} (w : world db) : Prop := {
  st_unique : unique_rows (data w);
  st_fresh : fresh_history w;
  st_rows : forall s, s ∈ states (data w) ->
    uuid_ok (EscalationState.ID s) = true /\ uuid_ok (EscalationState.PolicyID s) = true
    /\ - 2 ^ 31 <= EscalationState.CurrentTier s < 2 ^ 31 - 1;
  st_tiers : forall t, t ∈ policy_tiers (data w) -> - 2 ^ 31 <= PolicyTier.TierNumber t < 2 ^ 31 - 1
}.

(** The clock passes every instant and stays behind it. *)
Definition clock_advances `{Platform} : Prop :=
  forall deadline, exists t0, forall t, (t0 <= t)%nat -> deadline <= now_at t.

(** ** What is left to climb *)

Definition above (s : EscalationState.t) (t : PolicyTier.t) : bool :=
  String.eqb (PolicyTier.PolicyID t) (EscalationState.PolicyID s)
  && (EscalationState.CurrentTier s <? PolicyTier.TierNumber t).

Definition left_of (tiers : list PolicyTier.t) (s : EscalationState.t) : nat :=
  if active s then S (length (List.filter (above s) tiers)) else 0.

Definition left_all (d : db) : nat := list_sum (map (left_of (policy_tiers d)) (states d)).

(** ** Lemmas *)

Lemma columns_stored `{Platform} (w : world db) : columns_hold w -> below_last_tier (data w) -> stored w.
Proof.
  intros [Hu Hf Hr Ht] [Hs Hp]. split; [done|done|..].
  - intros s Hin. destruct (Hr s Hin) as (? & ? & Hi). specialize (Hs s Hin). split; [done|]. split; [done|].
    unfold int4_ok in Hi. lia.
  - intros t Hin. specialize (Ht t Hin). specialize (Hp t Hin). unfold int4_ok in Ht. lia.
Qed.

Lemma has_tier_find tiers policyID n :
  match find (tier_of policyID n) tiers with Some _ => has_tier tiers policyID n | None => ~ has_tier tiers policyID n end.
Proof.
  destruct (find _ _) as [t|] eqn:Ef; [exists t; by apply find_elem|].
  intros (t & Ht & Hp). rewrite find_none_iff in Ef. by rewrite Ef in Hp.
Qed.

#[local] Instance moved_PreOrder tiers : PreOrder (moved tiers).
Proof.
  split; [by left|]. intros s1 s2 s3 [->|[A1 C1]] [->|[A2 C2]]; [by left|by right|by right|right].
  split; [done|]. destruct C1 as (I1 & N1 & P1 & L1 & H1 & _), C2 as (I2 & N2 & P2 & L2 & H2 & E2).
  rewrite P1 in *. split_and!; [congruence..|lia| |done].
  intros n Hn. destruct (decide (n <= EscalationState.CurrentTier s2)); [apply H1|apply H2]; lia.
Qed.

(** Fewer tiers are above a later tier. *)
Lemma filter_fewer {A} (p q : A -> bool) l x :
  (forall y, p y = true -> q y = true) -> x ∈ l -> p x = false -> q x = true ->
  (length (List.filter p l) < length (List.filter q l))%nat.
Proof.
  intros Hpq Hx Hp Hq.
  assert (forall k, (length (List.filter p k) <= length (List.filter q k))%nat) as Hle.
  { induction k as [|y k IH]; [done|]. simpl. specialize (Hpq y). destruct (p y), (q y); simpl; lia. }
  induction l as [|y l IH]; [by apply not_elem_of_nil in Hx|]. simpl. apply elem_of_cons in Hx as [->|Hx].
  - rewrite Hp, Hq. simpl. specialize (Hle l). lia.
  - specialize (IH Hx). specialize (Hpq y). destruct (p y), (q y); simpl; lia.
Qed.

Lemma put_row_other s' l :
  (forall y, y ∈ l -> EscalationState.ID y <> EscalationState.ID s') -> put_row s' l = l.
Proof.
  intros Hl. induction l as [|x l IH]; [done|]. simpl. rewrite (proj2 (String.eqb_neq _ _)) by (apply Hl; by left).
  f_equal. apply IH. intros y Hy. apply Hl. by right.
Qed.

(** Putting a row in place changes its share of a sum. *)
Lemma put_row_sum (f : EscalationState.t -> nat) s s' l :
  NoDup (map EscalationState.ID l) -> s ∈ l -> EscalationState.ID s' = EscalationState.ID s ->
  (list_sum (map f (put_row s' l)) + f s = list_sum (map f l) + f s')%nat.
Proof.
  intros Hn Hs Hid. induction l as [|x l IH]; [by apply not_elem_of_nil in Hs|].
  simpl in *. apply NoDup_cons in Hn as [Hx Hn].
  assert (forall y, y ∈ l -> EscalationState.ID y <> EscalationState.ID x) as Hne.
  { intros y Hy E. apply Hx. rewrite <- E. by apply list_elem_of_fmap_2. }
  apply elem_of_cons in Hs as [->|Hs].
  - rewrite Hid, String.eqb_refl. fold (put_row s' l). rewrite put_row_other by (intros y Hy; rewrite Hid; by apply Hne). lia.
  - rewrite (proj2 (String.eqb_neq _ _)) by (rewrite Hid; intros E; by apply (Hne s Hs); symmetry).
    fold (put_row s' l). specialize (IH Hn Hs). lia.
Qed.

Lemma put_row_Forall2 (R : EscalationState.t -> EscalationState.t -> Prop) s s' l :
  (forall x, R x x) -> NoDup (map EscalationState.ID l) -> s ∈ l -> EscalationState.ID s' = EscalationState.ID s -> R s s' ->
  Forall2 R l (put_row s' l).
Proof.
  intros Hr Hn Hs Hid Hss. apply Forall2_fmap_r, Forall_Forall2_diag, Forall_forall. intros x Hx. simpl.
  destruct (String.eqb_spec (EscalationState.ID x) (EscalationState.ID s')) as [E|]; [|apply Hr].
  by rewrite <- (NoDup_map_inj EscalationState.ID l s x) by congruence.
Qed.

Lemma put_row_ids s s' d d' :
  unique_rows d -> s ∈ states d -> EscalationState.ID s' = EscalationState.ID s ->
  EscalationState.IncidentID s' = EscalationState.IncidentID s -> states d' = put_row s' (states d) -> ids d' = ids d.
Proof.
  intros [Hn _] Hs Hid Hinc E. unfold ids, put_row in *. rewrite E, map_map. apply map_ext_in.
  intros x Hx%list_elem_of_In. destruct (String.eqb_spec (EscalationState.ID x) (EscalationState.ID s')) as [Ex|]; [|done].
  rewrite Hid, Hinc. by rewrite (NoDup_map_inj EscalationState.ID (states d) s x) by congruence.
Qed.

Lemma put_row_elem s' l x :
  x ∈ put_row s' l -> x = s' \/ x ∈ l.
Proof.
  intros (y & -> & Hy)%list_elem_of_fmap. destruct (String.eqb _ _); [by left|by right].
Qed.

Lemma put_row_keeps s' l x :
  x ∈ l -> EscalationState.ID x <> EscalationState.ID s' -> x ∈ put_row s' l.
Proof.
  intros Hx Hne. apply list_elem_of_fmap. exists x. by rewrite (proj2 (String.eqb_neq _ _) Hne).
Qed.

Lemma NoDup_map_filter {A B} (f : A -> B) (p : A -> bool) l :
  NoDup (map f l) -> NoDup (map f (List.filter p l)).
Proof.
  induction l as [|x l IH]; [done|]. simpl. intros [Hx Hn]%NoDup_cons. destruct (p x); [|by apply IH].
  simpl. apply NoDup_cons. split; [|by apply IH].
  intros (y & E & [Hy _]%list_elem_of_In%filter_In)%list_elem_of_fmap. apply Hx. rewrite E.
  apply list_elem_of_fmap_2. by apply list_elem_of_In.
Qed.

Lemma elem_of_take_sub {A} (x : A) n l : x ∈ take n l -> x ∈ l.
Proof. intros Hx. rewrite <- (take_drop n l). apply elem_of_app. by left. Qed.

(** A later version of a row has less to climb. *)
Lemma left_climbs tiers s s' :
  active s = true -> EscalationState.PolicyID s' = EscalationState.PolicyID s ->
  (active s' = true /\ EscalationState.CurrentTier s' = EscalationState.CurrentTier s + 1
     /\ has_tier tiers (EscalationState.PolicyID s) (EscalationState.CurrentTier s + 1)) \/ active s' = false ->
  (left_of tiers s' < left_of tiers s)%nat.
Proof.
  unfold left_of. intros -> Hp [(-> & Ht & (t & Hin & [Hpt%String.eqb_eq Hn%Z.eqb_eq]%andb_prop))| ->]; [|lia].
  apply -> Nat.succ_lt_mono. apply (filter_fewer _ _ _ t); [|done|..]; unfold above; rewrite ?Hp, ?Ht.
  - intros y [-> Hy%Z.ltb_lt]%andb_prop. apply Z.ltb_lt. lia.
  - rewrite Hn, Z.ltb_irrefl. apply andb_false_r.
  - rewrite Hpt, String.eqb_refl. apply Z.ltb_lt. lia.
Qed.

Lemma left_all_none d s : left_all d = 0%nat -> s ∈ states d -> active s = false.
Proof.
  unfold left_all. intros Hz Hs. destruct (active s) eqn:Ea; [|done]. exfalso.
  induction (states d) as [|x l IH]; [by apply not_elem_of_nil in Hs|]. simpl in Hz.
  apply elem_of_cons in Hs as [<-|Hs]; [|apply IH; [lia|done]]. unfold left_of in Hz. rewrite Ea in Hz. lia.
Qed.

(** The rows one by one, between the start and the end of a part of a run. *)
Definition progress (w w' : world db) : Prop :=
  policy_tiers (data w') = policy_tiers (data w) /\ onward w w'
  /\ Forall2 (moved (policy_tiers (data w))) (states (data w)) (states (data w')).

#[local] Instance progress_PreOrder : PreOrder progress.
Proof.
  split.
  - intros w. split; [done|]. split; [done|]. induction (states (data w)); by constructor.
  - intros w1 w2 w3 (E & L & F) (E' & L' & F'). split; [congruence|]. split; [by etransitivity|].
    rewrite E in F'. revert F'. generalize (states (data w3)).
    induction F as [|x y l1 l2 Hxy _ IH]; intros l3 F'; inversion F'; subst; constructor; [by etransitivity|by apply IH].
Qed.

Section Monitor.
Context `{Platform} `{TimeText} `{HttpEnv}.
Variable sched : Client.
Hypothesis Hrel : reliable.
Hypothesis Hinj : Inj eq eq uuid_at.

#[local] Existing Instance Publisher.

(** One advance of an active row. *)
Lemma advance_climbs s w :
  stored w -> s ∈ states (data w) -> active s = true ->
  exists w', run (AdvanceOrExhaust sched s) w = (Ok tt, w') /\ stored w' /\ progress w w'
    /\ (left_all (data w') < left_all (data w))%nat
    /\ (forall x, x ∈ states (data w) -> EscalationState.ID x <> EscalationState.ID s -> x ∈ states (data w')).
Proof.
  intros [Hun Hf Hrows Htiers] Hs Ha. destruct (Hrows s Hs) as (Hu & Hp & Ht).
  destruct (run_AdvanceOrExhaust sched s w) as (w' & now & tier & status & at_ & Hrun & Hst & Hg & Hm);
    [done..|unfold int4_ok; lia|unfold int4_ok; lia|done|].
  set (s' := EscalationState.set_UpdatedAt now _) in *. exists w'. split; [done|].
  pose proof (has_tier_find (policy_tiers (data w)) (EscalationState.PolicyID s) (EscalationState.CurrentTier s + 1)) as Hh.
  pose proof Hg as (L & Et & _ & _). unfold tier_of in Hh.
  assert (climbed (policy_tiers (data w)) s s') as Hc.
  { do 3 (split; [done|]). destruct (find _ _); [destruct Hm as (-> & -> & _)|destruct Hm as (-> & -> & _)]; simpl.
    - split; [lia|]. split; [|by left]. intros n Hn. replace n with (EscalationState.CurrentTier s + 1) by lia. done.
    - split; [lia|]. split; [lia|by right]. }
  split_and!.
  - split.
    + apply (unique_rows_ids (data w)); [|done]. by apply (put_row_ids s s').
    + by eapply grows_fresh.
    + intros x. rewrite Hst. intros [->|Hx]%put_row_elem; [|by apply Hrows]. split; [done|]. split; [done|].
      change (EscalationState.CurrentTier s') with tier. destruct (find _ _); [destruct Hm as (_ & -> & _)|by destruct Hm as (_ & -> & _)].
      destruct Hh as (nt & Hin & [_ <-%Z.eqb_eq]%andb_prop). by apply Htiers.
    + by rewrite Et.
  - split; [done|]. split; [done|]. rewrite Hst. eapply put_row_Forall2; [by left|apply Hun|done|done|by right].
  - unfold left_all. rewrite Hst, Et.
    pose proof (put_row_sum (left_of (policy_tiers (data w))) s s' (states (data w)) (proj1 Hun) Hs eq_refl).
    enough (left_of (policy_tiers (data w)) s' < left_of (policy_tiers (data w)) s)%nat by lia.
    apply left_climbs; [done|done|]. destruct (find _ _); [destruct Hm as (-> & -> & _)|destruct Hm as (-> & -> & _)]; [by left|by right].
  - intros x Hx Hne. rewrite Hst. by apply put_row_keeps.
Qed.

(** The monitor's loop over the rows it read. *)
Lemma monitor_loop l w :
  stored w -> NoDup (map EscalationState.ID l) -> (forall s, s ∈ l -> s ∈ states (data w) /\ active s = true) ->
  exists w', run (for_each l (fun st => let! _ := AdvanceOrExhaust sched st in Ret tt)) w = (tt, w')
    /\ stored w' /\ progress w w' /\ (left_all (data w') + length l <= left_all (data w))%nat.
Proof.
  revert w. induction l as [|s l IH]; intros w Hw Hn Hl.
  { exists w. split; [done|]. split; [done|]. split; [done|]. simpl. lia. }
  simpl in Hn. apply NoDup_cons in Hn as [Hs Hn]. destruct (Hl s) as [Hin Ha]; [by left|].
  destruct (advance_climbs s w Hw Hin Ha) as (w1 & Hr1 & Hw1 & Hp1 & Hlt & Hkeep).
  destruct (IH w1 Hw1 Hn) as (w2 & Hr2 & Hw2 & Hp2 & Hle).
  { intros x Hx. destruct (Hl x) as [Hxin Hxa]; [by right|]. split; [|done]. apply Hkeep; [done|].
    intros E. apply Hs. rewrite <- E. by apply list_elem_of_fmap_2. }
  exists w2. cbn [for_each]. rewrite run_bind, run_bind, Hr1. cbn [run]. rewrite Hr2. split; [done|]. split; [done|].
  split; [by etransitivity|]. simpl. lia.
Qed.

Definition due (now : Time) (s : EscalationState.t) : bool :=
  String.eqb (EscalationState.Status s) "active" && (EscalationState.EscalateAt s <=? now).

(** One tick: something was due and there is less left, or nothing moved. *)
Lemma run_step w :
  stored w ->
  exists w', run (step sched) w = (tt, w') /\ stored w' /\ progress w w' /\ (tick w < tick w')%nat
    /\ ((left_all (data w') < left_all (data w))%nat
        \/ data w' = data w /\ forall s, s ∈ states (data w) -> due (now_at (tick w)) s = false).
Proof.
  intros Hw. unfold step, ListExpiredStates. rewrite run_bind, run_bind, run_sql_ok by (apply Hrel || done). cbn [run].
  fold (due (now_at (tick w))). set (all := merge_sort by_escalate_at (List.filter (due (now_at (tick w))) (states (data w)))).
  assert (all ≡ₚ List.filter (due (now_at (tick w))) (states (data w))) as Hall by apply merge_sort_Permutation.
  assert (NoDup (map EscalationState.ID all)) as Hnd.
  { rewrite (Permutation_map EscalationState.ID Hall). apply NoDup_map_filter, Hw. }
  assert (stored (World (S (tick w)) (data w))) as Hw0.
  { destruct Hw as [? Hf ? ?]. split; try done. intros t h Ht. apply Hf. simpl in Ht. lia. }
  destruct (monitor_loop (take 50 all) (World (S (tick w)) (data w)) Hw0) as (w' & Hr & Hw' & Hp & Hle).
  - rewrite <- (take_drop 50 all), map_app in Hnd. by apply NoDup_app in Hnd as [? _].
  - intros s Hs%elem_of_take_sub. rewrite Hall in Hs.
    apply list_elem_of_In, filter_In in Hs as [Hs [Ha _]%andb_prop]. split; [by apply list_elem_of_In|done].
  - exists w'. split; [exact Hr|]. split; [done|]. destruct Hp as (E & L & F). unfold onward in L. simpl in L.
    split; [split; [done|split; [unfold onward; lia|done]]|]. split; [lia|].
    destruct all as [|s l] eqn:Eall.
    + right. simpl in Hr. injection Hr as <-. split; [done|]. intros s Hs. apply not_true_is_false. intros Hd.
      assert (s ∈ @nil EscalationState.t) as Hin; [|by apply not_elem_of_nil in Hin].
      rewrite Hall. apply list_elem_of_In, filter_In. by rewrite <- list_elem_of_In.
    + left. simpl in Hle. lia.
Qed.


(** Time alone keeps what is stored. *)
Lemma stored_later t (w : world db) : (tick w <= t)%nat -> stored w -> stored (World t (data w)).
Proof.
  intros Ht [? Hf ? ?]. split; try done. intros t' h Ht'. apply Hf. simpl in Ht'. lia.
Qed.

Hypothesis Hgoes : forall t, done_at t = false.
Hypothesis Hclock : clock_advances.
Variable interval : Duration.

Lemma run_monitor_S n w :
  run (monitor_Run sched (S n) interval) w =
    run (monitor_Run sched n interval) (run (step sched) (World (S (tick w)) (data w))).2.
Proof.
  cbn [monitor_Run]. rewrite run_bind. cbn [run sleep_or_Done]. rewrite Hgoes, run_bind.
  by destruct (run (step sched) _).
Qed.

(** After a number of ticks something due is found. *)
Lemma monitor_finds k s t0 w :
  stored w -> s ∈ states (data w) -> active s = true ->
  (forall t, (t0 <= t)%nat -> EscalationState.EscalateAt s <= now_at t) -> (t0 <= tick w + k)%nat ->
  exists n w', (forall m, run (monitor_Run sched (n + m) interval) w = run (monitor_Run sched m interval) w')
    /\ stored w' /\ progress w w' /\ (left_all (data w') < left_all (data w))%nat.
Proof.
  intros Hw Hs Ha Ht. revert w Hw Hs. induction k as [|k IH]; intros w Hw Hs Hk.
  all: destruct (run_step (World (S (tick w)) (data w)) (stored_later (S (tick w)) w ltac:(lia) Hw))
    as (w1 & Hr & Hw1 & (E1 & L1 & F1) & Hlt & Hm); cbn [tick data] in *.
  all: assert (progress w w1) as Hp1 by (split; [done|split; [unfold onward; lia|done]]).
  all: assert (forall m, run (monitor_Run sched (S m) interval) w = run (monitor_Run sched m interval) w1) as Hrun
    by (intros m; by rewrite run_monitor_S, Hr).
  all: destruct Hm as [Hm|[Ed Hm]]; [by exists 1%nat, w1|].
  - exfalso. specialize (Hm s Hs). unfold due in Hm. unfold active in Ha. rewrite Ha in Hm.
    apply Z.leb_gt in Hm. specialize (Ht (S (tick w)) ltac:(lia)). lia.
  - destruct (IH w1 Hw1) as (n & w2 & Hr2 & Hw2 & Hp2 & Hl2); [by rewrite Ed|lia|].
    exists (S n), w2. split; [intros m; by rewrite Nat.add_succ_l, Hrun|]. split; [done|].
    split; [by etransitivity|by rewrite <- Ed].
Qed.

(** In the end nothing is active. *)
Lemma monitor_ends w :
  stored w ->
  exists n w', (forall m, run (monitor_Run sched (n + m) interval) w = run (monitor_Run sched m interval) w')
    /\ stored w' /\ progress w w' /\ left_all (data w') = 0%nat.
Proof.
  remember (left_all (data w)) as k eqn:Ek. revert w Ek.
  induction k as [k IH] using lt_wf_ind. intros w -> Hw.
  destruct (find active (states (data w))) as [s|] eqn:Ef.
  - apply find_elem in Ef as [Hs Ha]. destruct (Hclock (EscalationState.EscalateAt s)) as [t0 Ht0].
    destruct (monitor_finds t0 s t0 w Hw Hs Ha Ht0) as (n & w1 & Hr & Hw1 & Hp1 & Hlt); [lia|].
    destruct (IH _ Hlt w1 eq_refl Hw1) as (n' & w2 & Hr' & Hw2 & Hp2 & Hz).
    exists (n + n')%nat, w2. split; [intros m; by rewrite <- Nat.add_assoc, Hr, Hr'|]. split; [done|].
    split; [by etransitivity|done].
  - exists 0%nat, w. split; [done|]. split; [done|]. split; [done|]. rewrite find_none_iff in Ef. unfold left_all.
    clear - Ef. induction (states (data w)) as [|x l IH]; [done|]. simpl. unfold left_of at 1.
    rewrite Ef by (by left). apply IH. intros y Hy. apply Ef. by right.
Qed.

(** Then the monitor changes nothing any more. *)
Lemma monitor_idles m w :
  stored w -> left_all (data w) = 0%nat ->
  exists w', run (monitor_Run sched m interval) w = (None, w') /\ data w' = data w.
Proof.
  revert w. induction m as [|m IH]; intros w Hw Hz; [by exists w|].
  destruct (run_step (World (S (tick w)) (data w)) (stored_later (S (tick w)) w ltac:(lia) Hw))
    as (w1 & Hr & Hw1 & _ & _ & [Hlt|[Ed _]]); cbn [tick data] in *; [lia|].
  destruct (IH w1 Hw1) as (w2 & Hr2 & Ed2); [by rewrite Ed|].
  exists w2. rewrite run_monitor_S, Hr. split; [done|congruence].
Qed.

End Monitor.

(** ** Property *)


(** *** Witness: an escalation through the two tiers of its policy *)

Lemma demo_clock_advances : @clock_advances (demo_platform []).
Proof. intros deadline. exists (Z.to_nat deadline). intros t Ht. cbn. unfold Second. lia. Qed.

Definition quick_db : db :=
  Db (policies demo_db) [PolicyTier.mk "t1" "p1" 1 4 "sch1"; PolicyTier.mk "t2" "p1" 2 4 "sch1"] [demo_state] [] []
     (broker demo_db).

Lemma demo_below : below_last_tier quick_db.
Proof.
  split; [by intros s ->%list_elem_of_singleton|].
  intros t Ht. cbn in Ht. rewrite !elem_of_cons in Ht. by destruct Ht as [->|[->|Ht%not_elem_of_nil]].
Qed.

Lemma demo_columns : @columns_hold (demo_platform []) (World 0 quick_db).
Proof.
  split; [exact demo_unique_rows|..].
  - intros t h _ Hh. by apply not_elem_of_nil in Hh.
  - intros s ->%list_elem_of_singleton. by split_and!.
  - intros t Ht. cbn in Ht. rewrite !elem_of_cons in Ht. by destruct Ht as [->|[->|Ht%not_elem_of_nil]].
Qed.

