(* ===== verification/EscalationFairness.v ===== *)
(** * Escalation: every escalation ends, next to everything else

    The monitor of services/escalation/internal/monitor in a fair execution of the
    service: deliveries, requests and other monitors come, run and go meanwhile. *)

From S2P Require Import Prelude Effects Json Events Interleaving Fairness Amqp Messages Http EscalationStore Escalator EscalationHandler EscalationSafety EscalationProps EscalationLiveness.
Open Scope go_scope.

Section Monitor.
Context `{Platform} `{TimeText} `{HttpEnv}.
Variable sched : Client.
Variable incident : option Client.
Variable interval : Duration.

#[local] Existing Instance Publisher.

(** One round of [Run]; it answers whether the context is cancelled. *)
Definition monitor_round : M db bool :=
  let! stop := sleep_or_Done interval in
  if stop : bool then Ret true
  else
    let! _ := step sched in
    Ret false.

Lemma monitor_rounds n w :
  run (monitor_Run sched (S n) interval) w =
    let '(stop, w') := run monitor_round w in
    if stop then (Some tt, w') else run (monitor_Run sched n interval) w'.
Proof.
  cbn [monitor_Run]. unfold monitor_round. rewrite !run_bind. cbn [run sleep_or_Done].
  destruct (done_at (tick w)); [done|]. rewrite !run_bind. by destruct (run (step sched) _).
Qed.

(** What the column types and the generation of identifiers give, and a backlog
    that one tick can take. *)
Record sound_store (w : world db) : Prop := {
  so_rows : forall s, s ∈ states (data w) ->
    uuid_ok (EscalationState.ID s) = true /\ uuid_ok (EscalationState.PolicyID s) = true
    /\ int4_ok (EscalationState.CurrentTier s) = true;
  so_fresh : fresh_history w;
  so_backlog : (length (List.filter (due (now_at (tick w))) (states (data w))) <= 50)%nat
}.

(** ** One round moves a due escalation *)

Definition here (s : EscalationState.t) (d : db) : Prop :=
  exists s', row_of (EscalationState.IncidentID s) d = Some s' /\ le_row s s'.

Definition past (s : EscalationState.t) (d : db) : Prop :=
  exists s', row_of (EscalationState.IncidentID s) d = Some s' /\ le_row s s'
    /\ (active s' = false \/ EscalationState.CurrentTier s < EscalationState.CurrentTier s').

Lemma row_of_le d d' i s : leD d d' -> row_of i d = Some s -> exists s', row_of i d' = Some s' /\ le_row s s'.
Proof.
  intros (l1 & l2 & E & F). unfold row_of. rewrite E. clear E.
  induction F as [|x y l l' Hxy _ IH]; simpl; [done|]. pose proof Hxy as (_ & Hi & _). rewrite Hi.
  destruct (String.eqb _ i); [|done]. intros [= ->]. by exists y.
Qed.

Lemma here_stable s d d' : leD d d' -> here s d -> here s d'.
Proof.
  intros Hle (s1 & Hr & Hs). destruct (row_of_le _ _ _ _ Hle Hr) as (s2 & Hr2 & Hs2).
  exists s2. split; [done|]. by transitivity s1.
Qed.

Lemma past_stable s d d' : leD d d' -> past s d -> past s d'.
Proof.
  intros Hle (s1 & Hr & Hs & Hp). destruct (row_of_le _ _ _ _ Hle Hr) as (s2 & Hr2 & Hs2).
  exists s2. split; [done|]. split; [by transitivity s1|]. destruct Hs2 as (_ & _ & _ & Ha & _).
  destruct (active s2); [|by left]. destruct (Ha eq_refl) as [Ha1 [->|?]]; [|right];
    (destruct Hp as [Hp|?]; [congruence|try (by right); lia]).
Qed.

(** An escalation is where it was, or past it. *)
Lemma here_or_past s d : here s d -> row_of (EscalationState.IncidentID s) d = Some s \/ past s d.
Proof.
  intros (s' & Hr & Hs). pose proof Hs as (_ & _ & _ & Ha & _). destruct (active s') eqn:E.
  - destruct (Ha eq_refl) as [_ [->|?]]; [by left|]. right. exists s'. split; [done|]. split; [done|by right].
  - right. exists s'. split; [done|]. split; [done|by left].
Qed.

Hypothesis Hrel : reliable.
Hypothesis Hgoes : forall t, done_at t = false.

Variable s : EscalationState.t.
Hypothesis Hact : active s = true.
Hypothesis Hid : uuid_ok (EscalationState.ID s) = true.
Hypothesis Hpol : uuid_ok (EscalationState.PolicyID s) = true.
Hypothesis Htier : int4_ok (EscalationState.CurrentTier s) = true.
Hypothesis Hnext : int4_ok (EscalationState.CurrentTier s + 1) = true.

(** At each step of the monitor: the deadline of [s] has passed. *)
Definition overdue (w : world db) : Prop :=
  unique_rows (data w) /\ sound_store w /\ EscalationState.EscalateAt s <= now_at (tick w).

Local Abbreviation promises p d Q := (promise leD overdue p d Q).

Lemma promises_read {A} (g : world db -> A) d (Q : A -> db -> Prop) :
  (forall w d', leD d d' -> Q (g w) d') ->
  promises (Atomic (fun w => (g w, World (S (tick w)) (data w))) Ret) d Q.
Proof. intros HQ w Hle _ _ d' Hle'. apply HQ. by transitivity (data w). Qed.

Lemma promises_past {A} (p : M db A) d : past s d -> promises p d (fun _ => past s).
Proof. apply (promise_stable leD overdue p d (past s)), past_stable. Qed.

Lemma AdvanceEscalationState_past st hist d :
  EscalationState.ID st = EscalationState.ID s -> int4_ok (EscalationState.CurrentTier st) = true ->
  (EscalationState.Status st = "exhausted" /\ EscalationState.CurrentTier s <= EscalationState.CurrentTier st)
    \/ (active st = true /\ EscalationState.CurrentTier s < EscalationState.CurrentTier st) ->
  match hist with Some h => EscalationHistory.Tier h = Some (EscalationState.CurrentTier s) | None => True end ->
  here s d ->
  promises (AdvanceEscalationState st (EscalationState.CurrentTier s) "active" hist) d (fun _ => past s).
Proof.
  intros Ei I1 Hm Hh Hhere. pose (p := AdvanceEscalationState st (EscalationState.CurrentTier s) "active" hist).
  assert (forall w, leD d (data w) -> overdue w -> leD (data w) (data (run p w).2) -> past s (data (run p w).2)) as Hp.
  { intros w Hle (Hun & [Hrows Hfr _] & _) Hop.
    destruct (here_or_past s (data w)) as [Hr|Hp]; [by apply (here_stable s d)| |by apply (past_stable s (data w))].
    pose proof Hr as [Hs _]%find_elem.
    assert (guard st (EscalationState.CurrentTier s) "active" s = true) as Hg.
    { unfold guard. rewrite Ei, String.eqb_refl, Z.eqb_refl. exact Hact. }
    destruct (AdvanceEscalationState_ok st s (EscalationState.CurrentTier s) hist w) as (now & w' & Er & Es & _);
      [done|by rewrite Ei|done..|].
    unfold p. rewrite Er. simpl. unfold past, row_of. rewrite Es. fold (row_of (EscalationState.IncidentID s)).
    change (find _ (states ?x)) with (row_of (EscalationState.IncidentID s) x).
    rewrite row_of_update, Hr. cbn [fmap option_fmap option_map]. rewrite Hg.
    eexists. split; [reflexivity|]. split.
    - apply (le_row_update s st now). destruct Hm as [Hm|Hm]; left; auto.
    - unfold active. cbn. destruct Hm as [[-> _]|[_ Hm]]; [by left|by right]. }
  unfold p, AdvanceEscalationState, withTx in *.
  apply promise_atomic. intros w d' Hle Hg Hop Hle'. apply (past_stable s _ _ Hle'). by apply Hp.
Qed.

Lemma AdvanceOrExhaust_past d : here s d -> promises (AdvanceOrExhaust sched s) d (fun _ => past s).
Proof.
  intros Hd. unfold AdvanceOrExhaust. cbv zeta. apply (promise_bind leD overdue). unfold GetTierByNumber.
  rewrite (int64_id (EscalationState.CurrentTier s + 1)) by eauto with oncall.
  apply (promise_sql leD overdue); [done|simpl; by rewrite Hpol|..]; intros w; rewrite Hnext; cbn [negb].
  - intros tier d' Hle Hg Hle' Hf. destruct (find _ _) as [t|] eqn:Ef; [|done]. injection Hf as -> <-.
    apply find_elem in Ef as [_ [_ Ht%Z.eqb_eq]%andb_prop].
    intros d1 Hle1. assert (here s d1) as Hd1 by (eapply here_stable; [exact Hle1|]; by apply (here_stable s d)).
    apply (promise_bind leD overdue), promises_read. intros w2 d2 Hle2.
    apply (promise_bind leD overdue). eapply (promise_mono leD overdue); [|apply AdvanceEscalationState_past; simpl; rewrite ?Ht; try done].
    + intros r d3 Hd3. by apply promises_past.
    + right. split; [unfold active in *; cbn; by rewrite ?Hact|lia].
    + by apply (here_stable s d1).
  - intros e Hle Hg Hf. destruct (find _ _) eqn:Ef; [done|]. injection Hf as <-. cbn [errors_Is].
    intros d1 Hle1. assert (here s d1) as Hd1 by (eapply here_stable; [exact Hle1|]; by apply (here_stable s d)).
    change (errors_Is ErrNotFound ErrNotFound) with true. cbv iota.
    apply (promise_bind leD overdue), promises_read. intros w2 d2 Hle2.
    apply (promise_bind leD overdue). eapply (promise_mono leD overdue); [|apply AdvanceEscalationState_past; simpl; try done].
    + intros r d3 Hd3. by apply promises_past.
    + left. split; [done|cbn; lia].
    + by apply (here_stable s d1).
Qed.

Lemma round_past d : here s d -> promises monitor_round d (fun _ => past s).
Proof.
  intros Hd. unfold monitor_round. apply (promise_bind leD overdue), promises_read. intros w0 d0 Hle0. rewrite Hgoes.
  apply (here_stable s) in Hle0 as Hd0; [|done]. apply (promise_bind leD overdue). unfold step, ListExpiredStates.
  apply (promise_mono leD overdue _ _ (fun _ => past s)); [intros a d1 Hd1; by apply promises_past|].
  apply (promise_bind leD overdue), (promise_bind leD overdue), (promise_sql leD overdue); [done|done|..]; intros w.
  - intros l d' Hle Hg Hle' Hf. fold (due (now_at (tick w))) in Hf. injection Hf as <- <-.
    destruct (here_or_past s (data w)) as [Hr|Hp]; [by apply (here_stable s d0)| |].
    + intros d1 Hle1. apply promise_ret. intros d2 Hle2. cbn [promise].
      destruct Hg as (_ & [_ _ Hb] & Hdue). pose proof Hr as [Hs _]%find_elem.
      eapply (promise_for_each leD overdue _ _ _ s (past s)); [apply past_stable| |].
      * rewrite take_ge by (by rewrite (Permutation_length (merge_sort_Permutation by_escalate_at _))).
        rewrite (merge_sort_Permutation by_escalate_at). apply list_elem_of_In, filter_In.
        split; [by apply list_elem_of_In|]. unfold due. unfold active in Hact. rewrite Hact. by apply Z.leb_le.
      * intros d3 Hle3. apply (promise_bind leD overdue). eapply (promise_mono leD overdue); [|apply AdvanceOrExhaust_past].
        -- intros r d4 Hd4. by apply promises_past.
        -- eapply here_stable; [exact Hle3|]. eapply here_stable; [exact Hle2|].
           eapply here_stable; [exact Hle1|]. by exists s.
    + intros d1 Hle1. apply promise_ret. intros d2 Hle2. apply promises_past.
      apply (past_stable s d1); [done|]. by apply (past_stable s (data w)).
  - done.
Qed.
End Monitor.

(** ** In a fair execution *)

Section Execution.
Context `{Platform} `{TimeText} `{HttpEnv}.
Variable sched : Client.
Variable incident : option Client.
Variable interval : Duration.

#[local] Existing Instance Publisher.

Hypothesis Hrel : reliable.
Hypothesis Hgoes : forall t, done_at t = false.

#[local] Instance laws : PublisherLaws 3 := Publisher_laws 3 (fun ex key b => Publish_budget ex key b).

Local Abbreviation verified := (verified (le_world leD) (inv_world unique_rows) (pot_world (potential 3))).

Lemma round_verified w c : verified w (monitor_round sched interval) c.
Proof.
  eapply wp_mono; [|apply (wp_start leD unique_rows (potential 3)) with (Q := fun _ _ _ => True)]; [done|].
  unfold monitor_round. apply wpD_bind, (wpD_read leD unique_rows (potential 3)). intros [] d Hle; [by apply wpD_ret|].
  apply wpD_bind. eapply wpD_mono; [|by apply (step_safe 3)]. intros [] c' d' Hd. by apply wpD_ret.
Qed.

Lemma program_verified p w : service_program sched incident p -> exists c, verified w p c.
Proof.
  intros Hp. exists (fun _ => 0%nat).
  eapply wp_mono; [|apply wp_start; by apply (service_program_safe sched incident 3)]. done.
Qed.

Lemma round_goes_on : always (monitor_round sched interval) (fun b => b = false).
Proof.
  unfold monitor_round. apply (always_bind _ _ (fun stop => stop = false)); [intros w; apply Hgoes|].
  intros stop ->. by apply always_any.
Qed.

Variable σ : nat -> service (D := db).
Variable who : nat -> bool.
Hypothesis Hex : execution (monitor_round sched interval) (service_program sched incident) σ who.
Hypothesis Hfair : fair who.
Hypothesis Htime : time_passes σ.
Hypothesis Hloop : loop (σ 0%nat) = Ret false.
Hypothesis Hothers : others (σ 0%nat) = [].
Hypothesis Hunique : unique_rows (data (now (σ 0%nat))).
Hypothesis Hsound : forall k, sound_store (now (σ k)).

Lemma execution_grows k k' : (k <= k')%nat ->
  leD (data (now (σ k))) (data (now (σ k'))) /\ unique_rows (data (now (σ k'))).
Proof.
  intros Hk. destruct (execution_safe _ _ leD unique_rows (potential 3) round_verified program_verified σ who Hex)
    with (k := k) (k' := k') as (Hle & Hi & _); [|done|by split].
  split; [done|]. rewrite Hloop, Hothers. split; [|constructor]. by exists (fun _ => 0%nat).
Qed.

Lemma never_stops k b : loop (σ k) = Ret b -> b = false.
Proof.
  assert (always (loop (σ k)) (fun b => b = false)) as Ha; [|by intros E; rewrite E in Ha].
  induction k as [|k IH]; [by rewrite Hloop|]. pose proof (Hex k) as Hm.
  inversion Hm as [l l' ps w w' Hs E1 E2 E3|ps w E1 E2 E3|l ps ps' w w' Hp E1 E2 E3|p l ps w Hp E1 E2 E3|l ps w t Ht E1 E2 E3];
    simpl; rewrite <- E2 in IH; simpl in IH; try done.
  - destruct l as [a|B op c]; [done|]. simpl in Hs. specialize (IH w). destruct (op w). by injection Hs as <- <-.
  - apply round_goes_on.
Qed.

Lemma row_ends n k s :
  s ∈ states (data (now (σ k))) -> (Z.to_nat (2 ^ 31 - EscalationState.CurrentTier s) <= n)%nat ->
  exists k' s', (k <= k')%nat /\ row_of (EscalationState.IncidentID s) (data (now (σ k'))) = Some s' /\ le_row s s'
    /\ (active s' = false \/ EscalationState.CurrentTier s' = 2 ^ 31 - 1).
Proof.
  revert k s. induction n as [n IH] using lt_wf_ind. intros k s Hs Hn.
  pose proof (execution_grows k k ltac:(done)) as [_ Hun]. pose proof (row_of_unique _ _ Hun Hs) as Hrow.
  destruct (so_rows _ (Hsound k) s Hs) as (Hid & Hpol & Htier).
  destruct (active s) eqn:Ha; [|exists k, s; split_and!; [done|done|reflexivity|by left]].
  destruct (int4_ok (EscalationState.CurrentTier s + 1)) eqn:Hnext.
  2: { exists k, s. split_and!; [done|done|reflexivity|]. right. unfold int4_ok in *. lia. }
  destruct (Htime (EscalationState.EscalateAt s)) as [k0 Hk0].
  assert (forall k', (Nat.max k k0 <= k')%nat -> overdue s (now (σ k'))) as Hg.
  { intros k' Hk'. split; [by apply (execution_grows k' k')|]. split; [done|]. apply Hk0. lia. }
  assert (forall k1 k2, (k1 <= k2)%nat -> leD (data (now (σ k1))) (data (now (σ k2)))) as Hgrow
    by (intros; by apply execution_grows).
  destruct (round_begins _ _ leD (overdue s) σ who Hex Hfair Hgrow (Nat.max k k0) Hg never_stops) as (k1 & Hk1 & Hb).
  destruct (kept _ _ leD (overdue s) σ who Hex Hfair Hgrow k1 (fun _ => past s)) as (k2 & b & Hk2 & _ & Hpast).
  - intros k' Hk'. apply Hg. lia.
  - rewrite Hb. apply round_past; [done..|]. apply (here_stable s (data (now (σ k)))); [apply Hgrow; lia|].
    exists s. split; [done|reflexivity].
  - destruct Hpast as (s' & Hrow' & Hle & [Ha'|Hlt]).
    { exists k2, s'. split_and!; [lia|done|done|by left]. }
    pose proof Hrow' as [Hs' Hinc%String.eqb_eq]%find_elem.
    destruct (so_rows _ (Hsound k2) s' Hs') as (_ & _ & Htier').
    destruct (IH (Z.to_nat (2 ^ 31 - EscalationState.CurrentTier s'))) with (k := k2) (s := s')
      as (k3 & s3 & Hk3 & Hrow3 & Hle3 & Hend); [unfold int4_ok in *; lia|done|done|].
    exists k3, s3. rewrite <- Hinc. split_and!; [lia|done|by transitivity s'|done].
Qed.
End Execution.

(** ** Property *)

(** C4: every escalation ends, whatever else runs.  Take any fair execution of the
    service: the monitor moves again and again, deliveries, requests and other
    monitors arrive and move at any time, and time passes.  When calls do not fail
    and a tick can take what is due, every escalation that exists at some point has
    for good left the state active from some point on, having kept its identity
    and moved along its state machine; the only exception is one at the last tier
    number a column can hold. *)
Theorem every_escalation_ends `{Platform} `{TimeText} `{HttpEnv} sched incident interval σ who k s :
  reliable -> (forall t, done_at t = false) ->
  execution (@monitor_round _ _ _ sched interval) (@service_program _ _ _ Publisher sched incident) σ who ->
  fair who -> time_passes σ ->
  loop (σ 0%nat) = Ret false -> others (σ 0%nat) = [] -> unique_rows (data (now (σ 0%nat))) ->
  (forall k, sound_store (now (σ k))) ->
  s ∈ states (data (now (σ k))) ->
  exists k0, forall k', (k0 <= k')%nat -> exists s',
    row_of (EscalationState.IncidentID s) (data (now (σ k'))) = Some s' /\ le_row s s'
    /\ (active s' = false \/ EscalationState.CurrentTier s' = 2 ^ 31 - 1).
Proof.
  intros Hrel Hgoes Hex Hfair Htime Hl Ho Hu Hsound Hs.
  destruct (row_ends sched incident interval Hrel Hgoes σ who Hex Hfair Htime Hl Ho Hu Hsound _ k s Hs
              (Nat.le_refl _)) as (k1 & s1 & Hk1 & Hrow1 & Hle1 & Hend).
  exists k1. intros k' Hk'.
  destruct (execution_grows sched incident interval σ who Hex Hl Ho Hu k1 k' Hk') as [Hle _].
  destruct (row_of_le _ _ _ _ Hle Hrow1) as (s' & Hrow' & Hle').
  exists s'. split; [done|]. split; [by transitivity s1|]. destruct (active s') eqn:Ha; [|by left].
  destruct Hle' as (_ & _ & _ & Ha' & _). destruct (Ha' Ha) as [Ha1 [->|Hlt]].
  - destruct Hend as [?|?]; [congruence|by right].
  - pose proof Hrow' as [Hs' _]%find_elem. destruct (so_rows _ (Hsound k') s' Hs') as (_ & _ & Ht').
    destruct Hend as [?|?]; [congruence|]. unfold int4_ok in Ht'. lia.
Qed.

(** *** A fair execution with two monitors *)

Module Fair_demo.
Definition P : Platform := demo_platform [].

Definition tick_ : M db unit := @step P demo_time_text demo_http (@Publisher P demo_time_text) demo_client.

Definition round : M db bool := @monitor_round P demo_time_text demo_http demo_client (30 * Second).

(** The monitor moves at even times; at odd ones another monitor, which arrives
    first, or time alone. *)
Definition next (k : nat) (s : service (D := db)) : service :=
  let '(Service l ps w) := s in
  if Nat.even k then
    match pstep l w with
    | Some (l', w') => Service l' ps w'
    | None => Service round ps w
    end
  else
    match ps with
    | [] => Service l [tick_] w
    | p :: ps' =>
        match pstep p w with
        | Some (p', w') => Service l (p' :: ps') w'
        | None => Service l ps (World (S (tick w)) (data w))
        end
    end.

Fixpoint run_fair (k : nat) : service :=
  match k with
  | O => Service (Ret false) [] (World 0 quick_db)
  | S k => next k (run_fair k)
  end.
End Fair_demo.
Import Fair_demo.

(** Each move is one of the service. *)
Lemma next_moves k s :
  always (loop s) (fun b => b = false) ->
  move round (@service_program P demo_time_text demo_http (@Publisher P demo_time_text) demo_client None)
    (Nat.even k) s (next k s).
Proof.
  destruct s as [l ps w]. cbn [loop next]. intros Ha. destruct (Nat.even k).
  - destruct l as [b|B op c]; cbn [pstep].
    + simpl in Ha. subst b. apply loop_again.
    + destruct (op w) as [b w'] eqn:Eo. apply loop_moves. cbn. by rewrite Eo.
  - destruct ps as [|p ps]; [apply (arrives _ _ tick_ l []); constructor|].
    destruct (pstep p w) as [[p' w']|] eqn:Ep; [|apply waits; simpl; lia].
    apply other_moves. by apply (pool_step_at (p :: ps) w 0 p p' w').
Qed.

Lemma round_false : always round (fun b => b = false).
Proof. by apply round_goes_on. Qed.

Lemma run_fair_false k : always (loop (run_fair k)) (fun b => b = false).
Proof.
  induction k as [|k IH]; [done|]. cbn [run_fair]. destruct (run_fair k) as [l ps w]. cbn [loop next] in *.
  destruct (Nat.even k).
  - destruct l as [b|B op c]; cbn [pstep]; [apply round_false|]. specialize (IH w). destruct (op w). exact IH.
  - destruct ps as [|p ps]; [exact IH|]. by destruct (pstep p w) as [[]|].
Qed.

Lemma run_fair_execution :
  execution round (@service_program P demo_time_text demo_http (@Publisher P demo_time_text) demo_client None)
    run_fair Nat.even.
Proof. intros k. apply next_moves, run_fair_false. Qed.

Lemma even_fair : fair Nat.even.
Proof.
  intros k. destruct (Nat.even k) eqn:E; [by exists k|]. exists (S k). split; [lia|].
  by rewrite Nat.even_succ, <- Nat.negb_even, E.
Qed.

(** Once the escalation is exhausted nothing is due, and only time moves. *)
Definition rest : nat := 32.
Definition rest_db : db := Eval vm_compute in data (now (run_fair rest)).

Definition after_sleep : M db bool := let! _ := tick_ in Ret false.

Definition resting (s : service) : Prop :=
  data (now s) = rest_db /\ others s = [Ret tt] /\ (34 <= tick (now s))%nat
  /\ (loop s = Ret false \/ loop s = round \/ loop s = after_sleep).

Lemma resting_next k s : resting s ->
  resting (next k s) /\ (tick (now s) + (if Nat.even k then 0 else 1) <= tick (now (next k s)))%nat.
Proof.
  destruct s as [l ps [t d]]. intros (Hd & Ho & Ht & Hl). cbn [data now others loop tick] in *. subst d ps.
  unfold next. destruct (Nat.even k).
  - destruct Hl as [-> |[-> | ->]].
    + split; [|simpl; lia]. split_and!; [done|done|done|right; by left].
    + split; [|simpl; lia]. split_and!; [done|done|simpl; lia|right; by right].
    + split; [|simpl; lia]. split_and!; [done|done|simpl; lia|by left].
  - split; [|simpl; lia]. split_and!; [done|done|simpl; lia|done].
Qed.

Lemma rests n : resting (run_fair (rest + n)) /\ (Nat.div2 n <= tick (now (run_fair (rest + n))))%nat.
Proof.
  assert (resting (run_fair (rest + n)) /\
    (n + (if Nat.even n then 2 else 1) <= 2 * tick (now (run_fair (rest + n))))%nat) as [Hr Hn].
  { induction n as [|n [Hr Hn]].
    - split; [|vm_compute; lia].
      split; [vm_compute; reflexivity|]. split; [vm_compute; reflexivity|].
      split; [vm_compute; lia|]. left. vm_compute. reflexivity.
    - rewrite Nat.add_succ_r. cbn [run_fair]. destruct (resting_next (rest + n) _ Hr) as [Hr' Ht].
      split; [done|]. rewrite Nat.even_add in Ht. change (Nat.even rest) with true in Ht.
      rewrite Nat.even_succ, <- Nat.negb_even. clear -Hn Ht.
      generalize dependent (tick (now (next (rest + n) (run_fair (rest + n))))). intros t'.
      generalize dependent (tick (now (run_fair (rest + n)))). intros t Hn. cbn [Bool.eqb].
      destruct (Nat.even n); cbn [negb]; intros Ht; lia. }
  split; [done|]. rewrite Nat.div2_div. apply Nat.Div0.div_le_upper_bound. lia.
Qed.

(** The store is sound when these checks pass. *)
Definition checked (w : world db) : bool :=
  forallb (fun s => int4_ok (EscalationState.CurrentTier s)) (states (data w))
  && forallb (fun h => existsb (fun n => String.eqb (EscalationHistory.ID h) (@uuid_at P n)) (seq 0 (tick w)))
       (history (data w))
  && (length (states (data w)) <=? 50)%nat.

Lemma checked_sound w : checked w = true -> @sound_store P w.
Proof.
  intros [[Hr Hh]%andb_prop Hl%Nat.leb_le]%andb_prop. rewrite forallb_forall in Hr, Hh. split.
  - intros s Hs%list_elem_of_In. split; [done|]. split; [done|by apply Hr].
  - intros t h Ht Hin%list_elem_of_In E. apply Hh, existsb_exists in Hin as (n & Hn%in_seq & En%String.eqb_eq).
    rewrite E in En. apply (demo_uuid_inj []) in En. lia.
  - etransitivity; [apply List.filter_length_le|done].
Qed.

Lemma checked_later t t' d : (t <= t')%nat -> checked (World t d) = true -> checked (World t' d) = true.
Proof.
  unfold checked. cbn [tick data]. intros Ht [[-> Hh]%andb_prop ->]%andb_prop. rewrite andb_true_r. cbn [andb].
  rewrite forallb_forall in Hh |- *. intros h Hin. apply existsb_exists. apply Hh, existsb_exists in Hin as (n & Hn & E).
  exists n. split; [|done]. apply in_seq in Hn. apply in_seq. lia.
Qed.

Lemma run_fair_sound k : @sound_store P (now (run_fair k)).
Proof.
  apply checked_sound. destruct (Nat.lt_ge_cases k rest) as [Hk|Hk].
  - assert (forallb (fun k => checked (now (run_fair k))) (seq 0 rest) = true) as Hc by (vm_compute; reflexivity).
    rewrite forallb_forall in Hc. apply Hc, in_seq. lia.
  - replace k with (rest + (k - rest))%nat by lia. destruct (rests (k - rest)) as [(Hd & _ & Ht & _) _].
    destruct (now (run_fair (rest + (k - rest)))) as [t d]. cbn [data tick] in *. subst d.
    apply (checked_later 34); [done|]. vm_compute. reflexivity.
Qed.

Lemma run_fair_time : @time_passes db P run_fair.
Proof.
  intros deadline. exists (rest + 2 * Z.to_nat deadline)%nat. intros k Hk.
  replace k with (rest + (k - rest))%nat by lia. destruct (rests (k - rest)) as [_ Ht].
  assert (Z.to_nat deadline <= tick (now (run_fair (rest + (k - rest)))))%nat as Hn.
  { etransitivity; [|exact Ht]. rewrite Nat.div2_div. apply Nat.div_le_lower_bound; lia. }
  cbn [now_at P demo_platform]. unfold Second. lia.
Qed.

(** Both monitors took part, one after the other; the first deadline had passed,
    and the escalation climbed to the second tier and is exhausted. *)
Lemma every_escalation_ends_witness :
  (EscalationState.Status <$> states (data (now (run_fair rest)))) = ["exhausted"] /\
  exists k0, forall k', (k0 <= k')%nat -> exists s',
    row_of "inc1" (data (now (run_fair k'))) = Some s' /\ le_row demo_state s'
    /\ (active s' = false \/ EscalationState.CurrentTier s' = 2 ^ 31 - 1).
Proof.
  split; [vm_compute; reflexivity|].
  apply (@every_escalation_ends P demo_time_text demo_http demo_client None (30 * Second) run_fair Nat.even 0 demo_state).
  - done.
  - done.
  - exact run_fair_execution.
  - exact even_fair.
  - exact run_fair_time.
  - done.
  - done.
  - exact demo_unique_rows.
  - exact run_fair_sound.
  - by left.
Defined.

(** ** Why the backlog matters

    An escalation at the last tier number of the column cannot advance and stays
    due; fifty of them fill every batch, and what is due after them is never
    taken. *)

Module Starving.
(** The escalations of one tenant whose only tier has the last number. *)
Definition stuck : list EscalationState.t :=
  map (fun n => EscalationState.mk ("s" +:+ pretty n) ("i" +:+ pretty n) "mallory" "mallory" "p1" (2 ^ 31 - 1) "active"
                  "" "" "" 0 0 0) (seq 0 50).

Definition victim : EscalationState.t :=
  EscalationState.mk "v" "iv" "acme" "acme" "p2" 1 "active" "" "" "" 1 0 0.

Definition full : db :=
  Db [Policy.mk "p1" "mallory" "" [] 0; Policy.mk "p2" "acme" "" [] 0]
     [PolicyTier.mk "t1" "p1" (2 ^ 31 - 1) 60 ""; PolicyTier.mk "t2" "p2" 1 60 "sch"; PolicyTier.mk "t3" "p2" 2 60 "sch"]
     (stuck ++ [victim]) [] [] (Net true true true [] []).

Lemma taken `{Platform} t : (forall t, 1 <= now_at t) ->
  forallb (fun s => EscalationState.CurrentTier s =? 2 ^ 31 - 1)
    (take 50 (merge_sort by_escalate_at (List.filter (due (now_at t)) (states full)))) = true.
Proof.
  intros Ht. assert (List.filter (due (now_at t)) (states full) = states full) as ->; [|vm_compute; reflexivity].
  apply forallb_filter_id, forallb_forall. intros s Hs. specialize (Ht t).
  assert (forallb (fun s => active s && (EscalationState.EscalateAt s <=? 1)) (states full) = true) as Ha
    by (vm_compute; reflexivity).
  rewrite forallb_forall in Ha. apply Ha, andb_prop in Hs as [Hs He]. unfold due. unfold active in Hs. rewrite Hs. lia.
Qed.

Lemma stuck_advance `{Platform} `{TimeText} `{HttpEnv} `{EscalationPublisher} sched s w :
  reliable -> (forall u, uuid_ok u = true) -> (EscalationState.CurrentTier s =? 2 ^ 31 - 1) = true ->
  exists e, run (AdvanceOrExhaust sched s) w = (Err e, World (S (tick w)) (data w)).
Proof.
  intros Hr Hu Ht%Z.eqb_eq.
  unfold AdvanceOrExhaust, GetTierByNumber. cbv zeta. rewrite run_bind, run_sql_ok by (first [apply Hr|simpl; by rewrite Hu]).
  rewrite Ht. change (negb (int4_ok (int64 (2 ^ 31 - 1 + 1)))) with true. cbv iota. eexists. reflexivity.
Qed.

Lemma stuck_round `{Platform} `{TimeText} `{HttpEnv} `{EscalationPublisher} sched t :
  reliable -> (forall u, uuid_ok u = true) -> (forall t, 1 <= now_at t) ->
  exists t', run (step sched) (World t full) = (tt, World t' full).
Proof.
  intros Hr Hu Ht. unfold step, ListExpiredStates. rewrite !run_bind, run_sql_ok by (apply Hr || done).
  cbn [run tick]. fold (due (now_at t)). cbn [data]. pose proof (taken t Ht) as Hl. revert Hl.
  generalize (take 50 (merge_sort by_escalate_at (List.filter (due (now_at t)) (states full)))). intros l.
  generalize (S t). induction l as [|s l IH]; intros u; [by exists u|]. cbn [forallb]. intros [Hs Hl]%andb_prop.
  cbn [for_each]. rewrite !run_bind. destruct (stuck_advance sched s (World u full) Hr Hu Hs) as [e ->].
  cbn [run tick data]. by apply IH.
Qed.

(** However long the monitor runs, and although nothing fails, the escalation of
    the other tenant is never advanced. *)
Lemma backlog_starves `{Platform} `{TimeText} `{HttpEnv} `{EscalationPublisher} sched interval n t :
  reliable -> (forall u, uuid_ok u = true) -> (forall t, 1 <= now_at t) -> (forall t, done_at t = false) ->
  exists t', run (monitor_Run sched n interval) (World t full) = (None, World t' full)
    /\ victim ∈ states full /\ EscalationState.EscalateAt victim <= now_at t'.
Proof.
  intros Hr Hu Ht Hg. revert t. induction n as [|n IH]; intros t.
  - exists t. split; [done|]. split; [|apply Ht]. apply elem_of_app. right. by left.
  - cbn [monitor_Run]. rewrite run_bind. cbn [run sleep_or_Done tick data]. rewrite Hg, run_bind.
    destruct (stuck_round sched (S t) Hr Hu Ht) as [t1 ->]. apply IH.
Qed.
End Starving.

Lemma backlog_starves_witness :
  let d := demo_platform [] in
  exists t', run (@monitor_Run d demo_time_text demo_http (@Publisher d demo_time_text) demo_client 100 (30 * Second)) (World 0 Starving.full)
    = (None, World t' Starving.full) /\ Starving.victim ∈ states Starving.full
    /\ EscalationState.EscalateAt Starving.victim <= @now_at d t'.
Proof.
  intros d. apply (@Starving.backlog_starves d demo_time_text demo_http (@Publisher d demo_time_text)); try done.
  intros t. cbn. unfold Second. lia.
Defined.
