(* ===== verification/Auth.v ===== *)
(** * pkg/auth: claims, tenant checks and the authentication middleware

    auth.go, tenant.go and resolve.go.  Parsing and verifying a JWT is done by a
    library: [parse_jwt] is what it answers for a token and the options the
    middleware passes, [url_scheme] what [url.Parse] finds. *)

From S2P Require Import Prelude Effects Json Http.

Module Claims.
Record t := mk {
  Sub : string;
  PreferredUsername : string;
  Name : string;
  Email : string;
  Groups : list string
}.
End Claims.

Inductive Method :=
| MethodService
| MethodUser.

(** What the middleware puts in the context of a request. *)
Record context := Ctx {
  claimsKey : option Claims.t;
  methodKey : option Method
}.

Definition background : context := Ctx None None.

Definition WithMethod (ctx : context) (m : Method) : context := Ctx (claimsKey ctx) (Some m).

Definition MethodFromContext (ctx : context) : option Method := methodKey ctx.

Definition WithClaims (ctx : context) (c : Claims.t) : context := Ctx (Some c) (methodKey ctx).

Definition FromContext (ctx : context) : option Claims.t := claimsKey ctx.

Definition IsMember (c : Claims.t) (tenantSlug : string) : bool :=
  let target := "/" +:+ tenantSlug in
  existsb (fun g => String.eqb g target || HasPrefix g (target +:+ "/")) (Claims.Groups c).

Definition IsAdmin (c : Claims.t) (tenantSlug : string) : bool :=
  existsb (fun g => String.eqb g ("/" +:+ tenantSlug +:+ "/admins")) (Claims.Groups c).

(** ** Middleware *)

Record Options := {
  JWKSURL : string;
  AdminKey : string;
  Issuer : string;
  Audience : string;
  AllowInsecureJWKS : bool
}.

(** The request as the middleware sees it: two headers and the URL parameters. *)
Record request := Request {
  X_Admin_Key : string;
  Authorization : string;
  URLParam : string -> string
}.

(** The decoded claims as a map: of equal keys the last one counts. *)
Definition claim (m : list (string * json)) (key : string) : option json :=
  snd <$> List.find (fun kv => String.eqb kv.1 key) (rev m).

Definition mapStr (m : list (string * json)) (key : string) : string :=
  match claim m key with
  | Some (JStr s) => s
  | _ => EmptyString
  end.

Definition mapStrSlice (m : list (string * json)) (key : string) : list string :=
  match claim m key with
  | Some (JArr l) => omap (fun j => match j with JStr s => Some s | _ => None end) l
  | _ => []
  end.

Section Middleware.
(** The scheme of a URL, [None] when it does not parse. *)
Variable url_scheme : string -> option string.
(** Whether the key set can be fetched. *)
Variable jwks_ok : string -> bool.
(** The claims of a token that is valid for the key set: RS256 only, with an
    expiry, and with the given issuer and audience unless they are empty. *)
Variable parse_jwt : Options -> string -> option (list (string * json)).

Definition middleware (B : Type) : Type := (context -> request -> response B) -> context -> request -> response B.

Definition serve_auth {B} (opts : Options) (next : context -> request -> response B) (ctx : context) (r : request)
    : response B :=
  let got := X_Admin_Key r in
  if negb (String.eqb (AdminKey opts) "") && negb (String.eqb got "") && String.eqb got (AdminKey opts)
  then next (WithMethod ctx MethodService) r
  else
    let raw := TrimPrefix (Authorization r) "Bearer " in
    if String.eqb raw "" then Error StatusUnauthorized "missing authorization"
    else match parse_jwt opts raw with
         | None => Error StatusUnauthorized "invalid token"
         | Some mc =>
             let claims := Claims.mk (mapStr mc "sub") (mapStr mc "preferred_username") (mapStr mc "name")
                             (mapStr mc "email") (mapStrSlice mc "groups") in
             next (WithMethod (WithClaims ctx claims) MethodUser) r
         end.

Definition Middleware {B} (opts : Options) : res (middleware B) :=
  if String.eqb (JWKSURL opts) "" then Err (ErrNew "auth: JWKS URL is required")
  else match url_scheme (JWKSURL opts) with
  | None => Err (ErrNew "auth: parse jwks url")
  | Some scheme =>
      let insecureOK := String.eqb scheme "http" && AllowInsecureJWKS opts in
      if negb (String.eqb scheme "https") && negb insecureOK
      then Err (ErrNew "auth: JWKS URL must use https")
      else if negb (jwks_ok (JWKSURL opts)) then Err (ErrNew "auth: init jwks")
      else Ok (serve_auth opts)
  end.

(** ** resolve.go *)

Definition ErrNotConfigured : err := ErrNew "auth: KEYCLOAK_JWKS_URL not set".

Definition MiddlewareOrPassthrough {B} (opts : Options) (authDisabled : bool) : res (middleware B) :=
  if negb (String.eqb (JWKSURL opts) "") then Middleware opts
  else if authDisabled then Ok (fun next => next)
  else Err ErrNotConfigured.

End Middleware.

(** ** tenant.go *)

Fixpoint first_param (r : request) (keys : list string) : string :=
  match keys with
  | [] => EmptyString
  | key :: keys => if String.eqb (URLParam r key) "" then first_param r keys else URLParam r key
  end.

Definition tenantFromRequest (r : request) : string := first_param r ["tenant"; "slug"; "tenant_id"].

Definition require {B} (allowed : Claims.t -> string -> bool) : middleware B := fun next ctx r =>
  match FromContext ctx with
  | None => next ctx r
  | Some claims =>
      let slug := tenantFromRequest r in
      if negb (String.eqb slug "") && negb (allowed claims slug) then Error StatusForbidden "forbidden"
      else next ctx r
  end.

Definition RequireTenantMember {B} : middleware B := require IsMember.

Definition RequireTenantAdmin {B} : middleware B := require IsAdmin.

(** ** Lemmas *)

(** The path components of a group: [/acme/admins] is [acme], [admins]. *)
Definition group_path (g : string) : list string :=
  match g with String "/" s => Split s "/" | _ => [] end.

Lemma Split_no_sep s c : cut_byte c s = None -> Split s c = [s].
Proof.
  induction s as [|a s IH]; simpl; [done|]. destruct (Ascii.eqb a c); [done|].
  destruct (cut_byte c s) as [[]|]; [done|]. intros _. by rewrite IH.
Qed.

Lemma Split_app s t c : cut_byte c s = None -> Split (s +:+ String c t) c = s :: Split t c.
Proof.
  induction s as [|a s IH]; simpl; [by rewrite Ascii.eqb_refl|]. destruct (Ascii.eqb a c); [done|].
  destruct (cut_byte c s) as [[]|]; [done|]. intros _. by rewrite IH.
Qed.

Lemma Split_head s c h t : Split s c = h :: t -> cut_byte c h = None
  /\ (s = h /\ t = [] \/ exists r, s = h +:+ String c r /\ t = Split r c).
Proof.
  revert h t. induction s as [|a s IH]; intros h t; simpl; [intros [= <- <-]; split; [done|by left]|].
  destruct (Ascii.eqb_spec a c) as [->|Hne].
  - intros [= <- <-]. split; [done|]. right. by exists s.
  - destruct (Split s c) as [|h' t'] eqn:E.
    + exfalso. destruct s; simpl in E; [done|]. destruct (Ascii.eqb _ _); [done|]. by destruct (Split s c).
    + intros [= <- <-]. destruct (IH _ _ eq_refl) as [Hh Hs]. simpl.
      rewrite (proj2 (Ascii.eqb_neq a c) Hne), Hh. split; [done|].
      destruct Hs as [[-> ->]|(r & -> & ->)]; [by left|right; by exists r].
Qed.

(** Membership is decided on whole path components: the group is the tenant's
    own or one below it. *)
Lemma member_group_path g slug :
  cut_byte "/" slug = None ->
  String.eqb g ("/" +:+ slug) || HasPrefix g (("/" +:+ slug) +:+ "/") = true <->
  exists rest, group_path g = slug :: rest.
Proof.
  intros Hs. change ("/" +:+ slug) with (String "/" slug).
  change (String "/" slug +:+ "/") with (String "/" (slug +:+ "/")).
  rewrite orb_true_iff, String.eqb_eq, HasPrefix_spec. split.
  - intros [->|(r & ->)]; simpl; [rewrite Split_no_sep by done; eauto|].
    rewrite str_app_assoc. simpl. rewrite Split_app by done. eauto.
  - intros (rest & Hg). destruct g as [|a g]; [done|]. simpl in Hg.
    destruct (Ascii.eqb_spec a "/") as [->|Hne].
    + destruct (Split_head g "/" slug rest Hg) as [_ [[-> _]|(r & -> & _)]]; [by left|right].
      exists r. simpl. by rewrite str_app_assoc.
    + exfalso. destruct a as [[] [] [] [] [] [] [] []]; done.
Qed.

(** Who may see a tenant: the holder of the admin key, and the members by a token
    the key set validates. *)
Definition authorized (parse_jwt : Options -> string -> option (list (string * json))) (opts : Options)
    (r : request) (tenant : string) : Prop :=
  AdminKey opts <> EmptyString /\ X_Admin_Key r = AdminKey opts \/
  exists mc, parse_jwt opts (TrimPrefix (Authorization r) "Bearer ") = Some mc /\
    IsMember (Claims.mk (mapStr mc "sub") (mapStr mc "preferred_username") (mapStr mc "name")
                (mapStr mc "email") (mapStrSlice mc "groups")) tenant = true.

(** The middleware and the tenant check hand the same request on, with some
    context, or answer 401 or 403. *)
Lemma auth_cases {B} url_scheme jwks_ok parse_jwt opts disabled (mw : middleware B) next r :
  MiddlewareOrPassthrough url_scheme jwks_ok parse_jwt opts disabled = Ok mw ->
  tenantFromRequest r <> EmptyString ->
  (exists ctx, mw (RequireTenantMember next) background r = next ctx r
     /\ (JWKSURL opts = EmptyString /\ disabled = true \/ authorized parse_jwt opts r (tenantFromRequest r))) \/
  (exists code msg, mw (RequireTenantMember next) background r = Error code msg
     /\ (code = StatusUnauthorized \/ code = StatusForbidden)).
Proof.
  unfold MiddlewareOrPassthrough, authorized. intros Hmw Ht.
  destruct (String.eqb_spec (JWKSURL opts) "") as [Hj|Hj]; cbn [negb] in Hmw.
  { destruct disabled; [|done]. injection Hmw as <-. left. exists background. split; [done|]. by left. }
  unfold Middleware in Hmw. rewrite (proj2 (String.eqb_neq _ _) Hj) in Hmw.
  destruct (url_scheme _) as [scheme|]; [|done]. destruct (negb _ && negb _); [done|].
  destruct (negb _); [done|]. injection Hmw as <-. unfold serve_auth.
  destruct (negb (String.eqb (AdminKey opts) "") && negb (String.eqb (X_Admin_Key r) "") &&
            String.eqb (X_Admin_Key r) (AdminKey opts)) eqn:Ek.
  - apply andb_prop in Ek as [[Ha%negb_true_iff%String.eqb_neq _]%andb_prop Ek%String.eqb_eq].
    left. eexists. split; [reflexivity|]. right. by left.
  - destruct (String.eqb (TrimPrefix (Authorization r) "Bearer ") ""); [right; do 2 eexists; split; [reflexivity|by left]|].
    destruct (parse_jwt _ _) as [mc|] eqn:Ep; [|right; do 2 eexists; split; [reflexivity|by left]].
    unfold RequireTenantMember, require; cbn [FromContext WithMethod WithClaims claimsKey].
    rewrite (proj2 (String.eqb_neq _ _) Ht). cbn [negb andb].
    destruct (IsMember _ _) eqn:Em; cbn [negb].
    + left. eexists. split; [reflexivity|]. right. right. eauto.
    + right. do 2 eexists. split; [reflexivity|by right].
Qed.

(** ** Properties *)

(** C20: the membership check.  For a tenant slug without a slash, a user is a
    member exactly when one of the groups of the token has the slug as its first
    path component: a tenant whose name only begins with the slug never
    matches, and an administrator is always a member. *)
Theorem IsMember_spec (c : Claims.t) (slug : string) :
  cut_byte "/" slug = None ->
  (IsMember c slug = true <-> exists g rest, g ∈ Claims.Groups c /\ group_path g = slug :: rest)
  /\ (IsAdmin c slug = true -> IsMember c slug = true).
Proof.
  intros Hs.
  assert (IsMember c slug = true <-> exists g rest, g ∈ Claims.Groups c /\ group_path g = slug :: rest) as Hm.
  { unfold IsMember. rewrite existsb_exists. split.
    - intros (g & Hin%list_elem_of_In & Hg). apply (member_group_path g slug Hs) in Hg as [rest Hg]. eauto.
    - intros (g & rest & Hin%list_elem_of_In & Hg). exists g. split; [done|].
      apply (member_group_path g slug Hs). eauto. }
  split; [done|]. intros (g & Hin & He%String.eqb_eq)%existsb_exists.
  apply Hm. exists g, ["admins"]. split; [by apply list_elem_of_In|]. rewrite He.
  change ("/" +:+ slug +:+ "/admins") with (String "/" (slug +:+ String "/" "admins")). simpl.
  by rewrite Split_app.
Qed.

Lemma IsMember_spec_witness :
  let c := Claims.mk "u1" "alice" "Alice" "a@x" ["/acme/admins"; "/acme-prod"] in
  (IsMember c "acme" = true <-> exists g rest, g ∈ Claims.Groups c /\ group_path g = "acme" :: rest)
  /\ (IsAdmin c "acme" = true -> IsMember c "acme" = true).
Proof. intros c. exact (IsMember_spec c "acme" eq_refl). Defined.

(** No anonymous access.  With a key set configured, a request reaches a
    tenant's handler only with the admin key, or with a token the key set
    validates whose groups make the user a member of the tenant in the URL;
    otherwise the answer is 401 or 403.  Without a key set the service starts
    only when authentication is disabled by hand. *)
Lemma auth_fail_closed url_scheme jwks_ok parse_jwt (opts : Options) disabled (mw : middleware bool) r :
  MiddlewareOrPassthrough url_scheme jwks_ok parse_jwt opts disabled = Ok mw ->
  tenantFromRequest r <> EmptyString ->
  let answer := mw (RequireTenantMember (fun _ _ => Json StatusOK true)) background r in
  answer = Json StatusOK true /\
    (JWKSURL opts = EmptyString /\ disabled = true \/ authorized parse_jwt opts r (tenantFromRequest r)) \/
  Code answer = StatusUnauthorized \/ Code answer = StatusForbidden.
Proof.
  intros Hmw Ht answer. subst answer.
  destruct (auth_cases _ _ _ _ _ _ (fun _ _ => Json StatusOK true) _ Hmw Ht)
    as [(ctx & -> & Ha)|(code & msg & -> & [->| ->])]; auto.
Qed.

Lemma auth_fail_closed_witness :
  let opts := {| JWKSURL := "https://kc/certs"; AdminKey := "k"; Issuer := ""; Audience := "";
                 AllowInsecureJWKS := false |} in
  let parse := fun _ _ => Some [("groups", JArr [JStr "/acme"])] in
  let r := Request "" "Bearer tok" (fun k => if String.eqb k "tenant" then "acme" else "") in
  let answer := serve_auth parse opts (RequireTenantMember (fun _ _ => Json StatusOK true)) background r in
  answer = Json StatusOK true /\
  (answer = Json StatusOK true /\
    (JWKSURL opts = EmptyString /\ false = true \/ authorized parse opts r (tenantFromRequest r)) \/
   Code answer = StatusUnauthorized \/ Code answer = StatusForbidden).
Proof.
  intros opts parse r answer. split; [reflexivity|].
  apply (auth_fail_closed (fun _ => Some "https") (fun _ => true) parse opts false (serve_auth parse opts) r);
    [reflexivity|discriminate].
Defined.
