(* ===== verification/Cursor.v ===== *)
(** * Incident: pagination cursors

    services/incident/internal/store/store.go, encodeCursor and decodeCursor:
    base64.RawURLEncoding of the RFC 3339 time, a bar and the row's id. *)

From S2P Require Import Prelude Effects Json.

(** ** base64.RawURLEncoding *)

Definition alphabet : string := "ABCDEFGHIJKLMNOPQRSTUVWXYZabcdefghijklmnopqrstuvwxyz0123456789-_".

Definition enc6 (n : nat) : ascii := default "A"%char (String.get n alphabet).

Fixpoint index_of (c : ascii) (s : string) : option nat :=
  match s with
  | EmptyString => None
  | String a s => if Ascii.eqb a c then Some O else S <$> index_of c s
  end.

Definition dec6 (c : ascii) : option nat := index_of c alphabet.

Definition byte (n : nat) : ascii := ascii_of_nat n.

Fixpoint sextets (s : string) : list nat :=
  match s with
  | EmptyString => []
  | String a EmptyString =>
      let a := nat_of_ascii a in [a / 4; a mod 4 * 16]%nat
  | String a (String b EmptyString) =>
      let a := nat_of_ascii a in let b := nat_of_ascii b in
      [a / 4; a mod 4 * 16 + b / 16; b mod 16 * 4]%nat
  | String a (String b (String c s)) =>
      let a := nat_of_ascii a in let b := nat_of_ascii b in let c := nat_of_ascii c in
      ([a / 4; a mod 4 * 16 + b / 16; b mod 16 * 4 + c / 64; c mod 64] ++ sextets s)%nat
  end.

Fixpoint string_of (l : list ascii) : string :=
  match l with [] => EmptyString | a :: l => String a (string_of l) end.

Fixpoint chars (s : string) : list ascii :=
  match s with EmptyString => [] | String a s => a :: chars s end.

Definition EncodeToString (s : string) : string := string_of (map enc6 (sextets s)).

(** Trailing bits are ignored; a single character left over is an error. *)
Fixpoint bytes_of (l : list nat) : option string :=
  match l with
  | [] => Some EmptyString
  | [_] => None
  | [x; y] => Some (String (byte (x * 4 + y / 16)) EmptyString)
  | [x; y; z] =>
      Some (String (byte (x * 4 + y / 16)) (String (byte (y mod 16 * 16 + z / 4)) EmptyString))
  | x :: y :: z :: w :: l =>
      s ← bytes_of l;
      Some (String (byte (x * 4 + y / 16)) (String (byte (y mod 16 * 16 + z / 4))
             (String (byte (z mod 4 * 64 + w)) s)))
  end%nat.

(** The decoder skips carriage returns and line feeds. *)
Definition DecodeString (s : string) : option string :=
  l ← mapM dec6 (List.filter (fun c => negb (Ascii.eqb c "013"%char || Ascii.eqb c "010"%char)) (chars s));
  bytes_of l.

(** ** The cursor *)

Section Cursor.
Context `{TimeText}.

(** [createdAt.UTC().Format(time.RFC3339Nano)]: the text [MarshalJSON] writes. *)
Definition encodeCursor (createdAt : Time) (id : string) : string :=
  EncodeToString (time_Format createdAt +:+ String "|" id).

Definition decodeCursor (cursor : string) : option (Time * string) :=
  if String.eqb cursor "" then None
  else match DecodeString cursor with
  | None => None
  | Some raw =>
      match cut_byte "|" raw with
      | None => None
      | Some (ts, cid) =>
          if String.eqb cid "" then None
          else t ← time_Parse ts; Some (t, cid)
      end
  end.

End Cursor.

(** ** Lemmas: base64 *)

Lemma enc6_ok n : (n < 64)%nat ->
  dec6 (enc6 n) = Some n /\ Ascii.eqb (enc6 n) "013" || Ascii.eqb (enc6 n) "010" = false.
Proof. intros Hn. do 64 (destruct n as [|n]; [by vm_compute|]). lia. Qed.

Lemma byte_ok a : byte (nat_of_ascii a) = a.
Proof. apply ascii_nat_embedding. Qed.

(** Induction three bytes at a time. *)
Lemma string_ind3 (P : string -> Prop) :
  P "" -> (forall a, P (String a "")) -> (forall a b, P (String a (String b ""))) ->
  (forall a b c s, P s -> P (String a (String b (String c s)))) -> forall s, P s.
Proof.
  intros H0 H1 H2 H3 s.
  enough (P s /\ (forall a, P (String a s)) /\ (forall a b, P (String a (String b s)))) by tauto.
  induction s as [|c s (IH & IH1 & IH2)]; [done|]. split; [auto|]. split; [auto|]. auto.
Qed.

Ltac bytes_lt :=
  repeat match goal with
  | a : ascii |- _ =>
      lazymatch goal with
      | _ : (nat_of_ascii a < 256)%nat |- _ => fail
      | _ => pose proof (nat_ascii_bounded a)
      end
  end.

Lemma sextets_lt s : Forall (fun n => (n < 64)%nat) (sextets s).
Proof.
  induction s as [|a|a b|a b c s IH] using string_ind3; cbn [sextets]; cbv zeta; bytes_lt;
    cbn [app]; repeat apply Forall_cons_2; try apply Forall_nil_2; try done.
  all: repeat match goal with
       | |- context [(?x mod ?y)%nat] =>
           lazymatch goal with
           | _ : (x mod y < y)%nat |- _ => fail
           | _ => pose proof (Nat.mod_upper_bound x y ltac:(lia))
           end
       | |- context [(?x / ?y)%nat] =>
           lazymatch goal with
           | _ : (y * (x / y) <= x)%nat |- _ => fail
           | _ => pose proof (Nat.Div0.mul_div_le x y)
           end
       end; lia.
Qed.

(** Putting a byte together from its parts. *)
Lemma join_4 a b : (a < 256 -> b < 16 -> a / 4 * 4 + (a mod 4 * 16 + b) / 16 = a)%nat.
Proof.
  intros. rewrite Nat.div_add_l by lia. rewrite (Nat.div_small b 16) by lia.
  pose proof (Nat.div_mod_eq a 4). lia.
Qed.

Lemma low_part x k y : (y < k -> (x * k + y) mod k = y)%nat.
Proof. intros. by rewrite Nat.add_comm, Nat.Div0.mod_add, Nat.mod_small. Qed.

Lemma join_16 a b c : (b < 256 -> c < 4 ->
  (a mod 4 * 16 + b / 16) mod 16 * 16 + (b mod 16 * 4 + c) / 4 = b)%nat.
Proof.
  intros. assert (b / 16 < 16)%nat by (apply Nat.Div0.div_lt_upper_bound; lia).
  rewrite low_part by lia. rewrite Nat.div_add_l by lia. rewrite (Nat.div_small c 4) by lia.
  pose proof (Nat.div_mod_eq b 16). lia.
Qed.

Lemma join_64 b c : (c < 256 -> (b mod 16 * 4 + c / 64) mod 4 * 64 + c mod 64 = c)%nat.
Proof.
  intros. assert (c / 64 < 4)%nat by (apply Nat.Div0.div_lt_upper_bound; lia).
  rewrite low_part by lia. pose proof (Nat.div_mod_eq c 64). lia.
Qed.

Lemma bytes_of_sextets s : bytes_of (sextets s) = Some s.
Proof.
  induction s as [|a|a b|a b c s IH] using string_ind3; cbn [sextets bytes_of app]; cbv zeta; bytes_lt.
  - done.
  - rewrite <- (Nat.add_0_r (_ mod 4 * 16)), join_4 by lia. by rewrite byte_ok.
  - assert (nat_of_ascii b / 16 < 16)%nat by (apply Nat.Div0.div_lt_upper_bound; lia).
    rewrite join_4 by lia. rewrite <- (Nat.add_0_r (nat_of_ascii b mod 16 * 4)).
    rewrite join_16 by lia. by rewrite !byte_ok.
  - assert (nat_of_ascii b / 16 < 16)%nat by (apply Nat.Div0.div_lt_upper_bound; lia).
    assert (nat_of_ascii c / 64 < 4)%nat by (apply Nat.Div0.div_lt_upper_bound; lia).
    rewrite IH. cbn [mbind option_bind]. rewrite join_4, join_16, join_64 by lia. by rewrite !byte_ok.
Qed.

Lemma chars_string_of l : chars (string_of l) = l.
Proof. induction l as [|a l IH]; simpl; [done|]. by rewrite IH. Qed.

Lemma decode_sextets l :
  Forall (fun n => (n < 64)%nat) l ->
  mapM dec6 (List.filter (fun c => negb (Ascii.eqb c "013" || Ascii.eqb c "010")) (map enc6 l)) = Some l.
Proof.
  induction 1 as [|n l Hn _ IH]; [done|]. cbn [map List.filter].
  destruct (enc6_ok n Hn) as [Hd Hs]. rewrite Hs. cbn [negb mapM]. rewrite Hd. cbn [mbind option_bind]. by rewrite IH.
Qed.

Lemma base64_round_trip s : DecodeString (EncodeToString s) = Some s.
Proof.
  unfold DecodeString, EncodeToString. rewrite chars_string_of, decode_sextets by apply sextets_lt.
  apply bytes_of_sextets.
Qed.

Lemma EncodeToString_nonempty s : s <> EmptyString -> EncodeToString s <> EmptyString.
Proof.
  intros Hs E. pose proof (base64_round_trip s) as Hr. rewrite E in Hr. by injection Hr as <-.
Qed.

(** The instants whose text can stand in a cursor. *)
Definition cursor_time `{TimeText} (t : Time) : Prop :=
  time_Parse (time_Format t) = Some t /\ cut_byte "|" (time_Format t) = None.

Lemma decode_encode `{TimeText} createdAt id :
  time_Parse (time_Format createdAt) = Some createdAt ->
  cut_byte "|" (time_Format createdAt) = None -> id <> EmptyString ->
  decodeCursor (encodeCursor createdAt id) = Some (createdAt, id).
Proof.
  intros Eu Hbar Hid. unfold decodeCursor, encodeCursor.
  set (raw := time_Format createdAt +:+ String "|" id).
  assert (EncodeToString raw <> EmptyString) as Hne%String.eqb_neq.
  { apply EncodeToString_nonempty. unfold raw. by destruct (time_Format createdAt). }
  rewrite Hne, base64_round_trip. unfold raw. rewrite cut_byte_app by done.
  rewrite (proj2 (String.eqb_neq _ _) Hid), Eu. done.
Qed.

(** ** Property *)

(** The page cursor round-trips: decoding what [encodeCursor] made of the
    creation time and id of a row gives that time and id, when the text of the
    time reads back and has no bar, and the id is not empty. *)
Lemma cursor_round_trip `{TimeText} createdAt id :
  time_Parse (time_Format createdAt) = Some createdAt ->
  cut_byte "|" (time_Format createdAt) = None -> id <> EmptyString ->
  decodeCursor (encodeCursor createdAt id) = Some (createdAt, id).
Proof. exact (decode_encode createdAt id). Qed.

Lemma cursor_round_trip_witness :
  @decodeCursor demo_time_text (@encodeCursor demo_time_text 12345 "id7") = Some (12345, "id7").
Proof. exact (@cursor_round_trip demo_time_text 12345 "id7" eq_refl eq_refl ltac:(discriminate)). Defined.
