(* ===== verification/IncidentStore.v ===== *)
(** * Incident: domain, state machine and store

    services/incident/internal/domain/incident.go, statemachine/statemachine.go,
    store/store.go and the tables of migrations/.  Tables are lists of rows in
    insertion order; the labels of an incident are a map. *)

From S2P Require Import Prelude Effects Json Events Interleaving Amqp Cursor.
Open Scope go_scope.

(** ** Domain *)

Definition StatusOpen : string := "open".
Definition StatusAcknowledged : string := "acknowledged".
Definition StatusResolved : string := "resolved".

Definition HistoryStatusChange : string := "status_change".
Definition HistoryLabelChange : string := "label_change".
Definition HistoryCommentAdded : string := "comment_added".

Module Incident.
Record t := mk {
  ID : string;
  TenantID : string;
  TenantSlug : string;
  Title : string;
  Severity : string;
  Status : string;
  Labels : gmap string string;
  AcknowledgedAt : option Time;
  AcknowledgedBy : option string;
  ResolvedAt : option Time;
  CreatedAt : Time;
  UpdatedAt : Time
}.

Definition set_Labels (l : gmap string string) (i : t) : t :=
  mk (ID i) (TenantID i) (TenantSlug i) (Title i) (Severity i) (Status i) l (AcknowledgedAt i)
     (AcknowledgedBy i) (ResolvedAt i) (CreatedAt i) (UpdatedAt i).

(** The columns a change of status writes. *)
Definition set_status (status : string) (ackAt : option Time) (ackBy : option string) (resAt : option Time)
    (now : Time) (i : t) : t :=
  mk (ID i) (TenantID i) (TenantSlug i) (Title i) (Severity i) status (Labels i) ackAt ackBy resAt
     (CreatedAt i) now.
End Incident.

Module IncidentAlert.
Record t := mk {
  ID : string;
  IncidentID : string;
  TenantID : string;
  Fingerprint : string;
  Source : string;
  GroupKey : string;
  Status : string;
  AttachedAt : Time
}.

Definition set_Status (s : string) (a : t) : t :=
  mk (ID a) (IncidentID a) (TenantID a) (Fingerprint a) (Source a) (GroupKey a) s (AttachedAt a).

Definition set_IncidentID (id : string) (a : t) : t :=
  mk (ID a) id (TenantID a) (Fingerprint a) (Source a) (GroupKey a) (Status a) (AttachedAt a).
End IncidentAlert.

Module Comment.
Record t := mk {
  ID : string;
  IncidentID : string;
  TenantID : string;
  Body : string;
  AuthorID : string;
  CreatedAt : Time
}.
End Comment.

Module HistoryEntry.
Record t := mk {
  ID : string;
  IncidentID : string;
  TenantID : string;
  Kind : string;
  Author : string;
  OldValue : string;
  NewValue : string;
  OccurredAt : Time
}.

Definition set_IncidentID (id : string) (h : t) : t :=
  mk (ID h) id (TenantID h) (Kind h) (Author h) (OldValue h) (NewValue h) (OccurredAt h).
End HistoryEntry.

Module GroupingRule.
Record t := mk {
  TenantID : string;
  Source : string;
  GroupingLabels : list string;
  IsDefault : bool
}.
End GroupingRule.

Definition DefaultGroupingLabels (source : string) : list string :=
  if String.eqb source "alertmanager" || String.eqb source "prometheus" then ["alertname"; "job"]
  else if String.eqb source "grafana" then ["alertname"]
  else ["alertname"].

(** ** statemachine.go: [true] is a nil error *)

Definition Validate (from to : string) : bool :=
  if String.eqb from StatusOpen then String.eqb to StatusAcknowledged || String.eqb to StatusResolved
  else if String.eqb from StatusAcknowledged then String.eqb to StatusResolved
  else if String.eqb from StatusResolved then String.eqb to StatusOpen
  else false.

(** ** Tables *)

Record db := Db {
  incidents : list Incident.t;
  alerts : list IncidentAlert.t;
  labels : gmap string (gmap string string);
  comments : list Comment.t;
  history : list HistoryEntry.t;
  rules : list GroupingRule.t;
  broker : netstate
}.

#[export] Instance db_Broker : Broker db :=
  {| net := broker;
     set_net n d := Db (incidents d) (alerts d) (labels d) (comments d) (history d) (rules d) n;
     net_set_net _ _ := eq_refl;
     set_net_net d := match d with Db _ _ _ _ _ _ _ => eq_refl end;
     set_net_set_net _ _ _ := eq_refl |}.

Definition set_incidents (l : list Incident.t) (d : db) : db :=
  Db l (alerts d) (labels d) (comments d) (history d) (rules d) (broker d).
Definition set_alerts (l : list IncidentAlert.t) (d : db) : db :=
  Db (incidents d) l (labels d) (comments d) (history d) (rules d) (broker d).
Definition set_labels (l : gmap string (gmap string string)) (d : db) : db :=
  Db (incidents d) (alerts d) l (comments d) (history d) (rules d) (broker d).
Definition set_comments (l : list Comment.t) (d : db) : db :=
  Db (incidents d) (alerts d) (labels d) l (history d) (rules d) (broker d).
Definition set_history (l : list HistoryEntry.t) (d : db) : db :=
  Db (incidents d) (alerts d) (labels d) (comments d) l (rules d) (broker d).
Definition set_rules (l : list GroupingRule.t) (d : db) : db :=
  Db (incidents d) (alerts d) (labels d) (comments d) (history d) l (broker d).

Definition no_rows : err := ErrNew "no rows in result set".

Definition incident_exists (id : string) (d : db) : bool :=
  existsb (fun i => String.eqb (Incident.ID i) id) (incidents d).

(** The row a query without ORDER BY returns first is the planner's choice. *)
Class Planner := { pick : list string -> nat }.

Definition pick_row `{Planner} (l : list string) : option string :=
  l !! (pick l mod length l)%nat.

Section Store.
Context `{Platform} `{TimeText} `{Planner}.

Local Abbreviation Prog A := (M db A).

(** ** Incidents *)

Definition createIncident (q : dbConn) (inc : Incident.t) : Prog (res Incident.t) :=
  sql q [] (fun now uuid d =>
    if incident_exists uuid d then Err unique_violation
    else
      let row := Incident.mk uuid (Incident.TenantID inc) (Incident.TenantSlug inc) (Incident.Title inc)
                   (Incident.Severity inc) (Incident.Status inc) ∅ None None None now now in
      Ok (Incident.mk uuid (Incident.TenantID inc) (Incident.TenantSlug inc) (Incident.Title inc)
            (Incident.Severity inc) (Incident.Status inc) (Incident.Labels inc) (Incident.AcknowledgedAt inc)
            (Incident.AcknowledgedBy inc) (Incident.ResolvedAt inc) now now,
          set_incidents (incidents d ++ [row]) d)).

Definition CreateIncident (inc : Incident.t) : Prog (res Incident.t) := createIncident Pool inc.

Definition mergeLabels (q : dbConn) (incidentID : string) (m : gmap string string) : Prog (res unit) :=
  if decide (m = ∅) then Ret (Ok tt)
  else
    let? u := sql q [incidentID] (fun _ _ d =>
      if negb (incident_exists incidentID d) then Err fk_violation
      else Ok (tt, set_labels (<[incidentID := m ∪ default ∅ (labels d !! incidentID)]> (labels d)) d))
    wrap "merge labels" in
    Ret (Ok u).

Definition MergeLabels (incidentID : string) (m : gmap string string) : Prog (res unit) :=
  mergeLabels Pool incidentID m.

Definition appendHistory (q : dbConn) (e : HistoryEntry.t) : Prog (res unit) :=
  sql q [HistoryEntry.IncidentID e] (fun now uuid d =>
    if existsb (fun r => String.eqb (HistoryEntry.ID r) uuid) (history d) then Err unique_violation
    else if negb (incident_exists (HistoryEntry.IncidentID e) d) then Err fk_violation
    else Ok (tt, set_history (history d ++
           [HistoryEntry.mk uuid (HistoryEntry.IncidentID e) (HistoryEntry.TenantID e) (HistoryEntry.Kind e)
              (HistoryEntry.Author e) (HistoryEntry.OldValue e) (HistoryEntry.NewValue e) now]) d)).

Definition AppendHistory (e : HistoryEntry.t) : Prog (res unit) := appendHistory Pool e.

(** [ON CONFLICT DO NOTHING] returns no row when the generated key exists. *)
Definition attachAlert (q : dbConn) (ia : IncidentAlert.t) : Prog (res unit) :=
  sql q [IncidentAlert.IncidentID ia] (fun now uuid d =>
    if existsb (fun r => String.eqb (IncidentAlert.ID r) uuid) (alerts d) then Err no_rows
    else if negb (incident_exists (IncidentAlert.IncidentID ia) d) then Err fk_violation
    else Ok (tt, set_alerts (alerts d ++
           [IncidentAlert.mk uuid (IncidentAlert.IncidentID ia) (IncidentAlert.TenantID ia)
              (IncidentAlert.Fingerprint ia) (IncidentAlert.Source ia) (IncidentAlert.GroupKey ia)
              (IncidentAlert.Status ia) now]) d)).

Definition AttachAlert (ia : IncidentAlert.t) : Prog (res unit) := attachAlert Pool ia.

(** The incident as the call leaves it in the caller's struct. *)
Definition CreateIncidentTx (inc : Incident.t) (m : gmap string string) (hist : option HistoryEntry.t)
    (ia : IncidentAlert.t) : Prog (res Incident.t) :=
  withTx (fun tx =>
    let? inc := createIncident tx inc wrap "create incident" in
    let? _ := mergeLabels tx (Incident.ID inc) m wrap "merge labels" in
    let? _ := (match hist with
               | None => Ret (Ok tt)
               | Some h => appendHistory tx (HistoryEntry.set_IncidentID (Incident.ID inc) h)
               end) wrap "append history" in
    let? _ := attachAlert tx (IncidentAlert.set_IncidentID (Incident.ID inc) ia) wrap "attach alert" in
    Ret (Ok inc)).

Definition loadLabels (q : dbConn) (inc : Incident.t) : Prog (res Incident.t) :=
  sql q [Incident.ID inc] (fun _ _ d =>
    Ok (Incident.set_Labels (default ∅ (labels d !! Incident.ID inc)) inc, d)).

Definition select_incident (tenantID id : string) : Prog (res Incident.t) :=
  sql Pool [id] (fun _ _ d =>
    match find (fun i => String.eqb (Incident.ID i) id && String.eqb (Incident.TenantID i) tenantID)
            (incidents d) with
    | Some i => Ok (i, d)
    | None => Err ErrNotFound
    end).

Definition GetIncident (tenantID id : string) : Prog (res Incident.t) :=
  let? inc := select_incident tenantID id in
  loadLabels Pool inc.

(** *** Listing *)

Record ListFilter := {
  Statuses : list string;
  Severity : string;
  Label : list (string * string);
  FromTime : option Time;
  ToTime : option Time;
  Cursor : string;
  PageSize : Z
}.

(** [(a.created_at, a.id) < (t, id)]. *)
Definition key_ltb (t1 : Time) (id1 : string) (t2 : Time) (id2 : string) : bool :=
  (t1 <? t2) || ((t1 =? t2) && str_ltb id1 id2).

(** [ORDER BY created_at DESC, id DESC]. *)
Definition newest_first (a b : Incident.t) : Prop :=
  key_ltb (Incident.CreatedAt a) (Incident.ID a) (Incident.CreatedAt b) (Incident.ID b) = false.

#[export] Instance newest_first_dec : RelDecision newest_first.
Proof. intros a b. unfold newest_first. apply _. Defined.

Definition opt_test {A} (o : option A) (p : A -> bool) : bool := match o with Some a => p a | None => true end.

(** The conditions of the WHERE clause other than the cursor's. *)
Definition matches (tenantID : string) (f : ListFilter) (d : db) (i : Incident.t) : bool :=
  String.eqb (Incident.TenantID i) tenantID
  && (match Statuses f with [] => true | l => existsb (String.eqb (Incident.Status i)) l end)
  && (String.eqb (Severity f) "" || String.eqb (Incident.Severity i) (Severity f))
  && opt_test (FromTime f) (fun t => t <=? Incident.CreatedAt i)
  && opt_test (ToTime f) (fun t => Incident.CreatedAt i <=? t)
  && forallb (fun kv => bool_decide (default ∅ (labels d !! Incident.ID i) !! kv.1 = Some kv.2)) (Label f).

Definition before_cursor (c : option (Time * string)) (i : Incident.t) : bool :=
  opt_test c (fun c => key_ltb (Incident.CreatedAt i) (Incident.ID i) c.1 c.2).

Definition page_rows (tenantID : string) (f : ListFilter) (c : option (Time * string)) (d : db)
    : list Incident.t :=
  merge_sort newest_first (List.filter (fun i => matches tenantID f d i && before_cursor c i) (incidents d)).

Definition page_size (f : ListFilter) : nat :=
  Z.to_nat (if (PageSize f <=? 0) || (100 <? PageSize f) then 20 else PageSize f).

Definition select_page (tenantID : string) (f : ListFilter) : Prog (res (list Incident.t)) :=
  let c := decodeCursor (Cursor f) in
  sql Pool (match c with Some (_, cid) => [cid] | None => [] end) (fun _ _ d =>
    Ok (take (S (page_size f)) (page_rows tenantID f c d), d)).

Fixpoint load_all (l : list Incident.t) : Prog (res (list Incident.t)) :=
  match l with
  | [] => Ret (Ok [])
  | i :: l =>
      let? i := loadLabels Pool i in
      let? l := load_all l in
      Ret (Ok (i :: l))
  end.

(** The page and the cursor of the next one. *)
Definition next_page (f : ListFilter) (result : list Incident.t) : list Incident.t * string :=
  if (page_size f <? length result)%nat then
    (take (page_size f) result,
     match result !! (page_size f - 1)%nat with
     | Some last => encodeCursor (Incident.CreatedAt last) (Incident.ID last)
     | None => EmptyString
     end)
  else (result, EmptyString).

Definition ListIncidents (tenantID : string) (f : ListFilter) : Prog (res (list Incident.t * string)) :=
  let? result := select_page tenantID f in
  let p := next_page f result in
  let? l := load_all p.1 in
  Ret (Ok (l, p.2)).

(** *** Transitions *)

Definition transition (status authorID : string) (now : Time) (i : Incident.t) : Incident.t :=
  if String.eqb status StatusAcknowledged then
    Incident.set_status status (Some now) (Some authorID) (Incident.ResolvedAt i) now i
  else if String.eqb status StatusResolved then
    Incident.set_status status (Incident.AcknowledgedAt i) (Incident.AcknowledgedBy i) (Some now) now i
  else Incident.set_status status None None None now i.

(** [UPDATE ... WHERE id AND tenant_id AND status RETURNING ...] *)
Definition update_status (tenantID id status expectedStatus authorID : string) (now : Time) (q : dbConn)
    : Prog (res Incident.t) :=
  sql q [id] (fun _ _ d =>
    let cond i := String.eqb (Incident.ID i) id && String.eqb (Incident.TenantID i) tenantID
                  && String.eqb (Incident.Status i) expectedStatus in
    match find cond (incidents d) with
    | None => Err ErrNotFound
    | Some i =>
        Ok (transition status authorID now i,
            set_incidents (map (fun i => if cond i then transition status authorID now i else i) (incidents d)) d)
    end).

Definition transition_tx (tenantID id status expectedStatus authorID : string) (now : Time)
    (hist : option HistoryEntry.t) (tx : dbConn) : Prog (res Incident.t) :=
  let! r := update_status tenantID id status expectedStatus authorID now tx in
  match r with
  | Err e => if errors_Is e ErrNotFound then Ret (Err ErrConflict) else Ret (Err e)
  | Ok inc =>
      let? inc := loadLabels tx inc in
      match hist with
      | None => Ret (Ok inc)
      | Some h =>
          let? _ := appendHistory tx (HistoryEntry.set_IncidentID id h) in
          Ret (Ok inc)
      end
  end.

Definition TransitionStatus (tenantID id status expectedStatus authorID : string)
    (hist : option HistoryEntry.t) : Prog (res Incident.t) :=
  let! now := time_Now in
  withTx (transition_tx tenantID id status expectedStatus authorID now hist).

Definition firing_count (incidentID : string) (d : db) : Z :=
  Z.of_nat (length (List.filter (fun a => String.eqb (IncidentAlert.IncidentID a) incidentID
                                    && String.eqb (IncidentAlert.Status a) "firing") (alerts d))).

Definition resolve_rows (tenantID incidentID : string) (now : Time) (l : list Incident.t) : list Incident.t :=
  map (fun i => if String.eqb (Incident.ID i) incidentID && String.eqb (Incident.TenantID i) tenantID
                   && negb (String.eqb (Incident.Status i) "resolved")
                then Incident.set_status "resolved" (Incident.AcknowledgedAt i) (Incident.AcknowledgedBy i)
                       (Some now) now i
                else i) l.

Definition MaybeResolve (tenantID incidentID : string) : Prog (res bool) :=
  let? firingCount := sql Pool [incidentID] (fun _ _ d => Ok (firing_count incidentID d, d)) in
  if 0 <? firingCount then Ret (Ok false)
  else
    let! now := time_Now in
    let? _ := sql Pool [incidentID] (fun _ _ d =>
      Ok (tt, set_incidents (resolve_rows tenantID incidentID now (incidents d)) d)) in
    Ret (Ok true).

(** ** Incident alerts *)

(** The incident ids of the joined rows, for the planner to pick one. *)
Definition joined (p : IncidentAlert.t -> bool) (d : db) : list string :=
  flat_map (fun a => if p a then
      map (fun _ => IncidentAlert.IncidentID a)
        (List.filter (fun i => String.eqb (Incident.ID i) (IncidentAlert.IncidentID a)
                          && negb (String.eqb (Incident.Status i) "resolved")) (incidents d))
    else []) (alerts d).

Definition FindOpenIncidentByGroupKey (tenantID groupKey : string) : Prog (res string) :=
  sql Pool [] (fun _ _ d =>
    Ok (default EmptyString (pick_row (joined (fun a =>
          String.eqb (IncidentAlert.TenantID a) tenantID && String.eqb (IncidentAlert.GroupKey a) groupKey) d)), d)).

Definition by_attached (a b : IncidentAlert.t) : Prop := IncidentAlert.AttachedAt a <= IncidentAlert.AttachedAt b.

#[export] Instance by_attached_dec : RelDecision by_attached.
Proof. intros a b. apply Z_le_dec. Defined.

Definition ListIncidentAlerts (tenantID incidentID : string) : Prog (res (list IncidentAlert.t)) :=
  let? l := sql Pool [incidentID] (fun _ _ d =>
    Ok (merge_sort by_attached (List.filter (fun a => String.eqb (IncidentAlert.IncidentID a) incidentID
                                         && String.eqb (IncidentAlert.TenantID a) tenantID) (alerts d)), d))
  wrap "list incident alerts" in
  Ret (Ok l).

Definition FindIncidentByFingerprint (tenantID fingerprint : string) : Prog (res string) :=
  sql Pool [] (fun _ _ d =>
    Ok (default EmptyString (pick_row (joined (fun a =>
          String.eqb (IncidentAlert.TenantID a) tenantID && String.eqb (IncidentAlert.Fingerprint a) fingerprint
          && String.eqb (IncidentAlert.Status a) "firing") d)), d)).

(** The UPDATE changes every matching row, the caller sees one incident id. *)
Definition ResolveAlert (tenantID fingerprint : string) : Prog (res string) :=
  sql Pool [] (fun _ _ d =>
    let hit a := String.eqb (IncidentAlert.TenantID a) tenantID
                 && String.eqb (IncidentAlert.Fingerprint a) fingerprint
                 && String.eqb (IncidentAlert.Status a) "firing" in
    Ok (default EmptyString (pick_row (map IncidentAlert.IncidentID (List.filter hit (alerts d)))),
        set_alerts (map (fun a => if hit a then IncidentAlert.set_Status "resolved" a else a) (alerts d)) d)).

(** ** Labels, comments, history *)

Definition GetLabels (incidentID : string) : Prog (res (gmap string string)) :=
  sql Pool [incidentID] (fun _ _ d => Ok (default ∅ (labels d !! incidentID), d)).

Definition AddComment (c : Comment.t) : Prog (res Comment.t) :=
  sql Pool [Comment.IncidentID c] (fun now uuid d =>
    if existsb (fun r => String.eqb (Comment.ID r) uuid) (comments d) then Err unique_violation
    else if negb (incident_exists (Comment.IncidentID c) d) then Err fk_violation
    else
      let row := Comment.mk uuid (Comment.IncidentID c) (Comment.TenantID c) (Comment.Body c)
                   (Comment.AuthorID c) now in
      Ok (row, set_comments (comments d ++ [row]) d)).

Definition by_comment_time (a b : Comment.t) : Prop := Comment.CreatedAt a <= Comment.CreatedAt b.

#[export] Instance by_comment_time_dec : RelDecision by_comment_time.
Proof. intros a b. apply Z_le_dec. Defined.

Definition ListComments (tenantID incidentID : string) : Prog (res (list Comment.t)) :=
  sql Pool [incidentID] (fun _ _ d =>
    Ok (merge_sort by_comment_time (List.filter (fun c => String.eqb (Comment.IncidentID c) incidentID
                                             && String.eqb (Comment.TenantID c) tenantID) (comments d)), d)).

Definition DeleteComment (tenantID commentID : string) : Prog (res unit) :=
  let? n := sql Pool [commentID] (fun _ _ d =>
    let hit c := String.eqb (Comment.ID c) commentID && String.eqb (Comment.TenantID c) tenantID in
    Ok (Z.of_nat (length (List.filter hit (comments d))),
        set_comments (List.filter (fun c => negb (hit c)) (comments d)) d)) in
  Ret (if n =? 0 then Err ErrNotFound else Ok tt).

Definition by_occurred (a b : HistoryEntry.t) : Prop := HistoryEntry.OccurredAt a <= HistoryEntry.OccurredAt b.

#[export] Instance by_occurred_dec : RelDecision by_occurred.
Proof. intros a b. apply Z_le_dec. Defined.

Definition ListHistory (tenantID incidentID : string) : Prog (res (list HistoryEntry.t)) :=
  sql Pool [incidentID] (fun _ _ d =>
    Ok (merge_sort by_occurred (List.filter (fun h => String.eqb (HistoryEntry.IncidentID h) incidentID
                                         && String.eqb (HistoryEntry.TenantID h) tenantID) (history d)), d)).

(** ** Grouping rules *)

Definition default_rule (tenantID source : string) : GroupingRule.t :=
  GroupingRule.mk tenantID source (DefaultGroupingLabels source) true.

Definition rule_hit (tenantID source : string) (r : GroupingRule.t) : bool :=
  String.eqb (GroupingRule.TenantID r) tenantID && String.eqb (GroupingRule.Source r) source.

Definition GetGroupingRule (tenantID source : string) : Prog (res GroupingRule.t) :=
  sql Pool [] (fun _ _ d =>
    match find (rule_hit tenantID source) (rules d) with
    | None => Ok (default_rule tenantID source, d)
    | Some r => Ok (GroupingRule.mk tenantID source (GroupingRule.GroupingLabels r) false, d)
    end).

Definition SetGroupingRule (tenantID source : string) (ls : list string) : Prog (res unit) :=
  sql Pool [] (fun _ _ d =>
    let row := GroupingRule.mk tenantID source ls false in
    Ok (tt, set_rules (if existsb (rule_hit tenantID source) (rules d)
                       then map (fun r => if rule_hit tenantID source r then row else r) (rules d)
                       else rules d ++ [row]) d)).

Definition DeleteGroupingRule (tenantID source : string) : Prog (res unit) :=
  sql Pool [] (fun _ _ d =>
    Ok (tt, set_rules (List.filter (fun r => negb (rule_hit tenantID source r)) (rules d)) d)).

Definition ListGroupingRules (tenantID : string) : Prog (res (list GroupingRule.t)) :=
  sql Pool [] (fun _ _ d =>
    Ok (map (fun src =>
          match find (rule_hit tenantID src) (rules d) with
          | Some r => GroupingRule.mk tenantID src (GroupingRule.GroupingLabels r) false
          | None => default_rule tenantID src
          end) ["alertmanager"; "grafana"], d)).

End Store.
