(* ===== verification/Pagination.v ===== *)
(** * Incident: keyset pagination

    ListIncidents of services/incident/internal/store/store.go, read page by page
    by a client that follows the cursors. *)

From S2P Require Import Prelude Effects Json Events Interleaving Amqp Cursor IncidentStore.
Open Scope go_scope.

(** ** The order of the keys *)

Lemma key_ltb_irrefl t id : key_ltb t id t id = false.
Proof. unfold key_ltb. by rewrite Z.ltb_irrefl, Z.eqb_refl, str_ltb_irrefl. Qed.

Lemma key_ltb_trans t1 i1 t2 i2 t3 i3 :
  key_ltb t1 i1 t2 i2 = true -> key_ltb t2 i2 t3 i3 = true -> key_ltb t1 i1 t3 i3 = true.
Proof.
  unfold key_ltb. rewrite !orb_true_iff, !andb_true_iff, !Z.ltb_lt, !Z.eqb_eq.
  intros [?|[? ?]] [?|[? ?]]; [left; lia..|]. right. split; [lia|]. by eapply str_ltb_trans.
Qed.

Lemma key_ltb_total t1 i1 t2 i2 :
  key_ltb t1 i1 t2 i2 = false -> key_ltb t2 i2 t1 i1 = false -> t1 = t2 /\ i1 = i2.
Proof.
  unfold key_ltb. rewrite !orb_false_iff, !andb_false_iff, !Z.ltb_ge, !Z.eqb_neq.
  intros [H1 H1'] [H2 H2']. split; [lia|].
  apply str_ltb_total; [destruct H1'|destruct H2']; (lia || done).
Qed.

Lemma key_ltb_asym t1 i1 t2 i2 : key_ltb t1 i1 t2 i2 = true -> key_ltb t2 i2 t1 i1 = false.
Proof.
  intros Hab. apply not_true_is_false. intros Hba.
  pose proof (key_ltb_trans _ _ _ _ _ _ Hab Hba) as Haa. by rewrite key_ltb_irrefl in Haa.
Qed.

#[export] Instance newest_first_Total : Total newest_first.
Proof.
  intros a b. unfold newest_first. destruct (key_ltb _ _ _ _) eqn:E; [right|by left]. by apply key_ltb_asym.
Qed.

#[export] Instance newest_first_Transitive : Transitive newest_first.
Proof.
  intros a b c Hab Hbc. unfold newest_first in *. apply not_true_is_false. intros Hca.
  destruct (key_ltb (Incident.CreatedAt b) (Incident.ID b) (Incident.CreatedAt a) (Incident.ID a)) eqn:E.
  - pose proof (key_ltb_trans _ _ _ _ _ _ E Hca). congruence.
  - destruct (key_ltb_total _ _ _ _ Hab E) as [Et Ei]. rewrite Et, Ei in Hca. congruence.
Qed.

(** ** Filtering and cutting a sorted list *)

Lemma StronglySorted_filter {A} (R : A -> A -> Prop) (p : A -> bool) l :
  StronglySorted R l -> StronglySorted R (List.filter p l).
Proof.
  induction 1 as [|x l Hl IH Hx]; simpl; [constructor|]. destruct (p x); [|done].
  constructor; [done|]. rewrite Forall_forall in *. intros y [Hy _]%list_elem_of_In%filter_In. apply Hx.
  by apply list_elem_of_In.
Qed.

Lemma Permutation_filter {A} (p : A -> bool) l l' : l ≡ₚ l' -> List.filter p l ≡ₚ List.filter p l'.
Proof.
  induction 1 as [|x l l' _ IH|x y l|l1 l2 l3 _ IH1 _ IH2]; simpl; [done|..].
  - destruct (p x); by rewrite IH.
  - destruct (p x), (p y); try done. apply perm_swap.
  - by rewrite IH1.
Qed.

Lemma filter_filter_andb {A} (p q : A -> bool) l :
  List.filter q (List.filter p l) = List.filter (fun x => p x && q x) l.
Proof. induction l as [|x l IH]; simpl; [done|]. destruct (p x); simpl; [destruct (q x)|]; by rewrite IH. Qed.

Lemma filter_all_true {A} (p : A -> bool) l : (forall x, x ∈ l -> p x = true) -> List.filter p l = l.
Proof.
  induction l as [|x l IH]; intros Hp; simpl; [done|]. rewrite (Hp x) by (by left). f_equal.
  apply IH. intros y Hy. apply Hp. by right.
Qed.

(** ** Pages of one table *)

Section Pages.
Context `{TimeText}.
Variables (tenant : string) (f : ListFilter) (d : db).
Hypothesis Hnd : NoDup (map Incident.ID (incidents d)).

(** The whole answer: the matching rows, newest first. *)
Definition all_rows : list Incident.t := page_rows tenant f None d.

Lemma page_rows_elem c i :
  i ∈ page_rows tenant f c d <-> i ∈ incidents d /\ matches tenant f d i = true /\ before_cursor c i = true.
Proof.
  unfold page_rows. rewrite merge_sort_Permutation, list_elem_of_In, filter_In, andb_true_iff.
  by rewrite <- list_elem_of_In.
Qed.

Lemma row_unique i j : i ∈ incidents d -> j ∈ incidents d -> newest_first i j -> newest_first j i -> i = j.
Proof.
  intros Hi Hj H1 H2. apply (NoDup_map_inj Incident.ID (incidents d)); [done..|].
  by destruct (key_ltb_total _ _ _ _ H1 H2).
Qed.

(** A cursor only filters the whole answer. *)
Lemma page_rows_cursor c : page_rows tenant f c d = List.filter (before_cursor c) all_rows.
Proof.
  apply (StronglySorted_unique_strong newest_first).
  - intros i j [Hi _]%page_rows_elem Hj. apply list_elem_of_In, filter_In in Hj as [Hj _].
    apply list_elem_of_In, page_rows_elem in Hj as [Hj _]. by apply row_unique.
  - apply StronglySorted_merge_sort; apply _.
  - apply StronglySorted_filter, StronglySorted_merge_sort; apply _.
  - unfold all_rows, page_rows. rewrite merge_sort_Permutation.
    rewrite (Permutation_filter _ _ _ (merge_sort_Permutation _ _)), filter_filter_andb.
    apply Permutation_refl'. apply filter_ext. intros i. simpl. by rewrite andb_true_r.
Qed.

Lemma all_rows_sorted : StronglySorted newest_first all_rows.
Proof. apply StronglySorted_merge_sort; apply _. Qed.

Lemma all_rows_NoDup : NoDup all_rows.
Proof.
  unfold all_rows, page_rows. rewrite merge_sort_Permutation. apply NoDup_ListNoDup, List.NoDup_filter, NoDup_ListNoDup.
  by apply NoDup_fmap_1 in Hnd.
Qed.

(** The rows before the key of one row are the rows after it. *)
Lemma filter_after (l : list Incident.t) j last :
  StronglySorted newest_first l -> NoDup l -> (forall i, i ∈ l -> i ∈ incidents d) -> l !! j = Some last ->
  List.filter (before_cursor (Some (Incident.CreatedAt last, Incident.ID last))) l = drop (S j) l.
Proof.
  intros Hs. revert j. induction Hs as [|x l Hl IH Hx]; intros j Hn Hin Hj; [done|].
  apply NoDup_cons in Hn as [Hnx Hn]. rewrite Forall_forall in Hx. destruct j as [|j]; simpl in Hj.
  - injection Hj as ->. cbn -[key_ltb]. rewrite key_ltb_irrefl. rewrite drop_0.
    apply filter_all_true. intros y Hy. simpl. apply not_false_is_true. intros Hk.
    assert (y = last) as ->; [|done]. apply row_unique; [apply Hin; by right|apply Hin; by left|done|by apply Hx].
  - cbn -[key_ltb]. assert (last ∈ l) as Hlast by (by eapply list_elem_of_lookup_2).
    rewrite (Hx last Hlast). apply IH; [done| |done]. intros i Hi. apply Hin. by right.
Qed.

Lemma next_rows j last :
  all_rows !! j = Some last ->
  page_rows tenant f (Some (Incident.CreatedAt last, Incident.ID last)) d = drop (S j) all_rows.
Proof.
  intros Hj. rewrite page_rows_cursor. apply filter_after; [apply all_rows_sorted|apply all_rows_NoDup| |done].
  by intros i [Hi _]%page_rows_elem.
Qed.

End Pages.

(** ** A client that reads all pages *)

Definition with_cursor (c : string) (f : ListFilter) : ListFilter :=
  {| Statuses := Statuses f; Severity := Severity f; Label := Label f; FromTime := FromTime f;
     ToTime := ToTime f; Cursor := c; PageSize := PageSize f |}.

(** The labels of the row, as [loadLabels] fills them in. *)
Definition with_labels (d : db) (i : Incident.t) : Incident.t :=
  Incident.set_Labels (default ∅ (labels d !! Incident.ID i)) i.

Section Client.
Context `{Platform} `{TimeText}.

Fixpoint read_all (fuel : nat) (tenant : string) (f : ListFilter) (cursor : string)
    : M db (res (list Incident.t)) :=
  match fuel with
  | O => Ret (Err (ErrNew "too many pages"))
  | S fuel =>
      let? page := ListIncidents tenant (with_cursor cursor f) in
      if String.eqb page.2 "" then Ret (Ok page.1)
      else
        let? rest := read_all fuel tenant f page.2 in
        Ret (Ok (page.1 ++ rest))
  end.

Hypothesis Hrel : reliable.

Lemma run_loadLabels i t d :
  uuid_ok (Incident.ID i) = true ->
  run (loadLabels Pool i) (World t d) = (Ok (with_labels d i), World (S t) d).
Proof. intros Hu. unfold loadLabels. rewrite run_sql_ok by (simpl; rewrite ?Hu; done || apply Hrel). done. Qed.

Lemma run_load_all l t d :
  (forall i, i ∈ l -> uuid_ok (Incident.ID i) = true) ->
  exists t', run (load_all l) (World t d) = (Ok (map (with_labels d) l), World t' d).
Proof.
  revert t. induction l as [|i l IH]; intros t Hu; cbn [load_all]; [by eexists|].
  rewrite run_bind, run_loadLabels by (apply Hu; by left). cbn [map].
  destruct (IH (S t)) as [t' Ht]; [intros j Hj; apply Hu; by right|].
  rewrite run_bind, Ht. by eexists.
Qed.

Variables (tenant : string) (f : ListFilter) (d : db).
Hypothesis Hnd : NoDup (map Incident.ID (incidents d)).
Hypothesis Hrows : forall i, i ∈ incidents d ->
  cursor_time (Incident.CreatedAt i) /\ Incident.ID i <> EmptyString /\ uuid_ok (Incident.ID i) = true.

Local Abbreviation rows := (all_rows tenant f d).

Lemma rows_good i : i ∈ rows ->
  cursor_time (Incident.CreatedAt i) /\ Incident.ID i <> EmptyString /\ uuid_ok (Incident.ID i) = true.
Proof. intros [Hi _]%page_rows_elem. by apply Hrows. Qed.

Lemma page_size_pos : (1 <= page_size f)%nat.
Proof. unfold page_size. destruct (_ || _) eqn:E; [lia|]. apply orb_false_iff in E as [E _]. apply Z.leb_gt in E. lia. Qed.

(** The cursor stands for having read the first [k] rows. *)
Definition at_row (cursor : string) (k : nat) : Prop :=
  page_rows tenant f (decodeCursor cursor) d = drop k rows
  /\ forallb uuid_ok (match decodeCursor cursor with Some (_, cid) => [cid] | None => [] end) = true.

(** One page: the next rows, and a cursor behind them unless they are the last. *)
Lemma run_page cursor k t :
  at_row cursor k ->
  exists t' next, run (ListIncidents tenant (with_cursor cursor f)) (World t d)
      = (Ok (map (with_labels d) (take (page_size f) (drop k rows)), next), World t' d)
    /\ if (page_size f <? length (drop k rows))%nat
       then next <> EmptyString /\ at_row next (k + page_size f)
       else next = EmptyString.
Proof.
  intros [Hk Hu]. unfold ListIncidents, select_page. rewrite run_bind, run_sql_ok by (done || apply Hrel).
  change (page_rows tenant (with_cursor cursor f)) with (page_rows tenant f).
  change (page_size (with_cursor cursor f)) with (page_size f). cbn [Cursor with_cursor tick data].
  rewrite Hk. set (l := drop k rows). set (n := page_size f).
  pose proof page_size_pos as Hn. fold n in Hn.
  assert (forall i, i ∈ take n l -> uuid_ok (Incident.ID i) = true) as Hload.
  { intros i Hi%elem_of_take. destruct Hi as (j & Hj & _). unfold l in Hj. rewrite lookup_drop in Hj.
    apply rows_good. by eapply list_elem_of_lookup_2. }
  unfold next_page. change (page_size (with_cursor cursor f)) with n.
  rewrite length_take. destruct (Nat.ltb_spec n (length l)) as [Hlt|Hge].
  - rewrite (proj2 (Nat.ltb_lt n _)) by lia. cbn [fst snd]. rewrite take_take, Nat.min_l by lia.
    rewrite run_bind. destruct (run_load_all (take n l) (S t) d Hload) as [t' ->].
    rewrite lookup_take_lt by lia. destruct (lookup_lt_is_Some_2 l (n - 1)) as [last Hlast]; [lia|].
    rewrite Hlast. exists t'. eexists. split; [reflexivity|].
    unfold l in Hlast. rewrite lookup_drop in Hlast.
    destruct (rows_good last) as ([Ht1 Ht2] & Hid & Hlu); [by eapply list_elem_of_lookup_2|].
    pose proof (decode_encode _ (Incident.ID last) Ht1 Ht2 Hid) as Hdec. split.
    + intros E. by rewrite E in Hdec.
    + split; rewrite Hdec; [|simpl; by rewrite Hlu].
      rewrite (next_rows tenant f d Hnd _ last Hlast). f_equal. lia.
  - rewrite (proj2 (Nat.ltb_ge n _)) by lia. cbn [fst snd].
    rewrite (take_ge l (S n)) by lia. rewrite (take_ge l n) in * by lia.
    rewrite run_bind. destruct (run_load_all l (S t) d Hload) as [t' ->]. exists t'. eexists. split; reflexivity.
Qed.

Lemma run_read_all fuel cursor k t :
  at_row cursor k -> (length (drop k rows) < fuel)%nat ->
  exists t', run (read_all fuel tenant f cursor) (World t d)
    = (Ok (map (with_labels d) (drop k rows)), World t' d).
Proof.
  revert cursor k t. induction fuel as [|fuel IH]; intros cursor k t Hat Hlen; [lia|]. cbn [read_all].
  destruct (run_page cursor k t Hat) as (t1 & next & Hrun & Hnext). rewrite run_bind, Hrun. cbn [fst snd].
  destruct (Nat.ltb_spec (page_size f) (length (drop k rows))) as [Hlt|Hge].
  - destruct Hnext as [Hne Hat']. rewrite (proj2 (String.eqb_neq _ _) Hne).
    pose proof page_size_pos.
    destruct (IH next (k + page_size f)%nat t1 Hat') as [t' Ht'].
    { rewrite !length_drop in *. lia. }
    rewrite run_bind, Ht'. exists t'. simpl. rewrite <- map_app, <- drop_drop, take_drop. done.
  - subst next. simpl. exists t1. by rewrite take_ge by lia.
Qed.

End Client.

(** ** Property *)

(** C31: keyset pagination is complete.  On a database nobody changes, a client
    that starts without a cursor and follows the cursors of the pages gets, in
    finitely many pages, every incident the filter matches exactly once, newest
    first, with its labels, also when creation times are equal. *)
Theorem pagination_complete `{Platform} `{TimeText} tenant f t d :
  reliable -> NoDup (map Incident.ID (incidents d)) ->
  (forall i, i ∈ incidents d ->
     cursor_time (Incident.CreatedAt i) /\ Incident.ID i <> EmptyString /\ uuid_ok (Incident.ID i) = true) ->
  exists l t', run (read_all (S (length (incidents d))) tenant f "") (World t d)
      = (Ok (map (with_labels d) l), World t' d)
    /\ StronglySorted newest_first l
    /\ l ≡ₚ List.filter (matches tenant f d) (incidents d).
Proof.
  intros Hrel Hnd Hrows. destruct (run_read_all Hrel tenant f d Hnd Hrows (S (length (incidents d))) "" 0 t) as [t' Ht'].
  - split; [|done]. by rewrite drop_0.
  - rewrite drop_0. unfold all_rows, page_rows. rewrite merge_sort_Permutation.
    apply Nat.lt_succ_r, List.filter_length_le.
  - exists (all_rows tenant f d), t'. rewrite Ht', drop_0. split; [done|]. split; [apply all_rows_sorted|].
    unfold all_rows, page_rows. rewrite merge_sort_Permutation. apply Permutation_refl', filter_ext.
    intros i. simpl. apply andb_true_r.
Qed.

(** Five incidents, three of them created at the same time, in pages of two. *)
Module Pagination_demo.
Definition row (id : string) (t : Time) : Incident.t :=
  Incident.mk id "acme" "acme" "disk" "high" StatusOpen ∅ None None None t t.
Definition table : db := Db [row "i1" 5; row "i2" 5; row "i3" 4; row "i4" 5; row "i5" 6] [] ∅ [] [] [] (Net true true true [] []).
Definition filter2 : ListFilter :=
  {| Statuses := []; Severity := ""; Label := []; FromTime := None; ToTime := None; Cursor := ""; PageSize := 2 |}.
End Pagination_demo.
Import Pagination_demo.

Lemma pagination_complete_witness :
  (exists t', run (@read_all (demo_platform []) demo_time_text 6 "acme" filter2 "") (World 0 table)
     = (Ok [row "i5" 6; row "i4" 5; row "i2" 5; row "i1" 5; row "i3" 4], World t' table)) /\
  exists l t', run (@read_all (demo_platform []) demo_time_text 6 "acme" filter2 "") (World 0 table)
      = (Ok (map (with_labels table) l), World t' table)
    /\ StronglySorted newest_first l
    /\ l ≡ₚ List.filter (matches "acme" filter2 table) (incidents table).
Proof.
  split; [eexists; vm_compute; reflexivity|].
  apply (@pagination_complete (demo_platform []) demo_time_text "acme" filter2 0 table).
  - intros t. reflexivity.
  - apply (bool_decide_unpack _). vm_compute. exact I.
  - intros i Hi. repeat (apply elem_of_cons in Hi as [->|Hi]; [split_and!; [split; reflexivity|discriminate|reflexivity]|]).
    by apply not_elem_of_nil in Hi.
Defined.
