(* ===== verification/IncidentConsumer.v ===== *)
(** * Incident: publisher and alert consumer

    services/incident/internal/publisher/publisher.go and
    consumer/consumer.go, as programs over the tables of [IncidentStore].  Logs
    and metrics are left out. *)

From S2P Require Import Prelude Effects Sha256 Json Events Interleaving Amqp Cursor IncidentStore.
Open Scope go_scope.

Local Abbreviation Prog A := (M db A).

Section Consumer.
Context `{Platform} `{TimeText} `{Planner}.

(** ** publisher.go *)

Definition PublishCreated (ev : IncidentChanged.t) : Prog (res unit) :=
  let? body := Envelope.Wrap RoutingKeyIncidentCreated (IncidentChanged.TenantID ev) ev
    wrap "publisher: wrap created" in
  Publish ExchangeIncidents RoutingKeyIncidentCreated body.

Definition PublishUpdated (ev : IncidentChanged.t) : Prog (res unit) :=
  let? body := Envelope.Wrap RoutingKeyIncidentUpdated (IncidentChanged.TenantID ev) ev
    wrap "publisher: wrap updated" in
  Publish ExchangeIncidents RoutingKeyIncidentUpdated body.

(** ** consumer.go *)

Definition normalizeSource (source : string) : string :=
  if String.eqb source "prometheus" then "alertmanager" else source.

Definition computeGroupKey (labels : gmap string string) (groupingLabels : list string) : string :=
  let parts := map (fun lbl => lbl +:+ "=" +:+ map_get labels lbl) groupingLabels in
  sha256_hex (Join (sort_Strings parts) ",").

(** The event of an incident as it was read. *)
Definition changed (inc : Incident.t) : IncidentChanged.t :=
  IncidentChanged.mk (Incident.ID inc) (Incident.TenantID inc) (Incident.TenantSlug inc)
    (Incident.Status inc) (Incident.Title inc) (Incident.Severity inc).

(** The last part of both handlers: read the incident, publish, ignore errors. *)
Definition announce (publish : IncidentChanged.t -> Prog (res unit)) (tenantID incidentID : string)
    : Prog (res unit) :=
  let! inc := GetIncident tenantID incidentID in
  match inc with
  | Ok inc => let! _ := publish (changed inc) in Ret (Ok tt)
  | Err _ => Ret (Ok tt)
  end.

Definition handleFiring (alert : Alert.t) (tenantID : string) : Prog (res unit) :=
  let? rule := GetGroupingRule tenantID (normalizeSource (Alert.Source alert)) wrap "get grouping rule" in
  let groupKey := computeGroupKey (Alert.Labels alert) (GroupingRule.GroupingLabels rule) in
  let? incidentID := FindOpenIncidentByGroupKey tenantID groupKey wrap "find incident" in
  let ia := IncidentAlert.mk "" incidentID tenantID (Alert.Fingerprint alert) (Alert.Source alert)
              groupKey AlertStatusFiring Alert.zero_time in
  if String.eqb incidentID "" then
    let inc := Incident.mk "" tenantID tenantID (Alert.Title alert) (Alert.Severity alert) StatusOpen
                 ∅ None None None Alert.zero_time Alert.zero_time in
    let hist := HistoryEntry.mk "" "" tenantID HistoryStatusChange "" "" StatusOpen Alert.zero_time in
    let? inc := CreateIncidentTx inc (Alert.Labels alert) (Some hist) ia wrap "create incident" in
    announce PublishCreated tenantID (Incident.ID inc)
  else
    let? _ := AttachAlert ia wrap "attach alert" in
    Ret (Ok tt).

Definition handleResolved (alert : Alert.t) : Prog (res unit) :=
  let? incidentID := ResolveAlert (Alert.TenantID alert) (Alert.Fingerprint alert) wrap "resolve alert" in
  if String.eqb incidentID "" then Ret (Ok tt)
  else
    let? closed := MaybeResolve (Alert.TenantID alert) incidentID wrap "maybe resolve" in
    if closed : bool then
      let! _ := AppendHistory (HistoryEntry.mk "" incidentID (Alert.TenantID alert) HistoryStatusChange ""
                  StatusOpen StatusResolved Alert.zero_time) in
      announce PublishUpdated (Alert.TenantID alert) incidentID
    else Ret (Ok tt).

Definition handle (env : Envelope.t) : Prog (res unit) :=
  match Envelope.DecodePayload env Alert.zero with
  | Err e => Ret (Err (Drop e))
  | Ok alert =>
      if String.eqb (Alert.Status alert) AlertStatusResolved then handleResolved alert
      else handleFiring alert (Envelope.TenantID env)
  end.

(** The handler as [Consume] calls it: it does not panic. *)
Definition consumer_handler (env : Envelope.t) : Prog handled :=
  let! r := handle env in
  Ret (Returned r).

(** The entry for one delivery outside [Consume]. *)
Definition ProcessDelivery (body : json) : Prog (res unit) :=
  match Unmarshal Envelope.decode body Envelope.zero with
  | Err e => Ret (Err (Wrap "unmarshal envelope" e))
  | Ok env => handle env
  end.

End Consumer.
