(* ===== verification/IncidentHandler.v ===== *)
(** * Incident: HTTP handlers

    services/incident/internal/handler/handler.go and the routes of
    cmd/server/main.go.  A handler gets the context the authentication left, the
    request with its URL parameters, the query and the body ([None]: not JSON). *)

From S2P Require Import Prelude Effects Sha256 JsonText Json Events Interleaving Amqp Http Auth Cursor IncidentStore IncidentConsumer.
Open Scope go_scope.

Local Abbreviation Prog A := (M db A).

(** The values the handlers write. *)
Inductive body :=
| Incidents (l : list Incident.t) (NextCursor : string)
| AnIncident (i : Incident.t)
| Alerts (l : list IncidentAlert.t)
| LabelMap (m : gmap string string)
| AComment (c : Comment.t)
| Comments (l : list Comment.t)
| History (l : list HistoryEntry.t)
| Rules (l : list GroupingRule.t).

Definition internal_error : response body := Error StatusInternalServerError "internal error".

Definition invalid_body : response body := Error StatusBadRequest "invalid body".

Definition not_found : response body := Error StatusNotFound "not found".

(** [r.URL.Query()]: the first value of each parameter. *)
Abbreviation query := (string -> string).

(** The structs the handlers decode. *)
Definition status_fields : fields string := [field "status" id (fun v _ => v) dec_string].

Definition comment_fields : fields string := [field "body" id (fun v _ => v) dec_string].

Definition attach_fields : fields (string * string) := [
  field "fingerprint" fst (fun v a => (v, a.2)) dec_string;
  field "source" snd (fun v a => (a.1, v)) dec_string].

Definition rule_fields : fields (list string) := [
  field "grouping_labels" id (fun v _ => v) (dec_slice EmptyString dec_string)].

(** A [map[string]string] variable: [null] leaves it nil. *)
Definition dec_label_map : decoder (option (gmap string string)) := fun j m =>
  match j with
  | JNull => Some None
  | _ => m ← dec_map j (default ∅ m); Some (Some m)
  end.

Section Handler.
Context `{Platform} `{TimeText} `{Planner}.

Definition tenantSlug (r : request) : string := URLParam r "tenant".

Definition incidentID (r : request) : string := URLParam r "incidentId".

Definition callerID (ctx : context) : string :=
  match FromContext ctx with
  | Some c =>
      if negb (String.eqb (Claims.PreferredUsername c) "") then Claims.PreferredUsername c
      else if negb (String.eqb (Claims.Name c) "") then Claims.Name c
      else Claims.Sub c
  | None => "system"
  end.

(** *** Listing *)

Definition valid_status (s : string) : bool :=
  String.eqb s StatusOpen || String.eqb s StatusAcknowledged || String.eqb s StatusResolved.

(** The statuses of the filter, or [None] at the first value that is not one. *)
Definition parse_statuses (raw : string) : option (list string) :=
  if String.eqb raw "" then Some []
  else mapM (fun s => let s := TrimSpace s in if valid_status s then Some s else None) (Split raw ",").

Definition parse_bound (raw : string) : option Time :=
  if String.eqb raw "" then None else time_Parse raw.

Definition ListIncidents (r : request) (q : query) : Prog (response body) :=
  match parse_statuses (q "status") with
  | None => Ret (Error StatusBadRequest "invalid status value")
  | Some statuses =>
      let f := {| Statuses := statuses; Severity := q "severity"; Label := [];
                  FromTime := parse_bound (q "from_time"); ToTime := parse_bound (q "to_time");
                  Cursor := q "cursor"; PageSize := 0 |} in
      let! l := IncidentStore.ListIncidents (URLParam r "tenant_id") f in
      Ret (match l with
           | Err _ => internal_error
           | Ok (incidents, nextCursor) => Json StatusOK (Incidents incidents nextCursor)
           end)
  end.

Definition GetIncident (r : request) : Prog (response body) :=
  let! inc := IncidentStore.GetIncident (URLParam r "tenant_id") (incidentID r) in
  Ret (match inc with
       | Err e => if errors_Is e ErrNotFound then not_found else internal_error
       | Ok inc => Json StatusOK (AnIncident inc)
       end).

(** *** PATCH status *)

Definition PatchStatus (ctx : context) (r : request) (req : option json) : Prog (response body) :=
  let tenantID := URLParam r "tenant_id" in
  let id := incidentID r in
  match Decode (dec_struct status_fields) req "" with
  | Err _ => Ret invalid_body
  | Ok newStatus =>
      if String.eqb newStatus "" then Ret invalid_body
      else
        let! inc := IncidentStore.GetIncident tenantID id in
        match inc with
        | Err e => Ret (if errors_Is e ErrNotFound then not_found else internal_error)
        | Ok inc =>
            if negb (Validate (Incident.Status inc) newStatus)
            then Ret (Error StatusUnprocessableEntity "invalid status transition")
            else
              let caller := callerID ctx in
              let hist := HistoryEntry.mk "" id tenantID HistoryStatusChange caller (Incident.Status inc)
                            newStatus Alert.zero_time in
              let! updated := TransitionStatus tenantID id newStatus (Incident.Status inc) caller (Some hist) in
              match updated with
              | Err e => Ret (if errors_Is e ErrConflict
                              then Error StatusConflict "incident status changed concurrently"
                              else internal_error)
              | Ok updated =>
                  let! _ := PublishUpdated (IncidentChanged.mk (Incident.ID updated) (Incident.TenantID updated)
                              (tenantSlug r) (Incident.Status updated) (Incident.Title updated)
                              (Incident.Severity updated)) in
                  Ret (Json StatusOK (AnIncident updated))
              end
        end
  end.

(** *** Alerts *)

(** [if _, err := h.store.GetIncident(...); errors.Is(err, store.ErrNotFound)]:
    any other error lets the request through. *)
Definition unless_missing (r : request) (k : Prog (response body)) : Prog (response body) :=
  let! inc := IncidentStore.GetIncident (URLParam r "tenant_id") (incidentID r) in
  match inc with
  | Err e => if errors_Is e ErrNotFound then Ret not_found else k
  | Ok _ => k
  end.

Definition AttachAlert (r : request) (req : option json) : Prog (response body) :=
  match Decode (dec_struct attach_fields) req ("", "") with
  | Err _ => Ret invalid_body
  | Ok (fingerprint, source) =>
      if String.eqb fingerprint "" then Ret invalid_body
      else unless_missing r (
        let! e := IncidentStore.AttachAlert (IncidentAlert.mk "" (incidentID r) (URLParam r "tenant_id")
                    fingerprint source "" AlertStatusFiring Alert.zero_time) in
        Ret (match e with Err _ => internal_error | Ok _ => NoBody StatusNoContent end))
  end.

Definition ListIncidentAlerts (r : request) : Prog (response body) :=
  unless_missing r (
    let! l := IncidentStore.ListIncidentAlerts (URLParam r "tenant_id") (incidentID r) in
    Ret (match l with Err _ => internal_error | Ok l => Json StatusOK (Alerts l) end)).

(** *** Labels *)

(** store.LabelsToJSON. *)
Definition LabelsToJSON (m : option (gmap string string)) : string := marshal_string_map m.

Definition PutLabels (ctx : context) (r : request) (req : option json) : Prog (response body) :=
  match Decode dec_label_map req None with
  | Err _ => Ret invalid_body
  | Ok labels =>
      unless_missing r (
        let! e := MergeLabels (incidentID r) (default ∅ labels) in
        match e with
        | Err _ => Ret internal_error
        | Ok _ =>
            let! _ := AppendHistory (HistoryEntry.mk "" (incidentID r) (URLParam r "tenant_id")
                        HistoryLabelChange (callerID ctx) "" (LabelsToJSON labels) Alert.zero_time) in
            let! all := GetLabels (incidentID r) in
            Ret (match all with Err _ => internal_error | Ok m => Json StatusOK (LabelMap m) end)
        end)
  end.

(** *** Comments *)

Definition AddComment (ctx : context) (r : request) (req : option json) : Prog (response body) :=
  match Decode (dec_struct comment_fields) req "" with
  | Err _ => Ret invalid_body
  | Ok text =>
      if String.eqb text "" then Ret invalid_body
      else
        let! inc := IncidentStore.GetIncident (URLParam r "tenant_id") (incidentID r) in
        match inc with
        | Err e => Ret (if errors_Is e ErrNotFound then not_found else internal_error)
        | Ok inc =>
            if String.eqb (Incident.Status inc) StatusResolved
            then Ret (Error StatusConflict "cannot comment on a resolved incident")
            else
              let! c := IncidentStore.AddComment (Comment.mk "" (incidentID r) (URLParam r "tenant_id") text
                          (callerID ctx) Alert.zero_time) in
              match c with
              | Err _ => Ret internal_error
              | Ok c =>
                  let! _ := AppendHistory (HistoryEntry.mk "" (incidentID r) (URLParam r "tenant_id")
                              HistoryCommentAdded (Comment.AuthorID c) "" (Comment.ID c) Alert.zero_time) in
                  Ret (Json StatusCreated (AComment c))
              end
        end
  end.

Definition ListComments (r : request) : Prog (response body) :=
  let! l := IncidentStore.ListComments (URLParam r "tenant_id") (incidentID r) in
  Ret (match l with Err _ => internal_error | Ok l => Json StatusOK (Comments l) end).

Definition DeleteComment (r : request) : Prog (response body) :=
  let! e := IncidentStore.DeleteComment (URLParam r "tenant_id") (URLParam r "commentId") in
  Ret (match e with
       | Err e => if errors_Is e ErrNotFound then not_found else internal_error
       | Ok _ => NoBody StatusNoContent
       end).

Definition ListHistory (r : request) : Prog (response body) :=
  let! l := IncidentStore.ListHistory (URLParam r "tenant_id") (incidentID r) in
  Ret (match l with Err _ => internal_error | Ok l => Json StatusOK (History l) end).

(** *** Grouping rules *)

Definition ListGroupingRules (r : request) : Prog (response body) :=
  let! l := IncidentStore.ListGroupingRules (URLParam r "tenant_id") in
  Ret (match l with Err _ => internal_error | Ok l => Json StatusOK (Rules l) end).

Definition validGroupingSources (src : string) : bool :=
  String.eqb src "alertmanager" || String.eqb src "grafana".

Definition bad_source : response body :=
  Error StatusUnprocessableEntity "source must be alertmanager or grafana".

Definition PutGroupingRule (r : request) (req : option json) : Prog (response body) :=
  let src := URLParam r "source" in
  if negb (validGroupingSources src) then Ret bad_source
  else match Decode (dec_struct rule_fields) req [] with
  | Err _ | Ok [] => Ret invalid_body
  | Ok labels =>
      let! e := SetGroupingRule (URLParam r "tenant_id") src labels in
      Ret (match e with Err _ => internal_error | Ok _ => NoBody StatusNoContent end)
  end.

Definition DeleteGroupingRule (r : request) : Prog (response body) :=
  let src := URLParam r "source" in
  if negb (validGroupingSources src) then Ret bad_source
  else
    let! e := IncidentStore.DeleteGroupingRule (URLParam r "tenant_id") src in
    Ret (match e with Err _ => internal_error | Ok _ => NoBody StatusNoContent end).

(** ** The routes of cmd/server/main.go *)

Inductive route :=
| RListIncidents (q : query)
| RGetIncident (incidentId : string)
| RPatchStatus (incidentId : string) (req : option json)
| RListIncidentAlerts (incidentId : string)
| RAttachAlert (incidentId : string) (req : option json)
| RPutLabels (incidentId : string) (req : option json)
| RAddComment (incidentId : string) (req : option json)
| RListComments (incidentId : string)
| RDeleteComment (incidentId commentId : string)
| RListHistory (incidentId : string)
| RListGroupingRules
| RPutGroupingRule (source : string) (req : option json)
| RDeleteGroupingRule (source : string).

(** The parameters of the URL besides [tenant_id]. *)
Definition route_params (rt : route) : list (string * string) :=
  match rt with
  | RGetIncident i | RPatchStatus i _ | RListIncidentAlerts i | RAttachAlert i _ | RPutLabels i _
  | RAddComment i _ | RListComments i | RListHistory i => [("incidentId", i)]
  | RDeleteComment i c => [("incidentId", i); ("commentId", c)]
  | RPutGroupingRule s _ | RDeleteGroupingRule s => [("source", s)]
  | RListIncidents _ | RListGroupingRules => []
  end.

(** [chi.URLParam]: the empty string for a name that is not in the pattern. *)
Definition url_params (tenant : string) (rt : route) (key : string) : string :=
  match find (fun kv => String.eqb kv.1 key) (("tenant_id", tenant) :: route_params rt) with
  | Some (_, v) => v
  | None => EmptyString
  end.

Definition dispatch (ctx : context) (r : request) (rt : route) : Prog (response body) :=
  match rt with
  | RListIncidents q => ListIncidents r q
  | RGetIncident _ => GetIncident r
  | RPatchStatus _ req => PatchStatus ctx r req
  | RListIncidentAlerts _ => ListIncidentAlerts r
  | RAttachAlert _ req => AttachAlert r req
  | RPutLabels _ req => PutLabels ctx r req
  | RAddComment _ req => AddComment ctx r req
  | RListComments _ => ListComments r
  | RDeleteComment _ _ => DeleteComment r
  | RListHistory _ => ListHistory r
  | RListGroupingRules => ListGroupingRules r
  | RPutGroupingRule _ req => PutGroupingRule r req
  | RDeleteGroupingRule _ => DeleteGroupingRule r
  end.

(** The authentication, the tenant check and the handler. *)
Definition serve (authMW : middleware (context * request)) (adminKey authorization tenant : string) (rt : route)
    : Prog (response body) :=
  let r := Request adminKey authorization (url_params tenant rt) in
  match authMW (RequireTenantMember (fun ctx r => Json StatusOK (ctx, r))) background r with
  | Json _ (ctx, r) => dispatch ctx r rt
  | Error code msg => Ret (Error code msg)
  | NoBody code => Ret (NoBody code)
  end.

End Handler.
