(* ===== verification/IncidentSafety.v ===== *)
(** * Incident: the life cycle of an incident under concurrency

    Deliveries of alerts and HTTP requests interleave in any order and on any
    platform (faults, lost replies).  The state machine of statemachine.go is
    what every step of every such execution does to the rows of the table. *)

From S2P Require Import Prelude Effects Sha256 JsonText Json Events Interleaving Amqp Http Auth Cursor IncidentStore IncidentConsumer IncidentHandler.
Open Scope go_scope.

(** ** Specification *)

(** A row: the stamps agree with the status. *)
Definition stamped (i : Incident.t) : Prop :=
  (Incident.Status i = StatusOpen /\ Incident.AcknowledgedAt i = None /\ Incident.AcknowledgedBy i = None
     /\ Incident.ResolvedAt i = None) \/
  (Incident.Status i = StatusAcknowledged /\ is_Some (Incident.AcknowledgedAt i)
     /\ is_Some (Incident.AcknowledgedBy i) /\ Incident.ResolvedAt i = None) \/
  (Incident.Status i = StatusResolved /\ is_Some (Incident.ResolvedAt i)
     /\ (is_Some (Incident.AcknowledgedAt i) <-> is_Some (Incident.AcknowledgedBy i))).

Definition same_incident (i i' : Incident.t) : Prop :=
  Incident.ID i' = Incident.ID i /\ Incident.TenantID i' = Incident.TenantID i
  /\ Incident.TenantSlug i' = Incident.TenantSlug i /\ Incident.Title i' = Incident.Title i
  /\ Incident.Severity i' = Incident.Severity i /\ Incident.CreatedAt i' = Incident.CreatedAt i.

(** The audit log got the entry of this change. *)
Definition recorded (d d' : db) (i i' : Incident.t) : Prop :=
  exists h, history d' = history d ++ [h] /\ HistoryEntry.IncidentID h = Incident.ID i
    /\ HistoryEntry.TenantID h = Incident.TenantID i /\ HistoryEntry.Kind h = HistoryStatusChange
    /\ HistoryEntry.OldValue h = Incident.Status i /\ HistoryEntry.NewValue h = Incident.Status i'.

(** What one step may do to a row: nothing, or one edge of the state machine,
    recorded in the same step unless it resolves the incident. *)
Definition row_step (d d' : db) (i i' : Incident.t) : Prop :=
  i' = i \/
  (same_incident i i' /\ Validate (Incident.Status i) (Incident.Status i') = true
   /\ (Incident.Status i' = StatusResolved \/ recorded d d' i i')).

Definition rows_ok (d : db) : Prop := Forall stamped (incidents d) /\ NoDup (map Incident.ID (incidents d)).

(** What one step may do to the table: rows move by [row_step], none disappears,
    and new ones are open. *)
Definition lifecycle (d d' : db) : Prop :=
  rows_ok d ->
  rows_ok d' /\
  exists old new, incidents d' = old ++ new /\ Forall2 (row_step d d') (incidents d) old
    /\ Forall (fun i => Incident.Status i = StatusOpen) new.

(** ** Lemmas *)

Lemma Forall2_same {A} (P : A -> A -> Prop) l : (forall x, P x x) -> Forall2 P l l.
Proof. intros HP. induction l; constructor; auto. Qed.

Lemma lifecycle_same d d' : incidents d' = incidents d -> lifecycle d d'.
Proof.
  intros E Hok. unfold rows_ok. rewrite E. split; [done|]. exists (incidents d), [].
  rewrite app_nil_r. split; [done|]. split; [|done]. apply Forall2_same. by left.
Qed.

#[export] Instance lifecycle_Reflexive : Reflexive lifecycle.
Proof. intros d. by apply lifecycle_same. Qed.

Lemma lifecycle_net d n : lifecycle d (set_net n d).
Proof. by apply lifecycle_same. Qed.

Lemma lifecycle_rows d d' : lifecycle d d' -> rows_ok d -> rows_ok d'.
Proof. intros Hl Hok. by apply Hl. Qed.

#[export] Hint Resolve lifecycle_same lifecycle_net : oncall.

(** Rows rewritten in place by a function that keeps keys. *)
Lemma lifecycle_map d d' (g : Incident.t -> Incident.t) :
  incidents d' = map g (incidents d) ->
  (forall i, stamped i -> stamped (g i) /\ row_step d d' i (g i)) ->
  lifecycle d d'.
Proof.
  intros E Hg [Hst Hnd]. unfold rows_ok. rewrite E.
  assert (map Incident.ID (map g (incidents d)) = map Incident.ID (incidents d)) as Eid.
  { rewrite map_map. apply map_ext_in. intros i Hin.
    rewrite Forall_forall in Hst. specialize (Hst i). rewrite list_elem_of_In in Hst.
    destruct (Hg i (Hst Hin)) as [_ [->|[[-> _] _]]]; done. }
  rewrite Eid. split; [split; [|done]|].
  - apply Forall_map. eapply Forall_impl; [exact Hst|]. intros i Hi. by apply Hg.
  - exists (map g (incidents d)), []. rewrite app_nil_r. split; [done|]. split; [|done].
    clear E Hnd Eid. induction Hst as [|i l Hi Hl IH]; simpl; constructor; [by apply Hg|done].
Qed.

Lemma lifecycle_append d d' i :
  incidents d' = incidents d ++ [i] -> incident_exists (Incident.ID i) d = false ->
  Incident.Status i = StatusOpen -> stamped i -> lifecycle d d'.
Proof.
  intros E Hex Hs Hi [Hst Hnd]. unfold rows_ok. rewrite E. split; [split|].
  - apply Forall_app. auto.
  - rewrite map_app. apply NoDup_app. split; [done|]. split; [|apply NoDup_singleton].
    intros id (j & -> & Hj)%list_elem_of_fmap He. apply list_elem_of_singleton in He.
    unfold incident_exists in Hex. rewrite existsb_false in Hex. specialize (Hex j Hj).
    simpl in Hex. rewrite He, String.eqb_refl in Hex. done.
  - exists (incidents d), [i]. split; [done|]. split; [|auto]. apply Forall2_same. by left.
Qed.

Lemma transition_stamped status expected author now i :
  stamped i -> Incident.Status i = expected -> Validate expected status = true ->
  stamped (transition status author now i) /\ Incident.Status (transition status author now i) = status.
Proof.
  intros Hi Es Hv. subst expected. unfold stamped, Validate, transition in *.
  destruct Hi as [(E & Ea & Eb & Er)|[(E & Ea & Eb & Er)|(E & Er & Ei)]]; rewrite E in Hv; simpl in Hv;
    repeat match goal with
      | H : (_ || _) = true |- _ => apply orb_true_iff in H as [H|H]
      | H : String.eqb _ _ = true |- _ => apply String.eqb_eq in H as ->
    end; simpl; rewrite ?E, ?Ea, ?Eb, ?Er; (split; [|done]); eauto 10 using mk_is_Some.
  all: right; right; split_and!; try done; intuition eauto using mk_is_Some.
  all: try (destruct H as [? ?]; done).
Qed.

(** ** The steps of the programs *)

Create HintDb rows.

(** A statement that leaves the incidents as they are. *)
Ltac keeps_rows :=
  apply respects_sql; [exact _|]; intros ? ? ? ? ? Hf; cbv zeta beta in Hf;
  repeat case_match; simplify_eq; try done; apply lifecycle_same; done.

Section Steps.
Context `{Platform} `{TimeText} `{Planner}.

Local Abbreviation safe p := (respects lifecycle p).

Lemma select_incident_lifecycle tenant id : safe (select_incident tenant id).
Proof. keeps_rows. Qed.

Lemma loadLabels_lifecycle q i : safe (loadLabels q i).
Proof. keeps_rows. Qed.

Lemma GetIncident_lifecycle tenant id : safe (IncidentStore.GetIncident tenant id).
Proof. apply respects_bind; [apply select_incident_lifecycle|]. intros []; [apply loadLabels_lifecycle|done]. Qed.

Lemma load_all_lifecycle l : safe (load_all l).
Proof.
  induction l as [|i l IH]; cbn [load_all]; [done|].
  apply respects_bind; [apply loadLabels_lifecycle|]. intros []; [|done].
  apply respects_bind; [done|]. by intros [].
Qed.

Lemma ListIncidents_lifecycle tenant f : safe (IncidentStore.ListIncidents tenant f).
Proof.
  apply respects_bind; [keeps_rows|]. intros []; [|done].
  apply respects_bind; [apply load_all_lifecycle|]. by intros [].
Qed.

Lemma appendHistory_lifecycle q e : safe (appendHistory q e).
Proof. keeps_rows. Qed.

Lemma attachAlert_lifecycle q ia : safe (attachAlert q ia).
Proof. keeps_rows. Qed.

Lemma mergeLabels_lifecycle q id m : safe (mergeLabels q id m).
Proof.
  unfold mergeLabels. destruct (decide _); [done|]. apply respects_bind; [keeps_rows|]. by intros [].
Qed.

Lemma MergeLabels_lifecycle id m : safe (MergeLabels id m).
Proof. apply mergeLabels_lifecycle. Qed.

(** The tail of a transaction keeps the rows of its first statement. *)
Definition keep_rows (d d' : db) : Prop := incidents d' = incidents d.

#[local] Instance keep_rows_PreOrder : PreOrder keep_rows.
Proof. split; [done|]. intros d1 d2 d3. unfold keep_rows. congruence. Qed.

Lemma run_keep_rows {A} (p : M db A) w a w' :
  respects keep_rows p -> run p w = (a, w') -> incidents (data w') = incidents (data w).
Proof.
  intros Hp Hr. pose proof (run_quiet (fun w w' => keep_rows (data w) (data w')) p w Hp) as Hq.
  by rewrite Hr in Hq.
Qed.

Ltac keeps := apply respects_sql; [exact _|]; intros ? ? ? ? ? Hf; cbv zeta beta in Hf;
  repeat case_match; simplify_eq; done.

Lemma CreateIncidentTx_lifecycle inc m hist ia :
  Incident.Status inc = StatusOpen -> safe (CreateIncidentTx inc m hist ia).
Proof.
  intros Hs. apply respects_withTx; [exact _|]. intros start t d a t' d'.
  rewrite run_bind. destruct (run (createIncident _ _) _) as [[i|] [t1 d1]] eqn:E; [|done].
  intros Hr%run_keep_rows; simpl in Hr.
  - apply run_sql_inv in E as (now & uuid & Hf). simpl in Hf. unfold incident_exists in Hf.
    destruct (existsb _ _) eqn:Hex; [done|]. injection Hf as <- <-.
    eapply lifecycle_append; [exact Hr|exact Hex|exact Hs|]. left. done.
  - apply respects_bind; [unfold mergeLabels; destruct (decide _); [done|];
      apply respects_bind; [keeps|by intros []]|]. intros []; [|done].
    apply respects_bind; [destruct hist; [keeps|done]|]. intros []; [|done].
    apply respects_bind; [keeps|]. by intros [].
Qed.

(** The guarded update moves rows along an edge and records it. *)
Lemma TransitionStatus_lifecycle tenant id status expected author h :
  Validate expected status = true -> HistoryEntry.TenantID h = tenant ->
  HistoryEntry.Kind h = HistoryStatusChange -> HistoryEntry.OldValue h = expected ->
  HistoryEntry.NewValue h = status ->
  safe (TransitionStatus tenant id status expected author (Some h)).
Proof.
  intros Hv Ht Hk Ho Hn. apply respects_bind; [exact (respects_read lifecycle _)|]. intros now.
  apply respects_withTx; [exact _|]. intros start t d a t' d'. unfold transition_tx.
  rewrite run_bind. destruct (run (update_status _ _ _ _ _ _ _) _) as [[i|] [t1 d1]] eqn:E;
    [|by destruct (errors_Is _ _)].
  rewrite run_bind. destruct (run (loadLabels _ _) _) as [[i2|] [t2 d2]] eqn:E2; [|done].
  rewrite run_bind. destruct (run (appendHistory _ _) _) as [[[]|] [t3 d3]] eqn:E3; [|done].
  intros [= <- <- <-].
  apply run_sql_inv in E2 as (? & ? & E2). injection E2 as _ E2. simpl in E2. subst d2.
  apply run_sql_inv in E as (? & ? & E). apply run_sql_inv in E3 as (now3 & uuid3 & E3). simpl in E, E3.
  destruct (find _ (incidents d)) as [i0|]; [|done]. injection E as _ <-.
  destruct (existsb _ _); [done|]. destruct (negb _); [done|]. injection E3 as E3. 
  eapply lifecycle_map; [by rewrite <- E3|]. intros j Hj. simpl.
  destruct (String.eqb_spec (Incident.ID j) id) as [Eid|]; simpl; [|by split; [|left]].
  destruct (String.eqb_spec (Incident.TenantID j) tenant) as [Et|]; simpl; [|by split; [|left]].
  destruct (String.eqb_spec (Incident.Status j) expected) as [Es|]; simpl; [|by split; [|left]].
  destruct (transition_stamped status expected author now j Hj Es Hv) as [Hst Est].
  split; [done|]. right. split; [|split].
  - unfold transition. repeat case_match; done.
  - by rewrite Es, Est.
  - right. eexists. rewrite <- E3. split; [reflexivity|]. simpl. rewrite Eid, Et, Es, Est. done.
Qed.

Lemma MaybeResolve_lifecycle tenant id : safe (MaybeResolve tenant id).
Proof.
  unfold MaybeResolve. apply respects_bind; [keeps_rows|]. intros []; [|done].
  destruct (0 <? _); [done|]. apply respects_bind; [exact (respects_read lifecycle _)|]. intros now.
  apply respects_bind; [|by intros []].
  apply respects_sql; [exact _|]. intros ? ? d u d' [= <- <-].
  eapply lifecycle_map; [reflexivity|]. intros i Hi. cbv beta.
  destruct (_ && _) eqn:Ec; [|by split; [|left]].
  apply andb_prop in Ec as [_ Hn%negb_true_iff%String.eqb_neq].
  destruct Hi as [(E & Ea & Eb & Er)|[(E & Ea & Eb & Er)|(E & ?)]]; [..|done].
  - split; [right; right; simpl; rewrite Ea, Eb; split_and!; [done|eauto|done]|].
    right. split; [done|]. rewrite E. split; [done|by left].
  - split; [right; right; simpl; split_and!; [done|eauto|done]|].
    right. split; [done|]. rewrite E. split; [done|by left].
Qed.

Lemma PublishCreated_lifecycle ev : safe (PublishCreated ev).
Proof.
  apply respects_bind; [apply (respects_Wrap lifecycle)|].
  intros []; [|done]. apply respects_Publish, lifecycle_net.
Qed.

Lemma PublishUpdated_lifecycle ev : safe (PublishUpdated ev).
Proof.
  apply respects_bind; [apply (respects_Wrap lifecycle)|].
  intros []; [|done]. apply respects_Publish, lifecycle_net.
Qed.

#[local] Hint Resolve GetIncident_lifecycle ListIncidents_lifecycle appendHistory_lifecycle attachAlert_lifecycle
  MergeLabels_lifecycle MaybeResolve_lifecycle PublishCreated_lifecycle PublishUpdated_lifecycle : rows.

(** A program made of safe calls. *)
Ltac safe_steps :=
  repeat first
    [ done
    | solve [auto with rows]
    | apply respects_bind; [|intros [?|?]]
    | match goal with |- respects _ (if ?b then _ else _) => destruct b end
    | match goal with |- respects _ (match ?r with _ => _ end) => destruct r end
    | keeps_rows ].

Lemma announce_lifecycle publish tenant id :
  (forall ev, safe (publish ev)) -> safe (announce publish tenant id).
Proof. intros Hp. unfold announce. safe_steps. Qed.

Lemma handleFiring_lifecycle alert tenant : safe (handleFiring alert tenant).
Proof.
  unfold handleFiring. apply respects_bind; [keeps_rows|]. intros [rule|]; [|done].
  apply respects_bind; [keeps_rows|]. intros [id|]; [|done]. destruct (String.eqb id ""); [|safe_steps].
  apply respects_bind; [by apply CreateIncidentTx_lifecycle|]. intros [inc|]; [|done].
  apply announce_lifecycle. auto with rows.
Qed.

Lemma handleResolved_lifecycle alert : safe (handleResolved alert).
Proof.
  unfold handleResolved. apply respects_bind; [keeps_rows|]. intros [id|]; [|done].
  destruct (String.eqb id ""); [done|]. apply respects_bind; [auto with rows|]. intros [[]|]; [|done..].
  apply respects_bind; [apply appendHistory_lifecycle|]. intros _. apply announce_lifecycle. auto with rows.
Qed.

Lemma handle_lifecycle env : safe (handle env).
Proof.
  unfold handle. destruct (Envelope.DecodePayload _ _); [|done].
  destruct (String.eqb _ _); [apply handleResolved_lifecycle|apply handleFiring_lifecycle].
Qed.

Lemma PatchStatus_lifecycle ctx r req : safe (PatchStatus ctx r req).
Proof.
  unfold PatchStatus. destruct (Decode _ _ _) as [status|]; [|done]. destruct (String.eqb status ""); [done|].
  apply respects_bind; [auto with rows|]. intros [inc|]; [|done].
  destruct (Validate _ _) eqn:Hv; cbn [negb]; [|done].
  apply respects_bind; [by apply TransitionStatus_lifecycle|]. intros [updated|]; [|done].
  apply respects_bind; [auto with rows|done].
Qed.

Lemma dispatch_lifecycle ctx r rt : safe (dispatch ctx r rt).
Proof.
  destruct rt; cbn [dispatch]; [..|unfold PutGroupingRule|unfold DeleteGroupingRule].
  3: apply PatchStatus_lifecycle.
  all: try unfold ListIncidents; try unfold GetIncident; try unfold ListIncidentAlerts;
    try unfold AttachAlert; try unfold PutLabels; try unfold AddComment; try unfold unless_missing;
    safe_steps.
Qed.

Lemma serve_lifecycle mw adminKey authorization tenant rt : safe (serve mw adminKey authorization tenant rt).
Proof. unfold serve. destruct (mw _ _ _) as [? []| |]; [apply dispatch_lifecycle|done..]. Qed.

(** ** All the programs of the service *)

Inductive service_program : M db unit -> Prop :=
| delivery (b : option json) :
    service_program (let! _ := process consumer_handler b in Ret tt)
| api_request (mw : middleware (context * request)) (adminKey authorization tenant : string) (rt : route) :
    service_program (let! _ := serve mw adminKey authorization tenant rt in Ret tt)
| on_connection p : housekeeping p -> service_program p.

Lemma service_program_lifecycle p : service_program p -> safe p.
Proof.
  intros [b|mw adminKey authorization tenant rt|q Hq].
  - apply respects_bind; [|done]. apply (respects_process lifecycle). intros env.
    apply respects_bind; [apply handle_lifecycle|done].
  - apply respects_bind; [apply serve_lifecycle|done].
  - by apply (respects_housekeeping lifecycle lifecycle_net).
Qed.

End Steps.

(** ** Property *)

(** C12: the life cycle of incidents.  Take any number of deliveries of alerts
    and HTTP requests, interleaved in any order on any platform.  In every state
    they reach the stamps of each incident agree with its status and ids are
    unique, and every further step moves each incident along one edge of the
    state machine (open to acknowledged or resolved, acknowledged to resolved,
    resolved to open) or leaves it alone: identity, title, severity and creation
    time never change, no incident disappears, new ones are open, and an
    acknowledgement or a reopening is in the audit log in the same step, with
    the status it replaced. *)
Theorem incident_lifecycle `{Platform} `{TimeText} `{Planner} ps w ps1 w1 ps2 w2 :
  Forall service_program ps -> rows_ok (data w) ->
  rtc pool_step (ps, w) (ps1, w1) -> pool_step (ps1, w1) (ps2, w2) ->
  rows_ok (data w1) /\ rows_ok (data w2) /\
  exists old new, incidents (data w2) = old ++ new
    /\ Forall2 (row_step (data w1) (data w2)) (incidents (data w1)) old
    /\ Forall (fun i => Incident.Status i = StatusOpen) new.
Proof.
  intros Hps Hok Hr Hs.
  assert (Forall (respects lifecycle) ps) as Hsafe
    by (eapply Forall_impl; [exact Hps|]; intros p; apply service_program_lifecycle).
  destruct (pool_invariant lifecycle rows_ok ps ps1 w w1 lifecycle_rows Hsafe Hok Hr) as [Hsafe1 Hok1].
  destruct (pool_respects lifecycle _ _ _ _ Hs Hsafe1) as [Hl _].
  split; [done|]. by apply Hl.
Qed.

(** Two operators acknowledge the same incident at once. *)
Module Lifecycle_demo.
Definition platform : Platform := demo_platform [].
Definition planner : Planner := {| pick _ := O |}.
Definition inc : Incident.t := Incident.mk "i1" "acme" "acme" "disk" "high" StatusOpen ∅ None None None 5 5.
Definition start : world db := World 0 (Db [inc] [] ∅ [] [] [] (Net true true true [] [])).
Definition patch : M db unit :=
  bind (@serve platform demo_time_text (fun next => next) "" "" "acme"
    (RPatchStatus "i1" (Some (JObj [("status", JStr "acknowledged")])))) (fun _ => Ret tt).
Definition sched : list nat := [0; 1; 0; 1; 0; 1]%nat.
End Lifecycle_demo.
Import Lifecycle_demo.

Lemma incident_lifecycle_witness :
  let s1 := run_schedule sched [patch; patch] start in
  let s2 := run_schedule [0%nat] s1.1 s1.2 in
  (map Incident.Status (incidents (data s1.2)) = [StatusOpen]
   /\ map Incident.Status (incidents (data s2.2)) = [StatusAcknowledged]) /\
  rows_ok (data s1.2) /\ rows_ok (data s2.2) /\
  exists old new, incidents (data s2.2) = old ++ new
    /\ Forall2 (row_step (data s1.2) (data s2.2)) (incidents (data s1.2)) old
    /\ Forall (fun i => Incident.Status i = StatusOpen) new.
Proof.
  intros s1 s2. split; [split; vm_compute; reflexivity|].
  apply (@incident_lifecycle platform demo_time_text planner [patch; patch] start s1.1 s1.2 s2.1 s2.2).
  - constructor; [|constructor; [|constructor]]; exact (@api_request platform demo_time_text planner _ "" "" "acme" _).
  - split; [constructor; [by left|constructor]|apply NoDup_singleton].
  - rewrite <- (surjective_pairing s1). apply run_schedule_rtc.
  - rewrite <- (surjective_pairing s2). apply run_schedule_step. vm_compute. reflexivity.
Defined.
