(* ===== verification/IncidentBus.v ===== *)
(** * Incident: what the service puts on the bus, and how it settles alerts

    Every message of the incident service is an event of its type, whatever it is
    asked to do; and an alert it can read is never dropped. *)

From S2P Require Import Prelude Effects Json Events Interleaving Amqp Messages Http Auth IncidentStore IncidentConsumer IncidentHandler.
Open Scope go_scope.

Section Bus.
Context `{Platform} `{TimeText} `{Planner}.
Hypothesis Hff : foreign_faults.

(** Everything the broker was handed by the service has one of the types. *)
Definition typed_bus (d : db) : Prop := Forall typed (handed (broker d)).

#[export] Instance typed_bus_net : NetInvariant typed_bus.
Proof.
  split; unfold typed_bus; simpl; [by intros d n ? ->|].
  intros d n m Hd Hm ->. by apply Forall_app_2; [|apply Forall_singleton].
Qed.

Local Abbreviation keeps_bus p := (keeps typed_bus p (sound always_true)).

(** Statements touch the tables, not the bus; their errors are no [ErrDrop]. *)
Ltac stmt :=
  apply keeps_stmt; [exact Hff|]; unfold typed_bus; intros ? ? ? ?; cbv zeta; go_cases; done.

Ltac bus := repeat bus_step typed_bus stmt.

Lemma incident_GetIncident_bus tenant id : keeps_bus (IncidentStore.GetIncident tenant id).
Proof. unfold IncidentStore.GetIncident, select_incident, loadLabels. bus. Qed.

#[local] Hint Resolve incident_GetIncident_bus : bus.

Lemma load_all_bus l : keeps_bus (load_all l).
Proof. induction l as [|i l IH]; cbn [load_all]; [done|]. unfold loadLabels. bus. Qed.

Lemma ListIncidents_bus tenant f : keeps_bus (IncidentStore.ListIncidents tenant f).
Proof. pose proof load_all_bus. unfold IncidentStore.ListIncidents, select_page. bus. Qed.

Lemma incident_appendHistory_bus q e : keeps_bus (appendHistory q e).
Proof. stmt. Qed.

Lemma attachAlert_bus q ia : keeps_bus (attachAlert q ia).
Proof. stmt. Qed.

Lemma mergeLabels_bus q id m : keeps_bus (mergeLabels q id m).
Proof. unfold mergeLabels. bus. Qed.

#[local] Hint Resolve ListIncidents_bus incident_appendHistory_bus attachAlert_bus mergeLabels_bus : bus.

Lemma CreateIncidentTx_bus inc m hist ia : keeps_bus (CreateIncidentTx inc m hist ia).
Proof. unfold CreateIncidentTx, createIncident. bus. Qed.

Lemma TransitionStatus_bus tenant id status expected author h :
  keeps_bus (TransitionStatus tenant id status expected author h).
Proof. unfold TransitionStatus, transition_tx, update_status, loadLabels. bus. Qed.

Lemma MaybeResolve_bus tenant id : keeps_bus (MaybeResolve tenant id).
Proof. unfold MaybeResolve. bus. Qed.

Lemma PublishCreated_bus ev : keeps typed_bus (PublishCreated ev) (fun _ => True).
Proof. apply (wrap_publish_keeps typed_bus). by constructor 2 with ev. Qed.

Lemma PublishUpdated_bus ev : keeps typed_bus (PublishUpdated ev) (fun _ => True).
Proof. apply (wrap_publish_keeps typed_bus). by constructor 3 with ev. Qed.

#[local] Hint Resolve CreateIncidentTx_bus TransitionStatus_bus MaybeResolve_bus PublishCreated_bus PublishUpdated_bus : bus.

Lemma incident_handle_bus env : is_ok (Envelope.DecodePayload env Alert.zero) = true -> keeps_bus (handle env).
Proof.
  intros He. unfold handle, handleFiring, handleResolved, announce, AppendHistory, AttachAlert, ResolveAlert,
    GetGroupingRule, FindOpenIncidentByGroupKey. bus.
Qed.

Lemma dispatch_bus ctx r rt : keeps typed_bus (dispatch ctx r rt) always_true.
Proof.
  destruct rt; cbn [dispatch]; unfold ListIncidents, GetIncident, PatchStatus, ListIncidentAlerts, AttachAlert,
    PutLabels, AddComment, ListComments, DeleteComment, ListHistory, ListGroupingRules, PutGroupingRule,
    DeleteGroupingRule, unless_missing, MergeLabels, GetLabels, AppendHistory, IncidentStore.AttachAlert; bus.
Qed.

Lemma incident_serve_bus mw adminKey authorization tenant rt :
  keeps typed_bus (serve mw adminKey authorization tenant rt) always_true.
Proof. unfold serve. destruct (mw _ _ _) as [? []| |]; [apply dispatch_bus|done..]. Qed.

(** A message of the queue of the service is acknowledged or requeued. *)
Lemma incident_delivery_bus m :
  reads_as Alert.TenantID m ->
  keeps typed_bus (process consumer_handler (Some (Amqp.body m))) (fun o => o <> Nack false).
Proof.
  intros (env & a & He & _ & Ha & _). apply keeps_process; rewrite He; [|done].
  intros env' [= <-]. eapply keeps_bind; [apply incident_handle_bus; by rewrite (Ha : Envelope.DecodePayload env Alert.zero = Ok a)|].
  intros [u|e] Hr; [done|]. simpl. by rewrite Hr.
Qed.

End Bus.
