(* ===== verification/IncidentProps.v ===== *)
(** * Incident: what the operations do

    Grouping of alerts into incidents, the PATCH of a status, tenant isolation of
    the API, and the automatic resolution. *)

From S2P Require Import Prelude Effects Sha256 JsonText Json Events Interleaving Amqp Messages Http Auth Cursor IncidentStore IncidentConsumer IncidentHandler.
Open Scope go_scope.

(** ** Grouping *)

(** The key does not depend on the order in which a rule lists its labels. *)
Lemma computeGroupKey_perm labels ls ls' :
  ls ≡ₚ ls' -> computeGroupKey labels ls = computeGroupKey labels ls'.
Proof.
  intros HP. unfold computeGroupKey. f_equal. f_equal. apply sort_Strings_Permutation. by apply Permutation_map.
Qed.

Lemma computeGroupKey_ext labels labels' ls :
  (forall l, l ∈ ls -> map_get labels l = map_get labels' l) ->
  computeGroupKey labels ls = computeGroupKey labels' ls.
Proof.
  intros Hl. unfold computeGroupKey. f_equal. f_equal. f_equal. apply map_ext_in.
  intros l Hin%list_elem_of_In. by rewrite Hl.
Qed.

(** The grouping rule in force for a source, the default one unless configured. *)
Definition rule_of (tenant source : string) (d : db) : list string :=
  match find (rule_hit tenant source) (rules d) with
  | Some r => GroupingRule.GroupingLabels r
  | None => DefaultGroupingLabels source
  end.

(** The key of an alert of a tenant. *)
Definition group_key (tenant : string) (alert : Alert.t) (d : db) : string :=
  computeGroupKey (Alert.Labels alert) (rule_of tenant (normalizeSource (Alert.Source alert)) d).

(** The unresolved incidents that have an alert with the key. *)
Definition open_with_key (tenant key : string) (d : db) : list string :=
  joined (fun a => String.eqb (IncidentAlert.TenantID a) tenant && String.eqb (IncidentAlert.GroupKey a) key) d.

(** The ids generated from now on are UUIDs no row has. *)
Definition fresh_ids `{Platform} (t0 : nat) (d : db) : Prop := forall t, (t0 <= t)%nat ->
  incident_exists (uuid_at t) d = false /\ uuid_ok (uuid_at t) = true /\ uuid_at t <> EmptyString
  /\ existsb (fun a => String.eqb (IncidentAlert.ID a) (uuid_at t)) (alerts d) = false
  /\ existsb (fun h => String.eqb (HistoryEntry.ID h) (uuid_at t)) (history d) = false.

(** Texts PostgreSQL took as ids are UUIDs. *)
Definition stored_ids_ok `{Platform} (d : db) : Prop := forall i,
  i ∈ incidents d -> uuid_ok (Incident.ID i) = true /\ Incident.ID i <> EmptyString.

Section Grouping.
Context `{Platform} `{TimeText} `{Planner}.

Lemma pick_row_elem (l : list string) : l <> [] -> exists s, pick_row l = Some s /\ s ∈ l.
Proof.
  intros Hl. unfold pick_row. destruct (lookup_lt_is_Some_2 l (pick l mod length l)) as [s Hs].
  - apply Nat.mod_upper_bound. by destruct l.
  - exists s. split; [done|]. by eapply list_elem_of_lookup_2.
Qed.

Lemma joined_elem p d id :
  id ∈ joined p d <-> exists a i, a ∈ alerts d /\ p a = true /\ i ∈ incidents d
    /\ IncidentAlert.IncidentID a = id /\ Incident.ID i = id /\ Incident.Status i <> "resolved".
Proof.
  unfold joined. rewrite list_elem_of_In, in_flat_map. split.
  - intros (a & Ha & Hid). destruct (p a) eqn:Ep; [|done]. apply in_map_iff in Hid as (i & E & Hi).
    apply filter_In in Hi as [Hi [E1%String.eqb_eq E2%negb_true_iff%String.eqb_neq]%andb_prop].
    exists a, i. rewrite !list_elem_of_In. split_and!; try done. congruence.
  - intros (a & i & Ha%list_elem_of_In & Hp & Hi%list_elem_of_In & Ea & Ei & Hs). exists a. split; [done|].
    rewrite Hp. apply in_map_iff. exists i. split; [done|]. apply filter_In. split; [done|].
    rewrite Ea, Ei, String.eqb_refl. by apply negb_true_iff, String.eqb_neq.
Qed.

(** Reading an incident and publishing it only touches the connection. *)
Definition only_net (d d' : db) : Prop := exists n, d' = set_net n d.

#[local] Instance only_net_PreOrder : PreOrder only_net.
Proof.
  split; [intros d; exists (net d); by rewrite set_net_net|].
  intros d1 d2 d3 [n ->] [n' ->]. exists n'. by rewrite set_net_set_net.
Qed.

Lemma only_net_net d n : only_net d (set_net n d).
Proof. by exists n. Qed.

Lemma query_only_net {A} q uuids (f : Time -> string -> db -> res (A * db)) :
  (forall now uuid d a d', f now uuid d = Ok (a, d') -> d' = d) -> respects only_net (sql q uuids f).
Proof. intros Hf. apply respects_sql; [exact _|]. intros now uuid d a d' E. rewrite (Hf _ _ _ _ _ E). reflexivity. Qed.

Lemma GetIncident_only_net tenant id : respects only_net (IncidentStore.GetIncident tenant id).
Proof.
  apply respects_bind.
  - apply query_only_net. intros now uuid d a d'. destruct (find _ _); [by intros [=]|done].
  - intros [i|]; [|done]. apply query_only_net. by intros now uuid d a d' [=].
Qed.

Lemma publish_only_net {A} `{Events.Payload A} ex key ty tenant (a : A) msg :
  respects only_net (let? b := Envelope.Wrap ty tenant a wrap msg in Publish ex key b).
Proof.
  apply respects_bind; [apply (respects_Wrap only_net)|]. intros [b|]; [|done].
  apply respects_Publish, only_net_net.
Qed.

Lemma run_only_net {A} (p : M db A) w a w' :
  respects only_net p -> run p w = (a, w') -> exists n, data w' = set_net n (data w).
Proof.
  intros Hp Hr. pose proof (run_quiet (fun w w' => only_net (data w) (data w')) p w Hp) as Hq.
  by rewrite Hr in Hq.
Qed.

Lemma announce_result publish tenant id w r w' :
  (forall ev, respects only_net (publish ev)) -> run (announce publish tenant id) w = (r, w') ->
  r = Ok tt /\ exists n, data w' = set_net n (data w).
Proof.
  intros Hp Hr. split.
  - unfold announce in Hr. rewrite run_bind in Hr. destruct (run _ _) as [[i|] w1]; [|by injection Hr as <- _].
    rewrite run_bind in Hr. destruct (run _ _) as [x w2]. by injection Hr as <- _.
  - eapply run_only_net; [|exact Hr]. apply respects_bind; [apply GetIncident_only_net|]. intros [i|]; [|done].
    apply respects_bind; [apply Hp|done].
Qed.

(** The rows a new incident consists of. *)
Definition new_incident (alert : Alert.t) (tenant id : string) (now : Time) : Incident.t :=
  Incident.mk id tenant tenant (Alert.Title alert) (Alert.Severity alert) StatusOpen ∅ None None None now now.

Definition alert_row (alert : Alert.t) (tenant key incidentID id : string) (now : Time) : IncidentAlert.t :=
  IncidentAlert.mk id incidentID tenant (Alert.Fingerprint alert) (Alert.Source alert) key AlertStatusFiring now.

Hypothesis Hrel : reliable.

Lemma run_GetGroupingRule tenant source t d :
  exists rule, run (GetGroupingRule tenant source) (World t d) = (Ok rule, World (S t) d)
    /\ GroupingRule.GroupingLabels rule = rule_of tenant source d.
Proof.
  unfold GetGroupingRule. rewrite run_sql_ok by (apply Hrel || done). simpl. unfold rule_of.
  destruct (find _ _); by eexists.
Qed.

Lemma run_FindOpen tenant key t d :
  run (FindOpenIncidentByGroupKey tenant key) (World t d)
  = (Ok (default EmptyString (pick_row (open_with_key tenant key d))), World (S t) d).
Proof. unfold FindOpenIncidentByGroupKey. by rewrite run_sql_ok by (apply Hrel || done). Qed.

Lemma run_mergeLabels q id m t d :
  uuid_ok id = true -> incident_exists id d = true ->
  exists t', (t <= t')%nat /\ run (mergeLabels q id m) (World t d) =
    (Ok tt, World t' (set_labels (if decide (m = ∅) then labels d
                                  else <[id := m ∪ default ∅ (labels d !! id)]> (labels d)) d)).
Proof.
  intros Hu Hex. unfold mergeLabels. destruct (decide (m = ∅)).
  - exists t. split; [lia|]. by destruct d.
  - exists (S t). split; [lia|]. rewrite run_bind, run_sql_ok by (simpl; rewrite ?Hu; apply Hrel || done).
    simpl. by rewrite Hex.
Qed.

Lemma run_appendHistory start e t d :
  uuid_ok (HistoryEntry.IncidentID e) = true -> incident_exists (HistoryEntry.IncidentID e) d = true ->
  existsb (fun h => String.eqb (HistoryEntry.ID h) (uuid_at t)) (history d) = false ->
  run (appendHistory (Tx start) e) (World t d) =
    (Ok tt, World (S t) (set_history (history d ++
       [HistoryEntry.mk (uuid_at t) (HistoryEntry.IncidentID e) (HistoryEntry.TenantID e) (HistoryEntry.Kind e)
          (HistoryEntry.Author e) (HistoryEntry.OldValue e) (HistoryEntry.NewValue e) start]) d)).
Proof.
  intros Hu Hex Hf. unfold appendHistory. rewrite run_sql_ok by (simpl; rewrite ?Hu; apply Hrel || done).
  cbn [tick data]. by rewrite Hf, Hex.
Qed.

Lemma run_attachAlert q ia t d :
  uuid_ok (IncidentAlert.IncidentID ia) = true -> incident_exists (IncidentAlert.IncidentID ia) d = true ->
  existsb (fun a => String.eqb (IncidentAlert.ID a) (uuid_at t)) (alerts d) = false ->
  run (attachAlert q ia) (World t d) =
    (Ok tt, World (S t) (set_alerts (alerts d ++
       [IncidentAlert.mk (uuid_at t) (IncidentAlert.IncidentID ia) (IncidentAlert.TenantID ia)
          (IncidentAlert.Fingerprint ia) (IncidentAlert.Source ia) (IncidentAlert.GroupKey ia)
          (IncidentAlert.Status ia) (match q with Pool => now_at t | Tx start => start end)]) d)).
Proof.
  intros Hu Hex Hf. unfold attachAlert. rewrite run_sql_ok by (simpl; rewrite ?Hu; apply Hrel || done).
  cbn [tick data]. by rewrite Hf, Hex.
Qed.

(** The incident, its labels, its history and its alert. *)
Lemma run_CreateIncidentTx inc m h ia t d :
  fresh_ids t d ->
  let id := uuid_at (S t) in let now := now_at t in
  exists aid hid t',
    run (CreateIncidentTx inc m (Some h) ia) (World t d) =
      (Ok (Incident.mk id (Incident.TenantID inc) (Incident.TenantSlug inc) (Incident.Title inc)
             (Incident.Severity inc) (Incident.Status inc) (Incident.Labels inc) (Incident.AcknowledgedAt inc)
             (Incident.AcknowledgedBy inc) (Incident.ResolvedAt inc) now now),
       World t' (Db (incidents d ++ [Incident.mk id (Incident.TenantID inc) (Incident.TenantSlug inc)
                       (Incident.Title inc) (Incident.Severity inc) (Incident.Status inc) ∅ None None None now now])
                    (alerts d ++ [IncidentAlert.mk aid id (IncidentAlert.TenantID ia) (IncidentAlert.Fingerprint ia)
                       (IncidentAlert.Source ia) (IncidentAlert.GroupKey ia) (IncidentAlert.Status ia) now])
                    (if decide (m = ∅) then labels d else <[id := m ∪ default ∅ (labels d !! id)]> (labels d))
                    (comments d)
                    (history d ++ [HistoryEntry.mk hid id (HistoryEntry.TenantID h) (HistoryEntry.Kind h)
                       (HistoryEntry.Author h) (HistoryEntry.OldValue h) (HistoryEntry.NewValue h) now])
                    (rules d) (broker d))).
Proof.
  intros Hf id now. destruct (Hf (S t) ltac:(lia)) as (Hex & Hu & _).
  unfold CreateIncidentTx. rewrite run_withTx_ok by done. cbn [tick data].
  rewrite run_bind. unfold createIncident. rewrite run_sql_ok by (apply Hrel || done). cbn [tick data].
  rewrite Hex. cbv beta iota zeta. cbn [Incident.ID]. fold id now.
  set (row := Incident.mk id _ _ _ _ _ _ None None None _ _).
  set (d1 := set_incidents (incidents d ++ [row]) d).
  assert (forall d', incidents d' = incidents d1 -> incident_exists id d' = true) as Hid.
  { intros d' E. unfold incident_exists. rewrite E. simpl. rewrite existsb_app. simpl.
    by rewrite String.eqb_refl, orb_true_r. }
  rewrite run_bind. destruct (run_mergeLabels (Tx now) id m (S (S t)) d1 Hu (Hid d1 eq_refl)) as (t2 & Ht2 & ->).
  cbv iota beta. set (d2 := set_labels _ d1).
  rewrite run_bind, run_appendHistory; [|done|by apply Hid|apply Hf; lia].
  cbv iota beta. set (d3 := set_history _ d2).
  rewrite run_bind, run_attachAlert; [|done|by apply Hid|apply Hf; lia].
  do 3 eexists. reflexivity.
Qed.

(** What the table gains from a firing alert. *)
Definition grouped (alert : Alert.t) (tenant key : string) (d d' : db) : Prop :=
  (open_with_key tenant key d = [] /\ exists id aid hid now, uuid_ok id = true /\ id <> EmptyString /\ incident_exists id d = false
     /\ incidents d' = incidents d ++ [new_incident alert tenant id now]
     /\ alerts d' = alerts d ++ [alert_row alert tenant key id aid now]
     /\ labels d' = (if decide (Alert.Labels alert = ∅) then labels d
                     else <[id := Alert.Labels alert ∪ default ∅ (labels d !! id)]> (labels d))
     /\ history d' = history d ++ [HistoryEntry.mk hid id tenant HistoryStatusChange "" "" StatusOpen now]) \/
  (exists id aid now, id ∈ open_with_key tenant key d
     /\ incidents d' = incidents d /\ labels d' = labels d /\ history d' = history d
     /\ alerts d' = alerts d ++ [alert_row alert tenant key id aid now]).

Lemma handleFiring_grouped alert tenant t d r w' :
  fresh_ids t d -> stored_ids_ok d -> run (handleFiring alert tenant) (World t d) = (r, w') ->
  r = Ok tt /\ comments (data w') = comments d /\ rules (data w') = rules d
  /\ grouped alert tenant (group_key tenant alert d) d (data w').
Proof.
  intros Hf Hids. unfold handleFiring. rewrite run_bind.
  destruct (run_GetGroupingRule tenant (normalizeSource (Alert.Source alert)) t d) as (rule & -> & Er).
  rewrite Er. fold (group_key tenant alert d). set (key := group_key tenant alert d).
  cbv iota beta. rewrite run_bind, run_FindOpen. cbv iota beta zeta.
  destruct (decide (open_with_key tenant key d = [])) as [E|E].
  - rewrite E. change (default EmptyString (pick_row [])) with EmptyString. rewrite String.eqb_refl.
    rewrite run_bind. destruct (run_CreateIncidentTx
      (Incident.mk "" tenant tenant (Alert.Title alert) (Alert.Severity alert) StatusOpen ∅ None None None
         Alert.zero_time Alert.zero_time) (Alert.Labels alert)
      (HistoryEntry.mk "" "" tenant HistoryStatusChange "" "" StatusOpen Alert.zero_time)
      (IncidentAlert.mk "" "" tenant (Alert.Fingerprint alert) (Alert.Source alert) key AlertStatusFiring Alert.zero_time)
      (S (S t)) d) as (aid & hid & t' & Hrun); [intros n Hn; apply Hf; lia|].
    rewrite Hrun. cbv iota beta.
    intros [-> [n En]]%announce_result; [|intros ev; apply publish_only_net].
    rewrite En. simpl. split_and!; [done..|]. left. split; [done|].
    exists (uuid_at (S (S (S t)))), aid, hid, (now_at (S (S t))).
    destruct (Hf (S (S (S t))) ltac:(lia)) as (Hex & Hu & Hne & _). split_and!; done.
  - destruct (pick_row_elem _ E) as (id & -> & Hid). simpl (default _ _).
    pose proof Hid as (a & i & _ & _ & Hi & _ & Ei & _)%joined_elem.
    destruct (Hids i Hi) as [Hu Hne]. rewrite Ei in Hu, Hne.
    rewrite (proj2 (String.eqb_neq id "") Hne), run_bind. unfold IncidentStore.AttachAlert.
    rewrite run_attachAlert; [|done| |apply Hf; lia].
    + intros [= <- <-]. simpl. split_and!; [done..|]. right. do 3 eexists. split_and!; [exact Hid|done..].
    + unfold incident_exists. apply existsb_exists. exists i. split; [by apply list_elem_of_In|].
      by apply String.eqb_eq.
Qed.

End Grouping.

(** Every alert belongs to an incident of the table. *)
Definition references_ok (d : db) : Prop :=
  forall a, a ∈ alerts d -> incident_exists (IncidentAlert.IncidentID a) d = true.

(** After a firing alert, an unresolved incident carries its key. *)
Lemma grouped_open `{Platform} `{TimeText} alert tenant key d d' :
  grouped alert tenant key d d' -> open_with_key tenant key d' <> [].
Proof.
  intros Hg E.
  assert (exists a i, a ∈ alerts d' /\ IncidentAlert.TenantID a = tenant /\ IncidentAlert.GroupKey a = key
    /\ i ∈ incidents d' /\ Incident.ID i = IncidentAlert.IncidentID a /\ Incident.Status i <> "resolved")
    as (a & i & Ha & Ht & Hk & Hi & Eid & Hs).
  { destruct Hg as [(_ & id & aid & hid & now & _ & _ & _ & Ei & Ea & _)|(id & aid & now & Hid & Ei & _ & _ & Ea)].
    - exists (alert_row alert tenant key id aid now), (new_incident alert tenant id now). rewrite Ei, Ea.
      split_and!; try done; set_solver.
    - apply joined_elem in Hid as (a & i & Ha & Hp & Hi & Eid & Eid' & Hs). exists a, i. rewrite Ea, Ei.
      apply andb_prop in Hp as [->%String.eqb_eq ->%String.eqb_eq]. split_and!; try done; [set_solver|congruence]. }
  assert (IncidentAlert.IncidentID a ∈ open_with_key tenant key d') as Hin.
  { apply joined_elem. exists a, i. rewrite Ht, Hk, !String.eqb_refl. done. }
  rewrite E in Hin. by apply not_elem_of_nil in Hin.
Qed.

(** When no unresolved incident had the key, the new one is the only one. *)
Lemma grouped_only alert tenant key d d' id aid now :
  references_ok d -> open_with_key tenant key d = [] -> incident_exists id d = false ->
  incidents d' = incidents d ++ [new_incident alert tenant id now] ->
  alerts d' = alerts d ++ [alert_row alert tenant key id aid now] ->
  forall id', id' ∈ open_with_key tenant key d' -> id' = id.
Proof.
  intros Href E Hex Ei Ea id' (a & i & Ha & Hp & Hi & Eid & Eid' & Hs)%joined_elem.
  rewrite Ea in Ha. rewrite Ei in Hi. apply elem_of_app in Ha as [Ha|Ha%list_elem_of_singleton]; [|by subst].
  exfalso. specialize (Href a Ha). rewrite Eid in Href.
  apply elem_of_app in Hi as [Hi|Hi%list_elem_of_singleton].
  - assert (id' ∈ open_with_key tenant key d) as Hin; [|rewrite E in Hin; by apply not_elem_of_nil in Hin].
    apply joined_elem. by exists a, i.
  - subst i. simpl in Eid'. subst. congruence.
Qed.

(** C29: grouping, one alert after the other and when nothing fails.  Handling a
    firing alert attaches it to an unresolved incident of the tenant that has the
    alert's group key, and opens a new one, with its labels, its history entry and
    its alert, exactly when there is none; an alert with the same key handled next
    opens no other: it is attached to the incident of the first when the first
    opened it.  (Handled at the same time the two may open one each:
    [LostPages.group_race_splits].) *)
Theorem firing_alerts_group `{Platform} `{TimeText} `{Planner} alert1 alert2 tenant t d r1 w1 r2 w2 :
  reliable -> fresh_ids t d -> stored_ids_ok d -> references_ok d ->
  run (handleFiring alert1 tenant) (World t d) = (r1, w1) ->
  fresh_ids (tick w1) (data w1) -> run (handleFiring alert2 tenant) w1 = (r2, w2) ->
  let key := group_key tenant alert1 d in
  group_key tenant alert2 d = key ->
  (r1 = Ok tt /\ grouped alert1 tenant key d (data w1)) /\
  (r2 = Ok tt /\ incidents (data w2) = incidents (data w1) /\
   exists id1 aid1 now1 id2 aid2 now2,
     alerts (data w2) = alerts d ++ [alert_row alert1 tenant key id1 aid1 now1;
                                     alert_row alert2 tenant key id2 aid2 now2]
     /\ id2 ∈ open_with_key tenant key (data w1)
     /\ (open_with_key tenant key d = [] -> id2 = id1)).
Proof.
  intros Hrel Hf Hids Href Hr1 Hf1 Hr2 key Hkey.
  destruct (handleFiring_grouped Hrel _ _ _ _ _ _ Hf Hids Hr1) as (-> & _ & Hrules & Hg1).
  fold key in Hg1. split; [done|]. destruct w1 as [t1 d1]. simpl in *.
  assert (stored_ids_ok d1) as Hids1.
  { intros i Hi. destruct Hg1 as [(_ & id & aid & hid & now & Hu & Hne & _ & Ei & _)|(id & aid & now & _ & Ei & _)];
      rewrite Ei in Hi; [|by apply Hids].
    apply elem_of_app in Hi as [Hi|Hi%list_elem_of_singleton]; [by apply Hids|by subst]. }
  destruct (handleFiring_grouped Hrel _ _ _ _ _ _ Hf1 Hids1 Hr2) as (-> & _ & _ & Hg2).
  assert (group_key tenant alert2 d1 = key) as Ek.
  { rewrite <- Hkey. unfold group_key, rule_of. by rewrite Hrules. }
  rewrite Ek in Hg2. pose proof (grouped_open _ _ _ _ _ Hg1) as Hopen.
  destruct Hg2 as [[E _]|(id2 & aid2 & now2 & Hid2 & Ei2 & _ & _ & Ea2)]; [done|].
  split; [done|]. split; [done|].
  destruct Hg1 as [(E & id & aid & hid & now & _ & _ & Hex & Ei & Ea & _)|(id & aid & now & Hid & _ & _ & _ & Ea)];
    exists id, aid, now, id2, aid2, now2; rewrite Ea2, Ea, <- app_assoc; split_and!; try done.
  - intros _. by eapply grouped_only.
  - intros E. rewrite E in Hid. by apply not_elem_of_nil in Hid.
Qed.

(** Two alerts of one job, on an empty database. *)
Module Grouping_demo.
Definition platform : Platform := demo_platform [].
Definition planner : Planner := {| pick _ := O |}.
Definition alert (fp : string) : Alert.t :=
  Alert.mk fp "alertmanager" "high" "disk full" "" {[ "alertname" := "disk"; "job" := "db"; "pod" := fp ]}
    "firing" 3 4 "acme".
Definition empty : db := Db [] [] ∅ [] [] [] (Net true true true [] []).
Definition first := run (@handleFiring platform demo_time_text planner (alert "f1") "acme") (World 0 empty).
Definition second := run (@handleFiring platform demo_time_text planner (alert "f2") "acme") first.2.
End Grouping_demo.
Import Grouping_demo.

Lemma firing_alerts_group_witness :
  let key := group_key "acme" (alert "f1") empty in
  (length (incidents (data second.2)) = 1%nat /\ map IncidentAlert.IncidentID (alerts (data second.2)) = ["id3"; "id3"]) /\
  (first.1 = Ok tt /\ @grouped platform (alert "f1") "acme" key empty (data first.2)) /\
  (second.1 = Ok tt /\ incidents (data second.2) = incidents (data first.2) /\
   exists id1 aid1 now1 id2 aid2 now2,
     alerts (data second.2) = alerts empty ++ [alert_row (alert "f1") "acme" key id1 aid1 now1;
                                               alert_row (alert "f2") "acme" key id2 aid2 now2]
     /\ id2 ∈ open_with_key "acme" key (data first.2)
     /\ (open_with_key "acme" key empty = [] -> id2 = id1)).
Proof.
  intros key. split; [split; vm_compute; reflexivity|].
  refine (@firing_alerts_group platform demo_time_text planner (alert "f1") (alert "f2") "acme" 0 empty
    first.1 first.2 second.1 second.2 _ _ _ _ _ _ _ _).
  - intros t. reflexivity.
  - intros t _. split_and!; try reflexivity. discriminate.
  - intros i Hi. by apply not_elem_of_nil in Hi.
  - intros a Ha. by apply not_elem_of_nil in Ha.
  - apply surjective_pairing.
  - assert (tick first.2 = 14%nat) as -> by (vm_compute; reflexivity). intros t Ht.
    assert (incidents (data first.2) = [new_incident (alert "f1") "acme" ("id" +:+ pretty 3%nat) (1704067202 * Second)])
      as Ei by (vm_compute; reflexivity).
    assert (map IncidentAlert.ID (alerts (data first.2)) = ["id" +:+ pretty 6%nat]) as Ea by (vm_compute; reflexivity).
    assert (map HistoryEntry.ID (history (data first.2)) = ["id" +:+ pretty 5%nat]) as Eh by (vm_compute; reflexivity).
    unfold incident_exists. rewrite Ei. split_and!; [|reflexivity|discriminate|..].
    + cbn [existsb new_incident Incident.ID]. rewrite orb_false_r. exact (demo_uuid_fresh [] 3 t ltac:(lia)).
    + destruct (alerts _) as [|a []]; try discriminate Ea. injection Ea as Ea. cbn [existsb].
      rewrite Ea, orb_false_r. exact (demo_uuid_fresh [] 6 t ltac:(lia)).
    + destruct (history _) as [|a []]; try discriminate Eh. injection Eh as Eh. cbn [existsb].
      rewrite Eh, orb_false_r. exact (demo_uuid_fresh [] 5 t ltac:(lia)).
  - apply surjective_pairing.
  - vm_compute. reflexivity.
Defined.

(** ** PATCH of a status *)

Section Patch.
Context `{Platform} `{TimeText}.
Hypothesis Hrel : reliable.

Definition row_of (tenant id : string) (d : db) : option Incident.t :=
  find (fun i => String.eqb (Incident.ID i) id && String.eqb (Incident.TenantID i) tenant) (incidents d).

Lemma run_GetIncident tenant id t d :
  uuid_ok id = true ->
  exists t', (t <= t')%nat /\ run (IncidentStore.GetIncident tenant id) (World t d) =
    (match row_of tenant id d with
     | Some i => Ok (Incident.set_Labels (default ∅ (labels d !! id)) i)
     | None => Err ErrNotFound
     end, World t' d).
Proof.
  intros Hu. unfold IncidentStore.GetIncident, select_incident, row_of.
  rewrite run_bind, run_sql_ok by (simpl; rewrite ?Hu; apply Hrel || done). cbn [tick data].
  destruct (find _ _) as [i|] eqn:Ef; [|exists (S t); split; [lia|done]].
  apply find_elem in Ef as [_ [E%String.eqb_eq _]%andb_prop]. unfold loadLabels.
  rewrite run_sql_ok by (simpl; rewrite ?E, ?Hu; apply Hrel || done). rewrite E.
  exists (S (S t)). split; [lia|done].
Qed.

(** The table after a successful change of status. *)
Definition moved (tenant id status expected author : string) (now : Time) (l : list Incident.t) : list Incident.t :=
  map (fun i => if String.eqb (Incident.ID i) id && String.eqb (Incident.TenantID i) tenant
                   && String.eqb (Incident.Status i) expected
                then transition status author now i else i) l.

Lemma transition_ID status author now i : Incident.ID (transition status author now i) = Incident.ID i.
Proof. unfold transition. repeat case_match; done. Qed.

Lemma run_TransitionStatus tenant id status author h i t d :
  uuid_ok id = true -> row_of tenant id d = Some i -> fresh_ids t d -> Incident.ID i = id ->
  exists t' hid hnow, let now := now_at t in
    run (TransitionStatus tenant id status (Incident.Status i) author (Some h)) (World t d) =
    (Ok (Incident.set_Labels (default ∅ (labels d !! id)) (transition status author now i)),
     World t' (Db (moved tenant id status (Incident.Status i) author now (incidents d)) (alerts d) (labels d)
       (comments d)
       (history d ++ [HistoryEntry.mk hid id (HistoryEntry.TenantID h) (HistoryEntry.Kind h)
          (HistoryEntry.Author h) (HistoryEntry.OldValue h) (HistoryEntry.NewValue h) hnow]) (rules d) (broker d))).
Proof.
  intros Hu Hrow Hf Hid. unfold TransitionStatus. rewrite run_bind.
  change (run time_Now (World t d)) with (now_at t, World (S t) d). cbv beta iota.
  rewrite run_withTx_ok by done. unfold transition_tx. cbn [tick data].
  rewrite run_bind. unfold update_status. rewrite run_sql_ok by (simpl; rewrite ?Hu; apply Hrel || done).
  cbn [tick data]. cbv zeta.
  rewrite (find_and _ (fun j => String.eqb (Incident.Status j) (Incident.Status i)) _ _ Hrow) by apply String.eqb_refl.
  cbv iota beta. rewrite run_bind. unfold loadLabels.
  rewrite run_sql_ok by (simpl; rewrite ?transition_ID, ?Hid, ?Hu; apply Hrel || done).
  cbn [tick data labels set_incidents]. rewrite transition_ID, Hid. cbv iota beta.
  rewrite run_bind, run_appendHistory; [|done|done| |apply Hf; lia].
  - do 3 eexists. reflexivity.
  - unfold incident_exists. cbn [incidents set_incidents HistoryEntry.set_IncidentID HistoryEntry.IncidentID].
    apply find_elem in Hrow as [Hin [E _]%andb_prop].
    apply existsb_exists. eexists. split; [apply in_map, list_elem_of_In, Hin|]. cbv beta.
    repeat case_match; by rewrite ?transition_ID.
Qed.

End Patch.

(** ** An alert that opens an incident, down to the bus *)

Section Opening.
Context `{Platform} `{TimeText} `{Planner}.
Hypothesis Hrel : reliable.
Hypothesis Hsteady : steady.
Hypothesis Hclock : writable_clock.

Lemma run_announce key msg publish tenant id i t d :
  (forall ev, publish ev = let? b := Envelope.Wrap key (IncidentChanged.TenantID ev) ev wrap msg in
                           Publish ExchangeIncidents key b) ->
  uuid_ok id = true -> row_of tenant id d = Some i ->
  exists t' n b, run (announce publish tenant id) (World t d) = (Ok tt, World t' (set_net n d))
    /\ handed n = handed (net d) ++ [Message ExchangeIncidents key b]
    /\ wraps key (Incident.TenantID i) (changed i) b.
Proof.
  intros Hp Hu Hi. unfold announce. rewrite run_bind.
  destruct (run_GetIncident Hrel tenant id t d Hu) as (t1 & _ & ->). rewrite Hi. cbv iota beta. rewrite run_bind, Hp.
  assert (exists raw, payload_encode (changed i) = Some raw) as [raw Hraw] by (by eexists).
  destruct (run_wrap_publish Hrel Hsteady Hclock key (Incident.TenantID i) (changed i) raw ExchangeIncidents key msg
    (World t1 d) Hraw) as (t2 & n & b & Hr & Ea & Hw).
  exists t2, n, b. split; [|done]. change (changed (Incident.set_Labels _ i)) with (changed i).
  change (IncidentChanged.TenantID (changed i)) with (Incident.TenantID i). by rewrite Hr.
Qed.

(** The handling of a firing alert whose group has no unresolved incident. *)
Lemma firing_opens alert b t d :
  let tenant := Alert.TenantID alert in
  time_text_law -> wraps RoutingKeyAlertReceived tenant alert b ->
  Alert.Status alert <> AlertStatusResolved -> fresh_ids t d ->
  open_with_key tenant (group_key tenant alert d) d = [] ->
  exists n now t' d' b', let id := uuid_at n in
    run (process consumer_handler (Some b)) (World t d) = (Ack, World t' d')
    /\ incidents d' = incidents d ++ [new_incident alert tenant id now]
    /\ handed (broker d') = handed (broker d) ++ [Message ExchangeIncidents RoutingKeyIncidentCreated b']
    /\ wraps RoutingKeyIncidentCreated tenant (changed (new_incident alert tenant id now)) b'.
Proof.
  intros tenant Hlaw Hw Hs Hf E.
  destruct (wraps_reads _ _ _ _ Hlaw (encoded_alert_ok _ _ _ _ Hlaw Hw) Hw) as (env & Hd & _ & Ht & Hp).
  unfold process. rewrite Hd. unfold consumer_handler, handle.
  change (Envelope.DecodePayload env Alert.zero) with (Envelope.DecodePayload env (payload_zero (A := Alert.t))).
  rewrite Hp, (proj2 (String.eqb_neq _ _) Hs), Ht. unfold handleFiring.
  rewrite run_bind, run_bind, run_bind.
  destruct (run_GetGroupingRule Hrel tenant (normalizeSource (Alert.Source alert)) t d) as (rule & -> & Er).
  rewrite Er. fold (group_key tenant alert d). cbv iota beta zeta. rewrite run_bind, run_FindOpen by done.
  rewrite E. change (default EmptyString (pick_row [])) with EmptyString. cbv iota beta. rewrite String.eqb_refl.
  rewrite run_bind. destruct (run_CreateIncidentTx Hrel
    (Incident.mk "" tenant tenant (Alert.Title alert) (Alert.Severity alert) StatusOpen ∅ None None None
       Alert.zero_time Alert.zero_time) (Alert.Labels alert)
    (HistoryEntry.mk "" "" tenant HistoryStatusChange "" "" StatusOpen Alert.zero_time)
    (IncidentAlert.mk "" "" tenant (Alert.Fingerprint alert) (Alert.Source alert) (group_key tenant alert d)
       AlertStatusFiring Alert.zero_time)
    (S (S t)) d) as (aid & hid & t1 & Hrun); [intros n Hn; apply Hf; lia|].
  rewrite Hrun. cbv iota beta. cbn [Incident.ID]. set (id := uuid_at (S (S (S t)))). set (now := now_at (S (S t))).
  destruct (Hf (S (S (S t))) ltac:(lia)) as (Hex & Hu & _). fold id in Hex, Hu.
  match goal with |- context [run _ (World t1 ?x)] => set (d1 := x) end.
  destruct (run_announce RoutingKeyIncidentCreated "publisher: wrap created" PublishCreated tenant id
    (new_incident alert tenant id now) t1 d1) as (t2 & n & b' & Ha & Ea & Hb); [done|done| |].
  { unfold row_of, d1. cbn [incidents]. rewrite find_app. 
    replace (find _ (incidents d)) with (@None Incident.t).
    - simpl. by rewrite !String.eqb_refl.
    - symmetry. apply find_none_iff. intros i Hi. unfold incident_exists in Hex. rewrite existsb_false in Hex.
      by rewrite (Hex i Hi). }
  rewrite Ha. cbn [run]. exists (S (S (S t))), now, t2, (set_net n d1), b'. split; [done|]. split; [done|]. split; [exact Ea|exact Hb].
Qed.

End Opening.

(** C36: the PATCH of a status alone on a reliable platform.  A body without a
    status is refused with 400, an incident the tenant does not have with 404,
    and a change the state machine does not allow with 422, and none of these
    changes anything; otherwise the answer is 200 with the updated incident, the
    row takes the new status with its stamps, and the audit log gets the entry
    with the caller, the old and the new status; no other row changes. *)
Theorem PatchStatus_spec `{Platform} `{TimeText} ctx r req t d resp w' :
  reliable -> fresh_ids t d -> uuid_ok (incidentID r) = true ->
  run (PatchStatus ctx r req) (World t d) = (resp, w') ->
  let tenant := URLParam r "tenant_id" in let id := incidentID r in
  match Decode (dec_struct status_fields) req "" with
  | Err _ | Ok EmptyString => resp = Error StatusBadRequest "invalid body" /\ data w' = d
  | Ok status =>
      match row_of tenant id d with
      | None => resp = Error StatusNotFound "not found" /\ data w' = d
      | Some i =>
          if Validate (Incident.Status i) status then
            exists now hid hnow n,
              resp = Json StatusOK (AnIncident (Incident.set_Labels (default ∅ (labels d !! id))
                                                  (transition status (callerID ctx) now i)))
              /\ data w' = set_net n (Db (moved tenant id status (Incident.Status i) (callerID ctx) now (incidents d))
                   (alerts d) (labels d) (comments d)
                   (history d ++ [HistoryEntry.mk hid id tenant HistoryStatusChange (callerID ctx)
                                    (Incident.Status i) status hnow]) (rules d) (broker d))
          else resp = Error StatusUnprocessableEntity "invalid status transition" /\ data w' = d
      end
  end.
Proof.
  intros Hrel Hf Hu. unfold PatchStatus. cbv zeta.
  destruct (Decode _ _ _) as [status|e]; [|by intros [= <- <-]].
  destruct (String.eqb_spec status "") as [->|Hs]; [by intros [= <- <-]|].
  rewrite run_bind. destruct (run_GetIncident Hrel (URLParam r "tenant_id") (incidentID r) t d Hu) as (t1 & Ht1 & ->).
  destruct status as [|c status]; [done|]. set (st := String c status) in *.
  destruct (row_of _ _ d) as [i|] eqn:Erow; [|by intros [= <- <-]]. cbn [Incident.Status Incident.set_Labels].
  destruct (Validate _ _) eqn:Hv; cbn [negb]; [|by intros [= <- <-]].
  assert (Incident.ID i = incidentID r) as Hid
    by (apply find_elem in Erow as [_ [E%String.eqb_eq _]%andb_prop]; done).
  rewrite run_bind.
  destruct (run_TransitionStatus Hrel (URLParam r "tenant_id") (incidentID r) st (callerID ctx)
    (HistoryEntry.mk "" (incidentID r) (URLParam r "tenant_id") HistoryStatusChange (callerID ctx)
       (Incident.Status i) st Alert.zero_time) i t1 d Hu Erow) as (t2 & hid & hnow & Hrun);
    [intros n Hn; apply Hf; lia|done|].
  rewrite Hrun. cbv iota beta. rewrite run_bind.
  destruct (run (PublishUpdated _) _) as [x w3] eqn:Ep.
  apply run_only_net in Ep as [n En]; [|apply publish_only_net].
  intros [= <- <-]. rewrite En. eauto 10.
Qed.

Module Patch_demo.
Definition inc : Incident.t := Incident.mk "i1" "acme" "acme" "disk" "high" StatusOpen ∅ None None None 5 5.
Definition other : Incident.t := Incident.mk "i2" "globex" "globex" "cpu" "high" StatusOpen ∅ None None None 5 5.
Definition table : db :=
  Db [inc; other] [] {[ "i2" := {[ "team" := "core" ]} ]} [] [] [] (Net true true true [] []).
Definition body : option json := Some (JObj [("status", JStr "acknowledged")]).
Definition req : request := Request "" "" (url_params "acme" (RPatchStatus "i1" body)).
Abbreviation answer := (run (@PatchStatus platform demo_time_text background req body) (World 0 table)).
End Patch_demo.

Lemma PatchStatus_spec_witness :
  let d := Patch_demo.table in
  exists now hid hnow n,
    Patch_demo.answer.1 = Json StatusOK (AnIncident (Incident.set_Labels (default ∅ (labels d !! "i1"))
                            (transition "acknowledged" "system" now Patch_demo.inc)))
    /\ data Patch_demo.answer.2 = set_net n (Db (moved "acme" "i1" "acknowledged" StatusOpen "system" now (incidents d))
         (alerts d) (labels d) (comments d)
         (history d ++ [HistoryEntry.mk hid "i1" "acme" HistoryStatusChange "system" StatusOpen "acknowledged" hnow])
         (rules d) (broker d)).
Proof.
  refine (@PatchStatus_spec platform demo_time_text background Patch_demo.req Patch_demo.body 0 Patch_demo.table
    Patch_demo.answer.1 Patch_demo.answer.2 _ _ _ _).
  - intros t. reflexivity.
  - intros t _. split_and!; try reflexivity. discriminate.
  - reflexivity.
  - apply surjective_pairing.
Defined.

(** ** Tenant isolation *)

(** The records of an answer, with the tenant each belongs to. *)
Definition tenants_of (b : body) : list string :=
  match b with
  | Incidents l _ => map Incident.TenantID l
  | AnIncident i => [Incident.TenantID i]
  | Alerts l => map IncidentAlert.TenantID l
  | LabelMap _ => []
  | AComment c => [Comment.TenantID c]
  | Comments l => map Comment.TenantID l
  | History l => map HistoryEntry.TenantID l
  | Rules l => map GroupingRule.TenantID l
  end.

Definition of_tenant (tenant : string) (resp : response body) : Prop :=
  match resp with
  | Json _ b => Forall (fun t => t = tenant) (tenants_of b)
  | _ => True
  end.

(** The answer of a store call, when it is one. *)
Definition on_ok {A} (P : A -> Prop) (r : res A) : Prop := match r with Ok a => P a | Err _ => True end.

Section Isolation.
Context `{Platform} `{TimeText}.

Lemma GetIncident_tenant tenant id :
  always (IncidentStore.GetIncident tenant id) (on_ok (fun i => Incident.TenantID i = tenant)).
Proof.
  apply (always_bind _ _ (on_ok (fun i => Incident.TenantID i = tenant))).
  - apply always_sql; [done|]. intros now uuid d a d'. destruct (find _ _) as [i|] eqn:Ef; [|done].
    intros [= <- <-]. by apply find_elem in Ef as [_ [_ E%String.eqb_eq]%andb_prop].
  - intros [i|e] Hi; [|done]. apply always_sql; [done|]. intros now uuid d a d' [= <- <-]. exact Hi.
Qed.

Lemma load_all_tenant tenant l :
  Forall (fun i => Incident.TenantID i = tenant) l ->
  always (load_all l) (on_ok (Forall (fun i => Incident.TenantID i = tenant))).
Proof.
  induction 1 as [|i l Hi Hl IH]; cbn [load_all]; [exact (Forall_nil_2 _)|].
  apply (always_bind _ _ (on_ok (fun i => Incident.TenantID i = tenant))).
  - apply always_sql; [done|]. intros now uuid d a d' [= <- <-]. exact Hi.
  - intros [i'|] Hi'; [|done]. apply (always_bind _ _ _ _ IH). intros [l'|] Hl'; [|done]. by constructor.
Qed.

Lemma page_tenant tenant f c d n : Forall (fun i => Incident.TenantID i = tenant) (take n (page_rows tenant f c d)).
Proof.
  apply Forall_take, Forall_forall. intros i. unfold page_rows. rewrite merge_sort_Permutation.
  intros Hi. apply list_elem_of_In, filter_In in Hi as [_ [Hm _]%andb_prop]. unfold matches in Hm.
  repeat match goal with H : (_ && _) = true |- _ => apply andb_prop in H as [? ?] end. by apply String.eqb_eq.
Qed.

Lemma ListIncidents_tenant tenant f :
  always (IncidentStore.ListIncidents tenant f) (on_ok (fun p => Forall (fun i => Incident.TenantID i = tenant) p.1)).
Proof.
  apply (always_bind _ _ (on_ok (Forall (fun i => Incident.TenantID i = tenant)))).
  - apply always_sql; [done|]. intros now uuid d a d' [= <- <-]. apply page_tenant.
  - intros [l|] Hl; [|done]. cbv zeta.
    apply (always_bind _ _ (on_ok (Forall (fun i => Incident.TenantID i = tenant)))).
    + apply load_all_tenant. unfold next_page. destruct (_ <? _)%nat; [|done]. by apply Forall_take.
    + by intros [l'|] Hl'.
Qed.

(** A sorted selection of rows. *)
Lemma sorted_rows_tenant {A} (R : A -> A -> Prop) `{!RelDecision R} (key : A -> string) (p : A -> bool) tenant l :
  (forall a, p a = true -> key a = tenant) ->
  Forall (fun t => t = tenant) (map key (merge_sort R (List.filter p l))).
Proof.
  intros Hp. apply Forall_map. rewrite merge_sort_Permutation. apply Forall_forall.
  intros a [_ Ha]%list_elem_of_In%filter_In. by apply Hp.
Qed.

Lemma TransitionStatus_tenant tenant id status expected author h :
  always (TransitionStatus tenant id status expected author h) (on_ok (fun i => Incident.TenantID i = tenant)).
Proof.
  apply always_any. intros now. apply always_withTx; [done|]. intros q.
  apply (always_bind _ _ (on_ok (fun i => Incident.TenantID i = tenant))).
  - apply always_sql; [done|]. intros now' uuid d a d'. cbv zeta. destruct (find _ _) as [i|] eqn:Ef; [|done].
    intros [= <- <-]. apply find_elem in Ef as [_ [[_ E%String.eqb_eq]%andb_prop _]%andb_prop].
    simpl. unfold transition. repeat case_match; done.
  - intros [i|e] Hi; [|by destruct (errors_Is _ _)].
    apply (always_bind _ _ (on_ok (fun i => Incident.TenantID i = tenant))).
    + apply always_sql; [done|]. intros now' uuid d a d' [= <- <-]. exact Hi.
    + intros [i'|] Hi'; [|done]. destruct h; [|done]. apply always_any. by intros [].
Qed.

(** Every answer of a program that ends by turning a store answer into a response. *)
Ltac isolated :=
  repeat first
    [ exact I
    | done
    | apply always_any; intros [?|?]
    | match goal with |- always (if ?b then _ else _) _ => destruct b end
    | match goal with |- always (match ?r with _ => _ end) _ => destruct r end ].

Lemma unless_missing_tenant r k Q : Q not_found -> always k Q -> always (unless_missing r k) Q.
Proof. intros Hn Hk. apply always_any. intros [i|e]; [done|]. by destruct (errors_Is _ _). Qed.

Lemma rows_answer {A} (q : M db (res A)) (to : A -> body) tenant :
  always q (on_ok (fun a => Forall (fun t => t = tenant) (tenants_of (to a)))) ->
  always (let! l := q in Ret (match l with Err _ => internal_error | Ok l => Json StatusOK (to l) end)) (of_tenant tenant).
Proof. intros Hq. apply (always_bind _ _ _ _ Hq). by intros [a|e] Ha. Qed.

Lemma dispatch_tenant ctx r rt : always (dispatch ctx r rt) (of_tenant (URLParam r "tenant_id")).
Proof.
  destruct rt; cbn [dispatch].
  - unfold ListIncidents. destruct (parse_statuses _); [|done].
    apply (always_bind _ _ _ _ (ListIncidents_tenant _ _)). intros [[incs c]|e] Hl; [|done].
    simpl. by apply Forall_map.
  - apply (always_bind _ _ _ _ (GetIncident_tenant _ _)). intros [i|e] Hi; [simpl; auto|]. simpl. by destruct (errors_Is _ _).
  - unfold PatchStatus. destruct (Decode _ _ _) as [status|]; [|done]. destruct (String.eqb status ""); [done|].
    apply always_any. intros [i|e]; [|simpl; by destruct (errors_Is _ _)].
    destruct (negb _); [done|]. apply (always_bind _ _ _ _ (TransitionStatus_tenant _ _ _ _ _ _)).
    intros [u|e] Hu; [|simpl; by destruct (errors_Is _ _)]. apply always_any. intros _. simpl. auto.
  - apply unless_missing_tenant; [done|]. apply rows_answer.
    apply (always_bind _ _ (on_ok (fun l => Forall (fun t => t = URLParam r "tenant_id") (map IncidentAlert.TenantID l))));
      [|by intros [l|] Hl].
    apply always_sql; [done|]. intros now uuid d a d' [= <- <-]. apply sorted_rows_tenant.
    by intros a [_ E%String.eqb_eq]%andb_prop.
  - unfold AttachAlert. destruct (Decode _ _ _) as [[fp src]|]; [|done]. destruct (String.eqb fp ""); [done|].
    apply unless_missing_tenant; [done|]. isolated.
  - unfold PutLabels. destruct (Decode _ _ _); [|done]. apply unless_missing_tenant; [done|].
    apply always_any. intros [u|]; [|done]. apply always_any. intros _. apply rows_answer.
    eapply always_mono; [|apply always_True]. intros [m|] _; [apply Forall_nil_2|done].
  - unfold AddComment. destruct (Decode _ _ _) as [text|]; [|done]. destruct (String.eqb text ""); [done|].
    apply always_any. intros [i|e]; [|simpl; by destruct (errors_Is _ _)]. destruct (String.eqb _ _); [done|].
    apply (always_bind _ _ (on_ok (fun c => Comment.TenantID c = URLParam r "tenant_id"))).
    + apply always_sql; [done|]. intros now uuid d a d'. destruct (existsb _ _); [done|].
      destruct (negb _); [done|]. by intros [= <- <-].
    + intros [c|] Hc; [|done]. apply always_any. intros _. simpl. auto.
  - apply rows_answer, always_sql; [done|]. intros now uuid d a d' [= <- <-]. apply sorted_rows_tenant.
    by intros c [_ E%String.eqb_eq]%andb_prop.
  - unfold DeleteComment. apply always_any. intros [u|e]; simpl; [done|by destruct (errors_Is _ _)].
  - apply rows_answer, always_sql; [done|]. intros now uuid d a d' [= <- <-]. apply sorted_rows_tenant.
    by intros h [_ E%String.eqb_eq]%andb_prop.
  - apply rows_answer, always_sql; [done|]. intros now uuid d a d' [= <- <-]. cbn [on_ok tenants_of map].
    repeat constructor; by destruct (find _ _).
  - unfold PutGroupingRule. destruct (negb _); [done|]. destruct (Decode _ _ _) as [[|l ls]|]; try done. isolated.
  - unfold DeleteGroupingRule. destruct (negb _); [done|]. isolated.
Qed.

(** The labels of an incident carry no tenant. *)
Definition answers_labels (resp : response body) : Prop :=
  match resp with Json _ (LabelMap _) => True | _ => False end.

(** A check that does not fail and finds no incident of the tenant ends the
    request, or the id is no UUID. *)
Lemma unless_missing_checked r k w p' w' :
  pstep (unless_missing r k) w = Some (p', w') -> fault_at (tick w) = None ->
  (forall i, i ∈ incidents (data w) -> Incident.ID i = incidentID r -> Incident.TenantID i <> URLParam r "tenant_id") ->
  p' = Ret not_found \/ (uuid_ok (incidentID r) = false /\ p' = k).
Proof.
  unfold unless_missing, IncidentStore.GetIncident, select_incident. intros Hp Hf Hi.
  simpl in Hp. rewrite Hf in Hp. simpl in Hp. rewrite andb_true_r in Hp.
  destruct (uuid_ok (incidentID r)) eqn:Eu.
  - destruct (find _ _) as [i|] eqn:Ef.
    + apply find_elem in Ef as [Hin [Hid%String.eqb_eq Ht%String.eqb_eq]%andb_prop]. by destruct (Hi i Hin Hid).
    + simpl in Hp. injection Hp as <- _. by left.
  - simpl in Hp. injection Hp as <- _. by right.
Qed.

(** PUT of labels first looks the incident up in the tenant: when that statement
    does not fail and finds none, no labels are answered, whatever happens next. *)
Lemma PutLabels_checked ctx r req w p' w' :
  pstep (PutLabels ctx r req) w = Some (p', w') -> fault_at (tick w) = None ->
  (forall i, i ∈ incidents (data w) -> Incident.ID i = incidentID r -> Incident.TenantID i <> URLParam r "tenant_id") ->
  always p' (fun resp => ~ answers_labels resp).
Proof.
  unfold PutLabels. destruct (Decode _ _ _) as [l|]; [|done]. intros Hp Hf Hi.
  destruct (unless_missing_checked _ _ _ _ _ Hp Hf Hi) as [->|[Eu ->]]; [by intros []|].
  apply always_any. intros [u|e]; [|by intros []].
  apply always_any. intros _. apply (always_bind _ _ (fun r => is_ok r = false)).
  - intros w1. simpl. rewrite Eu. simpl. by destruct (fault_at (tick w1)) as [[]|].
  - intros [m|e] Hm; [done|by intros []].
Qed.

End Isolation.

(** The tenant check reads the tenant the handlers use. *)
Lemma tenantFromRequest_route adminKey authorization tenant rt :
  tenantFromRequest (Request adminKey authorization (url_params tenant rt)) = tenant.
Proof. destruct rt; unfold tenantFromRequest; simpl; by destruct tenant. Qed.



(** ** Resolution *)

(** The firing alerts of a tenant with a fingerprint. *)
Definition is_hit (tenant fp : string) (a : IncidentAlert.t) : bool :=
  String.eqb (IncidentAlert.TenantID a) tenant && String.eqb (IncidentAlert.Fingerprint a) fp
  && String.eqb (IncidentAlert.Status a) "firing".

Definition resolve_alerts (tenant fp : string) (l : list IncidentAlert.t) : list IncidentAlert.t :=
  map (fun a => if is_hit tenant fp a then IncidentAlert.set_Status "resolved" a else a) l.

(** The handling of a resolved alert up to the announcement of the incident. *)
Lemma run_handleResolved `{Platform} `{TimeText} `{Planner} alert t d :
  reliable -> (forall a, a ∈ alerts d -> uuid_ok (IncidentAlert.IncidentID a) = true
                 /\ IncidentAlert.IncidentID a <> EmptyString) ->
  let tenant := Alert.TenantID alert in let fp := Alert.Fingerprint alert in
  let d1 := set_alerts (resolve_alerts tenant fp (alerts d)) d in
  List.filter (is_hit tenant fp) (alerts d) = [] /\ run (handleResolved alert) (World t d) = (Ok tt, World (S t) d1) \/
  exists a, a ∈ alerts d /\ is_hit tenant fp a = true /\
    let id := IncidentAlert.IncidentID a in
    if 0 <? firing_count id d1 then exists t', run (handleResolved alert) (World t d) = (Ok tt, World t' d1)
    else exists w1 now, run (handleResolved alert) (World t d) = run (announce PublishUpdated tenant id) w1
      /\ incidents (data w1) = resolve_rows tenant id now (incidents d) /\ alerts (data w1) = alerts d1
      /\ broker (data w1) = broker d.
Proof.
  intros Hrel Hids tenant fp d1. destruct (run (handleResolved alert) (World t d)) as [r w'] eqn:Er. revert Er.
  unfold handleResolved. rewrite run_bind. unfold ResolveAlert at 1. rewrite run_sql_ok by (apply Hrel || done). cbn [tick data]. cbv zeta.
  match goal with |- context [set_alerts (map ?f (alerts d)) d] => change (set_alerts (map f (alerts d)) d) with d1 end.
  match goal with |- context [map IncidentAlert.IncidentID (List.filter ?g (alerts d))] =>
    change (List.filter g (alerts d)) with (List.filter (is_hit tenant fp) (alerts d)) end.
  cbv iota beta. set (hits := List.filter (is_hit tenant fp) (alerts d)).
  destruct (decide (hits = [])) as [E|E].
  { rewrite E. change (default EmptyString (pick_row (map IncidentAlert.IncidentID []))) with EmptyString.
    intros [= <- <-]. by left. }
  destruct (pick_row_elem (map IncidentAlert.IncidentID hits)) as (id & -> & Hid); [by destruct hits|].
  apply list_elem_of_fmap in Hid as (a & -> & Ha). apply list_elem_of_In, filter_In in Ha as [Ha Hhit].
  apply list_elem_of_In in Ha. destruct (Hids a Ha) as [Hu Hne]. simpl (default _ _).
  rewrite (proj2 (String.eqb_neq _ "") Hne). set (id := IncidentAlert.IncidentID a) in *.
  rewrite run_bind. unfold MaybeResolve.
  rewrite run_bind, run_sql_ok by (simpl; rewrite ?Hu; apply Hrel || done). cbn [tick data]. cbv iota beta.
  destruct (0 <? firing_count id d1) eqn:Ec.
  { intros [= <- <-]. right. exists a. fold id. rewrite Ec. split; [done|]. split; [done|]. by eexists. }
  cbv iota. rewrite run_bind. match goal with |- context [run time_Now ?w] =>
    change (run time_Now w) with (now_at (tick w), World (S (tick w)) (data w)) end.
  cbv beta iota. cbn [tick data].
  rewrite run_bind, run_sql_ok by (simpl; rewrite ?Hu; apply Hrel || done). cbn [tick data]. cbv iota beta.
  cbn [run]. cbv iota beta. rewrite run_bind. destruct (run (AppendHistory _) _) as [x w2] eqn:Eh.
  intros Er. right. exists a. fold id. rewrite Ec. split; [done|]. split; [done|].
  exists w2, (now_at (S (S t))). split; [done|]. unfold AppendHistory, appendHistory in Eh.
  rewrite run_sql_ok in Eh by (simpl; rewrite ?Hu; apply Hrel || done).
  destruct (existsb _ _); [by injection Eh as <- <-|]. destruct (negb _); by injection Eh as <- <-.
Qed.

(** A resolved alert, alone on a reliable platform.  Exactly the firing
    alerts of the tenant with the fingerprint become resolved; when there was
    one, one incident they belong to is considered, and it is resolved exactly
    when none of its alerts is firing any more; no other incident changes. *)
Lemma handleResolved_outcome `{Platform} `{TimeText} `{Planner} alert t d r w' :
  reliable -> (forall a, a ∈ alerts d -> uuid_ok (IncidentAlert.IncidentID a) = true
                 /\ IncidentAlert.IncidentID a <> EmptyString) ->
  run (handleResolved alert) (World t d) = (r, w') ->
  let tenant := Alert.TenantID alert in let fp := Alert.Fingerprint alert in
  let d1 := set_alerts (resolve_alerts tenant fp (alerts d)) d in
  r = Ok tt /\ alerts (data w') = alerts d1 /\
  (List.filter (is_hit tenant fp) (alerts d) = [] /\ data w' = d1 \/
   exists a, a ∈ alerts d /\ is_hit tenant fp a = true /\
     let id := IncidentAlert.IncidentID a in
     if 0 <? firing_count id d1 then data w' = d1
     else exists now, incidents (data w') = resolve_rows tenant id now (incidents d)).
Proof.
  intros Hrel Hids Hr tenant fp d1.
  destruct (run_handleResolved alert t d Hrel Hids) as [[E E1]|(a & Ha & Hhit & Hcase)].
  { rewrite E1 in Hr. injection Hr as <- <-. eauto. }
  fold tenant fp d1 in Hhit, Hcase. cbv zeta in Hcase. destruct (0 <? firing_count _ d1) eqn:Ec.
  - destruct Hcase as [t' E1]. rewrite E1 in Hr. injection Hr as <- <-.
    split_and!; [done..|]. right. exists a. cbv zeta. by rewrite Ec.
  - destruct Hcase as (w1 & now & E1 & Ei & Ea & _). rewrite E1 in Hr.
    apply announce_result in Hr as [-> [n En]]; [|intros ev; apply publish_only_net].
    rewrite En. split; [done|]. split; [exact Ea|]. right. exists a. cbv zeta. rewrite Ec. split; [done|].
    split; [done|]. eexists. exact Ei.
Qed.

(** ** The resolution that closes an incident, down to the bus *)

(** The firing alerts with the fingerprint are the firing alerts of one incident. *)
Record closes (tenant fp id : string) (d : db) : Prop := {
  cl_hit : exists a, a ∈ alerts d /\ is_hit tenant fp a = true;
  cl_one : forall a, a ∈ alerts d -> is_hit tenant fp a = true -> IncidentAlert.IncidentID a = id;
  cl_all : forall a, a ∈ alerts d -> IncidentAlert.IncidentID a = id -> IncidentAlert.Status a = "firing" ->
             is_hit tenant fp a = true
}.

Lemma closes_count tenant fp id d :
  closes tenant fp id d -> firing_count id (set_alerts (resolve_alerts tenant fp (alerts d)) d) = 0.
Proof.
  intros [_ _ Hall]. unfold firing_count. cbn [alerts set_alerts].
  destruct (decide (Z.of_nat (length (List.filter (fun a => String.eqb (IncidentAlert.IncidentID a) id
    && String.eqb (IncidentAlert.Status a) "firing") (resolve_alerts tenant fp (alerts d)))) = 0)) as [|Hn]; [done|exfalso].
  apply filter_nonempty in Hn as (x & (a & -> & Ha)%list_elem_of_fmap & [Hid%String.eqb_eq Hs%String.eqb_eq]%andb_prop).
  destruct (is_hit tenant fp a) eqn:Eh; [done|]. by rewrite Hall in Eh.
Qed.

(** The incident after its resolution. *)
Lemma row_of_resolved tenant id now i d d' :
  incidents d' = resolve_rows tenant id now (incidents d) -> row_of tenant id d = Some i ->
  exists i', row_of tenant id d' = Some i' /\ Incident.Status i' = "resolved" /\ Incident.ID i' = id
    /\ Incident.TenantID i' = tenant.
Proof.
  intros E Hi. unfold row_of in *. rewrite E. unfold resolve_rows.
  rewrite (find_map_same _ (fun i => String.eqb (Incident.ID i) id && String.eqb (Incident.TenantID i) tenant))
    by (intros x; by destruct (_ && negb _)).
  rewrite Hi. pose proof (find_elem _ _ _ Hi) as [_ [E1%String.eqb_eq E2%String.eqb_eq]%andb_prop].
  simpl. rewrite E1, E2, !String.eqb_refl. simpl.
  destruct (String.eqb_spec (Incident.Status i) "resolved") as [Es|Es]; simpl; (eexists; split; [done|]; by split_and!).
Qed.

Lemma resolved_closes `{Platform} `{TimeText} `{Planner} alert b id i t d :
  let tenant := Alert.TenantID alert in
  reliable -> steady -> writable_clock -> time_text_law ->
  wraps RoutingKeyAlertReceived tenant alert b -> Alert.Status alert = AlertStatusResolved ->
  (forall a, a ∈ alerts d -> uuid_ok (IncidentAlert.IncidentID a) = true /\ IncidentAlert.IncidentID a <> EmptyString) ->
  closes tenant (Alert.Fingerprint alert) id d -> row_of tenant id d = Some i ->
  exists t' d' i' b', run (process consumer_handler (Some b)) (World t d) = (Ack, World t' d')
    /\ row_of tenant id d' = Some i' /\ Incident.Status i' = "resolved" /\ Incident.ID i' = id /\ Incident.TenantID i' = tenant
    /\ handed (broker d') = handed (broker d) ++ [Message ExchangeIncidents RoutingKeyIncidentUpdated b']
    /\ wraps RoutingKeyIncidentUpdated tenant (changed i') b'.
Proof.
  intros tenant Hrel Hst Hcl Hlaw Hw Hs Hids Hc Hi.
  destruct (wraps_reads _ _ _ _ Hlaw (encoded_alert_ok _ _ _ _ Hlaw Hw) Hw) as (env & Hd & _ & _ & Hp).
  unfold process. rewrite Hd. unfold consumer_handler, handle.
  change (Envelope.DecodePayload env Alert.zero) with (Envelope.DecodePayload env (payload_zero (A := Alert.t))).
  rewrite Hp, Hs, String.eqb_refl, run_bind, run_bind.
  destruct (run_handleResolved alert t d Hrel Hids) as [[E _]|(a & Ha & Hhit & Hcase)].
  { exfalso. destruct (cl_hit _ _ _ _ Hc) as (a & Ha & Hhit).
    assert (In a (List.filter (is_hit (Alert.TenantID alert) (Alert.Fingerprint alert)) (alerts d))) as Hin
      by (apply filter_In; by rewrite <- list_elem_of_In).
    by rewrite E in Hin. }
  cbv zeta in Hcase. fold tenant in Hhit, Hcase. pose proof (Hids a Ha) as [Hu _]. rewrite (cl_one _ _ _ _ Hc a Ha Hhit) in Hcase, Hu.
  rewrite (closes_count _ _ _ _ Hc) in Hcase. destruct Hcase as ([t1 d1] & now & -> & Ei & _ & Eb).
  destruct (row_of_resolved tenant id now i d d1 Ei Hi) as (i' & Hi' & Hs' & Hid' & Ht').
  destruct (run_announce Hrel Hst Hcl RoutingKeyIncidentUpdated "publisher: wrap updated" PublishUpdated tenant id i' t1 d1)
    as (t2 & n & b' & -> & Ea & Hb); [done|done|done|].
  cbn [run]. exists t2, (set_net n d1), i', b'. split; [done|]. split; [done|]. split; [done|]. split; [done|]. split; [done|].
  rewrite Ht' in Hb. split; [|exact Hb]. cbn in Eb. cbn. rewrite Ea. cbn. by rewrite Eb.
Qed.

(** After a resolution no alert with the fingerprint is firing. *)
Lemma resolved_no_hit tenant fp l : List.filter (is_hit tenant fp) (resolve_alerts tenant fp l) = [].
Proof.
  unfold resolve_alerts. induction l as [|a l IH]; [done|]. simpl.
  assert (is_hit tenant fp (if is_hit tenant fp a then IncidentAlert.set_Status "resolved" a else a) = false) as ->; [|done].
  destruct (is_hit tenant fp a) eqn:E; [|done]. unfold is_hit. simpl. by rewrite andb_false_r.
Qed.

Lemma none_firing tenant fp l id :
  (forall a, a ∈ l -> IncidentAlert.Status a = "firing" -> IncidentAlert.IncidentID a = id -> is_hit tenant fp a = true) ->
  List.filter (fun a => String.eqb (IncidentAlert.IncidentID a) id && String.eqb (IncidentAlert.Status a) "firing")
    (resolve_alerts tenant fp l) = [].
Proof.
  unfold resolve_alerts. induction l as [|a l IH]; intros Ha; [done|]. simpl.
  rewrite IH by (intros x Hx; apply Ha; by right).
  destruct (is_hit tenant fp a) eqn:E; simpl; [by rewrite andb_false_r|].
  destruct (String.eqb_spec (IncidentAlert.IncidentID a) id) as [Ei|]; [|done].
  destruct (String.eqb_spec (IncidentAlert.Status a) "firing") as [Es|]; [|done].
  exfalso. specialize (Ha a ltac:(left) Es Ei). congruence.
Qed.

Module Resolve_demo.
Definition row (id inc fp : string) : IncidentAlert.t :=
  IncidentAlert.mk id inc "acme" fp "alertmanager" "" "firing" 1.
Definition resolved (fp : string) : Alert.t := Alert.mk fp "alertmanager" "high" "disk" "" ∅ "resolved" 3 4 "acme".
Definition incident (id : string) : Incident.t :=
  Incident.mk id "acme" "acme" "disk" "high" StatusOpen ∅ None None None 5 5.
(** The fingerprint is firing on two incidents. *)
Definition table : db :=
  Db [incident "i1"; incident "i2"] [row "a1" "i1" "f1"; row "a2" "i2" "f1"] ∅ [] [] [] (Net true true true [] []).
Abbreviation after := (run (@handleResolved platform demo_time_text planner (resolved "f1")) (World 0 table)).
End Resolve_demo.

Lemma handleResolved_outcome_witness :
  let d := Resolve_demo.table in let d1 := set_alerts (resolve_alerts "acme" "f1" (alerts d)) d in
  let w' := Resolve_demo.after.2 in
  Resolve_demo.after.1 = Ok tt /\ alerts (data w') = alerts d1 /\
  (List.filter (is_hit "acme" "f1") (alerts d) = [] /\ data w' = d1 \/
   exists a, a ∈ alerts d /\ is_hit "acme" "f1" a = true /\
     let id := IncidentAlert.IncidentID a in
     if 0 <? firing_count id d1 then data w' = d1
     else exists now, incidents (data w') = resolve_rows "acme" id now (incidents d)).
Proof.
  refine (@handleResolved_outcome platform demo_time_text planner (Resolve_demo.resolved "f1") 0 Resolve_demo.table
    Resolve_demo.after.1 Resolve_demo.after.2 _ _ _).
  - intros t. reflexivity.
  - intros a Ha. repeat (apply elem_of_cons in Ha as [->|Ha]; [split; [reflexivity|discriminate]|]).
    by apply not_elem_of_nil in Ha.
  - apply surjective_pairing.
Defined.

(** Without a firing alert with its fingerprint a resolution changes no incident. *)
Lemma resolve_without_hit `{Platform} `{TimeText} `{Planner} alert t d :
  List.filter (is_hit (Alert.TenantID alert) (Alert.Fingerprint alert)) (alerts d) = [] ->
  incidents (data (run (handleResolved alert) (World t d)).2) = incidents d.
Proof.
  intros Hn. unfold handleResolved. rewrite run_bind.
  destruct (run (ResolveAlert _ _) _) as [r w1] eqn:Er.
  assert (incidents (data w1) = incidents d /\ (r = Ok EmptyString \/ exists e, r = Err e)) as [E [->|[e ->]]]; [|done..].
  revert Er. unfold ResolveAlert. simpl.
  change (List.filter _ (alerts d)) with (List.filter (is_hit (Alert.TenantID alert) (Alert.Fingerprint alert)) (alerts d)).
  rewrite Hn. destruct (fault_at t) as [[]|]; intros [= <- <-]; split; try done; eauto.
Qed.

(** C39: an incident is left open for ever.  Take a tenant whose firing alerts of
    two incidents all have one fingerprint.  When that fingerprint is resolved, all
    these alerts are marked, but one of the two incidents stays exactly as it was
    (open, if it was), with no alert firing any more; and the same event, delivered
    again at any time and with any faults, changes no incident. *)
Theorem resolution_strands_incident `{Platform} `{TimeText} `{Planner} alert t d r w' i1 i2 :
  reliable -> (forall a, a ∈ alerts d -> uuid_ok (IncidentAlert.IncidentID a) = true
                 /\ IncidentAlert.IncidentID a <> EmptyString) ->
  i1 ∈ incidents d -> i2 ∈ incidents d -> Incident.ID i1 <> Incident.ID i2 ->
  (forall a, a ∈ alerts d -> IncidentAlert.Status a = "firing" ->
     IncidentAlert.IncidentID a = Incident.ID i1 \/ IncidentAlert.IncidentID a = Incident.ID i2 ->
     is_hit (Alert.TenantID alert) (Alert.Fingerprint alert) a = true) ->
  run (handleResolved alert) (World t d) = (r, w') ->
  exists i, (i = i1 \/ i = i2) /\ i ∈ incidents (data w') /\ firing_count (Incident.ID i) (data w') = 0
    /\ forall (P : Platform) (T : TimeText) (Pl : Planner) t',
         incidents (data (run (@handleResolved P T Pl alert) (World t' (data w'))).2) = incidents (data w').
Proof.
  intros Hrel Hids H1' H2' Hne Honly Hr.
  destruct (handleResolved_outcome alert t d r w' Hrel Hids Hr) as (_ & Ea & Hcase). cbv zeta in Ea, Hcase.
  assert (exists i, (i = i1 \/ i = i2) /\ i ∈ incidents (data w')) as (i & Hi & Hin).
  { destruct Hcase as [[_ ->]|(a & _ & _ & Hcase)]; [by exists i1; split; [left|]|].
    destruct (0 <? _); [rewrite Hcase; by exists i1; split; [left|]|]. destruct Hcase as [now ->].
    assert (forall i, i ∈ incidents d -> Incident.ID i <> IncidentAlert.IncidentID a ->
      i ∈ resolve_rows (Alert.TenantID alert) (IncidentAlert.IncidentID a) now (incidents d)) as Hk.
    { intros i Hi Hn. apply list_elem_of_fmap. exists i. split; [|done].
      by rewrite (proj2 (String.eqb_neq _ _) Hn). }
    destruct (decide (Incident.ID i1 = IncidentAlert.IncidentID a)) as [E|E].
    - exists i2. split; [by right|]. apply Hk; [done|]. congruence.
    - exists i1. split; [by left|]. by apply Hk. }
  exists i. split; [done|]. split; [done|]. split.
  - unfold firing_count. rewrite Ea. cbn [alerts set_alerts]. rewrite none_firing; [done|].
    intros a Hain Hf Hid. apply Honly; [done..|]. destruct Hi as [-> | ->]; auto.
  - intros P T Pl t'. apply (@resolve_without_hit P T Pl). rewrite Ea. apply resolved_no_hit.
Qed.

Lemma resolution_strands_incident_witness :
  let d' := data Resolve_demo.after.2 in
  map Incident.Status (incidents d') = ["resolved"; "open"] /\
  exists i, (i = Resolve_demo.incident "i1" \/ i = Resolve_demo.incident "i2") /\ i ∈ incidents d'
    /\ firing_count (Incident.ID i) d' = 0
    /\ forall (P : Platform) (T : TimeText) (Pl : Planner) t',
         incidents (data (run (@handleResolved P T Pl (Resolve_demo.resolved "f1")) (World t' d')).2) = incidents d'.
Proof.
  intros d'. split; [vm_compute; reflexivity|].
  refine (@resolution_strands_incident platform demo_time_text planner (Resolve_demo.resolved "f1") 0 Resolve_demo.table
    Resolve_demo.after.1 Resolve_demo.after.2 (Resolve_demo.incident "i1") (Resolve_demo.incident "i2") _ _ _ _ _ _ _).
  - intros t. reflexivity.
  - intros a Ha. repeat (apply elem_of_cons in Ha as [->|Ha]; [split; [reflexivity|discriminate]|]).
    by apply not_elem_of_nil in Ha.
  - by left.
  - right. by left.
  - discriminate.
  - intros a Ha _ _. repeat (apply elem_of_cons in Ha as [->|Ha]; [reflexivity|]). by apply not_elem_of_nil in Ha.
  - apply surjective_pairing.
Defined.

(** A failed check does not stop the request.  When the statement that looks
    up the incident fails with an error other than not-found, PUT labels goes
    on: the labels of an incident of any tenant are changed and answered to a
    caller of another. *)
Lemma put_labels_ignores_failed_check `{Platform} ctx r (m : gmap string string) i t d e :
  i ∈ incidents d -> Incident.ID i = incidentID r -> uuid_ok (incidentID r) = true ->
  fault_at t = Some (FailBefore e) -> foreign e -> (forall t', (t < t')%nat -> fault_at t' = None) ->
  m <> ∅ ->
  exists w', let all := m ∪ default ∅ (labels d !! incidentID r) in
    run (PutLabels ctx r (Some (enc_map m))) (World t d) = (Json StatusOK (LabelMap all), w')
    /\ labels (data w') !! incidentID r = Some all.
Proof.
  intros Hi Hid Hu Hft [Hfe _] Hok Hm. unfold PutLabels, Decode, Unmarshal.
  assert (dec_label_map (enc_map m) None = Some (Some m)) as ->.
  { unfold dec_label_map. pose proof (dec_map_enc m) as Hd. destruct (enc_map m) eqn:Em; try done;
      simpl (default _ _); by rewrite Hd. }
  assert (incident_exists (incidentID r) d = true) as Hex.
  { apply existsb_exists. exists i. split; [by apply list_elem_of_In|]. by apply String.eqb_eq. }
  unfold unless_missing. rewrite run_bind.
  assert (run (IncidentStore.GetIncident (URLParam r "tenant_id") (incidentID r)) (World t d) = (Err e, World (S t) d))
    as -> by (unfold IncidentStore.GetIncident; rewrite run_bind; simpl; by rewrite Hft).
  cbv iota beta. rewrite Hfe. rewrite run_bind. unfold MergeLabels, mergeLabels.
  change (default ∅ (Some m)) with m. rewrite decide_False by done.
  rewrite run_bind, run_sql_ok by (simpl; rewrite ?Hu; done || (apply Hok; lia)). cbn [tick data]. rewrite Hex.
  cbn [negb run]. rewrite run_bind. destruct (run (AppendHistory _) _) as [x [t2 d2]] eqn:Eh.
  assert (labels d2 = <[incidentID r := m ∪ default ∅ (labels d !! incidentID r)]> (labels d) /\ t2 = S (S (S t))) as [El ->].
  { unfold AppendHistory, appendHistory in Eh.
    rewrite run_sql_ok in Eh by (simpl; rewrite ?Hu; done || (apply Hok; lia)). cbn [tick data] in Eh.
    destruct (existsb _ _); [by injection Eh as _ <- <-|]. destruct (negb _); by injection Eh as _ <- <-. }
  rewrite run_bind. unfold GetLabels. rewrite run_sql_ok by (simpl; rewrite ?Hu; done || (apply Hok; lia)).
  cbn [tick data]. rewrite El, lookup_insert_eq. eexists. split; [reflexivity|]. simpl. by rewrite El, lookup_insert_eq.
Qed.

Lemma put_labels_ignores_failed_check_witness :
  let P := demo_platform [(O, FailBefore (ErrNew "connection reset"))] in
  let m := {[ "owner" := "acme" ]} : gmap string string in
  exists w', let all := m ∪ default ∅ (labels Patch_demo.table !! "i2") in
    run (@PutLabels P background (Request "" "" (url_params "acme" (RPutLabels "i2" None)))
           (Some (enc_map m))) (World 0 Patch_demo.table) = (Json StatusOK (LabelMap all), w')
    /\ labels (data w') !! "i2" = Some all.
Proof.
  intros P m.
  refine (@put_labels_ignores_failed_check P background
    (Request "" "" (url_params "acme" (RPutLabels "i2" None))) m Patch_demo.other 0 Patch_demo.table
    (ErrNew "connection reset") _ _ _ _ _ _ _).
  - right. left.
  - reflexivity.
  - reflexivity.
  - reflexivity.
  - done.
  - intros [|t'] Ht; [lia|reflexivity].
  - apply insert_non_empty.
Defined.
