(* ===== verification/RateLimit.v ===== *)
(** * The per-client rate limit of pkg/httpserver/ratelimit.go

    The token buckets of golang.org/x/time/rate are not part of the repository:
    [RateLib] stands for them.  The mutex makes [allow] one step; it reads the
    clock twice, once itself and once in the bucket. *)

From S2P Require Import Prelude Effects Http.
Open Scope go_scope.

(** [rate.NewLimiter(rate.Limit(rps), burst)] for a whole number of requests per
    second, and [Limiter.Allow] at an instant: a limiter is changed in place. *)
Class RateLib := {
  Limiter : Type;
  NewLimiter : Z -> Z -> Limiter;
  Allow : Time -> Limiter -> bool * Limiter
}.

Section RateLimit.
Context `{RateLib}.

Definition rlTTL : Duration := 10 * Minute.

Record rlClient := {
  limiter : Limiter;
  lastSeen : Time
}.

Record rateLimiter := {
  clients : gmap string rlClient;
  rps : Z;
  burst : Z;
  lastSweep : Time
}.

Definition stale (now : Time) (c : rlClient) : bool := rlTTL <? Sub now (lastSeen c).

(** The loop over the clients deletes the stale ones. *)
Definition sweep (now : Time) (rl : rateLimiter) : rateLimiter :=
  if rlTTL <? Sub now (lastSweep rl) then
    {| clients := filter (fun kc => stale now kc.2 = false) (clients rl);
       rps := rps rl; burst := burst rl; lastSweep := now |}
  else rl.

Definition allow (now now' : Time) (key : string) (rl : rateLimiter) : bool * rateLimiter :=
  let rl := sweep now rl in
  let l := match clients rl !! key with
           | Some c => limiter c
           | None => NewLimiter (rps rl) (burst rl)
           end in
  let '(ok, l) := Allow now' l in
  (ok, {| clients := <[key := {| limiter := l; lastSeen := now |}]> (clients rl);
          rps := rps rl; burst := burst rl; lastSweep := lastSweep rl |}).

Definition clientIP (RemoteAddr : string) : string :=
  match SplitHostPort RemoteAddr with
  | None => RemoteAddr
  | Some (host, _) => host
  end.

(** The limiter of a process in front of a component with state [D]. *)
Record limited (D : Type) := Limited { rl : rateLimiter; inner : D }.
Arguments Limited {_} _ _.
Arguments rl {_} _.
Arguments inner {_} _.

#[export] Instance limited_Part {D} : Part D (limited D) :=
  {| part := inner;
     set_part d e := Limited (rl e) d;
     part_set_part _ _ := eq_refl;
     set_part_part e := match e with Limited _ _ => eq_refl end;
     set_part_set_part _ _ _ := eq_refl |}.

Definition new_rateLimiter (rps burst : Z) (now : Time) : rateLimiter :=
  {| clients := ∅; rps := rps; burst := burst; lastSweep := now |}.

Definition rl_allow `{Platform} {D} (key : string) : M (limited D) bool :=
  Atomic (fun w =>
    let '(ok, r) := allow (now_at (tick w)) (now_at (S (tick w))) key (rl (data w)) in
    (ok, World (S (S (tick w))) (Limited r (inner (data w))))) Ret.

Definition RateLimit `{Platform} {D B} (next : M D (response B)) (RemoteAddr : string)
    : M (limited D) (response B) :=
  let! ok := rl_allow (clientIP RemoteAddr) in
  if ok then zoom next else Ret (Error StatusTooManyRequests "rate limit exceeded").

End RateLimit.

Arguments Limited {_ _} _ _.
Arguments rl {_ _} _.
Arguments inner {_ _} _.

(** ** Specification: one bucket per client, never evicted *)

Section Spec.
Context `{RateLib}.

(** A request: the client and the two readings of the clock. *)
Record arrival := Arrival { key : string; at_ : Time; at' : Time }.

Fixpoint answers (r : rateLimiter) (l : list arrival) : list bool :=
  match l with
  | [] => []
  | a :: l => let '(ok, r) := allow (at_ a) (at' a) (key a) r in ok :: answers r l
  end.

Definition bucket_of (rps burst : Z) (k : string) (m : gmap string Limiter) : Limiter :=
  default (NewLimiter rps burst) (m !! k).

Fixpoint bucket_answers (rps burst : Z) (m : gmap string Limiter) (l : list arrival) : list bool :=
  match l with
  | [] => []
  | a :: l =>
      let '(ok, b) := Allow (at' a) (bucket_of rps burst (key a) m) in
      ok :: bucket_answers rps burst (<[key a := b]> m) l
  end.

(** The clock does not run backwards, and [drift] bounds the time between the two
    readings of one request. *)
Fixpoint timely (drift : Duration) (t : Time) (l : list arrival) : Prop :=
  match l with
  | [] => True
  | a :: l => t <= at_ a /\ at_ a <= at' a <= at_ a + drift /\ timely drift (at' a) l
  end.

(** The answers of one limiter at given instants. *)
Fixpoint allows (l : Limiter) (ts : list Time) : list bool :=
  match ts with
  | [] => []
  | t :: ts => let '(ok, l) := Allow t l in ok :: allows l ts
  end.

Fixpoint ascending (t : Time) (ts : list Time) : Prop :=
  match ts with [] => True | t' :: ts => t <= t' /\ ascending t' ts end.

(** Two limiters that cannot be told apart from [t] on. *)
Definition same_from (t : Time) (l l' : Limiter) : Prop :=
  forall ts, ascending t ts -> allows l ts = allows l' ts.

(** A limiter made by [NewLimiter] and last asked at [t]. *)
Inductive used (rps burst : Z) : Limiter -> Time -> Prop :=
| used_first t : used rps burst (Allow t (NewLimiter rps burst)).2 t
| used_next l t t' : used rps burst l t -> t <= t' -> used rps burst (Allow t' l).2 t'.

(** The documented behaviour of a token bucket that matters here: after [idle]
    without a request it is full again, that is like a new one. *)
Definition refills (rps burst : Z) (idle : Duration) : Prop :=
  forall l t t', used rps burst l t -> t + idle <= t' -> same_from t' l (NewLimiter rps burst).

(** ** Lemmas *)

Lemma ascending_le t t' ts : t <= t' -> ascending t' ts -> ascending t ts.
Proof. destruct ts; simpl; [done|]. intros Ht [? ?]. split; [lia|done]. Qed.

Lemma same_from_refl t l : same_from t l l.
Proof. by intros ts. Qed.

Lemma same_from_sym t l l' : same_from t l l' -> same_from t l' l.
Proof. intros Hs ts Ha. symmetry. by apply Hs. Qed.

Lemma same_from_Allow t t' l l' :
  same_from t l l' -> t <= t' ->
  (Allow t' l).1 = (Allow t' l').1 /\ same_from t' (Allow t' l).2 (Allow t' l').2.
Proof.
  intros Hs Ht. split.
  - specialize (Hs [t'] (conj Ht I)). simpl in Hs.
    destruct (Allow t' l), (Allow t' l'). by injection Hs.
  - intros ts Ha. specialize (Hs (t' :: ts) (conj Ht Ha)). simpl in Hs.
    destruct (Allow t' l), (Allow t' l'). simpl in *. by injection Hs.
Qed.

Lemma stale_spec now c : stale now c = true <-> rlTTL < now - lastSeen c.
Proof.
  unfold stale, Sub, minInt64, maxInt64. rewrite Z.ltb_lt. unfold rlTTL, Minute, Second. lia.
Qed.

Lemma sweep_lookup now (r : rateLimiter) k :
  clients (sweep now r) !! k = clients r !! k \/
  exists c, clients r !! k = Some c /\ stale now c = true /\ clients (sweep now r) !! k = None.
Proof.
  unfold sweep. destruct (rlTTL <? _); [|by left]. simpl.
  destruct (clients r !! k) as [c|] eqn:E.
  - destruct (stale now c) eqn:Es.
    + right. exists c. split; [done|]. split; [done|]. apply map_lookup_filter_None. right.
      intros c' E'. rewrite E in E'. injection E' as <-. simpl. by rewrite Es.
    + left. apply map_lookup_filter_Some. by rewrite E.
  - left. apply map_lookup_filter_None. by left.
Qed.

Lemma sweep_params now (r : rateLimiter) : rps (sweep now r) = rps r /\ burst (sweep now r) = burst r.
Proof. unfold sweep. by destruct (rlTTL <? _). Qed.

(** What eviction may forget: a client is absent from the map only when its
    bucket is full again. *)
Definition tracks (drift : Duration) (t : Time) (c : option rlClient) (l : option Limiter) (rps burst : Z) : Prop :=
  match c, l with
  | None, None => True
  | Some c, Some l =>
      exists s, lastSeen c <= s <= lastSeen c + drift /\ s <= t /\ used rps burst l s /\ same_from s (limiter c) l
  | None, Some l => exists s, used rps burst l s /\ s + (rlTTL - drift) <= t
  | Some _, None => False
  end.

Lemma tracks_later drift t t' c l x y : tracks drift t c l x y -> t <= t' -> tracks drift t' c l x y.
Proof.
  destruct c, l; simpl; try done.
  - intros (s & ? & ? & ? & ?) ?. exists s. split_and!; try done; lia.
  - intros (s & ? & ?) ?. exists s. split; [done|lia].
Qed.

(** One request: the limiter and its bucket that is never evicted agree. *)
Lemma tracks_Allow drift t t' now c l x y :
  drift <= rlTTL -> refills x y (rlTTL - drift) -> tracks drift t c l x y ->
  t <= now -> now <= t' <= now + drift ->
  let b := match c with Some c => limiter c | None => NewLimiter x y end in
  let b' := default (NewLimiter x y) l in
  (Allow t' b).1 = (Allow t' b').1
  /\ tracks drift t' (Some {| limiter := (Allow t' b).2; lastSeen := now |}) (Some (Allow t' b').2) x y.
Proof.
  intros Hle Hr Ht Hn Hd b b'.
  assert (exists s, s <= t' /\ same_from s b b') as (s & Hs & Hsame).
  { subst b b'. destruct c as [c|], l as [l|]; simpl in *; [|done|..].
    - destruct Ht as (s & ? & ? & ? & ?). exists s. split; [lia|done].
    - destruct Ht as (s & Hu & ?). exists t'. split; [done|]. apply same_from_sym. eapply Hr; [done|lia].
    - exists t'. split; [done|apply same_from_refl]. }
  destruct (same_from_Allow _ _ _ _ Hsame Hs) as [E1 E2]. split; [done|].
  exists t'. simpl. split; [lia|]. split; [lia|]. split; [|done].
  subst b'. destruct l as [l|]; simpl; [|constructor].
  destruct c as [c|]; simpl in Ht; [destruct Ht as (s' & ? & ? & ? & ?)|destruct Ht as (s' & ? & ?)].
  - eapply used_next; [done|lia].
  - eapply used_next; [done|lia].
Qed.

Lemma answers_buckets drift t x y (r : rateLimiter) (m : gmap string Limiter) l :
  drift <= rlTTL -> refills x y (rlTTL - drift) -> timely drift t l ->
  rps r = x -> burst r = y -> (forall k, tracks drift t (clients r !! k) (m !! k) x y) ->
  answers r l = bucket_answers x y m l.
Proof.
  intros Hle Hr. revert t r m. induction l as [|a l IH]; intros t r m Hl Ex Ey Ht; simpl; [done|].
  destruct Hl as (H1 & H2 & Hl). unfold allow. destruct (sweep_params (at_ a) r) as [Ep Eb].
  assert (forall k, tracks drift (at_ a) (clients (sweep (at_ a) r) !! k) (m !! k) x y) as Hs.
  { intros k. specialize (Ht k). destruct (sweep_lookup (at_ a) r k) as [->|(c & Ec & Hst%stale_spec & ->)].
    - by eapply tracks_later.
    - rewrite Ec in Ht. destruct (m !! k) as [b|]; simpl in *; [|done].
      destruct Ht as (s & ? & ? & Hu & _). exists s. split; [done|lia]. }
  destruct (tracks_Allow drift (at_ a) (at' a) (at_ a) _ _ x y Hle Hr (Hs (key a)) ltac:(lia) H2) as [E1 Hk].
  rewrite Ep, Eb, Ex, Ey. unfold bucket_of.
  destruct (Allow (at' a) (match clients (sweep (at_ a) r) !! key a with
    | Some c => limiter c | None => NewLimiter x y end)) as [ok b1],
    (Allow (at' a) (default _ (m !! key a))) as [ok' b2]. simpl in E1, Hk. subst ok'.
  f_equal. apply (IH (at' a)); [done..|]. intros k. simpl.
  destruct (decide (k = key a)) as [->|Hne].
  - by rewrite !lookup_insert_eq.
  - rewrite !lookup_insert_ne by done. eapply tracks_later; [apply Hs|lia].
Qed.

(** The arrivals of one client, and the answers they got. *)
Definition of_client (k : string) (a : arrival) : bool := String.eqb (key a) k.

Definition answers_of (k : string) (l : list arrival) (oks : list bool) : list bool :=
  map snd (List.filter (fun p => of_client k p.1) (zip l oks)).

Lemma bucket_answers_client x y k m l :
  answers_of k l (bucket_answers x y m l) = allows (bucket_of x y k m) (map at' (List.filter (of_client k) l)).
Proof.
  unfold answers_of. revert m. induction l as [|a l IH]; intros m; simpl; [done|].
  destruct (Allow (at' a) (bucket_of x y (key a) m)) as [ok b] eqn:Ea. simpl.
  destruct (of_client k a) eqn:Eo; simpl.
  - apply String.eqb_eq in Eo as <-. rewrite Ea. f_equal. rewrite IH. unfold bucket_of. by rewrite lookup_insert_eq.
  - apply String.eqb_neq in Eo. rewrite IH. unfold bucket_of. by rewrite lookup_insert_ne.
Qed.

(** What the middleware does to the state of the service behind it: a refused
    request does not reach it, and the others run as without the limit. *)
Lemma RateLimit_gate `{Platform} {D B} (next : M D (response B)) addr (w : world (limited D)) :
  exists ok r, allow (now_at (tick w)) (now_at (S (tick w))) (clientIP addr) (rl (data w)) = (ok, r) /\
  run (RateLimit next addr) w =
    if ok : bool then
      let '(resp, w') := run next (World (S (S (tick w))) (inner (data w))) in
      (resp, World (tick w') (Limited r (data w')))
    else (Error StatusTooManyRequests "rate limit exceeded",
          World (S (S (tick w))) (Limited r (inner (data w)))).
Proof.
  unfold RateLimit. rewrite run_bind. cbn [rl_allow run].
  destruct (allow _ _ _ _) as [ok r]. exists ok, r. split; [done|]. destruct ok; [|done].
  rewrite run_zoom. simpl. by destruct (run next _).
Qed.

End Spec.

(** ** A token bucket in thousand-millionths of a token *)

Module Bucket.
Record t := mk { rate : Z; size : Z; tokens : Z; last : Time }.

Definition New (rps burst : Z) : t := mk rps burst (burst * Second) 0.

Definition level (now : Time) (b : t) : Z :=
  Z.min (size b * Second) (tokens b + rate b * Z.max 0 (now - last b)).

Definition Allow (now : Time) (b : t) : bool * t :=
  if Second <=? level now b then (true, mk (rate b) (size b) (level now b - Second) now) else (false, b).
End Bucket.

#[export] Instance bucket_lib : RateLib :=
  {| Limiter := Bucket.t; NewLimiter := Bucket.New; Allow := Bucket.Allow |}.

Lemma bucket_used x y b t :
  0 <= x -> 0 <= y -> used x y b t ->
  Bucket.rate b = x /\ Bucket.size b = y /\ 0 <= Bucket.tokens b
  /\ (Bucket.last b <= t \/ Bucket.tokens b = y * Second).
Proof.
  intros Hx Hy Hu.
  assert (forall b t t', Bucket.rate b = x -> Bucket.size b = y -> 0 <= Bucket.tokens b -> t <= t' ->
    (Bucket.last b <= t \/ Bucket.tokens b = y * Second) ->
    let b' := (Bucket.Allow t' b).2 in
    Bucket.rate b' = x /\ Bucket.size b' = y /\ 0 <= Bucket.tokens b'
    /\ (Bucket.last b' <= t' \/ Bucket.tokens b' = y * Second)) as Hstep.
  { clear. intros b t t' Er Es Ht Hle Hl. unfold Bucket.Allow. destruct (Z.leb_spec Second (Bucket.level t' b)); simpl.
    - split_and!; [done..|lia|left; lia].
    - split_and!; [done..|]. destruct Hl; [left; lia|by right]. }
  induction Hu as [t|b t t' _ (Er & Es & Ht & Hl) Hle].
  - apply (Hstep (Bucket.New x y) t t); unfold Bucket.New, Second; simpl; [done..|lia|lia|by right].
  - by apply (Hstep b t t').
Qed.

(** A bucket that is idle for the time it takes to fill is like a new one. *)
Lemma bucket_refills x y idle :
  0 <= x -> 0 <= y -> 0 <= idle -> y * Second <= x * idle -> refills x y idle.
Proof.
  intros Hx Hy Hi Hfull b t t' Hu Hle.
  destruct (bucket_used x y b t Hx Hy Hu) as (Er & Es & Htok & Hl).
  assert (forall now, t' <= now -> Bucket.level now b = y * Second) as Hb.
  { intros now Hn. unfold Bucket.level. rewrite Er, Es. unfold Second in *. destruct Hl; nia. }
  assert (forall now, Bucket.level now (Bucket.New x y) = y * Second) as Hnew.
  { intros now. unfold Bucket.level, Bucket.New, Second. simpl. nia. }
  intros ts. revert t' Hle Hb. induction ts as [|now ts IH]; intros t' Hle Hb; simpl; [done|]. intros [Hn Hts].
  unfold Bucket.Allow. rewrite Hb, Hnew by done. simpl. destruct (Second <=? y * Second).
  - by rewrite Er, Es.
  - f_equal. apply (IH now); [lia| |done]. intros now' ?. apply Hb. lia.
Qed.

(** ** Properties *)

(** C27: the limit is one token bucket per client.  As long as the clock does not
    run backwards and a bucket fills up within the eviction time, the answers a
    client gets are those of its own bucket of the configured rate and size over
    its own requests: dropping the buckets of idle clients is invisible, and no
    client's traffic changes the answers of another. *)
Theorem RateLimit_per_client `{RateLib} (drift : Duration) (x y : Z) (t0 : Time) (l : list arrival) k :
  drift <= rlTTL -> refills x y (rlTTL - drift) -> timely drift t0 l ->
  answers_of k l (answers (new_rateLimiter x y t0) l)
  = allows (NewLimiter x y) (map at' (List.filter (of_client k) l)).
Proof.
  intros Hd Hr Ht. rewrite (answers_buckets drift t0 x y _ ∅ l Hd Hr Ht); [|done..|].
  - by rewrite bucket_answers_client.
  - intros k'. simpl. by rewrite !lookup_empty.
Qed.

(** Two clients at two requests per second and a burst of three, one of them
    evicted in between. *)
Lemma RateLimit_per_client_witness :
  let l := map (fun p : string * Z => Arrival p.1 (p.2 * Second) (p.2 * Second))
    [("a", 1); ("a", 1); ("b", 1); ("a", 1); ("a", 1); ("b", 700); ("b", 700); ("a", 701); ("a", 1500)] in
  let out := answers (new_rateLimiter 2 3 0) l in
  out = [true; true; true; true; false; true; true; true; true]
  /\ answers_of "a" l out = allows (Bucket.New 2 3) (map at' (List.filter (of_client "a") l)).
Proof.
  intros l out. split; [vm_compute; reflexivity|].
  apply (@RateLimit_per_client bucket_lib 0 2 3 0 l "a").
  - unfold rlTTL, Minute, Second. lia.
  - apply bucket_refills; unfold rlTTL, Minute, Second; lia.
  - subst l. cbn -[Z.mul Z.add]. unfold Second. lia.
Defined.

(** The bound matters: a bucket that never fills up (a rate of 0) is full again
    after it was evicted. *)
Lemma eviction_refills_slow_bucket :
  answers (new_rateLimiter 0 1 0) (map (fun t => Arrival "a" (t * Second) (t * Second)) [1; 2; 700])
    = [true; false; true]
  /\ allows (Bucket.New 0 1) (map (fun t => t * Second) [1; 2; 700]) = [true; false; false].
Proof. split; vm_compute; reflexivity. Qed.
