(* ===== verification/Metrics.v ===== *)
(** * Metrics and logging

    pkg/metrics (the request counters), the metrics of pkg/amqp and pkg/db, and
    pkg/logger.  The vectors of the Prometheus client are a parameter: a series
    for each value of the labels, that [Inc] (or one observation) adds one to. *)

From Stdlib Require Import QArith.
From S2P Require Import Prelude Effects Amqp.
Open Scope go_scope.
Open Scope Z_scope.

(** ** pkg/metrics *)

Class Vec (K : Type) := {
  vec : Type;
  Inc : K -> vec -> vec;
  value : K -> vec -> nat
}.
#[global] Arguments vec _ {_}.

(** Only the series with the labels gets one more. *)
Definition vec_law (K : Type) `{EqDecision K} `{Vec K} : Prop :=
  forall (k k' : K) (v : vec K), value k' (Inc k v) = ((if bool_decide (k = k') then 1 else 0) + value k' v)%nat.

(** service, method, path, status; and without the status. *)
Definition request_labels : Type := string * string * string * string.
Definition duration_labels : Type := string * string * string.

#[export] Instance request_labels_dec : EqDecision request_labels.
Proof. unfold request_labels. apply _. Defined.

Record registry `{Vec request_labels} `{Vec duration_labels} := Registry {
  requestsTotal : vec request_labels;
  requestDuration : vec duration_labels
}.

Definition unmatchedPath : string := "other".

(** [None] is a request without a chi context. *)
Definition routePattern (rctx : option string) : string :=
  match rctx with
  | Some p => if String.eqb p "" then unmatchedPath else p
  | None => unmatchedPath
  end.

(** The recorded status and the one the server has sent, if it has. *)
Record statusWriter := Writer { status : Z; sent : option Z }.

(** net/http sends the first final status; an informational one does not count. *)
Definition WriteHeader (code : Z) (sw : statusWriter) : statusWriter :=
  Writer code (match sent sw with
               | Some c => Some c
               | None => if (100 <=? code) && (code <=? 199) && negb (code =? 101) then None else Some code
               end).

(** Writing the body sends 200 when nothing was sent; it is not recorded. *)
Definition Write (sw : statusWriter) : statusWriter := Writer (status sw) (Some (default 200 (sent sw))).

Inductive action := CallWriteHeader (code : Z) | CallWrite.

Definition act (sw : statusWriter) (a : action) : statusWriter :=
  match a with CallWriteHeader code => WriteHeader code sw | CallWrite => Write sw end.

(** What the handlers behind the middleware do with a request: the pattern the
    router matched, the calls of the response writer, and whether they panic. *)
Record handled_request := Handled {
  Method : string;
  matched : option string;
  actions : list action;
  panics : bool
}.

Definition written (r : handled_request) : statusWriter := fold_left act (actions r) (Writer 200 None).

(** What the client gets when the handlers return: 200 when they wrote nothing. *)
Definition answered (r : handled_request) : Z := default 200 (sent (written r)).

Section Middleware.
Context `{Vec request_labels} `{Vec duration_labels}.

(** A panic leaves the middleware before the two counters. *)
Definition Middleware (service : string) (r : handled_request) (m : registry) : registry :=
  if panics r then m
  else
    let path := routePattern (matched r) in
    Registry _ _ (Inc ((service, Method r, path, Itoa (status (written r))) : request_labels) (requestsTotal m))
             (Inc ((service, Method r, path) : duration_labels) (requestDuration m)).

Definition serve_all (service : string) (rs : list handled_request) (m : registry) : registry :=
  fold_left (fun m r => Middleware service r m) rs m.

End Middleware.

(** ** pkg/amqp/metrics.go *)

Definition processed_result (o : outcome) : string :=
  match o with Ack => "ack" | Nack true => "requeue" | Nack false => "drop" end.

Definition publish_result (r : res unit) : string :=
  match r with Ok _ => "ok" | Err _ => "error" end.

(** ** pkg/db/metrics.go *)

Record Stat := {
  AcquiredConns : Z;
  IdleConns : Z;
  TotalConns : Z;
  MaxConns : Z;
  AcquireCount : Z;
  AcquireDuration : Duration
}.

(** The full name of a metric and its [service] label. *)
Definition Desc : Type := string * string.

Record poolCollector := Collector {
  acquired : Desc;
  idle : Desc;
  total : Desc;
  maxConns : Desc;
  acquires : Desc;
  waitSecs : Desc
}.

Definition newPoolCollector (service : string) : poolCollector :=
  let d name := ("db_pool_" +:+ name, service) in
  Collector (d "acquired_conns") (d "idle_conns") (d "total_conns") (d "max_conns")
    (d "acquire_count_total") (d "acquire_wait_seconds_total").

Definition Describe (c : poolCollector) : list Desc :=
  [acquired c; idle c; total c; maxConns c; acquires c; waitSecs c].

Inductive ValueType := GaugeValue | CounterValue.

(** The values before they are rounded to [float64]. *)
Definition Collect (c : poolCollector) (s : Stat) : list (Desc * ValueType * Q) :=
  [(acquired c, GaugeValue, inject_Z (AcquiredConns s));
   (idle c, GaugeValue, inject_Z (IdleConns s));
   (total c, GaugeValue, inject_Z (TotalConns s));
   (maxConns c, GaugeValue, inject_Z (MaxConns s));
   (acquires c, CounterValue, inject_Z (AcquireCount s));
   (waitSecs c, CounterValue, AcquireDuration s # 1000000000)].

(** ** pkg/logger *)

Inductive Level := LevelDebug | LevelInfo | LevelWarn | LevelError.

Definition level_of (level : string) : Level :=
  let l := ToLower level in
  if String.eqb l "debug" then LevelDebug
  else if String.eqb l "warn" then LevelWarn
  else if String.eqb l "error" then LevelError
  else LevelInfo.

(** [logger.With("service", service)]. *)
Definition logger_attrs (service : string) : list (string * string) :=
  if String.eqb service "" then [] else [("service", service)].

(** The attributes of a record after [contextHandler.Handle]; [reqID] is what chi
    has in the context. *)
Definition Handle (reqID : string) (attrs : list (string * string)) : list (string * string) :=
  if String.eqb reqID "" then attrs else attrs ++ [("request_id", reqID)].

(** ** Lemmas *)

Definition label (service : string) (r : handled_request) : request_labels :=
  (service, Method r, routePattern (matched r), Itoa (status (written r))).

(** Handlers that set the status once, before the body: the recorded status is
    the one the client gets. *)
Lemma status_recorded r :
  (exists code body, actions r = CallWriteHeader code :: replicate body CallWrite /\ 200 <= code)
  \/ (exists body, actions r = replicate body CallWrite) ->
  status (written r) = answered r.
Proof.
  assert (forall n sw, status sw = default 200 (sent sw) ->
    let sw' := fold_left act (replicate n CallWrite) sw in status sw' = default 200 (sent sw')) as Hbody.
  { induction n as [|n IH]; intros sw E; [done|]. apply IH. simpl. done. }
  unfold answered, written. intros [(code & n & -> & Hc)|(n & ->)].
  - apply (Hbody n). simpl. replace (code <=? 199) with false by (symmetry; apply Z.leb_gt; lia). by rewrite andb_false_r.
  - by apply (Hbody n).
Qed.

(** Only patterns of the router and [unmatchedPath] are path labels. *)
Lemma paths_bounded service r patterns :
  (forall p, matched r = Some p -> p ∈ patterns) -> (label service r).1.2 ∈ unmatchedPath :: patterns.
Proof.
  intros Hr. unfold label, routePattern. simpl. destruct (matched r) as [p|]; [|by left].
  destruct (String.eqb p ""); [by left|right]. by apply Hr.
Qed.

Section Counting.
Context `{Vec request_labels} `{Vec duration_labels}.
Hypothesis Hvec : vec_law request_labels.

(** A series counts the requests with its labels that did not panic. *)
Lemma requests_counted service rs m k :
  value k (requestsTotal (serve_all service rs m)) =
    (length (List.filter (fun r => negb (panics r) && bool_decide (label service r = k)) rs)
     + value k (requestsTotal m))%nat.
Proof.
  revert m. induction rs as [|r rs IH]; intros m; [done|]. cbn [serve_all fold_left List.filter].
  fold (serve_all service rs (Middleware service r m)). rewrite IH. unfold Middleware.
  destruct (panics r); [done|]. cbn [negb andb requestsTotal]. rewrite Hvec. fold (label service r).
  destruct (bool_decide _); simpl; lia.
Qed.

(** A request whose handler panics is answered by the recoverer in front of the
    middleware and counted nowhere. *)
Lemma panic_uncounted service r m : panics r = true -> Middleware service r m = m.
Proof. unfold Middleware. by intros ->. Qed.

(** The method is not folded: any number of series for unmatched requests. *)
Lemma methods_unbounded service n m :
  exists rs, length rs = n /\ (forall r, r ∈ rs -> matched r = None)
    /\ NoDup (map (label service) rs)
    /\ forall r, r ∈ rs -> (1 <= value (label service r) (requestsTotal (serve_all service rs m)))%nat.
Proof.
  set (req (i : nat) := Handled (pretty i) None [CallWriteHeader 405] false).
  exists (map req (seq 0 n)). split; [by rewrite length_map, length_seq|]. split.
  { by intros r (i & -> & _)%list_elem_of_fmap. }
  split.
  - rewrite map_map. assert (Inj eq eq (fun i => label service (req i))) as Hinj.
    { intros i j E. unfold label in E. cbn in E. apply (inj pretty). congruence. }
    apply (NoDup_fmap_2 _), NoDup_seq.
  - intros r Hr. rewrite requests_counted.
    destruct (List.filter _ _) as [|x l] eqn:El; [|simpl; lia]. exfalso.
    assert (In r (List.filter (fun r' => negb (panics r') && bool_decide (label service r' = label service r))
      (map req (seq 0 n)))) as Hin; [|by rewrite El in Hin].
    apply filter_In. split; [by apply list_elem_of_In|]. rewrite bool_decide_eq_true_2 by done.
    by apply list_elem_of_fmap in Hr as (i & -> & _).
Qed.

End Counting.
