(* ===== verification/Redis.v ===== *)
(** * Redis as the services use it

    One keyspace of strings and hashes with expiry.  Every command is one external
    call. *)

From S2P Require Import Prelude Effects.
Open Scope go_scope.

Inductive rvalue :=
| RStr (s : string)
| RHash (h : gmap string string).

(** Values with the instant they expire at, if any. *)
Abbreviation redis := (gmap string (rvalue * option Time)).

Definition live (now : Time) (e : rvalue * option Time) : bool :=
  match e.2 with None => true | Some t => now <? t end.

(** What a command at [now] finds under a key. *)
Definition lookup_live (now : Time) (k : string) (st : redis) : option (rvalue * option Time) :=
  match st !! k with
  | Some e => if live now e then Some e else None
  | None => None
  end.

Definition wrong_type : err := ErrNew "WRONGTYPE Operation against a key holding the wrong kind of value".

(** [redis.Nil]. *)
Definition redis_Nil : err := ErrNew "redis: nil".

(** The part of a service's world that is in Redis. *)
Class Redis (D : Type) := {
  rds : D -> redis;
  set_rds : redis -> D -> D;
  rds_set_rds : forall r d, rds (set_rds r d) = r;
  set_rds_rds : forall d, set_rds (rds d) d = d;
  set_rds_set_rds : forall r r' d, set_rds r (set_rds r' d) = set_rds r d
}.

Section Commands.
Context `{Platform} {D : Type} `{Redis D}.

Definition rcall {A} (f : Time -> redis -> res (A * redis)) : M D (res A) :=
  call (fun now _ d => match f now (rds d) with Ok (a, r) => Ok (a, set_rds r d) | Err e => Err e end).

(** [SET key val PX ttl NX], [SETNX] when the ttl is 0. *)
Definition setnx (ttl : Duration) (k v : string) (now : Time) (st : redis) : res (bool * redis) :=
  if ttl <? 0 then Err (ErrNew "ERR invalid expire time in 'set' command")
  else match lookup_live now k st with
  | Some _ => Ok (false, st)
  | None => Ok (true, <[k := (RStr v, if ttl =? 0 then None else Some (Add now ttl))]> st)
  end.

Definition SetNX (k v : string) (ttl : Duration) : M D (res bool) := rcall (setnx ttl k v).

Definition Del (k : string) : M D (res unit) := rcall (fun _ st => Ok (tt, delete k st)).

Definition HGet (k f : string) : M D (res string) :=
  rcall (fun now st =>
    match lookup_live now k st with
    | Some (RHash h, _) => match h !! f with Some v => Ok (v, st) | None => Err redis_Nil end
    | Some (RStr _, _) => Err wrong_type
    | None => Err redis_Nil
    end).

Definition HSet (k f v : string) : M D (res unit) :=
  rcall (fun now st =>
    match lookup_live now k st with
    | Some (RHash h, e) => Ok (tt, <[k := (RHash (<[f := v]> h), e)]> st)
    | Some (RStr _, _) => Err wrong_type
    | None => Ok (tt, <[k := (RHash {[ f := v ]}, None)]> st)
    end).

(** The commands of a pipeline run in order, and other clients may run between
    them; [Exec] reports the first error. *)
Fixpoint pipeline {A} (cmds : list (M D (res A))) : M D (list (res A)) :=
  match cmds with
  | [] => Ret []
  | c :: cmds =>
      let! r := c in
      let! rs := pipeline cmds in
      Ret (r :: rs)
  end.

Fixpoint first_error {A} (rs : list (res A)) : res (list A) :=
  match rs with
  | [] => Ok []
  | Ok a :: rs => match first_error rs with Ok l => Ok (a :: l) | Err e => Err e end
  | Err e :: _ => Err e
  end.

End Commands.
