(* ===== verification/Ingestion.v ===== *)
(** * Ingestion: normalization, deduplication, audit and publishing of alerts

    services/ingestion/internal: handler/, dedup/, store/, publisher/,
    middleware/tenant.go and tokenstore/.  Logs and metrics are left out; the
    key columns no query reads (the id of a raw alert) too. *)

From S2P Require Import Prelude Effects Sha256 Json Events Interleaving Amqp Http Redis.
Open Scope go_scope.

(** ** State *)

Module RawAlert.
Record t := mk {
  TenantID : string;
  Fingerprint : string;
  Source : string;
  Payload : json;
  Deduplicated : bool;
  ReceivedAt : Time
}.
End RawAlert.

Record db := Db {
  cache : redis;
  raw_alerts : list RawAlert.t;
  broker : netstate
}.

#[export] Instance db_Broker : Broker db :=
  {| net := broker;
     set_net n d := Db (cache d) (raw_alerts d) n;
     net_set_net _ _ := eq_refl;
     set_net_net d := match d with Db _ _ _ => eq_refl end;
     set_net_set_net _ _ _ := eq_refl |}.

#[export] Instance db_Redis : Redis db :=
  {| rds := cache;
     set_rds r d := Db r (raw_alerts d) (broker d);
     rds_set_rds _ _ := eq_refl;
     set_rds_rds d := match d with Db _ _ _ => eq_refl end;
     set_rds_set_rds _ _ _ := eq_refl |}.

Local Abbreviation Prog A := (M db A).

(** ** handler/normalize.go *)

Definition computeFingerprint (a : Alert.t) : string :=
  let keys := sort_Strings (map fst (map_to_list (Alert.Labels a))) in
  let b := concat_str (map (fun k => k +:+ "=" +:+ map_get (Alert.Labels a) k +:+ ",") keys) in
  sha256_hex (b +:+ "source=" +:+ Alert.Source a +:+ ",tenant=" +:+ Alert.TenantID a).

Definition mapSeverity (s : string) : string :=
  let s := ToLower s in
  if String.eqb s "critical" then SeverityCritical
  else if String.eqb s "high" then SeverityHigh
  else if String.eqb s "warning" || String.eqb s "warn" then SeverityWarning
  else SeverityInfo.

(** ** handler/alertmanager.go *)

Module amAlert.
Record t := mk {
  Status : string;
  Labels : gmap string string;
  Annotations : gmap string string;
  StartsAt : Time;
  EndsAt : Time
}.

Definition zero : t := mk "" ∅ ∅ Alert.zero_time Alert.zero_time.

Definition json_fields `{TimeText} : fields t := [
  field "status" Status (fun v a => mk v (Labels a) (Annotations a) (StartsAt a) (EndsAt a)) dec_string;
  field "labels" Labels (fun v a => mk (Status a) v (Annotations a) (StartsAt a) (EndsAt a)) dec_map;
  field "annotations" Annotations (fun v a => mk (Status a) (Labels a) v (StartsAt a) (EndsAt a)) dec_map;
  field "startsAt" StartsAt (fun v a => mk (Status a) (Labels a) (Annotations a) v (EndsAt a)) dec_time;
  field "endsAt" EndsAt (fun v a => mk (Status a) (Labels a) (Annotations a) (StartsAt a) v) dec_time].
End amAlert.

Module amPayload.
Record t := mk {
  Version : string;
  Status : string;
  GroupLabels : gmap string string;
  CommonLabels : gmap string string;
  CommonAnnotations : gmap string string;
  Alerts : list amAlert.t
}.

Definition zero : t := mk "" "" ∅ ∅ ∅ [].

Definition json_fields `{TimeText} : fields t := [
  field "version" Version (fun v a => mk v (Status a) (GroupLabels a) (CommonLabels a) (CommonAnnotations a) (Alerts a)) dec_string;
  field "status" Status (fun v a => mk (Version a) v (GroupLabels a) (CommonLabels a) (CommonAnnotations a) (Alerts a)) dec_string;
  field "groupLabels" GroupLabels (fun v a => mk (Version a) (Status a) v (CommonLabels a) (CommonAnnotations a) (Alerts a)) dec_map;
  field "commonLabels" CommonLabels (fun v a => mk (Version a) (Status a) (GroupLabels a) v (CommonAnnotations a) (Alerts a)) dec_map;
  field "commonAnnotations" CommonAnnotations (fun v a => mk (Version a) (Status a) (GroupLabels a) (CommonLabels a) v (Alerts a)) dec_map;
  field "alerts" Alerts (fun v a => mk (Version a) (Status a) (GroupLabels a) (CommonLabels a) (CommonAnnotations a) v)
    (dec_slice amAlert.zero (dec_struct amAlert.json_fields))].
End amPayload.

Definition amStatus (s : string) : string :=
  if String.eqb s "resolved" then AlertStatusResolved else AlertStatusFiring.

(** The canonical alert of one entry, with its fingerprint. *)
Definition with_fingerprint (a : Alert.t) : Alert.t :=
  Alert.mk (computeFingerprint a) (Alert.Source a) (Alert.Severity a) (Alert.Title a) (Alert.Description a)
    (Alert.Labels a) (Alert.Status a) (Alert.FiredAt a) (Alert.ReceivedAt a) (Alert.TenantID a).

Definition normalize_am (tenantID : string) (receivedAt : Time) (a : amAlert.t) : Alert.t :=
  let title := if String.eqb (map_get (amAlert.Annotations a) "summary") ""
               then map_get (amAlert.Labels a) "alertname" else map_get (amAlert.Annotations a) "summary" in
  with_fingerprint (Alert.mk "" SourceAlertmanager (mapSeverity (map_get (amAlert.Labels a) "severity")) title
    (map_get (amAlert.Annotations a) "description") (amAlert.Labels a) (amStatus (amAlert.Status a))
    (amAlert.StartsAt a) receivedAt tenantID).

Definition NormalizeAlertmanager `{TimeText} (body : option json) (tenantID : string) (receivedAt : Time)
    : res (list Alert.t) :=
  match Decode (dec_struct amPayload.json_fields) body amPayload.zero with
  | Err e => Err (Wrap "alertmanager: unmarshal" e)
  | Ok p => Ok (map (normalize_am tenantID receivedAt) (amPayload.Alerts p))
  end.

(** ** handler/grafana.go *)

Module grafanaPayload.
Record t := mk {
  Title : string;
  RuleName : string;
  RuleID : Z;
  State : string;
  OrgID : Z;
  DashID : Z;
  PanelID : Z;
  Tags : gmap string string;
  Message : string
}.

Definition zero : t := mk "" "" 0 "" 0 0 0 ∅ "".

Definition json_fields : fields t := [
  field "title" Title (fun v a => mk v (RuleName a) (RuleID a) (State a) (OrgID a) (DashID a) (PanelID a) (Tags a) (Message a)) dec_string;
  field "ruleName" RuleName (fun v a => mk (Title a) v (RuleID a) (State a) (OrgID a) (DashID a) (PanelID a) (Tags a) (Message a)) dec_string;
  field "ruleId" RuleID (fun v a => mk (Title a) (RuleName a) v (State a) (OrgID a) (DashID a) (PanelID a) (Tags a) (Message a)) dec_int;
  field "state" State (fun v a => mk (Title a) (RuleName a) (RuleID a) v (OrgID a) (DashID a) (PanelID a) (Tags a) (Message a)) dec_string;
  field "orgId" OrgID (fun v a => mk (Title a) (RuleName a) (RuleID a) (State a) v (DashID a) (PanelID a) (Tags a) (Message a)) dec_int;
  field "dashboardId" DashID (fun v a => mk (Title a) (RuleName a) (RuleID a) (State a) (OrgID a) v (PanelID a) (Tags a) (Message a)) dec_int;
  field "panelId" PanelID (fun v a => mk (Title a) (RuleName a) (RuleID a) (State a) (OrgID a) (DashID a) v (Tags a) (Message a)) dec_int;
  field "tags" Tags (fun v a => mk (Title a) (RuleName a) (RuleID a) (State a) (OrgID a) (DashID a) (PanelID a) v (Message a)) dec_map;
  field "message" Message (fun v a => mk (Title a) (RuleName a) (RuleID a) (State a) (OrgID a) (DashID a) (PanelID a) (Tags a) v) dec_string].
End grafanaPayload.

Definition grafanaStatus (state : string) : string :=
  if String.eqb state "ok" || String.eqb state "paused" then AlertStatusResolved else AlertStatusFiring.

Definition grafana_labels (p : grafanaPayload.t) : gmap string string :=
  let labels := grafanaPayload.Tags p in
  let labels := if String.eqb (grafanaPayload.RuleName p) "" then labels
                else <["alertname" := grafanaPayload.RuleName p]> labels in
  let labels := if grafanaPayload.DashID p =? 0 then labels
                else <["grafana_dashboard_id" := Itoa (grafanaPayload.DashID p)]> labels in
  if grafanaPayload.PanelID p =? 0 then labels
  else <["grafana_panel_id" := Itoa (grafanaPayload.PanelID p)]> labels.

Definition NormalizeGrafana (body : option json) (tenantID : string) (receivedAt : Time) : res (list Alert.t) :=
  match Decode (dec_struct grafanaPayload.json_fields) body grafanaPayload.zero with
  | Err e => Err (Wrap "grafana: unmarshal" e)
  | Ok p =>
      let labels := grafana_labels p in
      let title := if String.eqb (grafanaPayload.RuleName p) "" then grafanaPayload.Title p
                   else grafanaPayload.RuleName p in
      Ok [with_fingerprint (Alert.mk "" SourceGrafana (mapSeverity (map_get labels "severity")) title
            (grafanaPayload.Message p) labels (grafanaStatus (grafanaPayload.State p)) receivedAt receivedAt tenantID)]
  end.

(** ** Request bodies *)

(** The body of a request: its length in bytes, its value ([None] when it is not
    JSON), and whether the connection breaks while it is read. *)
Record upload := Upload { Size : Z; Contents : option json; Broken : bool }.

Definition maxBody : Z := Z.shiftl 4 20.

(** [http.MaxBytesReader] refuses the byte after the limit. *)
Definition readBody (r : upload) : option (option json) :=
  if Broken r || (maxBody <? Size r) then None else Some (Contents r).

Lemma readBody_whole r j : readBody r = Some j -> j = Contents r.
Proof. unfold readBody. destruct (_ || _); [done|]. by intros [= <-]. Qed.

Section Service.
Context `{Platform} `{TimeText}.

(** ** dedup/dedup.go and dedup/redis.go *)

(** [d.ttl]. *)
Variable ttl : Duration.

Definition redisKey (alert : Alert.t) : string := "oncall:dedup:" +:+ Alert.Fingerprint alert.

Definition IsDuplicate (alert : Alert.t) : Prog (res bool) :=
  let? set := SetNX (redisKey alert) "1" ttl wrap "dedup: setnx" in
  Ret (Ok (negb set)).

Definition Clear (alert : Alert.t) : Prog (res unit) := Del (redisKey alert).

(** RedisCache.Apply: one pipeline. *)
Definition Apply (setKeys : list string) (val : string) (delKeys : list string) : Prog (res (list bool)) :=
  match setKeys, delKeys with
  | [], [] => Ret (Ok [])
  | _, _ =>
      let! sets := pipeline (map (fun k => SetNX k val ttl) setKeys) in
      let! dels := pipeline (map Del delKeys) in
      Ret (match first_error sets, first_error dels with
           | Err e, _ => Err e
           | _, Err e => Err e
           | Ok out, Ok _ => Ok out
           end)
  end.

Definition is_resolved (alert : Alert.t) : bool := String.eqb (Alert.Status alert) AlertStatusResolved.

(** [dup\[setIdx\[j\]\] = !set\[j\]]: the answers go to the firing alerts in order. *)
Fixpoint mark_dups (alerts : list Alert.t) (set : list bool) : list bool :=
  match alerts with
  | [] => []
  | a :: alerts =>
      if is_resolved a then false :: mark_dups alerts set
      else match set with
           | ok :: set => negb ok :: mark_dups alerts set
           | [] => false :: mark_dups alerts []
           end
  end.

Definition Classify (alerts : list Alert.t) : Prog (res (list bool)) :=
  match alerts with
  | [] => Ret (Ok [])
  | _ =>
      let setKeys := map redisKey (List.filter (fun a => negb (is_resolved a)) alerts) in
      let delKeys := map redisKey (List.filter is_resolved alerts) in
      let? set := Apply setKeys "1" delKeys wrap "dedup: classify batch" in
      Ret (Ok (mark_dups alerts set))
  end.

(** ** store/store.go: one batch, an implicit transaction *)

Definition SaveRawAlerts (items : list (Alert.t * json * bool)) : Prog (res unit) :=
  match items with
  | [] => Ret (Ok tt)
  | _ =>
      sql Pool [] (fun now _ d =>
        Ok (tt, Db (cache d)
                  (raw_alerts d ++ map (fun it => RawAlert.mk (Alert.TenantID it.1.1) (Alert.Fingerprint it.1.1)
                     (Alert.Source it.1.1) it.1.2 it.2 now) items)
                  (broker d)))
  end.

(** ** publisher/publisher.go *)

#[local] Instance RawMessage_Payload : Events.Payload json :=
  {| payload_zero := JNull; payload_encode := Some; payload_decode j _ := Some j |}.

Definition PublishAlertPayload (tenantID : string) (payload : json) : Prog (res unit) :=
  let? body := Envelope.Wrap RoutingKeyAlertReceived tenantID payload wrap "publisher: wrap" in
  Publish ExchangeAlerts RoutingKeyAlertReceived body.

(** ** handler/handler.go *)

(** The last loop: the first failure releases the key of its alert and stops. *)
Fixpoint publish_alerts (items : list (Alert.t * json * bool)) : Prog (res unit) :=
  match items with
  | [] => Ret (Ok tt)
  | (alert, payload, dup) :: items =>
      if dup : bool then publish_alerts items
      else
        let! r := PublishAlertPayload (Alert.TenantID alert) payload in
        match r with
        | Err e => let! _ := Clear alert in Ret (Err e)
        | Ok _ => publish_alerts items
        end
  end.

Definition processAlerts (alerts : list Alert.t) : Prog (res unit) :=
  match alerts with
  | [] => Ret (Ok tt)
  | _ =>
      match mapM Alert.encode alerts with
      | None => Ret (Err (ErrNew "json: error calling MarshalJSON for type time.Time"))
      | Some payloads =>
          let! r := Classify alerts in
          let dup := match r with Ok dup => dup | Err _ => map (fun _ => false) alerts end in
          let items := zip (zip alerts payloads) dup in
          let! _ := SaveRawAlerts items in
          publish_alerts items
      end
  end.

Definition handle_webhook (normalize : option json -> string -> Time -> res (list Alert.t)) (invalid : string)
    (tenant : string) (r : upload) : Prog (response unit) :=
  match readBody r with
  | None => Ret (Error StatusBadRequest "failed to read body")
  | Some body =>
      let! now := time_Now in
      match normalize body tenant now with
      | Err _ => Ret (Error StatusBadRequest invalid)
      | Ok alerts =>
          let! r := processAlerts alerts in
          Ret (match r with
               | Err _ => Error StatusServiceUnavailable "failed to process alerts"
               | Ok _ => NoBody StatusOK
               end)
      end
  end.

Definition HandleAlertmanager (tenant : string) (r : upload) : Prog (response unit) :=
  handle_webhook NormalizeAlertmanager "invalid alertmanager payload" tenant r.

Definition HandleGrafana (tenant : string) (r : upload) : Prog (response unit) :=
  handle_webhook NormalizeGrafana "invalid grafana payload" tenant r.

(** ** tokenstore/tokenstore.go and middleware/tenant.go *)

Definition GetTenantID (tokenHash : string) : Prog (res string) :=
  let! r := HGet ("oncall:tokens:" +:+ tokenHash) "tenant_id" in
  Ret (match r with
       | Err e => if bool_decide (e = redis_Nil) then Ok EmptyString else Err e
       | Ok val => Ok val
       end).

Definition Tenant (next : string -> Prog (response unit)) (token : string) : Prog (response unit) :=
  if String.eqb token "" then Ret (Error StatusUnauthorized "missing X-Webhook-Token")
  else
    let! r := GetTenantID (sha256_hex token) in
    match r with
    | Err _ => Ret (Error StatusUnauthorized "invalid token")
    | Ok tenantID =>
        if String.eqb tenantID "" then Ret (Error StatusUnauthorized "invalid token") else next tenantID
    end.

(** The two routes behind the token check. *)
Inductive webhook := WAlertmanager | WGrafana.

Definition serve (wh : webhook) (token : string) (r : upload) : Prog (response unit) :=
  Tenant (fun tenant =>
    match wh with WAlertmanager => HandleAlertmanager tenant r | WGrafana => HandleGrafana tenant r end) token.

End Service.
