(* ===== verification/IngestionProps.v ===== *)
(** * Ingestion: what a webhook guarantees *)

From S2P Require Import Prelude Effects Sha256 Json Events Interleaving Amqp Messages Http Redis Ingestion.
Open Scope go_scope.

(** ** Specification *)

(** The message of an alert on the bus. *)
Definition carries `{TimeText} (a : Alert.t) (m : message) : Prop :=
  exists id now payload j, Alert.encode a = Some payload
    /\ Envelope.encode (Envelope.mk id Envelope.envelopeVersion RoutingKeyAlertReceived (Alert.TenantID a) now (Some payload)) = Some j
    /\ m = Message ExchangeAlerts RoutingKeyAlertReceived j.

(** One to three copies of the message of each alert, in order. *)
Inductive in_order `{TimeText} : list Alert.t -> list message -> Prop :=
| in_order_nil : in_order [] []
| in_order_cons a m k l ms :
    carries a m -> (1 <= k <= 3)%nat -> in_order l ms -> in_order (a :: l) (replicate k m ++ ms).

(** At most three copies of the message of one alert. *)
Definition copies_of `{TimeText} (a : Alert.t) (ms : list message) : Prop :=
  exists k, (k <= 3)%nat /\ length ms = k /\ forall m m', m ∈ ms -> m' ∈ ms -> carries a m /\ m' = m.

(** An alert is suppressed only when it is firing and its key is known already:
    from an earlier webhook, or from an earlier alert of the batch that is not
    suppressed itself. *)
Fixpoint justified (seen : gset string) (alerts : list Alert.t) (dup : list bool) : Prop :=
  match alerts, dup with
  | [], [] => True
  | a :: alerts, b :: dup =>
      (b = true -> is_resolved a = false /\ redisKey a ∈ seen) /\
      justified (if is_resolved a || b then seen else {[ redisKey a ]} ∪ seen) alerts dup
  | _, _ => False
  end.

(** The alerts that are not suppressed. *)
Definition kept (alerts : list Alert.t) (dup : list bool) : list Alert.t :=
  map fst (List.filter (fun p => negb p.2) (zip alerts dup)).

(** ** Lemmas *)

(** The same for the answers of the SETNX commands. *)
Fixpoint justified_set (seen : gset string) (keys : list string) (set : list bool) : Prop :=
  match keys, set with
  | [], [] => True
  | k :: keys, ok :: set => (ok = false -> k ∈ seen) /\ justified_set ({[ k ]} ∪ seen) keys set
  | _, _ => False
  end.

Lemma justified_set_mono seen seen' keys set :
  seen ⊆ seen' -> justified_set seen keys set -> justified_set seen' keys set.
Proof.
  revert seen seen' set. induction keys as [|k keys IH]; intros seen seen' [|ok set] Hs; simpl; [done..|].
  intros [Hk Hr]. split; [intros E; by apply Hs, Hk|]. eapply IH; [|exact Hr]. by apply union_mono_l.
Qed.

Lemma mark_dups_justified seen alerts set :
  justified_set seen (map redisKey (List.filter (fun a => negb (is_resolved a)) alerts)) set ->
  justified seen alerts (mark_dups alerts set).
Proof.
  revert seen set. induction alerts as [|a alerts IH]; intros seen set; simpl; [done|].
  destruct (is_resolved a) eqn:Er; simpl.
  - intros Hs. split; [done|]. by apply IH.
  - destruct set as [|ok set]; simpl; [done|]. intros [Hk Hs]. destruct ok; simpl.
    + split; [done|]. by apply IH.
    + split; [split; [done|by apply Hk]|]. apply IH. eapply justified_set_mono; [|exact Hs].
      apply union_subseteq. split; [by apply singleton_subseteq_l, Hk|done].
Qed.

Lemma justified_none seen alerts : justified seen alerts (map (fun _ => false) alerts).
Proof.
  revert seen. induction alerts as [|a alerts IH]; intros seen; simpl; [done|]. split; [done|apply IH].
Qed.

Section Classification.
Context `{Platform} `{TimeText}.
Variable ttl : Duration.

(** A SETNX adds at most its key, and says no only to a key that is there. *)
Lemma SetNX_step k v (w : world db) r w' :
  run (SetNX k v ttl) w = (r, w') ->
  broker (data w') = broker (data w) /\
  dom (cache (data w')) ⊆ {[ k ]} ∪ dom (cache (data w)) /\ (r = Ok false -> k ∈ dom (cache (data w))).
Proof.
  unfold SetNX, rcall, setnx, lookup_live. simpl.
  destruct (fault_at (tick w)) as [[e|e]|]; [intros [= <- <-]; set_solver|..];
    (destruct (ttl <? 0); [intros [= <- <-]; set_solver|]);
    destruct (cache (data w) !! k) as [x|] eqn:El; try destruct (live _ x);
    intros [= <- <-]; simpl; rewrite ?dom_insert_L;
    (split; [done|]); (split; [set_solver|]); try done; intros _; by eapply elem_of_dom_2.
Qed.

Lemma setnx_pipeline keys v (w : world db) rs w' :
  run (pipeline (map (fun k => SetNX k v ttl) keys)) w = (rs, w') ->
  broker (data w') = broker (data w) /\
  forall set, first_error rs = Ok set -> justified_set (dom (cache (data w))) keys set.
Proof.
  revert w rs w'. induction keys as [|k keys IH]; intros w rs w'; cbn [map pipeline].
  - intros [= <- <-]. split; [done|]. by intros set [= <-].
  - rewrite run_bind. destruct (run (SetNX k v ttl) w) as [r w1] eqn:E1. rewrite run_bind.
    destruct (run (pipeline _) w1) as [rs1 w2] eqn:E2. intros [= <- <-].
    destruct (SetNX_step _ _ _ _ _ E1) as (Hb & Hd & Hf). destruct (IH _ _ _ E2) as [Hb2 IH2].
    split; [congruence|]. intros set. simpl. destruct r as [ok|e]; [|done].
    destruct (first_error rs1) as [set1|e]; [|done]. intros [= <-]. split; [intros ->; by apply Hf|].
    eapply justified_set_mono; [exact Hd|]. by apply IH2.
Qed.

Lemma del_pipeline keys (w : world db) rs w' :
  run (pipeline (map Del keys)) w = (rs, w') -> broker (data w') = broker (data w).
Proof.
  revert w rs w'. induction keys as [|k keys IH]; intros w rs w'; cbn [map pipeline].
  - by intros [= <- <-].
  - rewrite run_bind. destruct (run (Del k) w) as [r w1] eqn:E1. rewrite run_bind.
    destruct (run (pipeline _) w1) as [rs1 w2] eqn:E2. intros [= <- <-].
    rewrite (IH _ _ _ E2). revert E1. unfold Del, rcall. simpl.
    destruct (fault_at (tick w)) as [[e|e]|]; by intros [= <- <-].
Qed.

(** Whatever the faults, a classification is justified and publishes nothing. *)
Lemma Classify_justified alerts (w : world db) r w' :
  run (Classify ttl alerts) w = (r, w') ->
  broker (data w') = broker (data w) /\
  justified (dom (cache (data w))) alerts
    (match r with Ok dup => dup | Err _ => map (fun _ => false) alerts end).
Proof.
  unfold Classify. destruct alerts as [|a0 alerts0]; [by intros [= <- <-]|].
  set (alerts := a0 :: alerts0). set (sk := map redisKey (List.filter _ alerts)).
  set (dk := map redisKey (List.filter is_resolved alerts)).
  rewrite run_bind. destruct (run (Apply ttl sk "1" dk) w) as [r1 w1] eqn:E1.
  assert (broker (data w1) = broker (data w) /\
    forall set, r1 = Ok set -> justified_set (dom (cache (data w))) sk set) as [Hb Hs].
  { revert E1. unfold Apply. destruct sk as [|k sk]; [destruct dk as [|k dk]|].
    - intros [= <- <-]. split; [done|]. by intros set [= <-].
    - rewrite run_bind. change (run (pipeline (map (fun k => SetNX k "1" ttl) [])) w) with (@nil (res bool), w).
      cbv beta iota. rewrite run_bind.
      destruct (run (pipeline (map Del (k :: dk))) w) as [ds w2] eqn:E2. apply del_pipeline in E2. intros [= <- <-].
      split; [done|]. simpl. intros set. destruct (first_error ds); [|done]. by intros [= <-].
    - rewrite run_bind. destruct (run (pipeline (map (fun k => SetNX k "1" ttl) (k :: sk))) w) as [rs w2] eqn:E2.
      apply setnx_pipeline in E2 as [Hb Hj]. rewrite run_bind.
      destruct (run (pipeline (map Del dk)) w2) as [ds w3] eqn:E3. apply del_pipeline in E3. intros [= <- <-].
      split; [congruence|]. intros set. destruct (first_error rs) as [s|]; [|done].
      destruct (first_error ds); [|done]. intros [= ->]. by apply Hj. }
  destruct r1 as [set|e]; intros [= <- <-]; (split; [done|]); [|apply justified_none].
  apply (mark_dups_justified (dom (cache (data w))) alerts set). by apply Hs.
Qed.

Lemma justified_length seen alerts dup : justified seen alerts dup -> length dup = length alerts.
Proof.
  revert seen dup. induction alerts as [|a alerts IH]; intros seen [|b dup]; simpl; try done.
  intros [_ Hj]. f_equal. by eapply IH.
Qed.

End Classification.

(** ** Publishing *)

Section Publishing.
Context `{Platform} `{TimeText}.

(** A failed or successful attempt at one alert appends copies of its message. *)
Lemma PublishAlertPayload_outcome a payload (w : world db) r w' :
  Alert.encode a = Some payload -> run (PublishAlertPayload (Alert.TenantID a) payload) w = (r, w') ->
  cache (data w') = cache (data w) /\ raw_alerts (data w') = raw_alerts (data w) /\
  exists ms, handed (broker (data w')) = handed (broker (data w)) ++ ms /\ copies_of a ms
    /\ (r = Ok tt -> exists m k, carries a m /\ (1 <= k <= 3)%nat /\ ms = replicate k m).
Proof.
  intros He. unfold PublishAlertPayload, Envelope.Wrap. cbn [payload_encode RawMessage_Payload].
  rewrite run_bind. cbn -[Publish Envelope.encode]. destruct (Envelope.encode _) as [j|] eqn:Ej.
  - destruct (run (Publish _ _ j) _) as [r1 w1] eqn:Ep.
    apply Publish_outcome in Ep as (k & s & Hk & Hok & Ed & Ea). simpl in Ed, Ea.
    assert (carries a (Message ExchangeAlerts RoutingKeyAlertReceived j)) as Hc.
    { do 4 eexists. split; [done|]. split; [exact Ej|done]. }
    intros [= <- <-]. rewrite Ed. simpl. split; [done|]. split; [done|]. eexists. split; [exact Ea|]. split.
    + exists k. rewrite length_replicate. split_and!; [done..|]. intros m m' [-> _]%elem_of_replicate [-> _]%elem_of_replicate.
      done.
    + intros ->. do 2 eexists. split; [exact Hc|]. split; [|done]. specialize (Hok eq_refl). lia.
  - intros [= <- <-]. split; [done|]. split; [done|]. exists []. rewrite app_nil_r. split_and!; [done| |done].
    exists 0%nat. split_and!; [lia|done|]. intros m m' []%not_elem_of_nil.
Qed.

Lemma publish_alerts_ok alerts payloads dup (w : world db) w' :
  mapM Alert.encode alerts = Some payloads -> length dup = length alerts ->
  run (publish_alerts (zip (zip alerts payloads) dup)) w = (Ok tt, w') ->
  exists ms, handed (broker (data w')) = handed (broker (data w)) ++ ms /\ in_order (kept alerts dup) ms.
Proof.
  revert payloads dup w. induction alerts as [|a alerts IH]; intros payloads dup w Hm Hl.
  - destruct dup; [|done]. injection Hm as <-. intros [= <-]. exists []. rewrite app_nil_r. split; [done|constructor].
  - destruct dup as [|b dup]; [done|]. cbn [mapM] in Hm.
    destruct (Alert.encode a) as [payload|] eqn:Ee; [|done]. cbn in Hm.
    destruct (mapM Alert.encode alerts) as [ps|] eqn:Em; [|done]. injection Hm as <-. injection Hl as Hl.
    cbn [zip zip_with publish_alerts]. destruct b.
    + intros Hr. destruct (IH ps dup w eq_refl Hl Hr) as (ms & ? & ?). by exists ms.
    + rewrite run_bind. destruct (run (PublishAlertPayload _ _) w) as [r1 w1] eqn:E1.
      destruct (PublishAlertPayload_outcome a payload w r1 w1 Ee E1) as (_ & _ & ms1 & Ea & _ & Hok).
      destruct r1 as [[]|e].
      * intros Hr. destruct (IH ps dup w1 eq_refl Hl Hr) as (ms & Ea2 & Ho).
        destruct (Hok eq_refl) as (m & k & Hc & Hk & ->).
        exists (replicate k m ++ ms). rewrite Ea2, Ea, app_assoc. split; [done|]. by constructor.
      * rewrite run_bind. destruct (run (Clear a) w1). done.
Qed.

Lemma processAlerts_published ttl alerts (w : world db) w' :
  run (processAlerts ttl alerts) w = (Ok tt, w') ->
  exists dup ms, justified (dom (cache (data w))) alerts dup
    /\ handed (broker (data w')) = handed (broker (data w)) ++ ms /\ in_order (kept alerts dup) ms.
Proof.
  unfold processAlerts. destruct alerts as [|a0 alerts0].
  { intros [= <-]. exists [], []. rewrite app_nil_r. split; [done|]. split; [done|constructor]. }
  set (alerts := a0 :: alerts0). destruct (mapM Alert.encode alerts) as [payloads|] eqn:Em; [|done].
  rewrite run_bind. destruct (run (Classify ttl alerts) w) as [r1 w1] eqn:E1.
  apply Classify_justified in E1 as [Hb Hj]. set (dup := match r1 with Ok dup => dup | Err _ => _ end) in *.
  rewrite run_bind. destruct (run (SaveRawAlerts _) w1) as [r2 w2] eqn:E2.
  assert (broker (data w2) = broker (data w1)) as Hb2.
  { revert E2. unfold SaveRawAlerts. destruct (zip _ _); [by intros [= <- <-]|]. simpl.
    destruct (fault_at (tick w1)) as [[]|]; by intros [= <- <-]. }
  intros Hr. destruct (publish_alerts_ok alerts payloads dup w2 w' Em) as (ms & Ea & Ho); [|done|].
  - by eapply justified_length.
  - exists dup, ms. rewrite Ea, Hb2, Hb. done.
Qed.

End Publishing.

(** ** Properties *)

Definition normalize `{TimeText} (wh : webhook) : option json -> string -> Time -> res (list Alert.t) :=
  match wh with WAlertmanager => NormalizeAlertmanager | WGrafana => NormalizeGrafana end.

(** The tenant the index of the scheduling service holds for a token. *)
Definition token_tenant (token tenant : string) (d : db) : Prop :=
  exists h e, cache d !! ("oncall:tokens:" +:+ sha256_hex token) = Some (RHash h, e)
    /\ h !! "tenant_id" = Some tenant /\ tenant <> EmptyString.

Lemma normalize_tenant `{TimeText} wh body tenant now alerts :
  normalize wh body tenant now = Ok alerts -> Forall (fun a => Alert.TenantID a = tenant) alerts.
Proof.
  destruct wh; simpl; unfold NormalizeAlertmanager, NormalizeGrafana; destruct (Decode _ _ _); try done;
    intros [= <-].
  - apply Forall_map, Forall_forall. done.
  - by repeat constructor.
Qed.

(** What the token lookup can answer. *)
Lemma GetTenantID_outcome `{Platform} token (w : world db) r w' :
  run (GetTenantID (sha256_hex token)) w = (r, w') ->
  data w' = data w /\ forall tenant, r = Ok tenant -> tenant <> EmptyString -> token_tenant token tenant (data w).
Proof.
  unfold GetTenantID, HGet, rcall, lookup_live, token_tenant. rewrite run_bind.
  destruct (run (call _) w) as [r1 w1] eqn:E1. intros [= <- <-].
  assert (data w1 = data w /\ forall v, r1 = Ok v -> exists h e,
    cache (data w) !! ("oncall:tokens:" +:+ sha256_hex token) = Some (RHash h, e) /\ h !! "tenant_id" = Some v)
    as [Ed Hv].
  { revert E1. cbn -[sha256_hex]. unfold rds, db_Redis.
    destruct (cache (data w) !! _) as [[[s|h] e]|] eqn:El; try destruct (live _ _);
      try destruct (h !! "tenant_id") as [v|] eqn:Ev;
      destruct (fault_at (tick w)) as [[]|]; intros [= <- <-]; (split; [by destruct (data w)|]); try done;
      intros v' [= <-]; eauto. }
  split; [done|]. intros tenant Ht Hne. destruct r1 as [v|e].
  - injection Ht as ->. destruct (Hv tenant eq_refl) as (h & e & ? & ?). eauto 10.
  - case_bool_decide; [|done]. by injection Ht as <-.
Qed.

(** Both halves of what a webhook promises. *)
Lemma webhook_outcome `{Platform} `{TimeText} ttl wh token body (w : world db) resp w' :
  run (serve ttl wh token body) w = (resp, w') ->
  (resp = NoBody StatusOK ->
     exists tenant j now alerts dup ms,
       token_tenant token tenant (data w) /\ readBody body = Some j /\ normalize wh j tenant now = Ok alerts
       /\ Forall (fun a => Alert.TenantID a = tenant) alerts
       /\ justified (dom (cache (data w))) alerts dup
       /\ handed (broker (data w')) = handed (broker (data w)) ++ ms /\ in_order (kept alerts dup) ms) /\
  ((forall tenant, ~ token_tenant token tenant (data w)) ->
     Code resp = StatusUnauthorized /\ data w' = data w) /\
  (readBody body = None -> data w' = data w).
Proof.
  unfold serve, Tenant. destruct (String.eqb token ""); [by intros [= <- <-]|].
  rewrite run_bind. destruct (run (GetTenantID _) w) as [r w1] eqn:E1.
  apply GetTenantID_outcome in E1 as [Ed Ht]. destruct r as [tenant|e]; [|by intros [= <- <-]].
  destruct (String.eqb_spec tenant "") as [->|Hne]; [by intros [= <- <-]|].
  specialize (Ht tenant eq_refl Hne). intros Hr. split_and!; [|intros Hno; by destruct (Hno tenant)|].
  2: { intros Hn. destruct wh; simpl in Hr; unfold HandleAlertmanager, HandleGrafana, handle_webhook in Hr;
         rewrite Hn in Hr; by injection Hr as _ <-. }
  intros ->. assert (run (handle_webhook ttl (normalize wh)
    (match wh with WAlertmanager => "invalid alertmanager payload" | WGrafana => "invalid grafana payload" end)
    tenant body) w1 = (NoBody StatusOK, w')) as Hh by (by destruct wh). clear Hr.
  unfold handle_webhook in Hh. destruct (readBody body) as [j|]; [|done]. rewrite run_bind in Hh.
  change (run time_Now w1) with (now_at (tick w1), World (S (tick w1)) (data w1)) in Hh. cbv beta iota in Hh.
  destruct (normalize wh j tenant _) as [alerts|e] eqn:En; [|done]. rewrite run_bind in Hh.
  destruct (run (processAlerts ttl alerts) _) as [[[]|e] w2] eqn:Ep; [|done]. injection Hh as <-.
  apply processAlerts_published in Ep as (dup & ms & Hj & Ha & Ho). simpl in Hj, Ha. rewrite Ed in Hj, Ha.
  exists tenant, j, (now_at (tick w1)), alerts, dup, ms. split_and!; try done. by eapply normalize_tenant.
Qed.

(** A firing alert whose key is new is not suppressed. *)
Lemma new_key_kept seen pre a post dup :
  justified seen (pre ++ a :: post) dup -> redisKey a ∉ seen -> redisKey a ∉ map redisKey pre ->
  a ∈ kept (pre ++ a :: post) dup.
Proof.
  revert seen dup. induction pre as [|x pre IH]; intros seen [|b dup]; simpl; try done.
  - intros [Hb _] Hn _. destruct b; [by destruct (Hb eq_refl)|]. unfold kept. simpl. by left.
  - intros [_ Hj] Hn Hp. apply not_elem_of_cons in Hp as [Hx Hp]. unfold kept. simpl.
    assert (a ∈ kept (pre ++ a :: post) dup) as Hin.
    { eapply IH; [exact Hj| |exact Hp]. destruct (_ || _); [exact Hn|].
      apply not_elem_of_union. split; [by apply not_elem_of_singleton|exact Hn]. }
    unfold kept in Hin. destruct b; simpl; [done|by right].
Qed.

Lemma resolved_kept seen alerts dup a :
  justified seen alerts dup -> a ∈ alerts -> is_resolved a = true -> a ∈ kept alerts dup.
Proof.
  revert seen dup. induction alerts as [|x alerts IH]; intros seen [|b dup] Hj Hin Hr; simpl in Hj;
    [by apply not_elem_of_nil in Hin|done|done|].
  destruct Hj as [Hb Hj]. unfold kept. simpl. apply elem_of_cons in Hin as [<-|Hin].
  - destruct b; [|by left]. destruct (Hb eq_refl) as [Hx _]. congruence.
  - specialize (IH _ _ Hj Hin Hr). unfold kept in IH. destruct b; simpl; [done|by right].
Qed.

Lemma in_order_has `{TimeText} a l ms : in_order l ms -> a ∈ l -> exists m, m ∈ ms /\ carries a m.
Proof.
  induction 1 as [|x m k l ms Hc Hk _ IH]; [by intros ?%not_elem_of_nil|].
  intros [->|Hin]%elem_of_cons.
  - exists m. split; [|done]. destruct k; [lia|]. simpl. by left.
  - destruct (IH Hin) as (m' & Hm & Hc'). exists m'. split; [|done]. apply elem_of_app. by right.
Qed.

(** C13: what a webhook may rely on, with any faults of Redis, PostgreSQL and the
    broker.  A 200 means that the token is one the index maps to a tenant, that
    every alert of the body was handed to the broker under that tenant (one to
    three copies each, in the order of the body), except firing alerts whose
    deduplication key was already known from an earlier webhook or from an
    earlier published alert of the same body.  A token the index does not have
    is answered with 401 and changes nothing, and neither does a body longer than
    4 MB or one that breaks off. *)
Theorem webhook_contract `{Platform} `{TimeText} ttl wh token body (w : world db) resp w' :
  run (serve ttl wh token body) w = (resp, w') ->
  (resp = NoBody StatusOK ->
     exists tenant j now alerts dup ms,
       token_tenant token tenant (data w) /\ readBody body = Some j /\ normalize wh j tenant now = Ok alerts
       /\ Forall (fun a => Alert.TenantID a = tenant) alerts
       /\ justified (dom (cache (data w))) alerts dup
       /\ handed (broker (data w')) = handed (broker (data w)) ++ ms /\ in_order (kept alerts dup) ms) /\
  ((forall tenant, ~ token_tenant token tenant (data w)) ->
     Code resp = StatusUnauthorized /\ data w' = data w) /\
  (Broken body = true \/ maxBody < Size body -> data w' = data w).
Proof.
  intros Hr. destruct (webhook_outcome _ _ _ _ _ _ _ Hr) as (H200 & H401 & Hb). split; [done|]. split; [done|].
  intros Hx. apply Hb. unfold readBody. destruct Hx as [->|Hx]; [done|].
  apply Z.ltb_lt in Hx. by rewrite Hx, orb_true_r.
Qed.

(** Two alerts of one webhook. *)
Module Webhook_demo.
Definition ttl : Duration := 4 * Hour.
Definition am (name status : string) : json :=
  JObj [("status", JStr status); ("labels", JObj [("alertname", JStr name)])].
Definition batch (l : list json) : upload := Upload 512 (Some (JObj [("alerts", JArr l)])) false.
Definition start : db :=
  Db {[ "oncall:tokens:" +:+ sha256_hex "tok" := (RHash {[ "tenant_id" := "acme" ]}, None) ]} []
     (Net true true true [] []).
(** The titles of the published alerts. *)
Definition titles (d : db) : list string :=
  map (fun m => match body m with
                | JObj l => match find (fun kv => String.eqb kv.1 "payload") l with
                            | Some (_, JObj p) => match find (fun kv => String.eqb kv.1 "title") p with
                                                  | Some (_, JStr s) => s | _ => "?" end
                            | _ => "?" end
                | _ => "?" end) (handed (broker d)).
End Webhook_demo.

Lemma webhook_contract_witness :
  let P := demo_platform [] in
  let body := Webhook_demo.batch [Webhook_demo.am "disk" "firing"; Webhook_demo.am "cpu" "firing"] in
  let out := run (@serve P demo_time_text Webhook_demo.ttl WAlertmanager "tok" body) (World 0 Webhook_demo.start) in
  (out.1 = NoBody StatusOK /\ Webhook_demo.titles (data out.2) = ["disk"; "cpu"]) /\
  (exists tenant j now alerts dup ms,
     token_tenant "tok" tenant Webhook_demo.start /\ readBody body = Some j
     /\ @normalize demo_time_text WAlertmanager j tenant now = Ok alerts
     /\ Forall (fun a => Alert.TenantID a = tenant) alerts
     /\ justified (dom (cache Webhook_demo.start)) alerts dup
     /\ handed (broker (data out.2)) = handed (broker Webhook_demo.start) ++ ms
     /\ @in_order demo_time_text (kept alerts dup) ms).
Proof.
  intros P body out.
  assert (out.1 = NoBody StatusOK) as Hok by (vm_compute; reflexivity).
  split; [split; [exact Hok|vm_compute; reflexivity]|].
  exact (proj1 (@webhook_contract P demo_time_text Webhook_demo.ttl WAlertmanager "tok" body (World 0 Webhook_demo.start)
    out.1 out.2 (surjective_pairing out)) Hok).
Defined.

(** *** A batch that fails half way *)

Section Failing.
Context `{Platform} `{TimeText}.
Variable ttl : Duration.

(** A key this service has set. *)
Definition ours (st : redis) (k : string) : Prop :=
  exists t, st !! k = Some (RStr "1", if ttl =? 0 then None else Some (Add (now_at t) ttl)).

Lemma SetNX_ours k (w : world db) r w' :
  run (SetNX k "1" ttl) w = (r, w') ->
  (r = Ok true -> ours (cache (data w')) k) /\
  (forall k', ours (cache (data w)) k' -> ours (cache (data w')) k').
Proof.
  unfold SetNX, rcall, setnx, lookup_live, ours. simpl.
  assert (forall (st : redis) t k', ours st k' ->
    ours (<[k := (RStr "1", if ttl =? 0 then None else Some (Add (now_at t) ttl))]> st) k') as Hk.
  { intros st t k' [t' Ht]. destruct (decide (k = k')) as [<-|]; [exists t; by rewrite lookup_insert_eq|].
    exists t'. by rewrite lookup_insert_ne. }
  destruct (fault_at (tick w)) as [[e|e]|]; [intros [= <- <-]; by split|..];
    (destruct (ttl <? 0); [intros [= <- <-]; by split|]);
    destruct (cache (data w) !! k) as [x|] eqn:El; try destruct (live _ x);
    intros [= <- <-]; simpl; (split; [try done|first [done | intros k'; exact (Hk _ _ k')]]);
    intros _; exists (tick w); by rewrite lookup_insert_eq.
Qed.

Lemma setnx_pipeline_ours keys (w : world db) rs w' set :
  run (pipeline (map (fun k => SetNX k "1" ttl) keys)) w = (rs, w') -> first_error rs = Ok set ->
  length set = length keys /\
  (forall i k, keys !! i = Some k -> set !! i = Some true -> ours (cache (data w')) k) /\
  (forall k, ours (cache (data w)) k -> ours (cache (data w')) k).
Proof.
  revert w rs w' set. induction keys as [|k keys IH]; intros w rs w' set; cbn [map pipeline].
  - intros [= <- <-] [= <-]. done.
  - rewrite run_bind. destruct (run (SetNX k "1" ttl) w) as [r w1] eqn:E1. rewrite run_bind.
    destruct (run (pipeline _) w1) as [rs1 w2] eqn:E2. intros [= <- <-]. simpl.
    destruct r as [ok|e]; [|done]. destruct (first_error rs1) as [set1|e] eqn:Ef; [|done]. intros [= <-].
    destruct (SetNX_ours _ _ _ _ E1) as [Ht Hk]. destruct (IH _ _ _ _ E2 Ef) as (Hl & Hi & Hk2).
    split; [simpl; by rewrite Hl|]. split; [|by auto].
    intros [|i] k'; simpl; [|apply Hi]. intros [= <-] [= ->]. by apply Hk2, Ht.
Qed.

Lemma del_pipeline_keeps keys (w : world db) rs w' k :
  run (pipeline (map Del keys)) w = (rs, w') -> k ∉ keys -> cache (data w') !! k = cache (data w) !! k.
Proof.
  revert w rs w'. induction keys as [|k' keys IH]; intros w rs w'; cbn [map pipeline].
  - by intros [= <- <-].
  - rewrite run_bind. destruct (run (Del k') w) as [r w1] eqn:E1. rewrite run_bind.
    destruct (run (pipeline _) w1) as [rs1 w2] eqn:E2. intros [= <- <-] Hn.
    apply not_elem_of_cons in Hn as [Hne Hn]. rewrite (IH _ _ _ E2 Hn). revert E1. unfold Del, rcall. simpl.
    destruct (fault_at (tick w)) as [[e|e]|]; intros [= <- <-]; simpl; by rewrite ?lookup_delete_ne.
Qed.

(** The answer for an alert that is firing. *)
Lemma mark_dups_lookup alerts set i a :
  alerts !! i = Some a -> is_resolved a = false ->
  length set = length (List.filter (fun a => negb (is_resolved a)) alerts) ->
  exists j ok, map redisKey (List.filter (fun a => negb (is_resolved a)) alerts) !! j = Some (redisKey a)
    /\ set !! j = Some ok /\ mark_dups alerts set !! i = Some (negb ok).
Proof.
  revert set i. induction alerts as [|x alerts IH]; intros set [|i]; simpl; try done.
  - intros [= ->] Hr Hl. rewrite Hr in *. simpl in *. destruct set as [|ok set]; [done|]. by exists 0%nat, ok.
  - intros Hi Hr Hl. destruct (is_resolved x) eqn:Ex; simpl in *; [by apply IH|].
    destruct set as [|ok set]; [done|]. injection Hl as Hl.
    destruct (IH set i Hi Hr Hl) as (j & ok' & ? & ? & ?). by exists (S j), ok'.
Qed.

(** A firing alert that was not suppressed has its key set, unless the batch also
    resolves it. *)
Lemma Classify_sets alerts (w : world db) dup wc i b :
  run (Classify ttl alerts) w = (Ok dup, wc) ->
  alerts !! i = Some b -> dup !! i = Some false -> is_resolved b = false ->
  (forall c, c ∈ alerts -> is_resolved c = true -> redisKey c <> redisKey b) ->
  ours (cache (data wc)) (redisKey b).
Proof.
  unfold Classify. destruct alerts as [|a0 alerts0]; [done|]. set (alerts := a0 :: alerts0).
  rewrite run_bind. destruct (run (Apply ttl _ "1" _) w) as [r1 w1] eqn:E1. intros Hr Hi Hd Hb Hc.
  destruct r1 as [set|e]; [|done]. injection Hr as <- <-.
  set (fk := map redisKey (List.filter (fun a => negb (is_resolved a)) alerts)) in *.
  set (rk := map redisKey (List.filter is_resolved alerts)) in *.
  assert (redisKey b ∉ rk) as Hn.
  { intros (c & E & Hin)%list_elem_of_fmap. apply list_elem_of_In, filter_In in Hin as [Hin Hres].
    apply (Hc c); [by apply list_elem_of_In|done|done]. }
  assert (redisKey b ∈ fk) as Hbk.
  { apply list_elem_of_fmap. exists b. split; [done|]. apply list_elem_of_In, filter_In.
    split; [apply list_elem_of_In; by eapply list_elem_of_lookup_2|by rewrite Hb]. }
  assert (exists rs w2 ds, run (pipeline (map (fun k => SetNX k "1" ttl) fk)) w = (rs, w2)
    /\ run (pipeline (map Del rk)) w2 = (ds, w1) /\ first_error rs = Ok set) as (rs & w2 & ds & E2 & E3 & Ef).
  { revert E1. unfold Apply. destruct fk as [|k fk]; [by apply not_elem_of_nil in Hbk|].
    rewrite run_bind. destruct (run (pipeline (map (fun k => SetNX k "1" ttl) (k :: fk))) w) as [rs w2].
    rewrite run_bind. destruct (run (pipeline (map Del rk)) w2) as [ds w3] eqn:E3. intros [= Hset ->].
    exists rs, w2, ds. split; [done|]. split; [done|].
    destruct (first_error rs); [|done]. destruct (first_error ds); [|done]. by injection Hset as ->. }
  destruct (setnx_pipeline_ours _ _ _ _ _ E2 Ef) as (Hl & Hset & _).
  destruct (mark_dups_lookup alerts set i b Hi Hb) as (j & ok & Hj & Hok & Hm).
  { rewrite Hl. unfold fk. by rewrite length_map. }
  assert (Some (negb ok) = Some false) as Hd' by (rewrite <- Hm; exact Hd).
  destruct ok; [|done]. destruct (Hset j _ Hj Hok) as [t Ht]. exists t.
  by rewrite (del_pipeline_keeps _ _ _ _ _ E3 Hn).
Qed.

(** Publishing stops at the first alert it cannot hand to the broker. *)
Lemma publish_alerts_err alerts payloads dup (w : world db) e w' :
  mapM Alert.encode alerts = Some payloads -> length dup = length alerts ->
  run (publish_alerts (zip (zip alerts payloads) dup)) w = (Err e, w') ->
  exists pre a post ms1 ms2, alerts = pre ++ a :: post /\ dup !! length pre = Some false
    /\ handed (broker (data w')) = handed (broker (data w)) ++ ms1 ++ ms2
    /\ in_order (kept pre (take (length pre) dup)) ms1 /\ copies_of a ms2
    /\ (forall k, k <> redisKey a -> cache (data w') !! k = cache (data w) !! k).
Proof.
  revert payloads dup w. induction alerts as [|a alerts IH]; intros payloads dup w Hm Hl.
  - destruct dup; [|done]. by injection Hm as <-.
  - destruct dup as [|b dup]; [done|]. cbn [mapM] in Hm.
    destruct (Alert.encode a) as [payload|] eqn:Ee; [|done]. cbn in Hm.
    destruct (mapM Alert.encode alerts) as [ps|] eqn:Em; [|done]. injection Hm as <-. injection Hl as Hl.
    cbn [zip zip_with publish_alerts]. destruct b.
    + intros Hr. destruct (IH ps dup w eq_refl Hl Hr) as (pre & x & post & ms1 & ms2 & -> & Hd & Ea & Ho & Hx & Hk).
      exists (a :: pre), x, post, ms1, ms2. by split_and!.
    + rewrite run_bind. destruct (run (PublishAlertPayload _ _) w) as [r1 w1] eqn:E1.
      destruct (PublishAlertPayload_outcome a payload w r1 w1 Ee E1) as (Ec & _ & ms & Ea & Hcs & Hok).
      destruct r1 as [[]|e1].
      * intros Hr. destruct (IH ps dup w1 eq_refl Hl Hr) as (pre & x & post & ms1 & ms2 & -> & Hd & Ea2 & Ho & Hx & Hk).
        destruct (Hok eq_refl) as (m & k & Hc & Hk' & ->).
        exists (a :: pre), x, post, (replicate k m ++ ms1), ms2. rewrite Ea2, Ea, <- !app_assoc.
        split_and!; [done..| |done|intros k' Hn; by rewrite Hk, Ec]. unfold kept. simpl. by constructor.
      * rewrite run_bind. destruct (run (Clear a) w1) as [rc w2] eqn:E2. intros [= <- <-].
        assert (broker (data w2) = broker (data w1)
          /\ forall k, k <> redisKey a -> cache (data w2) !! k = cache (data w1) !! k) as [Eb Hk].
        { revert E2. unfold Clear, Del, rcall. simpl.
          destruct (fault_at (tick w1)) as [[]|]; intros [= <- <-]; simpl; (split; [done|]); [done|..];
            intros k Hk; by rewrite lookup_delete_ne. }
        exists [], a, alerts, [], ms. rewrite Eb, Ea. split_and!; [done..|constructor|done|].
        intros k Hn. by rewrite Hk, Ec.
Qed.

Lemma SaveRawAlerts_keeps items (w : world db) r w' :
  run (SaveRawAlerts items) w = (r, w') -> broker (data w') = broker (data w) /\ cache (data w') = cache (data w).
Proof.
  unfold SaveRawAlerts. destruct items; [by intros [= <- <-]|]. simpl.
  destruct (fault_at (tick w)) as [[]|]; by intros [= <- <-].
Qed.

(** What a failed batch leaves behind. *)
Lemma processAlerts_failed alerts dup (w : world db) e w' :
  (run (Classify ttl alerts) w).1 = Ok dup -> alerts <> [] -> is_Some (mapM Alert.encode alerts) ->
  run (processAlerts ttl alerts) w = (Err e, w') ->
  exists pre a post ms1 ms2, alerts = pre ++ a :: post /\ dup !! length pre = Some false
    /\ handed (broker (data w')) = handed (broker (data w)) ++ ms1 ++ ms2
    /\ in_order (kept pre (take (length pre) dup)) ms1 /\ copies_of a ms2
    /\ forall i b, alerts !! i = Some b -> dup !! i = Some false -> is_resolved b = false ->
         redisKey b <> redisKey a ->
         (forall c, c ∈ alerts -> is_resolved c = true -> redisKey c <> redisKey b) ->
         ours (cache (data w')) (redisKey b).
Proof.
  intros Hc Hne [payloads Hm]. unfold processAlerts. destruct alerts as [|a0 alerts0]; [done|].
  set (alerts := a0 :: alerts0) in *. rewrite Hm, run_bind.
  destruct (run (Classify ttl alerts) w) as [r1 wc] eqn:Ec. simpl in Hc. subst r1.
  destruct (Classify_justified ttl alerts w _ wc Ec) as [Eb Hj].
  rewrite run_bind. destruct (run (SaveRawAlerts _) wc) as [r2 w2] eqn:E2.
  apply SaveRawAlerts_keeps in E2 as [Eb2 Ec2]. intros Hr.
  destruct (publish_alerts_err _ _ _ _ _ _ Hm (justified_length _ _ _ Hj) Hr)
    as (pre & a & post & ms1 & ms2 & Ea & Hd & Eacc & Ho & Hx & Hk).
  exists pre, a, post, ms1, ms2. split_and!; [done|done|by rewrite Eacc, Eb2, Eb|done|done|].
  intros i b Hi Hdi Hb Hne' Hres.
  destruct (Classify_sets alerts w dup wc i b Ec Hi Hdi Hb Hres) as [t Ht]. exists t.
  by rewrite Hk, Ec2.
Qed.
End Failing.

(** ** The batch and the per-alert path *)

(** The path the batch replaced: each alert in turn. *)
Fixpoint classify_each `{Platform} (ttl : Duration) (alerts : list Alert.t) : M db (res (list bool)) :=
  match alerts with
  | [] => Ret (Ok [])
  | a :: alerts =>
      let? dup := (if is_resolved a then (let? _ := Clear a in Ret (Ok false)) else IsDuplicate ttl a) in
      let? dups := classify_each ttl alerts in
      Ret (Ok (dup :: dups))
  end.

(** The batch is not the per-alert path.  A body that resolves an alert whose
    key is in the cache and fires it again: one by one the second is new, in
    the batch the SETNX runs before the DEL and the re-fire is suppressed. *)
Lemma batch_suppresses_refire :
  let P := demo_platform [] in
  let alert status := with_fingerprint
    (Alert.mk "" SourceAlertmanager "high" "disk" "" {[ "alertname" := "disk" ]} status 1 1 "acme") in
  let body := [alert "resolved"; alert "firing"] in
  let d := Db {[ redisKey (alert "firing") := (RStr "1", None) ]} [] (Net true true true [] []) in
  (run (@classify_each P Webhook_demo.ttl body) (World 0 d)).1 = Ok [false; false]
  /\ (run (@Classify P Webhook_demo.ttl body) (World 0 d)).1 = Ok [false; true].
Proof. vm_compute. split_and!; reflexivity. Qed.

Section Batch.
Context `{Platform}.
Variable ttl : Duration.
Hypothesis Hrel : reliable.
Hypothesis Httl : 0 <= ttl.
Variable now : Time.
Hypothesis Hclock : forall t, now_at t = now.

(** A SETNX and a sequence of them on the keyspace. *)
Definition set1 (k : string) (st : redis) : bool * redis :=
  match lookup_live now k st with
  | Some _ => (false, st)
  | None => (true, <[k := (RStr "1", if ttl =? 0 then None else Some (Add now ttl))]> st)
  end.

Fixpoint sets (keys : list string) (st : redis) : list bool * redis :=
  match keys with
  | [] => ([], st)
  | k :: keys => let '(b, st) := set1 k st in let '(bs, st) := sets keys st in (b :: bs, st)
  end.

Definition dels (keys : list string) (st : redis) : redis := fold_left (fun st k => delete k st) keys st.

Lemma run_SetNX k t d :
  run (SetNX k "1" ttl) (World t d) = (Ok (set1 k (cache d)).1, World (S t) (set_rds (set1 k (cache d)).2 d)).
Proof.
  unfold SetNX, rcall, set1. rewrite run_call_ok by apply Hrel. simpl. unfold setnx. rewrite Hclock.
  destruct (Z.ltb_spec ttl 0); [lia|]. by destruct (lookup_live _ _ _).
Qed.

Lemma run_sets keys t d :
  exists t', run (pipeline (map (fun k => SetNX k "1" ttl) keys)) (World t d)
    = (map Ok (sets keys (cache d)).1, World t' (set_rds (sets keys (cache d)).2 d)).
Proof.
  revert t d. induction keys as [|k keys IH]; intros t d; cbn [map pipeline sets].
  - exists t. by destruct d.
  - rewrite run_bind, run_SetNX. destruct (set1 k (cache d)) as [b st] eqn:E1. cbn [fst snd].
    destruct (IH (S t) (set_rds st d)) as [t' Ht']. rewrite run_bind, Ht'. cbn [cache set_rds db_Redis].
    destruct (sets keys st) as [bs st2]. by exists t'.
Qed.

Lemma run_Del k t d :
  run (Del k) (World t d) = (Ok tt, World (S t) (set_rds (delete k (cache d)) d)).
Proof. unfold Del, rcall. by rewrite run_call_ok by apply Hrel. Qed.

Lemma run_dels keys t d :
  exists t', run (pipeline (map Del keys)) (World t d)
    = (map (fun _ => Ok tt) keys, World t' (set_rds (dels keys (cache d)) d)).
Proof.
  revert t d. induction keys as [|k keys IH]; intros t d; cbn [map pipeline].
  - exists t. by destruct d.
  - rewrite run_bind, run_Del. destruct (IH (S t) (set_rds (delete k (cache d)) d)) as [t' Ht'].
    rewrite run_bind, Ht'. by exists t'.
Qed.

Lemma first_error_ok {A} (l : list A) : first_error (map Ok l) = Ok l.
Proof. induction l as [|a l IH]; simpl; [done|]. by rewrite IH. Qed.

Lemma sets_delete keys k st :
  k ∉ keys -> sets keys (delete k st) = ((sets keys st).1, delete k (sets keys st).2).
Proof.
  revert st. induction keys as [|k' keys IH]; intros st Hk; cbn [sets]; [done|].
  assert (k <> k') as Hne by set_solver. assert (k ∉ keys) as Hk' by set_solver.
  assert (set1 k' (delete k st) = ((set1 k' st).1, delete k (set1 k' st).2)) as ->.
  { unfold set1, lookup_live. rewrite lookup_delete_ne by done.
    destruct (st !! k') as [e|]; [destruct (live now e)|]; simpl; rewrite ?delete_insert_ne by done; done. }
  destruct (set1 k' st) as [b st1]. cbn [fst snd]. rewrite IH by done. by destruct (sets keys st1).
Qed.

Local Abbreviation firing l := (map redisKey (List.filter (fun a => negb (is_resolved a)) l)).
Local Abbreviation resolved l := (map redisKey (List.filter is_resolved l)).

Lemma run_classify_each alerts t d :
  (forall k, k ∈ firing alerts -> k ∉ resolved alerts) ->
  exists t', run (classify_each ttl alerts) (World t d)
    = (Ok (mark_dups alerts (sets (firing alerts) (cache d)).1),
       World t' (set_rds (dels (resolved alerts) (sets (firing alerts) (cache d)).2) d)).
Proof.
  revert t d. induction alerts as [|a alerts IH]; intros t d Hk.
  - exists t. by destruct d.
  - cbn [classify_each mark_dups List.filter] in *. rewrite run_bind.
    destruct (is_resolved a) eqn:Er; cbn [negb map] in *.
    + unfold Clear. rewrite run_bind, run_Del. cbn [run]. rewrite run_bind.
      destruct (IH (S t) (set_rds (delete (redisKey a) (cache d)) d)) as [t' ->].
      { intros k Hf Hr. apply (Hk k Hf). by right. }
      cbn [cache set_rds db_Redis]. rewrite sets_delete by (intros Hin; apply (Hk _ Hin); left). by exists t'.
    + unfold IsDuplicate. rewrite run_bind, run_SetNX. cbn [sets].
      destruct (set1 (redisKey a) (cache d)) as [b st1]. cbn [fst snd run]. rewrite run_bind.
      destruct (IH (S t) (set_rds st1 d)) as [t' ->]; [intros k Hf; apply Hk; by right|]. cbn [cache set_rds db_Redis].
      destruct (sets _ st1) as [bs st2]. by exists t'.
Qed.

Lemma run_Classify alerts t d :
  exists t', run (Classify ttl alerts) (World t d)
    = (Ok (mark_dups alerts (sets (firing alerts) (cache d)).1),
       World t' (set_rds (dels (resolved alerts) (sets (firing alerts) (cache d)).2) d)).
Proof.
  unfold Classify. destruct alerts as [|a0 alerts0]; [exists t; by destruct d|].
  set (alerts := a0 :: alerts0). rewrite run_bind.
  assert (exists t', run (Apply ttl (firing alerts) "1" (resolved alerts)) (World t d)
    = (Ok (sets (firing alerts) (cache d)).1,
       World t' (set_rds (dels (resolved alerts) (sets (firing alerts) (cache d)).2) d))) as [t' ->]; [|by exists t'].
  unfold Apply.
  assert (exists t', run (let! rs := pipeline (map (fun k => SetNX k "1" ttl) (firing alerts)) in
      let! ds := pipeline (map Del (resolved alerts)) in
      Ret (match first_error rs, first_error ds with
           | Err e, _ => Err e | _, Err e => Err e | Ok out, Ok _ => Ok out end)) (World t d)
    = (Ok (sets (firing alerts) (cache d)).1,
       World t' (set_rds (dels (resolved alerts) (sets (firing alerts) (cache d)).2) d))) as Hrun.
  { rewrite run_bind. destruct (run_sets (firing alerts) t d) as [t1 ->]. rewrite run_bind.
    match goal with |- context [World t1 ?d1] => destruct (run_dels (resolved alerts) t1 d1) as [t2 ->] end.
    rewrite first_error_ok. replace (map (fun _ => Ok tt) (resolved alerts)) with (map Ok (map (fun _ : string => tt) (resolved alerts)))
      by (by rewrite map_map). rewrite first_error_ok. by exists t2. }
  destruct (firing alerts) as [|k ks] eqn:Ef; [|exact Hrun].
  destruct (resolved alerts) as [|r rs] eqn:Es; [|exact Hrun]. exists t. by destruct d.
Qed.

End Batch.

(** A key that is live is answered no, for every alert that has it. *)
Section Retry.
Context `{Platform}.
Variable ttl : Duration.
Variable now : Time.

Lemma sets_live keys st k x :
  lookup_live now k st = Some x ->
  Forall2 (fun k' ok => k' = k -> ok = false) keys (sets ttl now keys st).1.
Proof.
  revert st. induction keys as [|k' keys IH]; intros st Hl; cbn [sets]; [constructor|].
  destruct (set1 ttl now k' st) as [b st1] eqn:E1. destruct (sets ttl now keys st1) as [bs st2] eqn:E2.
  assert (bs = (sets ttl now keys st1).1) as -> by (by rewrite E2). constructor.
  - intros ->. unfold set1 in E1. rewrite Hl in E1. by injection E1 as <- _.
  - apply IH. unfold set1 in E1. destruct (lookup_live now k' st) as [y|] eqn:El; injection E1 as <- <-; [done|].
    unfold lookup_live. rewrite lookup_insert_ne; [done|]. intros ->. congruence.
Qed.

Lemma mark_dups_live alerts set i b :
  Forall2 (fun k' ok => k' = redisKey b -> ok = false)
    (map redisKey (List.filter (fun a => negb (is_resolved a)) alerts)) set ->
  alerts !! i = Some b -> is_resolved b = false -> mark_dups alerts set !! i = Some true.
Proof.
  intros Hf Hi Hb. destruct (mark_dups_lookup alerts set i b Hi Hb) as (j & ok & Hj & Hok & ->).
  { apply Forall2_length in Hf. by rewrite length_map in Hf. }
  rewrite Forall2_lookup in Hf. specialize (Hf j). rewrite Hj, Hok in Hf. inversion Hf as [? ? Hx|]; subst.
  by rewrite (Hx eq_refl).
Qed.

Lemma kept_lookup alerts dup c : c ∈ kept alerts dup -> exists j, alerts !! j = Some c /\ dup !! j = Some false.
Proof.
  unfold kept. intros ([c' d] & -> & Hin)%list_elem_of_fmap.
  apply list_elem_of_In, filter_In in Hin as [Hin Hd]. destruct d; [done|].
  apply list_elem_of_In, list_elem_of_lookup in Hin as [j Hj].
  apply lookup_zip_Some in Hj as [? ?]. by exists j.
Qed.

(** The repeated batch, with everything working. *)
#[local] Existing Instance Ingestion.RawMessage_Payload.
Context `{TimeText}.
Hypothesis Hrel : reliable.
Hypothesis Hsteady : steady.
Hypothesis Hwrite : writable_clock.

Lemma publish_alerts_done items (w : world db) : exists w', run (publish_alerts items) w = (Ok tt, w').
Proof.
  revert w. induction items as [|[[a payload] b] items IH]; intros w; cbn [publish_alerts]; [by exists w|].
  destruct b; [apply IH|]. rewrite run_bind. unfold PublishAlertPayload.
  destruct (run_wrap_publish Hrel Hsteady Hwrite RoutingKeyAlertReceived (Alert.TenantID a) payload payload
    ExchangeAlerts RoutingKeyAlertReceived "publisher: wrap" w) as (t & n & body & Er & _); [reflexivity|].
  cbn [payload_encode RawMessage_Payload] in Er. rewrite Er. apply IH.
Qed.

Hypothesis Httl : 0 <= ttl.
Hypothesis Hclock : forall t, now_at t = now.

Lemma retry_suppresses alerts i b e t (d : db) :
  is_Some (mapM Alert.encode alerts) -> alerts !! i = Some b -> is_resolved b = false ->
  (forall c, c ∈ alerts -> is_resolved c = true -> redisKey c <> redisKey b) ->
  cache d !! redisKey b = Some e -> live now e = true ->
  exists w2 dup2 ms, run (processAlerts ttl alerts) (World t d) = (Ok tt, w2)
    /\ handed (broker (data w2)) = handed (broker d) ++ ms /\ in_order (kept alerts dup2) ms
    /\ dup2 !! i = Some true /\ (forall c, c ∈ kept alerts dup2 -> redisKey c <> redisKey b).
Proof.
  intros [payloads Hm] Hi Hb Hres He Hlive. unfold processAlerts. destruct alerts as [|a0 alerts0]; [done|].
  set (alerts := a0 :: alerts0) in *. rewrite Hm, run_bind.
  pose (dup := mark_dups alerts (sets ttl now (map redisKey (List.filter (fun a => negb (is_resolved a)) alerts)) (cache d)).1).
  assert (forall j c, alerts !! j = Some c -> redisKey c = redisKey b -> dup !! j = Some true) as Hdup.
  { intros j c Hj Hkey. destruct (is_resolved c) eqn:Ec; [by destruct (Hres c (list_elem_of_lookup_2 _ _ _ Hj) Ec)|].
    eapply mark_dups_live; [|done..]. rewrite Hkey. eapply sets_live. unfold lookup_live. by rewrite He, Hlive. }
  destruct (run_Classify ttl Hrel Httl now Hclock alerts t d) as [t' Ecl]. fold dup in Ecl.
  destruct (Classify_justified ttl alerts _ _ _ Ecl) as [_ Hj%justified_length]. rewrite Ecl, run_bind.
  destruct (run (SaveRawAlerts _) _) as [r3 w3] eqn:E3. apply SaveRawAlerts_keeps in E3 as [Eb3 _]. simpl in Eb3.
  destruct (publish_alerts_done (zip (zip alerts payloads) dup) w3) as [w2 E2].
  destruct (publish_alerts_ok _ _ _ _ _ Hm Hj E2) as (ms & Ems & Hin).
  exists w2, dup, ms. split_and!; [done|by rewrite Ems, Eb3|done|by apply (Hdup i b)|].
  intros c (j & Hjc & Hjd)%kept_lookup Hkey. rewrite (Hdup j c Hjc Hkey) in Hjd. done.
Qed.
End Retry.

(** C40: alerts that are never published.  When a batch fails (the handler answers
    503), what it handed to the broker is the messages of the alerts before the
    failing one and at most three copies of that of the failing one: nothing of
    those after it, but their deduplication keys stay set.  When the sender repeats
    the webhook, as it does after a 503, before the keys expire and with everything
    working again, the batch succeeds and each of these alerts is suppressed as a
    duplicate: what is published is the messages of other alerts, none of which has
    its key. *)
Theorem failed_batch_loses_alerts `{P1 : Platform} `{TimeText} ttl alerts dup (w : world db) e w1 :
  (@run _ _ (Classify ttl alerts) w).1 = Ok dup -> is_Some (mapM Alert.encode alerts) ->
  run (processAlerts ttl alerts) w = (Err e, w1) ->
  exists pre a post ms1 ms2, alerts = pre ++ a :: post /\ dup !! length pre = Some false
    /\ handed (broker (data w1)) = handed (broker (data w)) ++ ms1 ++ ms2
    /\ in_order (kept pre (take (length pre) dup)) ms1 /\ copies_of a ms2
    /\ forall i b, alerts !! i = Some b -> dup !! i = Some false -> is_resolved b = false ->
         redisKey b <> redisKey a ->
         (forall c, c ∈ alerts -> is_resolved c = true -> redisKey c <> redisKey b) ->
         exists expiry, cache (data w1) !! redisKey b = Some (RStr "1", expiry)
           /\ forall (P2 : Platform) now t, @reliable P2 -> @steady P2 -> @writable_clock P2 _ -> 0 <= ttl ->
                (forall t, @now_at P2 t = now) -> live now (RStr "1", expiry) = true ->
                exists w2 dup2 ms, run (@processAlerts P2 _ ttl alerts) (World t (data w1)) = (Ok tt, w2)
                  /\ handed (broker (data w2)) = handed (broker (data w1)) ++ ms
                  /\ in_order (kept alerts dup2) ms
                  /\ dup2 !! i = Some true /\ (forall c, c ∈ kept alerts dup2 -> redisKey c <> redisKey b).
Proof.
  intros Hc Henc Hr. assert (alerts <> []) as Hne by (by intros ->).
  destruct (processAlerts_failed ttl alerts dup w e w1 Hc Hne Henc Hr)
    as (pre & a & post & ms1 & ms2 & Ea & Hd & Eacc & Ho & Hx & Hk).
  exists pre, a, post, ms1, ms2. split_and!; [done..|]. intros i b Hi Hdi Hb Hn Hres.
  destruct (Hk i b Hi Hdi Hb Hn Hres) as [t0 Ht0]. eexists. split; [exact Ht0|].
  intros P2 now t Hrel Hst Hwr Httl Hclock Hlive.
  exact (@retry_suppresses P2 ttl now _ Hrel Hst Hwr Httl Hclock alerts i b _ t (data w1) Henc Hi Hb Hres Ht0 Hlive).
Qed.

(** Two alerts, and a broker that is down while the first is published. *)
Module Lost_demo.
Definition down : Platform := demo_platform (map (fun t => (t, FailBefore (ErrNew "connection refused"))) (seq 5 12)).
Definition frozen (now : Time) : Platform :=
  {| now_at _ := now; uuid_at := pretty; uuid_ok _ := true; fault_at _ := None; done_at _ := false;
     conn_closed_at _ := false; chan_closed_at _ := false |}.
Definition alert (name : string) : Alert.t := with_fingerprint
  (Alert.mk "" SourceAlertmanager "high" name "" {[ "alertname" := name ]} "firing" 1 1 "acme").
Definition batch : list Alert.t := [alert "disk"; alert "cpu"].
Definition first := run (@processAlerts down demo_time_text Webhook_demo.ttl batch) (World 0 Webhook_demo.start).
(** A minute later, with everything working again. *)
Definition soon : Time := (1704067200 + 60) * Second.
Definition retry := run (@processAlerts (frozen soon) demo_time_text Webhook_demo.ttl batch) (World 99 (data first.2)).
End Lost_demo.

Lemma failed_batch_loses_alerts_witness :
  (is_ok Lost_demo.first.1 = false /\ Webhook_demo.titles (data Lost_demo.first.2) = []
   /\ Lost_demo.retry.1 = Ok tt /\ Webhook_demo.titles (data Lost_demo.retry.2) = ["disk"]) /\
  exists pre a post ms1 ms2, Lost_demo.batch = pre ++ a :: post /\ [false; false] !! length pre = Some false
    /\ handed (broker (data Lost_demo.first.2)) = [] ++ ms1 ++ ms2
    /\ @in_order demo_time_text (kept pre (take (length pre) [false; false])) ms1 /\ @copies_of demo_time_text a ms2
    /\ forall i b, Lost_demo.batch !! i = Some b -> [false; false] !! i = Some false -> is_resolved b = false ->
         redisKey b <> redisKey a ->
         (forall c, c ∈ Lost_demo.batch -> is_resolved c = true -> redisKey c <> redisKey b) ->
         exists expiry, cache (data Lost_demo.first.2) !! redisKey b = Some (RStr "1", expiry)
           /\ forall (P2 : Platform) now t, @reliable P2 -> @steady P2 -> @writable_clock P2 demo_time_text ->
                0 <= Webhook_demo.ttl -> (forall t, @now_at P2 t = now) -> live now (RStr "1", expiry) = true ->
                exists w2 dup2 ms,
                  run (@processAlerts P2 demo_time_text Webhook_demo.ttl Lost_demo.batch) (World t (data Lost_demo.first.2))
                    = (Ok tt, w2)
                  /\ handed (broker (data w2)) = handed (broker (data Lost_demo.first.2)) ++ ms
                  /\ @in_order demo_time_text (kept Lost_demo.batch dup2) ms
                  /\ dup2 !! i = Some true /\ (forall c, c ∈ kept Lost_demo.batch dup2 -> redisKey c <> redisKey b).
Proof.
  split; [vm_compute; split_and!; reflexivity|].
  apply (@failed_batch_loses_alerts Lost_demo.down demo_time_text Webhook_demo.ttl Lost_demo.batch [false; false]
    (World 0 Webhook_demo.start) (match Lost_demo.first.1 with Err e => e | Ok _ => ErrNotFound end)).
  - vm_compute. reflexivity.
  - vm_compute. by eexists.
  - vm_compute. reflexivity.
Defined.

(** The batch agrees with the per-alert path.  When no key of the body is
    both fired and resolved, classifying the batch in one pipeline gives the
    same answers and leaves the same keys as one alert at a time (on a reliable
    platform whose clock does not move in between). *)
Lemma Classify_batch_equiv `{Platform} ttl now alerts t d :
  reliable -> 0 <= ttl -> (forall t, now_at t = now) ->
  (forall a b, a ∈ alerts -> b ∈ alerts -> is_resolved a = true -> is_resolved b = false -> redisKey a <> redisKey b) ->
  exists dups d' t1 t2,
    run (Classify ttl alerts) (World t d) = (Ok dups, World t1 d')
    /\ run (classify_each ttl alerts) (World t d) = (Ok dups, World t2 d').
Proof.
  intros Hrel Httl Hclock Hk.
  destruct (run_Classify ttl Hrel Httl now Hclock alerts t d) as [t1 ->].
  destruct (run_classify_each ttl Hrel Httl now Hclock alerts t d) as [t2 ->]; [|eauto 10].
  intros k (b & -> & Hb)%list_elem_of_fmap (a & E & Ha)%list_elem_of_fmap.
  apply list_elem_of_In, filter_In in Ha as [Ha Hra], Hb as [Hb Hrb%negb_true_iff].
  apply (Hk a b); [by apply list_elem_of_In..|done|done|done].
Qed.

Lemma Classify_batch_equiv_witness :
  let P := {| now_at _ := 5; uuid_at _ := "u"; uuid_ok _ := true; fault_at _ := None; done_at _ := false;
              conn_closed_at _ := false; chan_closed_at _ := false |} in
  let alert name status := with_fingerprint
    (Alert.mk "" SourceAlertmanager "high" name "" {[ "alertname" := name ]} status 1 1 "acme") in
  let body := [alert "disk" "resolved"; alert "cpu" "firing"; alert "cpu" "firing"] in
  let d := Db ∅ [] (Net true true true [] []) in
  (run (@Classify P Hour body) (World 0 d)).1 = Ok [false; false; true] /\
  exists dups d' t1 t2,
    run (@Classify P Hour body) (World 0 d) = (Ok dups, World t1 d')
    /\ run (@classify_each P Hour body) (World 0 d) = (Ok dups, World t2 d').
Proof.
  intros P alert body d. split; [vm_compute; reflexivity|].
  apply (@Classify_batch_equiv P Hour 5 body 0 d).
  - intros t. reflexivity.
  - discriminate.
  - intros t. reflexivity.
  - intros a b Ha Hb Hra Hrb.
    assert (forall x, x ∈ body -> x = alert "disk" "resolved" \/ x = alert "cpu" "firing") as Hx.
    { intros x Hx. apply elem_of_cons in Hx as [->|Hx]; [by left|].
      apply elem_of_cons in Hx as [->|Hx]; [by right|]. apply elem_of_cons in Hx as [->|Hx]; [by right|].
      by apply not_elem_of_nil in Hx. }
    destruct (Hx a Ha) as [->| ->]; [|discriminate Hra]. destruct (Hx b Hb) as [->| ->]; [discriminate Hrb|].
    vm_compute. discriminate.
Defined.

(** Two alerts with different labels share a fingerprint, and so a deduplication
    key: separators in label values are not escaped. *)
Example fingerprint_collision :
  let alert labels := Alert.mk "" SourceAlertmanager "" "" "" labels "firing" 1 1 "acme" in
  let l1 : gmap string string := {[ "job" := "db,pod=p1" ]} in
  let l2 : gmap string string := {[ "job" := "db"; "pod" := "p1" ]} in
  l1 <> l2 /\ computeFingerprint (alert l1) = computeFingerprint (alert l2).
Proof.
  intros alert l1 l2. split; [|vm_compute; reflexivity].
  intros E. assert (l1 !! "pod" = l2 !! "pod") as El by (by rewrite E). vm_compute in El. discriminate El.
Qed.
