(* ===== verification/Notification.v ===== *)
(** * Notification: contacts, rate limit, tenant configuration, dispatch

    services/notification/internal: domain/, store/, ratelimit/, tenantcache/,
    schedclient/, dispatcher/, notifier/, consumer/, handler/ and the routes of
    cmd/server/main.go.  Logs and metrics are left out; the calls of the tenant cache
    that overlap are in TenantCache. *)

From S2P Require Import Prelude Effects Json Events Interleaving Amqp Http Auth Redis.
Open Scope go_scope.

(** ** domain.go *)

Module UserContact.
Record t := mk {
  ID : string;
  UserID : string;
  TenantID : string;
  Email : string;
  MattermostUsername : string;
  EnabledChannels : list string;
  CreatedAt : Time;
  UpdatedAt : Time
}.
End UserContact.

Module NotificationLog.
Record t := mk {
  ID : string;
  IncidentID : string;
  TenantID : string;
  UserID : string;
  Channel : string;
  Status : string;
  Recipient : string;
  ErrorDetail : string;
  CreatedAt : Time
}.
End NotificationLog.

Definition ChannelEmail : string := "email".
Definition ChannelMattermost : string := "mattermost".
Definition StatusDelivered : string := "delivered".
Definition StatusFailed : string := "failed".
Definition StatusRateLimited : string := "rate_limited".

(** schedclient/client.go *)
Module TenantNotificationConfig.
Record t := mk {
  MattermostEnabled : bool;
  MattermostWebhookURL : string;
  MattermostChannel : string;
  SMTPFrom : string;
  EmailEnabled : bool;
  EmailReplyTo : string;
  EmailSubjectPrefix : string
}.

Definition zero : t := mk false "" "" "" false "" "".

Definition json_fields : fields t := [
  field "mattermost_enabled" MattermostEnabled (fun v a => mk v (MattermostWebhookURL a) (MattermostChannel a) (SMTPFrom a) (EmailEnabled a) (EmailReplyTo a) (EmailSubjectPrefix a)) dec_bool;
  field "mattermost_webhook_url" MattermostWebhookURL (fun v a => mk (MattermostEnabled a) v (MattermostChannel a) (SMTPFrom a) (EmailEnabled a) (EmailReplyTo a) (EmailSubjectPrefix a)) dec_string;
  field "mattermost_channel" MattermostChannel (fun v a => mk (MattermostEnabled a) (MattermostWebhookURL a) v (SMTPFrom a) (EmailEnabled a) (EmailReplyTo a) (EmailSubjectPrefix a)) dec_string;
  field "smtp_from" SMTPFrom (fun v a => mk (MattermostEnabled a) (MattermostWebhookURL a) (MattermostChannel a) v (EmailEnabled a) (EmailReplyTo a) (EmailSubjectPrefix a)) dec_string;
  field "email_enabled" EmailEnabled (fun v a => mk (MattermostEnabled a) (MattermostWebhookURL a) (MattermostChannel a) (SMTPFrom a) v (EmailReplyTo a) (EmailSubjectPrefix a)) dec_bool;
  field "email_reply_to" EmailReplyTo (fun v a => mk (MattermostEnabled a) (MattermostWebhookURL a) (MattermostChannel a) (SMTPFrom a) (EmailEnabled a) v (EmailSubjectPrefix a)) dec_string;
  field "email_subject_prefix" EmailSubjectPrefix (fun v a => mk (MattermostEnabled a) (MattermostWebhookURL a) (MattermostChannel a) (SMTPFrom a) (EmailEnabled a) (EmailReplyTo a) v) dec_string].
End TenantNotificationConfig.

(** dispatcher/email.go *)
Module EmailMessage.
Record t := mk {
  IncidentID : string;
  TenantID : string;
  Title : string;
  Severity : string;
  Status : string;
  Tier : Z;
  Link : string;
  ReplyTo : string;
  SubjectPrefix : string
}.
End EmailMessage.

(** ** State *)

(** A mail the SMTP server took, and a POST made to a webhook with its answer: a
    status, or [None] for a transport error. *)
Record mail := Mail { mail_from : string; mail_to : string; mail_raw : string }.

Record post := Post { post_url : string; post_channel : string; post_text : string; post_answer : option Z }.

Record db := Db {
  contacts : list UserContact.t;
  log : list NotificationLog.t;
  limits : redis;
  tenant_cache : gmap string (option TenantNotificationConfig.t * Time);
  mails : list mail;
  posts : list post
}.

#[export] Instance db_Redis : Redis db :=
  {| rds := limits;
     set_rds r d := Db (contacts d) (log d) r (tenant_cache d) (mails d) (posts d);
     rds_set_rds _ _ := eq_refl;
     set_rds_rds d := match d with Db _ _ _ _ _ _ => eq_refl end;
     set_rds_set_rds _ _ _ := eq_refl |}.

Local Abbreviation Prog A := (M db A).

(** What [net/url] finds in a URL, and what a POST to it answers: its status, or
    [None] for a transport error (also a refused connection to a private host). *)
Record url := Url { Scheme : string; Host : string; Path : string }.

Class Network := {
  url_Parse : string -> option url;
  http_post : nat -> string -> option Z
}.

(** A line break in a Go string literal. *)
Definition nl : string := String "010" EmptyString.
Definition crlf : string := String "013" nl.

(** ** ratelimit.go *)

(** The Lua script, one atomic step: [now] is its argument, [clock] the time of
    the server, which expires keys.  A number is stored as its text. *)
Definition bucket (max window now : Z) (e : option (rvalue * option Time)) : Z * Z :=
  match e with
  | Some (RHash h, _) =>
      match h !! "tokens" ≫= atoi, h !! "last_refill" ≫= atoi with
      | Some tokens, Some last_refill =>
          if window <=? now - last_refill then (max, now) else (tokens, last_refill)
      | _, _ => (max, now)
      end
  | _ => (max, now)
  end.

(** [HMSET] of the two fields, then [EXPIRE], which deletes the key when the time
    to live is not positive. *)
Definition store_bucket (window : Z) (clock : Time) (key : string) (tokens last_refill : Z)
    (e : option (rvalue * option Time)) (st : redis) : redis :=
  let h := match e with Some (RHash h, _) => h | _ => ∅ end in
  if 0 <? window * 2
  then <[key := (RHash (<["last_refill" := Itoa last_refill]> (<["tokens" := Itoa tokens]> h)),
                 Some (Add clock (window * 2 * Second)))]> st
  else delete key st.

Definition script (max window : Z) (key : string) (now : Z) (clock : Time) (st : redis) : res (bool * redis) :=
  let e := lookup_live clock key st in
  match e with
  | Some (RStr _, _) => Err wrong_type
  | _ =>
      let '(tokens, last_refill) := bucket max window now e in
      if 0 <? tokens then Ok (true, store_bucket window clock key (tokens - 1) last_refill e st)
      else Ok (false, st)
  end.

Definition limit_key (tenantID userID channel : string) : string :=
  "oncall:ratelimit:notif:" +:+ tenantID +:+ ":" +:+ userID +:+ ":" +:+ channel.

(** ** The retries of the dispatchers *)

Section Attempts.
Context `{Platform} {D : Type}.

(** Three attempts with pauses of one and two seconds. *)
Fixpoint attempts (n attempt : nat) (msg : string) (send : M D (res unit)) (lastErr : err) : M D (res unit) :=
  match n with
  | O => Ret (Err (Wrap msg lastErr))
  | S n =>
      let! r := send in
      match r with
      | Ok _ => Ret (Ok tt)
      | Err e =>
          if (attempt <? 2)%nat then
            let! done := sleep_or_Done (2 ^ Z.of_nat attempt * Second) in
            if done : bool then Ret (Err (ErrNew "context canceled"))
            else attempts n (S attempt) msg send e
          else attempts n (S attempt) msg send e
      end
  end.

End Attempts.

Section Service.
Context `{Platform} `{TimeText} `{HttpEnv} `{Network}.

(** [l.max] and [l.window]. *)
Variables (max window : Z).

Definition Allow (tenantID userID channel : string) : Prog (res bool) :=
  let! now := time_Now in
  let? r := rcall (script max window (limit_key tenantID userID channel) (now / Second)) wrap "rate limit" in
  Ret (Ok r).

(** ** store.go *)

Definition same_contact (userID tenantID : string) (c : UserContact.t) : bool :=
  String.eqb (UserContact.UserID c) userID && String.eqb (UserContact.TenantID c) tenantID.

Definition UpsertContact (c : UserContact.t) : Prog (res UserContact.t) :=
  sql Pool [] (fun now uuid d =>
    let hit := same_contact (UserContact.UserID c) (UserContact.TenantID c) in
    let upd o := UserContact.mk (UserContact.ID o) (UserContact.UserID o) (UserContact.TenantID o)
                   (UserContact.Email c) (UserContact.MattermostUsername c) (UserContact.EnabledChannels c)
                   (UserContact.CreatedAt o) now in
    match find hit (contacts d) with
    | Some o => Ok (upd o, Db (map (fun o => if hit o then upd o else o) (contacts d)) (log d) (limits d)
                             (tenant_cache d) (mails d) (posts d))
    | None =>
        if existsb (fun o => String.eqb (UserContact.ID o) uuid) (contacts d) then Err unique_violation
        else
          let row := UserContact.mk uuid (UserContact.UserID c) (UserContact.TenantID c) (UserContact.Email c)
                       (UserContact.MattermostUsername c) (UserContact.EnabledChannels c) now now in
          Ok (row, Db (contacts d ++ [row]) (log d) (limits d) (tenant_cache d) (mails d) (posts d))
    end).

Definition GetContact (tenantID userID : string) : Prog (res UserContact.t) :=
  sql Pool [] (fun _ _ d =>
    match find (same_contact userID tenantID) (contacts d) with
    | Some c => Ok (c, d)
    | None => Err ErrNotFound
    end).

Definition AppendLog (l : NotificationLog.t) : Prog (res unit) :=
  sql Pool [] (fun now uuid d =>
    if existsb (fun o => String.eqb (NotificationLog.ID o) uuid) (log d) then Err unique_violation
    else Ok (tt, Db (contacts d)
               (log d ++ [NotificationLog.mk uuid (NotificationLog.IncidentID l) (NotificationLog.TenantID l)
                  (NotificationLog.UserID l) (NotificationLog.Channel l) (NotificationLog.Status l)
                  (NotificationLog.Recipient l) (NotificationLog.ErrorDetail l) now])
               (limits d) (tenant_cache d) (mails d) (posts d))).

(** ** schedclient/client.go: a tenant without configuration is nil *)

Variable sched : Client.

Definition GetTenantNotificationConfig (tenantSlug : string) : Prog (res (option TenantNotificationConfig.t)) :=
  let! r := GetJSON sched ("/api/schedules/v1/tenants/" +:+ tenantSlug +:+ "/notification-config")
              (dec_struct TenantNotificationConfig.json_fields) TenantNotificationConfig.zero in
  Ret (match r with
       | Err e => if errors_Is e ErrNotFound then Ok None else Err (Wrap "schedclient" e)
       | Ok cfg => Ok (Some cfg)
       end).

(** ** tenantcache/cache.go *)

(** [c.ttl]. *)
Variable ttl : Duration.

Definition set_cache (m : gmap string (option TenantNotificationConfig.t * Time)) (d : db) : db :=
  Db (contacts d) (log d) (limits d) m (mails d) (posts d).

(** The function given to [sf.Do]. *)
Definition cache_fetch (tenantSlug : string) : Prog (res (option TenantNotificationConfig.t)) :=
  let? cfg := GetTenantNotificationConfig tenantSlug in
  let! now := time_Now in
  let! _ := local_step (fun d => (tt, set_cache (<[tenantSlug := (cfg, Add now ttl)]> (tenant_cache d)) d)) in
  Ret (Ok cfg).

(** A call that no other call overlaps; TenantCache has the concurrent ones. *)
Definition cache_Get (tenantSlug : string) : Prog (res (option TenantNotificationConfig.t)) :=
  let! e := local_step (fun d => (tenant_cache d !! tenantSlug, d)) in
  match e with
  | Some (cfg, expiresAt) =>
      let! now := time_Now in
      if Before now expiresAt then Ret (Ok cfg) else cache_fetch tenantSlug
  | None => cache_fetch tenantSlug
  end.

Definition evictExpired : Prog unit :=
  let! now := time_Now in
  local_step (fun d => (tt, set_cache (filter (fun e => ~ (e.2.2 < now)) (tenant_cache d)) d)).

(** A sweep per [ttl] until the context is cancelled; [None] is running out of
    fuel. *)
Fixpoint runSweeper (fuel : nat) : Prog (option unit) :=
  match fuel with
  | O => Ret None
  | S fuel =>
      let! stop := sleep_or_Done ttl in
      if stop then Ret (Some tt)
      else
        let! _ := evictExpired in
        runSweeper fuel
  end.

(** ** dispatcher/email.go *)

(** A line of the body or the headers that is left out when its value is empty. *)
Definition opt_line (name value eol : string) : string :=
  if String.eqb value "" then "" else name +:+ value +:+ eol.

Definition email_subject (msg : EmailMessage.t) : string :=
  let subject := if String.eqb (EmailMessage.Title msg) ""
                 then "[SRE OnCall] Incident " +:+ EmailMessage.IncidentID msg +:+ " escalated (tier "
                      +:+ Itoa (EmailMessage.Tier msg) +:+ ")"
                 else "[SRE OnCall] [" +:+ EmailMessage.Severity msg +:+ "] " +:+ EmailMessage.Title msg in
  if String.eqb (EmailMessage.SubjectPrefix msg) "" then subject
  else EmailMessage.SubjectPrefix msg +:+ " " +:+ subject.

Definition email_headers (from to : string) (msg : EmailMessage.t) : string :=
  "From: " +:+ from +:+ crlf +:+ "To: " +:+ to +:+ crlf
  +:+ opt_line "Reply-To: " (EmailMessage.ReplyTo msg) crlf
  +:+ "Subject: " +:+ email_subject msg +:+ crlf +:+ "MIME-Version: 1.0" +:+ crlf
  +:+ "Content-Type: text/plain; charset=" +:+ String "034" ("utf-8" +:+ String "034" crlf).

Definition email_body (now : Time) (msg : EmailMessage.t) : string :=
  "Incident: " +:+ EmailMessage.IncidentID msg +:+ nl
  +:+ "Tenant: " +:+ EmailMessage.TenantID msg +:+ nl
  +:+ opt_line "Title: " (EmailMessage.Title msg) nl
  +:+ opt_line "Severity: " (EmailMessage.Severity msg) nl
  +:+ opt_line "Status: " (EmailMessage.Status msg) nl
  +:+ "Tier: " +:+ Itoa (EmailMessage.Tier msg) +:+ nl
  +:+ opt_line "Link: " (EmailMessage.Link msg) nl
  +:+ "Time: " +:+ time_Format (now / Second * Second) +:+ nl.

(** [smtp.SendMail]: an address with a line break is refused. *)
Definition has_break (s : string) : bool := Contains s (String "013" EmptyString) || Contains s nl.

Definition SendMail (from to raw : string) : Prog (res unit) :=
  call (fun _ _ d =>
    if has_break from || has_break to then Err (ErrNew "smtp: A line must not contain CR or LF")
    else Ok (tt, Db (contacts d) (log d) (limits d) (tenant_cache d) (mails d ++ [Mail from to raw]) (posts d))).

Definition Email_Send (from to : string) (msg : EmailMessage.t) : Prog (res unit) :=
  let! now := time_Now in
  let raw := email_headers from to msg +:+ crlf +:+ email_body now msg in
  attempts 3 0 "email send failed after 3 attempts" (SendMail from to raw) (ErrNew "").

(** ** dispatcher/mattermost.go *)

Definition post_status (code : Z) : res unit :=
  if (200 <=? code) && (code <? 300) then Ok tt else Err (ErrNew "mattermost webhook returned").

(** One POST; a URL that cannot be parsed ends the whole [Send]. *)
Definition post_once (webhookURL channel text : string) : Prog (res unit) :=
  Atomic (fun w =>
    let answer := http_post (tick w) webhookURL in
    (match answer with
     | None => Err (ErrNew "do request")
     | Some code => post_status code
     end,
     World (S (tick w)) (Db (contacts (data w)) (log (data w)) (limits (data w)) (tenant_cache (data w)) (mails (data w))
                           (posts (data w) ++ [Post webhookURL channel text answer])))) Ret.

Definition Mattermost_Send (webhookURL channel text : string) : Prog (res unit) :=
  match url_Parse webhookURL with
  | None => Ret (Err (ErrNew "parse url"))
  | Some _ => attempts 3 0 "mattermost send failed after 3 attempts" (post_once webhookURL channel text) (ErrNew "")
  end.

(** ** notifier/notifier.go *)

(** [n.smtpFrom], and [n.frontendBaseURL] without trailing slashes. *)
Variables (smtpFrom frontendBaseURL : string).

Definition incidentLink (tenantSlug incidentID : string) : string :=
  if String.eqb (TrimRight frontendBaseURL "/") "" then ""
  else TrimRight frontendBaseURL "/" +:+ "/" +:+ tenantSlug +:+ "/incidents?incident=" +:+ incidentID.

Definition webhookURLUsable (raw : string) : bool :=
  if String.eqb raw "" || Contains raw "***" then false
  else match url_Parse raw with
       | None => false
       | Some u => if String.eqb (Scheme u) "" || String.eqb (Host u) "" then false
                   else negb (String.eqb (Path u) "") && negb (String.eqb (Path u) "/")
       end.

Definition appendLog (l : NotificationLog.t) : Prog unit :=
  let! _ := AppendLog l in Ret tt.

Definition log_entry (incidentID tenantID userID channel status recipient errDetail : string) : NotificationLog.t :=
  NotificationLog.mk "" incidentID tenantID userID channel status recipient errDetail Alert.zero_time.

Definition outcome_entry (incidentID tenantID userID channel recipient : string) (r : res unit) : NotificationLog.t :=
  match r with
  | Ok _ => log_entry incidentID tenantID userID channel StatusDelivered recipient ""
  | Err e => log_entry incidentID tenantID userID channel StatusFailed recipient (error_text e)
  end.

Definition dispatchChannel (tenantID userID incidentID channel recipient : string) (send : Prog (res unit)) : Prog unit :=
  let! r := Allow tenantID userID channel in
  let allowed := match r with Err _ => true | Ok b => b end in
  if negb allowed then appendLog (log_entry incidentID tenantID userID channel StatusRateLimited recipient "")
  else
    let! sendErr := send in
    appendLog (outcome_entry incidentID tenantID userID channel recipient sendErr).

Definition mattermostText (mention link : string) (ev : EscalationTriggered.t) : string :=
  (if String.eqb (EscalationTriggered.IncidentTitle ev) "" then
     mention +:+ ":rotating_light: Incident `" +:+ EscalationTriggered.IncidentID ev +:+ "` escalated to tier "
     +:+ Itoa (EscalationTriggered.Tier ev) +:+ " — you are on call"
   else
     mention +:+ ":rotating_light: [" +:+ EscalationTriggered.IncidentSeverity ev +:+ "] "
     +:+ EscalationTriggered.IncidentTitle ev +:+ nl
     +:+ "Incident `" +:+ EscalationTriggered.IncidentID ev +:+ "` — status " +:+ EscalationTriggered.IncidentStatus ev
     +:+ ", tier " +:+ Itoa (EscalationTriggered.Tier ev) +:+ " — you are on call")
  +:+ (if String.eqb link "" then "" else nl +:+ link).

Definition missing_webhook : string := "mattermost webhook URL missing or masked".

(** The case of one enabled channel. *)
Definition dispatch_one (ev : EscalationTriggered.t) (contact : UserContact.t)
    (cfg : option TenantNotificationConfig.t) (ch : string) : Prog unit :=
  let link := incidentLink (EscalationTriggered.TenantSlug ev) (EscalationTriggered.IncidentID ev) in
  let msg replyTo prefix := EmailMessage.mk (EscalationTriggered.IncidentID ev) (EscalationTriggered.TenantID ev)
               (EscalationTriggered.IncidentTitle ev) (EscalationTriggered.IncidentSeverity ev)
               (EscalationTriggered.IncidentStatus ev) (EscalationTriggered.Tier ev) link replyTo prefix in
  if String.eqb (ToLower ch) ChannelEmail then
    if String.eqb (UserContact.Email contact) "" then Ret tt
    else match cfg with
    | Some c =>
        if negb (TenantNotificationConfig.EmailEnabled c) then Ret tt
        else
          let from := if String.eqb (TenantNotificationConfig.SMTPFrom c) "" then smtpFrom
                      else TenantNotificationConfig.SMTPFrom c in
          dispatchChannel (EscalationTriggered.TenantID ev) (EscalationTriggered.OncallUserID ev)
            (EscalationTriggered.IncidentID ev) ChannelEmail (UserContact.Email contact)
            (Email_Send from (UserContact.Email contact)
               (msg (TenantNotificationConfig.EmailReplyTo c) (TenantNotificationConfig.EmailSubjectPrefix c)))
    | None =>
        dispatchChannel (EscalationTriggered.TenantID ev) (EscalationTriggered.OncallUserID ev)
          (EscalationTriggered.IncidentID ev) ChannelEmail (UserContact.Email contact)
          (Email_Send smtpFrom (UserContact.Email contact) (msg "" ""))
    end
  else if String.eqb (ToLower ch) ChannelMattermost then
    match cfg with
    | Some c =>
        if negb (TenantNotificationConfig.MattermostEnabled c) then Ret tt
        else if negb (webhookURLUsable (TenantNotificationConfig.MattermostWebhookURL c)) then
          appendLog (log_entry (EscalationTriggered.IncidentID ev) (EscalationTriggered.TenantID ev)
            (EscalationTriggered.OncallUserID ev) ChannelMattermost StatusFailed "" missing_webhook)
        else
          let mention := if String.eqb (UserContact.MattermostUsername contact) "" then ""
                         else "@" +:+ UserContact.MattermostUsername contact +:+ " " in
          dispatchChannel (EscalationTriggered.TenantID ev) (EscalationTriggered.OncallUserID ev)
            (EscalationTriggered.IncidentID ev) ChannelMattermost (TenantNotificationConfig.MattermostWebhookURL c)
            (Mattermost_Send (TenantNotificationConfig.MattermostWebhookURL c)
               (TenantNotificationConfig.MattermostChannel c) (mattermostText mention link ev))
    | None =>
        appendLog (log_entry (EscalationTriggered.IncidentID ev) (EscalationTriggered.TenantID ev)
          (EscalationTriggered.OncallUserID ev) ChannelMattermost StatusFailed "" missing_webhook)
    end
  else Ret tt.

Definition dispatchToContact (ev : EscalationTriggered.t) (contact : UserContact.t)
    (cfg : option TenantNotificationConfig.t) : Prog unit :=
  for_each (UserContact.EnabledChannels contact) (dispatch_one ev contact cfg).

(** A failed fetch goes on without a configuration. *)
Definition config_or_nil (r : res (option TenantNotificationConfig.t)) : option TenantNotificationConfig.t :=
  match r with Ok cfg => cfg | Err _ => None end.

Definition NotifyTriggered (ev : EscalationTriggered.t) : Prog (res unit) :=
  if String.eqb (EscalationTriggered.OncallUserID ev) "" then Ret (Ok tt)
  else
    let! contact := GetContact (EscalationTriggered.TenantID ev) (EscalationTriggered.OncallUserID ev) in
    match contact with
    | Err e => if bool_decide (e = ErrNotFound) then Ret (Ok tt) else Ret (Err (Wrap "notifier: get contact" e))
    | Ok contact =>
        let! cfg := cache_Get (EscalationTriggered.TenantSlug ev) in
        let! _ := dispatchToContact ev contact (config_or_nil cfg) in
        Ret (Ok tt)
    end.

Definition NotifyExhausted (ev : EscalationExhausted.t) : Prog (res unit) :=
  let failed := log_entry (EscalationExhausted.IncidentID ev) (EscalationExhausted.TenantID ev) "" ChannelMattermost
                  StatusFailed "" missing_webhook in
  let! cfg := cache_Get (EscalationExhausted.TenantSlug ev) in
  match config_or_nil cfg with
  | None => let! _ := appendLog failed in Ret (Ok tt)
  | Some c =>
      if negb (TenantNotificationConfig.MattermostEnabled c) then Ret (Ok tt)
      else if negb (webhookURLUsable (TenantNotificationConfig.MattermostWebhookURL c)) then
        let! _ := appendLog failed in Ret (Ok tt)
      else
        let text := ":sos: Escalation exhausted for incident `" +:+ EscalationExhausted.IncidentID ev
                    +:+ "` — no responders remain" in
        let! sendErr := Mattermost_Send (TenantNotificationConfig.MattermostWebhookURL c)
                          (TenantNotificationConfig.MattermostChannel c) text in
        let! _ := appendLog (outcome_entry (EscalationExhausted.IncidentID ev) (EscalationExhausted.TenantID ev) ""
                    ChannelMattermost (TenantNotificationConfig.MattermostWebhookURL c) sendErr) in
        Ret (Ok tt)
  end.

(** ** consumer/consumer.go *)

Definition drop_error (r : res unit) : res unit := match r with Ok _ => Ok tt | Err e => Err (Drop e) end.

Definition handle (env : Envelope.t) : Prog (res unit) :=
  if String.eqb (Envelope.Type_ env) RoutingKeyEscalationTriggered then
    match Envelope.DecodePayload env EscalationTriggered.zero with
    | Err e => Ret (Err (Drop (Wrap "decode triggered" e)))
    | Ok ev => let! r := NotifyTriggered ev in Ret (drop_error r)
    end
  else if String.eqb (Envelope.Type_ env) RoutingKeyEscalationExhausted then
    match Envelope.DecodePayload env EscalationExhausted.zero with
    | Err e => Ret (Err (Drop (Wrap "decode exhausted" e)))
    | Ok ev => let! r := NotifyExhausted ev in Ret (drop_error r)
    end
  else Ret (Ok tt).

(** The entry for one delivery outside [Consume]. *)
Definition ProcessDelivery (body : json) : Prog (res unit) :=
  match Unmarshal Envelope.decode body Envelope.zero with
  | Err e => Ret (Err (Wrap "consumer: unmarshal envelope" e))
  | Ok env => handle env
  end.

End Service.
