(* ===== verification/TenantCache.v ===== *)
(** * The tenant cache of notification under concurrent calls

    services/notification/internal/tenantcache.  Goroutines call [Get] at the same
    time; [singleflight] lets one of those that missed run the fetch and gives its
    result to the others.  A labelled transition system: a step is what one
    goroutine does while it holds a mutex, one call of the fetch, or a sweep (which
    reads the clock just before it takes the mutex). *)

From S2P Require Import Prelude Effects Json Events Interleaving Http Notification.
From Stdlib Require Import Relation_Operators Wellfounded.
Open Scope go_scope.

(** ** golang.org/x/sync/singleflight

    A group knows for which keys an execution is in flight. *)
Class Singleflight := {
  group : Type;
  idle : group;
  in_flight : group -> string -> bool;
  take_off : string -> group -> group;
  land : string -> group -> group
}.

Class SingleflightLaws `{Singleflight} : Prop := {
  in_flight_idle k : in_flight idle k = false;
  in_flight_take_off k g k' : in_flight (take_off k g) k' = String.eqb k k' || in_flight g k';
  in_flight_land k g k' : in_flight (land k g) k' = negb (String.eqb k k') && in_flight g k'
}.

Abbreviation config := (option TenantNotificationConfig.t).

(** Where a returned configuration comes from: a hit at a time, or a flight. *)
Inductive origin := Hit (now : Time) | Flight.

(** A goroutine in [Get(slug)]. *)
Inductive caller :=
| Looking                                 (* before it takes [c.mu] *)
| Missed                                  (* between the unlock and [c.sf.Do] *)
| Leading (p : M db (res config))         (* in the fetch, [p] is left of it *)
| Storing (cfg : config)                  (* fetched, before it takes [c.mu] *)
| Landing (r : res config)                (* the function given to [Do] has returned *)
| Following                               (* waits for the flight of another *)
| Got (r : res config) (o : origin).

Section Cache.
Context `{Platform} `{HttpEnv} `{Singleflight}.
Variable sched : Client.
Variable ttl : Duration.

Record cache := Cache {
  callers : list (string * caller);
  flights : group;
  stored : list (string * config * Time)   (* every store so far, with its time *)
}.

Definition start (slugs : list string) : cache := Cache (map (fun s => (s, Looking)) slugs) idle [].

Local Abbreviation state := (cache * world db)%type.

(** The waiters of a flight get its result. *)
Definition arrive (slug : string) (r : res config) (x : string * caller) : string * caller :=
  match x with
  | (s, Following) => if String.eqb s slug then (s, Got r Flight) else x
  | _ => x
  end.

Definition one_tick (w : world db) : world db := World (S (tick w)) (data w).

Definition store (slug : string) (cfg : config) (w : world db) : world db :=
  World (S (tick w))
    (set_cache (<[slug := (cfg, Add (now_at (tick w)) ttl)]> (tenant_cache (data w))) (data w)).

Inductive action := Look (i : nat) | Do_ (i : nat) | Fetch (i : nat) | Fetched (i : nat)
| Store (i : nat) | Land (i : nat) | Sweep.

Inductive step : action -> state -> state -> Prop :=
| step_absent cs g st w i slug :
    cs !! i = Some (slug, Looking) -> tenant_cache (data w) !! slug = None ->
    step (Look i) (Cache cs g st, w) (Cache (<[i := (slug, Missed)]> cs) g st, w)
| step_expired cs g st w i slug cfg exp :
    cs !! i = Some (slug, Looking) -> tenant_cache (data w) !! slug = Some (cfg, exp) ->
    Before (now_at (tick w)) exp = false ->
    step (Look i) (Cache cs g st, w) (Cache (<[i := (slug, Missed)]> cs) g st, one_tick w)
| step_hit cs g st w i slug cfg exp :
    cs !! i = Some (slug, Looking) -> tenant_cache (data w) !! slug = Some (cfg, exp) ->
    Before (now_at (tick w)) exp = true ->
    step (Look i) (Cache cs g st, w)
      (Cache (<[i := (slug, Got (Ok cfg) (Hit (now_at (tick w))))]> cs) g st, one_tick w)
| step_lead cs g st w i slug :
    cs !! i = Some (slug, Missed) -> in_flight g slug = false ->
    step (Do_ i) (Cache cs g st, w)
      (Cache (<[i := (slug, Leading (GetTenantNotificationConfig sched slug))]> cs) (take_off slug g) st, w)
| step_follow cs g st w i slug :
    cs !! i = Some (slug, Missed) -> in_flight g slug = true ->
    step (Do_ i) (Cache cs g st, w) (Cache (<[i := (slug, Following)]> cs) g st, w)
| step_fetch cs g st w i slug p p' w' :
    cs !! i = Some (slug, Leading p) -> pstep p w = Some (p', w') ->
    step (Fetch i) (Cache cs g st, w) (Cache (<[i := (slug, Leading p')]> cs) g st, w')
| step_failed cs g st w i slug e :
    cs !! i = Some (slug, Leading (Ret (Err e))) ->
    step (Fetched i) (Cache cs g st, w) (Cache (<[i := (slug, Landing (Err e))]> cs) g st, w)
| step_fetched cs g st w i slug cfg :
    cs !! i = Some (slug, Leading (Ret (Ok cfg))) ->
    step (Fetched i) (Cache cs g st, w) (Cache (<[i := (slug, Storing cfg)]> cs) g st, w)
| step_store cs g st w i slug cfg :
    cs !! i = Some (slug, Storing cfg) ->
    step (Store i) (Cache cs g st, w)
      (Cache (<[i := (slug, Landing (Ok cfg))]> cs) g (st ++ [(slug, cfg, now_at (tick w))]), store slug cfg w)
| step_land cs g st w i slug r :
    cs !! i = Some (slug, Landing r) ->
    step (Land i) (Cache cs g st, w)
      (Cache (map (arrive slug r) (<[i := (slug, Got r Flight)]> cs)) (land slug g) st, w)
| step_sweep cs g st w :
    step Sweep (Cache cs g st, w) (Cache cs g st, (run evictExpired w).2).

Definition steps : relation state := rtc (fun x y => exists a, step a x y).

(** One rule, executed. *)
Definition fire (a : action) (x : state) : option state :=
  let '(Cache cs g st, w) := x in
  match a with
  | Look i =>
      match cs !! i with
      | Some (slug, Looking) =>
          match tenant_cache (data w) !! slug with
          | None => Some (Cache (<[i := (slug, Missed)]> cs) g st, w)
          | Some (cfg, exp) =>
              if Before (now_at (tick w)) exp
              then Some (Cache (<[i := (slug, Got (Ok cfg) (Hit (now_at (tick w))))]> cs) g st, one_tick w)
              else Some (Cache (<[i := (slug, Missed)]> cs) g st, one_tick w)
          end
      | _ => None
      end
  | Do_ i =>
      match cs !! i with
      | Some (slug, Missed) =>
          if in_flight g slug then Some (Cache (<[i := (slug, Following)]> cs) g st, w)
          else Some (Cache (<[i := (slug, Leading (GetTenantNotificationConfig sched slug))]> cs)
                       (take_off slug g) st, w)
      | _ => None
      end
  | Fetch i =>
      match cs !! i with
      | Some (slug, Leading p) =>
          match pstep p w with
          | Some (p', w') => Some (Cache (<[i := (slug, Leading p')]> cs) g st, w')
          | None => None
          end
      | _ => None
      end
  | Fetched i =>
      match cs !! i with
      | Some (slug, Leading (Ret (Err e))) => Some (Cache (<[i := (slug, Landing (Err e))]> cs) g st, w)
      | Some (slug, Leading (Ret (Ok cfg))) => Some (Cache (<[i := (slug, Storing cfg)]> cs) g st, w)
      | _ => None
      end
  | Store i =>
      match cs !! i with
      | Some (slug, Storing cfg) =>
          Some (Cache (<[i := (slug, Landing (Ok cfg))]> cs) g (st ++ [(slug, cfg, now_at (tick w))]), store slug cfg w)
      | _ => None
      end
  | Land i =>
      match cs !! i with
      | Some (slug, Landing r) =>
          Some (Cache (map (arrive slug r) (<[i := (slug, Got r Flight)]> cs)) (land slug g) st, w)
      | _ => None
      end
  | Sweep => Some (Cache cs g st, (run evictExpired w).2)
  end.

Fixpoint fire_all (l : list action) (x : state) : option state :=
  match l with
  | [] => Some x
  | a :: l => match fire a x with Some x' => fire_all l x' | None => None end
  end.

Lemma cache_fire_step a x x' : fire a x = Some x' -> step a x x'.
Proof.
  destruct x as [[cs g st] w]. destruct a; simpl; repeat case_match; simplify_eq/=;
    intros [= <-]; by econstructor.
Qed.

Lemma cache_fire_all_steps l x x' : fire_all l x = Some x' -> steps x x'.
Proof.
  revert x. induction l as [|a l IH]; intros x; simpl.
  - intros [= ->]. reflexivity.
  - destruct (fire a x) as [x1|] eqn:E; [|done]. intros Hl.
    apply rtc_l with x1; [exists a; by apply cache_fire_step|by apply IH].
Qed.

End Cache.

(** ** Invariants *)

Definition is_leading (c : caller) : bool :=
  match c with Leading _ | Storing _ | Landing _ => true | _ => false end.

Definition leads (slug : string) (x : string * caller) : bool := String.eqb x.1 slug && is_leading x.2.

(** How many goroutines run the fetch of a tenant. *)
Definition leaders `{Singleflight} (slug : string) (c : cache) : nat := count (leads slug) (callers c).

Section Invariants.
Context `{Platform} `{HttpEnv} `{SingleflightLaws}.
Variable sched : Client.
Variable ttl : Duration.

(** One flight per tenant, and a waiter has a flight to wait for. *)
Definition coalesced (c : cache) : Prop :=
  (forall slug, leaders slug c = Nat.b2n (in_flight (flights c) slug)) /\
  (forall i slug, callers c !! i = Some (slug, Following) -> in_flight (flights c) slug = true).

Lemma leads_arrive slug s r x : leads slug (arrive s r x) = leads slug x.
Proof. destruct x as [s' []]; try done. simpl. by destruct (String.eqb s' s). Qed.

Lemma leads_in slug s c : is_leading c = true -> leads slug (s, c) = String.eqb s slug.
Proof. intros Hc. unfold leads. simpl. by rewrite Hc, andb_true_r. Qed.

Lemma leads_out slug s c : is_leading c = false -> leads slug (s, c) = false.
Proof. intros Hc. unfold leads. simpl. by rewrite Hc, andb_false_r. Qed.

(** A caller that moves without taking off or landing. *)
Lemma coalesced_move cs g st st' i slug c c' :
  coalesced (Cache cs g st) -> cs !! i = Some (slug, c) -> is_leading c' = is_leading c ->
  (c' = Following -> in_flight g slug = true) ->
  coalesced (Cache (<[i := (slug, c')]> cs) g st').
Proof.
  intros [Hl Hf] Hi Hc Hn. split; simpl.
  - intros s. specialize (Hl s). unfold leaders in *. simpl in *.
    pose proof (count_insert (leads s) cs i _ (slug, c') Hi) as E.
    assert (leads s (slug, c') = leads s (slug, c)) as El by (unfold leads; simpl; by rewrite Hc).
    rewrite El in E. lia.
  - intros j s Hj. apply list_lookup_insert_Some in Hj as [(_ & E & _)|[_ Hj]]; [|by apply (Hf j)].
    injection E as -> ->. by apply Hn.
Qed.

Lemma coalesced_step a x y : step sched ttl a x y -> coalesced x.1 -> coalesced y.1.
Proof.
  intros Hs Hi. inversion Hs; subst; simpl in *; try done;
    try (eapply coalesced_move; [exact Hi|eassumption|done|done]).
  - destruct Hi as [Hl Hf]. simpl in Hl, Hf. split; simpl.
    + intros s. rewrite in_flight_take_off.
      pose proof (count_insert (leads s) cs i _ (slug, Leading (GetTenantNotificationConfig sched slug)) ltac:(eassumption)) as E.
      specialize (Hl s). unfold leaders in *. simpl in *. rewrite leads_out, leads_in in E by done.
      destruct (String.eqb_spec slug s) as [->|]; simpl in *; [|lia].
      match goal with Hx : in_flight g s = false |- _ => rewrite Hx in Hl end. simpl in Hl. lia.
    + intros j s Hj. rewrite in_flight_take_off.
      apply list_lookup_insert_Some in Hj as [(_ & E & _)|[_ Hj]]; [done|]. rewrite (Hf j s Hj). apply orb_true_r.
  - destruct Hi as [Hl Hf]. simpl in Hl, Hf. split; simpl.
    + intros s. rewrite in_flight_land. unfold leaders. simpl. rewrite count_map by (intros; apply leads_arrive).
      pose proof (count_insert (leads s) cs i _ (slug, Got r Flight) ltac:(eassumption)) as E.
      specialize (Hl s). unfold leaders in *. simpl in *. rewrite leads_in, leads_out in E by done.
      destruct (String.eqb_spec slug s) as [->|]; simpl in *; [|lia].
      destruct (in_flight g s); simpl in *; lia.
    + intros j s Hj. rewrite in_flight_land. rewrite list_lookup_fmap in Hj.
      destruct (<[i := _]> cs !! j) as [[s' c']|] eqn:Ej; [|done]. simpl in Hj.
      destruct c'; simpl in Hj; simplify_eq. destruct (String.eqb_spec s' slug) as [->|Hn]; [done|].
      simplify_eq. apply list_lookup_insert_Some in Ej as [(_ & E & _)|[_ Ej]]; [done|].
      rewrite (Hf j s Ej). by destruct (String.eqb_spec slug s).
Qed.

Lemma coalesced_start slugs : coalesced (start slugs).
Proof.
  split; simpl.
  - intros slug. rewrite in_flight_idle. unfold leaders, start. simpl. apply count_zero, Forall_map, Forall_true.
    intros s. by apply leads_out.
  - intros i slug Hi. apply list_lookup_fmap_Some in Hi as (s & [= ] & _).
Qed.

(** *** Where a configuration comes from *)

(** What is known of every answer of the scheduling service for a tenant. *)
Variable Q : string -> config -> Prop.

Definition answer_ok (slug : string) (r : res config) : Prop := forall cfg, r = Ok cfg -> Q slug cfg.

Hypothesis Q_fetch : forall slug, always (GetTenantNotificationConfig sched slug) (answer_ok slug).

(** Stored at some time, after a fetch. *)
Definition known (st : list (string * config * Time)) (slug : string) (r : res config) : Prop :=
  forall cfg, r = Ok cfg -> exists t, (slug, cfg, t) ∈ st.

Definition caller_ok (st : list (string * config * Time)) (x : string * caller) : Prop :=
  match x.2 with
  | Leading p => always p (answer_ok x.1) /\ respects eq p
  | Storing cfg => Q x.1 cfg
  | Landing r | Got r Flight => known st x.1 r
  | Got r (Hit now) => forall cfg, r = Ok cfg -> exists t, (x.1, cfg, t) ∈ st /\ now < t + ttl
  | _ => True
  end.

Record sourced (c : cache) (d : db) : Prop := Sourced {
  sourced_cache : forall slug cfg exp, tenant_cache d !! slug = Some (cfg, exp) ->
    exists t, (slug, cfg, t) ∈ stored c /\ exp = t + ttl;
  sourced_stored : forall slug cfg t, (slug, cfg, t) ∈ stored c -> Q slug cfg;
  sourced_callers : Forall (caller_ok (stored c)) (callers c)
}.

Lemma caller_ok_more st st' x : (forall y, y ∈ st -> y ∈ st') -> caller_ok st x -> caller_ok st' x.
Proof.
  intros Hs. unfold caller_ok, known. destruct (x.2) as [| | | | | |r []]; try done; intros Hx cfg E.
  - destruct (Hx _ E) as (t & ?). eauto.
  - destruct (Hx _ E) as (t & ? & ?). eauto.
  - destruct (Hx _ E) as (t & ?). eauto.
Qed.

Lemma fetch_reads slug : respects eq (GetTenantNotificationConfig sched slug).
Proof.
  unfold GetTenantNotificationConfig, GetJSON, Do. apply respects_bind; [|done].
  apply respects_bind; [by apply respects_read|done].
Qed.

Lemma sourced_move cs g g' st d i slug c c' :
  sourced (Cache cs g st) d -> cs !! i = Some (slug, c) ->
  (caller_ok st (slug, c) -> caller_ok st (slug, c')) ->
  sourced (Cache (<[i := (slug, c')]> cs) g' st) d.
Proof.
  intros [Hc Hs Hf] Hi Hk. split; [done..|]. simpl in *. apply Forall_insert; [done|].
  rewrite Forall_lookup in Hf. by apply Hk, (Hf i).
Qed.

Lemma reads_pstep {A} (p p' : M db A) w w' (R : A -> Prop) :
  respects eq p -> always p R -> pstep p w = Some (p', w') ->
  data w = data w' /\ respects eq p' /\ always p' R.
Proof.
  destruct p as [r|B op k]; simpl; [done|]. intros Hr Ha Hp. specialize (Hr w). specialize (Ha w).
  destruct (op w) as [b w1]. simplify_eq/=. by destruct Hr as [[Ed Hr]|[[] _]].
Qed.

Lemma sourced_step a x y :
  step sched ttl a x y -> sourced x.1 (data x.2) -> sourced y.1 (data y.2).
Proof.
  intros Hst Hi. inversion Hst; subst; cbn [fst snd data one_tick] in *;
    try (by eapply sourced_move; [exact Hi|eassumption|]).
  - eapply sourced_move; [exact Hi|eassumption|]. intros _ cfg' [= <-].
    destruct (sourced_cache _ _ Hi _ _ _ ltac:(eassumption)) as (t & Ht & ->).
    exists t. split; [done|]. by apply Z.ltb_lt.
  - eapply sourced_move; [exact Hi|eassumption|]. intros _. split; [apply Q_fetch|apply fetch_reads].
  - assert (caller_ok st (slug, Leading p)) as [Ha Hr].
    { pose proof (sourced_callers _ _ Hi) as Hf. rewrite Forall_lookup in Hf. by apply (Hf i). }
    match goal with Hx : pstep p w = _ |- _ => rename Hx into Hp end.
    destruct (reads_pstep _ _ _ _ _ Hr Ha Hp) as (<- & Hr' & Ha').
    eapply sourced_move; [exact Hi|eassumption|done].
  - eapply sourced_move; [exact Hi|eassumption|]. intros [Ha _]. by apply Ha.
  - assert (caller_ok st (slug, Storing cfg)) as Hq.
    { pose proof (sourced_callers _ _ Hi) as Hf. rewrite Forall_lookup in Hf. by apply (Hf i). }
    destruct Hi as [Hc Hs Hf]. unfold store. cbn [data].
    assert (forall y, y ∈ st -> y ∈ st ++ [(slug, cfg, now_at (tick w))]) as Hm by set_solver.
    split; cbn [stored callers] in *.
    + intros s c exp. cbn [set_cache tenant_cache]. intros [[<- [= <- <-]]|[_ Hl]]%lookup_insert_Some.
      * exists (now_at (tick w)). split; [set_solver|done].
      * destruct (Hc _ _ _ Hl) as (t & Ht & ->). eauto.
    + intros s c t [Hin|[= -> -> _]%list_elem_of_singleton]%elem_of_app; [by eapply Hs|exact Hq].
    + apply Forall_insert; [eapply Forall_impl; [exact Hf|]; intros x; by apply caller_ok_more|].
      intros c [= <-]. exists (now_at (tick w)). set_solver.
  - assert (known st slug r) as Hk.
    { pose proof (sourced_callers _ _ Hi) as Hf. rewrite Forall_lookup in Hf. by apply (Hf i (slug, Landing r)). }
    destruct Hi as [Hc Hs Hf]. split; [done..|]. cbn [stored callers] in *.
    apply Forall_map, Forall_insert.
    + eapply Forall_impl; [exact Hf|]. intros [s []]; try done. intros _. unfold arrive.
      by destruct (String.eqb_spec s slug) as [->|].
    + exact Hk.
  - destruct Hi as [Hc Hs Hf]. split; [|done..]. cbn. intros s c exp Hl.
    apply map_lookup_filter_Some in Hl as [Hl _]. by apply Hc.
Qed.

Lemma sourced_start slugs d : tenant_cache d = ∅ -> sourced (start slugs) d.
Proof.
  intros He. split; simpl.
  - intros slug cfg exp. by rewrite He.
  - intros slug cfg t Ht. by apply not_elem_of_nil in Ht.
  - apply Forall_map, Forall_true. by intros.
Qed.

End Invariants.

(** ** Every call returns *)

(** What is left of a call, apart from the calls of its fetch. *)
Definition caller_rank (x : string * caller) : nat :=
  match x.2 with
  | Looking => 6 | Missed => 5 | Leading _ => 4 | Storing _ => 3 | Landing _ => 2 | Following => 1 | Got _ _ => 0
  end.

Definition rank_sum (cs : list (string * caller)) : nat := sum_list_with caller_rank cs.

Definition fetch_below (y x : string * caller) : Prop :=
  match x.2, y.2 with Leading p, Leading p' => prog_below p' p | _, _ => False end.

Lemma fetch_below_wf : well_founded fetch_below.
Proof.
  intros [s c]. destruct c as [| |p| | | |]; try (constructor; by intros ? []).
  revert s. induction (prog_below_wf p) as [p _ IH]. intros s.
  constructor. intros [s' c'] Hp. destruct c' as [| |p'| | | |]; try (exfalso; exact Hp). exact (IH p' Hp s').
Qed.

Lemma rank_sum_insert cs i x y :
  cs !! i = Some x -> (rank_sum (<[i := y]> cs) + caller_rank x = rank_sum cs + caller_rank y)%nat.
Proof.
  revert i. unfold rank_sum. induction cs as [|z cs IH]; intros [|i]; simpl; intros; simplify_eq; [lia|].
  specialize (IH i ltac:(done)). lia.
Qed.

Lemma rank_arrive slug r x : (caller_rank (arrive slug r x) <= caller_rank x)%nat.
Proof. destruct x as [s []]; try done. simpl. destruct (String.eqb s slug); unfold caller_rank; simpl; lia. Qed.

Lemma rank_sum_arrive slug r cs : (rank_sum (map (arrive slug r) cs) <= rank_sum cs)%nat.
Proof.
  unfold rank_sum. induction cs as [|x cs IH]; cbn [map sum_list_with]; [done|].
  pose proof (rank_arrive slug r x). lia.
Qed.

Definition cache_below := slexprod _ _ lt (one_below fetch_below).

Lemma cache_below_wf : well_founded cache_below.
Proof. apply wf_slexprod; [apply lt_wf|apply one_below_wf, fetch_below_wf]. Qed.

Section Returning.
Context `{Platform} `{HttpEnv} `{SingleflightLaws}.
Variable sched : Client.
Variable ttl : Duration.

Definition cache_rank (x : cache * world db) : nat * list (string * caller) :=
  (rank_sum (callers x.1), callers x.1).

(** The steps of the callers, the sweeper apart. *)
Definition own (a : action) : bool := match a with Sweep => false | _ => true end.

Lemma fire_own l x y :
  forallb own l = true -> fire_all sched ttl l x = Some y ->
  rtc (fun x y => exists a, own a = true /\ step sched ttl a x y) x y.
Proof.
  revert x. induction l as [|a l IH]; intros x; simpl; [by intros _ [= ->]|].
  intros [Ho Hl]%andb_true_iff. destruct (fire sched ttl a x) as [x1|] eqn:E; [|done]. intros Hx.
  apply rtc_l with x1; [exists a; split; [done|by apply cache_fire_step]|by apply IH].
Qed.

Lemma cache_step_rank a x y :
  own a = true -> step sched ttl a x y -> cache_below (cache_rank y) (cache_rank x).
Proof.
  intros Ho Hs. unfold cache_below, cache_rank. inversion Hs; subst; cbn [fst callers]; try done;
    match goal with Hi : @lookup nat (string * caller) _ _ _ _ = Some _ |- _ => rename Hi into Hc end;
    try (apply left_slex;
         match goal with |- (rank_sum (<[_ := ?y]> _) < _)%nat => pose proof (rank_sum_insert _ _ _ y Hc) as E end;
         unfold caller_rank in E; simpl in E; lia).
  - assert (rank_sum (<[i := (slug, Leading p')]> cs) = rank_sum cs) as ->.
    { pose proof (rank_sum_insert cs i _ (slug, Leading p') Hc) as E. unfold caller_rank in E. simpl in E. lia. }
    apply right_slex. do 3 eexists. split; [exact Hc|]. split; [|reflexivity]. do 2 eexists; eassumption.
  - apply left_slex. eapply Nat.le_lt_trans; [apply rank_sum_arrive|].
    pose proof (rank_sum_insert cs i _ (slug, Got r Flight) Hc) as E. unfold caller_rank in E. simpl in E. lia.
Qed.

Lemma calls_end x : Acc (fun y x => exists a, own a = true /\ step sched ttl a x y) x.
Proof.
  remember (cache_rank x) as n eqn:En. revert x En.
  induction (cache_below_wf n) as [n _ IH]. intros x ->.
  constructor. intros y (a & Ho & Ha). apply (IH _ (cache_step_rank _ _ _ Ho Ha)). done.
Qed.

Definition has_result (x : string * caller) : Prop := exists r o, x.2 = Got r o.

Lemma leader_moves cs g st (w : world db) i slug c :
  cs !! i = Some (slug, c) -> is_leading c = true ->
  exists a y, own a = true /\ step sched ttl a (Cache cs g st, w) y.
Proof.
  intros Hi Hc. destruct c as [| |[[cfg|e]|B op k]|cfg|r| |]; try done.
  - eexists (Fetched i), _. split; [done|by eapply step_fetched].
  - eexists (Fetched i), _. split; [done|by eapply step_failed].
  - destruct (op w) as [b w'] eqn:E. eexists (Fetch i), _. split; [done|]. eapply step_fetch; [done|].
    simpl. by rewrite E.
  - eexists (Store i), _. split; [done|by eapply step_store].
  - eexists (Land i), _. split; [done|by eapply step_land].
Qed.

(** Nobody waits for ever: a waiter has a flight, and the flight moves. *)
Lemma calls_progress c (w : world db) :
  coalesced c -> Forall has_result (callers c) \/
  exists a y, own a = true /\ step sched ttl a (c, w) y.
Proof.
  intros [Hl Hf]. destruct c as [cs g st]. simpl in *.
  assert (forall x : string * caller, {has_result x} + {~ has_result x}) as Hdec.
  { intros [s []]; [right; by intros (? & ? & ?)..|left; by do 2 eexists]. }
  destruct (Forall_Exists_dec _ _ Hdec cs) as [Ha|He]; [by left|right].
  apply Exists_exists in He as ([slug c] & (i & Hi)%list_elem_of_lookup & Hn).
  destruct c as [| |p|cfg|r| |r o]; [| |by eapply leader_moves..| |].
  - destruct (tenant_cache (data w) !! slug) as [[cfg exp]|] eqn:Et.
    + destruct (Before (now_at (tick w)) exp) eqn:Eb; eexists (Look i), _; (split; [done|]);
        [by eapply step_hit|by eapply step_expired].
    + eexists (Look i), _. split; [done|by eapply step_absent].
  - destruct (in_flight g slug) eqn:Eg; eexists (Do_ i), _; (split; [done|]); [by eapply step_follow|by eapply step_lead].
  - specialize (Hl slug). rewrite (Hf i slug Hi) in Hl. simpl in Hl.
    destruct (count_pos (leads slug) cs) as (j & [s c] & Hj & Hc); [unfold leaders in Hl; simpl in Hl; lia|].
    unfold leads in Hc. apply andb_true_iff in Hc as [_ Hc]. by eapply leader_moves.
  - exfalso. apply Hn. by do 2 eexists.
Qed.

(** *** A call that no other overlaps *)

(** What is left of a call, as a program. *)
Definition remaining (slug : string) (c : caller) : M db (res config) :=
  match c with
  | Looking => cache_Get sched ttl slug
  | Missed => cache_fetch sched ttl slug
  | Leading p =>
      let? cfg := p in
      let! now := time_Now in
      let! _ := local_step (fun d => (tt, set_cache (<[slug := (cfg, Add now ttl)]> (tenant_cache d)) d)) in
      Ret (Ok cfg)
  | Storing cfg =>
      let! now := time_Now in
      let! _ := local_step (fun d => (tt, set_cache (<[slug := (cfg, Add now ttl)]> (tenant_cache d)) d)) in
      Ret (Ok cfg)
  | Landing r | Got r _ => Ret r
  | Following => Ret (Err (ErrNew "unreachable"))
  end.

Definition alone (slug : string) (w0 : world db) (x : cache * world db) : Prop :=
  exists c, callers x.1 = [(slug, c)] /\ c <> Following
    /\ (is_leading c = false -> in_flight (flights x.1) slug = false)
    /\ run (remaining slug c) x.2 = run (cache_Get sched ttl slug) w0.

Lemma alone_step slug w0 a x y :
  own a = true -> step sched ttl a x y -> alone slug w0 x -> alone slug w0 y.
Proof.
  intros Ho Hs (c & Ec & Hn & Hg & Hr). inversion Hs; subst; cbn [fst snd callers flights] in *; try done;
    subst cs; match goal with Hi : [_] !! _ = Some _ |- _ =>
      apply list_lookup_singleton_Some in Hi as [-> Hx]; simplify_eq end; cbn [list_insert insert];
    try specialize (Hg eq_refl).
  - exists Missed. split_and!; try done. rewrite <- Hr. cbn [remaining]. unfold cache_Get. rewrite run_bind.
    cbn [run local_step]. by match goal with Hx : tenant_cache _ !! _ = _ |- _ => rewrite Hx end.
  - exists Missed. split_and!; try done. rewrite <- Hr. cbn [remaining]. unfold cache_Get. rewrite run_bind.
    cbn [run local_step]. match goal with Hx : tenant_cache _ !! _ = _ |- _ => rewrite Hx end.
    rewrite run_bind. cbn [run time_Now tick data].
    by match goal with Hx : Before _ _ = _ |- _ => rewrite Hx end.
  - eexists. split_and!; try done. rewrite <- Hr. cbn [remaining]. unfold cache_Get. rewrite run_bind.
    cbn [run local_step]. match goal with Hx : tenant_cache _ !! _ = _ |- _ => rewrite Hx end.
    rewrite run_bind. cbn [run time_Now tick data].
    by match goal with Hx : Before _ _ = _ |- _ => rewrite Hx end.
  - eexists. by split_and!.
  - congruence.
  - eexists. split_and!; try done. rewrite <- Hr. cbn [remaining]. rewrite !run_bind.
    destruct p as [r|B op k]; simpl in *; [done|]. destruct (op w). by simplify_eq.
  - eexists. by split_and!.
  - eexists. by split_and!.
  - eexists. by split_and!.
  - eexists. split_and!; try done. cbn [flights fst]. intros _. rewrite in_flight_land, String.eqb_refl. done.
Qed.
End Returning.

(** ** Properties *)

(** C9: concurrent [Get]s of the tenant cache.  In every interleaving of the
    callers, their fetches and the sweeper: a tenant is fetched by one caller at a
    time; a configuration that is returned is an answer of the scheduling service
    for that tenant, and one returned from the cache was stored less than [ttl]
    before; and every call returns: the callers' executions end, and until all
    have a result one of them can move, so no waiter is forgotten. *)
Theorem cache_coalesces `{Platform} `{HttpEnv} `{SingleflightLaws} sched ttl
    (Q : string -> config -> Prop) slugs w0 c w :
  (forall slug, always (GetTenantNotificationConfig sched slug) (answer_ok Q slug)) ->
  tenant_cache (data w0) = ∅ -> steps sched ttl (start slugs, w0) (c, w) ->
  (forall slug, (leaders slug c <= 1)%nat)
  /\ (forall i slug cfg o, callers c !! i = Some (slug, Got (Ok cfg) o) ->
        Q slug cfg /\ exists t, (slug, cfg, t) ∈ stored c /\ forall now, o = Hit now -> now < t + ttl)
  /\ (Forall has_result (callers c) \/ exists a y, own a = true /\ step sched ttl a (c, w) y)
  /\ Acc (fun y x => exists a, own a = true /\ step sched ttl a x y) (c, w).
Proof.
  intros HQ He Hr.
  assert (coalesced c /\ sourced ttl Q c (data w)) as [Hc Hs].
  { assert (forall x y, steps sched ttl x y -> coalesced x.1 /\ sourced ttl Q x.1 (data x.2) ->
              coalesced y.1 /\ sourced ttl Q y.1 (data y.2)) as Hk.
    { induction 1 as [x|x z y (a & Ha) _ IH]; [done|]. intros [Hc Hs]. apply IH.
      split; [by eapply coalesced_step|by eapply sourced_step]. }
    apply (Hk _ _ Hr). split; [apply coalesced_start|by apply sourced_start]. }
  split_and!.
  - intros slug. destruct Hc as [Hl _]. rewrite Hl. destruct (in_flight _ _); simpl; lia.
  - intros i slug cfg o Hi. pose proof (sourced_callers _ _ _ _ Hs) as Hf. rewrite Forall_lookup in Hf.
    specialize (Hf _ _ Hi). unfold caller_ok, known in Hf. simpl in Hf.
    destruct o as [now|]; destruct (Hf cfg eq_refl) as (t & Ht);
      [destruct Ht as [Ht Hn]|]; (split; [by eapply (sourced_stored _ _ _ _ Hs)|]); exists t; (split; [done|]).
    + by intros ? [= <-].
    + by intros ? [= ].
  - by apply calls_progress.
  - apply calls_end.
Qed.

(** A [Get] that no other call overlaps is the sequential one: it returns
    what [cache_Get] returns and leaves the same cache. *)
Lemma single_Get `{Platform} `{HttpEnv} `{SingleflightLaws} sched ttl slug w0 c w r o :
  rtc (fun x y => exists a, own a = true /\ step sched ttl a x y) (start [slug], w0) (c, w) ->
  callers c = [(slug, Got r o)] ->
  run (cache_Get sched ttl slug) w0 = (r, w).
Proof.
  intros Hr Hc.
  assert (alone sched ttl slug w0 (c, w)) as (c' & Ec & _ & _ & Hrun).
  { assert (forall x y, rtc (fun x y => exists a, own a = true /\ step sched ttl a x y) x y ->
              alone sched ttl slug w0 x -> alone sched ttl slug w0 y) as Hk.
    { induction 1 as [x|x z y (a & Ho & Ha) _ IH]; [done|]. intros Hx. apply IH. by eapply alone_step. }
    apply (Hk _ _ Hr). exists Looking. split_and!; try done. intros _. apply in_flight_idle. }
  simpl in *. rewrite Hc in Ec. simplify_eq. by rewrite <- Hrun.
Qed.

(** *** Three goroutines ask for one tenant *)

Module Coalesce_demo.
Definition P : Platform := demo_platform [].

Definition reply : json := JObj [("mattermost_enabled", JBool true); ("mattermost_channel", JStr "ops")].
Definition http : HttpEnv := {| http_reply _ _ := Some (200, Some reply) |}.
Definition sched : Client := New "http://scheduling:8082" "key".
Definition ttl : Duration := 300 * Second.

(** The set of the keys in flight. *)
#[local] Instance flying : Singleflight := {|
  group := list string;
  idle := [];
  in_flight g k := existsb (fun k' => String.eqb k' k) g;
  take_off k g := k :: g;
  land k g := List.filter (fun k' => negb (String.eqb k k')) g
|}.

#[local] Instance flying_laws : SingleflightLaws.
Proof.
  split; [done|done|]. intros k g k'. simpl. induction g as [|a g IH]; simpl; [by rewrite andb_false_r|].
  destruct (String.eqb_spec k a) as [->|Hn]; simpl; rewrite IH.
  - by destruct (String.eqb a k').
  - destruct (String.eqb_spec a k') as [->|], (String.eqb_spec k k') as [->|]; done.
Qed.

Definition empty : world db := World 0 (Db [] [] ∅ ∅ [] []).

Definition run_of (slugs : list string) (l : list action) : option (cache * world db) :=
  @fire_all P http flying sched ttl l (start slugs, empty).

(** One leads, one waits for it, one comes later and finds the cache filled. *)
Definition three : list action :=
  [Look 0; Look 1; Do_ 0; Do_ 1; Fetch 0; Fetched 0; Store 0; Land 0; Look 2]%nat.

Definition final : cache * world db := default (start [], empty) (run_of ["acme"; "acme"; "acme"] three).

(** The second one is slow between the look and the flight: it fetches again. *)
Definition late : list action :=
  [Look 0; Look 1; Do_ 0; Fetch 0; Fetched 0; Store 0; Land 0; Do_ 1; Fetch 1; Fetched 1; Store 1; Land 1]%nat.

Definition answer : config :=
  Some (TenantNotificationConfig.mk true "" "ops" "" false "" "").

Definition alone1 : list action := [Look 0; Do_ 0; Fetch 0; Fetched 0; Store 0; Land 0]%nat.
Definition single : cache * world db := default (start [], empty) (run_of ["acme"] alone1).
End Coalesce_demo.

(** A call that has missed before another one's flight lands, and asks for a
    flight after it, fetches again although the cache is fresh. *)
Example overlapping_misses_fetch_twice :
  match Coalesce_demo.run_of ["acme"; "acme"] Coalesce_demo.late with
  | Some (c, _) => length (stored c) = 2%nat /\ Forall has_result (callers c)
  | None => False
  end.
Proof. vm_compute. split; [done|]. repeat constructor; by do 2 eexists. Qed.

Import Coalesce_demo.

Lemma cache_coalesces_witness :
  map snd (callers final.1) = [Got (Ok answer) Flight; Got (Ok answer) Flight; Got (Ok answer) (Hit 1704067202000000000)]
  /\ length (stored final.1) = 1%nat
  /\ exists t, ("acme", answer, t) ∈ stored final.1 /\ forall now, Hit 1704067202000000000 = Hit now -> now < t + ttl.
Proof.
  split; [vm_compute; reflexivity|]. split; [vm_compute; reflexivity|].
  destruct (@cache_coalesces P http flying flying_laws sched ttl (fun _ cfg => cfg = answer)
              ["acme"; "acme"; "acme"] empty final.1 final.2) as (_ & Hg & _).
  - intros slug w cfg. by intros [= <-].
  - reflexivity.
  - apply (cache_fire_all_steps sched ttl three). vm_compute. reflexivity.
  - apply (Hg 2%nat "acme" answer). vm_compute. reflexivity.
Defined.

Lemma single_Get_witness :
  run (@cache_Get P http sched ttl "acme") empty = (Ok answer, single.2).
Proof.
  apply (@single_Get P http flying flying_laws sched ttl "acme" empty single.1 single.2 (Ok answer) Flight);
    [|vm_compute; reflexivity].
  apply (fire_own sched ttl alone1); vm_compute; reflexivity.
Defined.
