(* ===== verification/NotificationHandler.v ===== *)
(** * Notification: HTTP handlers

    services/notification/internal/handler/handler.go and the routes of
    cmd/server/main.go. *)

From S2P Require Import Prelude Effects Json Events Interleaving Amqp Http Auth Redis Notification.
Open Scope go_scope.

Local Abbreviation Prog A := (M db A).

Inductive body :=
| AContact (c : UserContact.t)
| Synced (n : Z).

Definition internal_error : response body := Error StatusInternalServerError "internal error".

Record contact_body := ContactBody { Email : string; MattermostUsername : string; EnabledChannels : list string }.

Definition contact_fields : fields contact_body := [
  field "email" Email (fun v a => ContactBody v (MattermostUsername a) (EnabledChannels a)) dec_string;
  field "mattermost_username" MattermostUsername (fun v a => ContactBody (Email a) v (EnabledChannels a)) dec_string;
  field "enabled_channels" EnabledChannels (fun v a => ContactBody (Email a) (MattermostUsername a) v)
    (dec_slice EmptyString dec_string)].

(** [tenantSlugs]: the first components, without repetition. *)
Fixpoint collect_slugs (groups : list string) (out : list string) : list string :=
  match groups with
  | [] => out
  | g :: groups =>
      let s := Trim g "/" in
      if String.eqb s "" then collect_slugs groups out
      else
        let s := match cut_byte "/" s with Some (l, _) => l | None => s end in
        if existsb (String.eqb s) out then collect_slugs groups out
        else collect_slugs groups (out ++ [s])
  end.

Definition tenantSlugs (groups : list string) : list string := collect_slugs groups [].

Section Handler.
Context `{Platform}.

Definition PutContact (r : request) (req : option json) : Prog (response body) :=
  match Decode (dec_struct contact_fields) req (ContactBody "" "" []) with
  | Err _ => Ret (Error StatusBadRequest "invalid JSON")
  | Ok b =>
      let! c := UpsertContact (UserContact.mk "" (URLParam r "userId") (URLParam r "tenant") (Email b)
                  (MattermostUsername b) (EnabledChannels b) Alert.zero_time Alert.zero_time) in
      Ret (match c with Err _ => internal_error | Ok c => Json StatusOK (AContact c) end)
  end.

Definition GetContact (r : request) : Prog (response body) :=
  let! c := Notification.GetContact (URLParam r "tenant") (URLParam r "userId") in
  Ret (match c with
       | Err e =>
           if errors_Is e ErrNotFound
           then Json StatusOK (AContact (UserContact.mk "" (URLParam r "userId") (URLParam r "tenant") "" "" []
                                           Alert.zero_time Alert.zero_time))
           else internal_error
       | Ok c => Json StatusOK (AContact c)
       end).

(** One tenant of the login: how many contacts were written. *)
Definition sync_one (claims : Claims.t) (tenant : string) : Prog Z :=
  let! existing := Notification.GetContact tenant (Claims.Sub claims) in
  match existing with
  | Err e =>
      if errors_Is e ErrNotFound then
        let! r := UpsertContact (UserContact.mk "" (Claims.Sub claims) tenant (Claims.Email claims) "" ["email"]
                    Alert.zero_time Alert.zero_time) in
        Ret (match r with Err _ => 0 | Ok _ => 1 end)
      else Ret 0
  | Ok c =>
      if String.eqb (UserContact.Email c) (Claims.Email claims) then Ret 0
      else
        let! r := UpsertContact (UserContact.mk (UserContact.ID c) (UserContact.UserID c) (UserContact.TenantID c)
                    (Claims.Email claims) (UserContact.MattermostUsername c) (UserContact.EnabledChannels c)
                    (UserContact.CreatedAt c) (UserContact.UpdatedAt c)) in
        Ret (match r with Err _ => 0 | Ok _ => 1 end)
  end.

Fixpoint sync_all (claims : Claims.t) (tenants : list string) (synced : Z) : Prog Z :=
  match tenants with
  | [] => Ret synced
  | t :: tenants => let! n := sync_one claims t in sync_all claims tenants (synced + n)
  end.

Definition SyncContacts (ctx : context) : Prog (response body) :=
  match FromContext ctx with
  | None => Ret (Error StatusUnauthorized "unauthorized")
  | Some claims =>
      if String.eqb (Claims.Sub claims) "" then Ret (Error StatusUnauthorized "unauthorized")
      else if String.eqb (Claims.Email claims) "" then Ret (Json StatusOK (Synced 0))
      else
        let! n := sync_all claims (tenantSlugs (Claims.Groups claims)) 0 in
        Ret (Json StatusOK (Synced n))
  end.

(** ** Routes *)

Inductive route :=
| RSyncContacts
| RPutContact (tenant userId : string) (req : option json)
| RGetContact (tenant userId : string).

Definition url_params (rt : route) (key : string) : string :=
  match rt with
  | RSyncContacts => EmptyString
  | RPutContact t u _ | RGetContact t u =>
      if String.eqb key "tenant" then t else if String.eqb key "userId" then u else EmptyString
  end.

Definition serve (authMW : middleware (context * request)) (adminKey authorization : string) (rt : route)
    : Prog (response body) :=
  let r := Request adminKey authorization (url_params rt) in
  let inner := fun ctx r => Json StatusOK (ctx, r) in
  match authMW (match rt with RSyncContacts => inner | _ => RequireTenantMember inner end) background r with
  | Json _ (ctx, r) =>
      match rt with
      | RSyncContacts => SyncContacts ctx
      | RPutContact _ _ req => PutContact r req
      | RGetContact _ _ => GetContact r
      end
  | Error code msg => Ret (Error code msg)
  | NoBody code => Ret (NoBody code)
  end.

End Handler.
