(* ===== verification/NotificationProps.v ===== *)
(** * Notification: properties *)

From S2P Require Import Prelude Effects Json Events Interleaving Amqp Http Auth Redis Notification NotificationHandler.
Open Scope go_scope.

(** ** What the log says *)

(** A step or a program that adds to the log, the mails and the posts. *)
Record added := Added { new_log : list NotificationLog.t; new_mails : list mail; new_posts : list post }.

Definition adds (d d' : db) (a : added) : Prop :=
  contacts d' = contacts d /\ log d' = log d ++ new_log a /\ mails d' = mails d ++ new_mails a
  /\ posts d' = posts d ++ new_posts a.

(** A POST answered with a status of the 2xx class. *)
Definition post_taken (p : post) : Prop := exists code, post_answer p = Some code /\ 200 <= code < 300.

(** The entries of one event: they name its incident, tenant and user, and an
    entry that says delivered is backed by a mail the server took or a POST it
    answered with success, to its recipient. *)
Definition backed (ev : EscalationTriggered.t) (a : added) (e : NotificationLog.t) : Prop :=
  NotificationLog.IncidentID e = EscalationTriggered.IncidentID ev
  /\ NotificationLog.TenantID e = EscalationTriggered.TenantID ev
  /\ NotificationLog.UserID e = EscalationTriggered.OncallUserID ev
  /\ (NotificationLog.Status e = StatusDelivered ->
       (NotificationLog.Channel e = ChannelEmail /\
        exists m, m ∈ new_mails a /\ mail_to m = NotificationLog.Recipient e) \/
       (NotificationLog.Channel e = ChannelMattermost /\
        exists p, p ∈ new_posts a /\ post_url p = NotificationLog.Recipient e /\ post_taken p)).

(** Only what the configuration and the contact allow is sent. *)
Definition addressed `{Network} (contact : UserContact.t) (cfg : option TenantNotificationConfig.t) (a : added) : Prop :=
  Forall (fun m => mail_to m = UserContact.Email contact
            /\ (forall c, cfg = Some c -> TenantNotificationConfig.EmailEnabled c = true)) (new_mails a)
  /\ Forall (fun p => exists c, cfg = Some c /\ TenantNotificationConfig.MattermostEnabled c = true
                /\ webhookURLUsable (TenantNotificationConfig.MattermostWebhookURL c) = true
                /\ post_url p = TenantNotificationConfig.MattermostWebhookURL c) (new_posts a).

Definition accounted `{Network} ev contact cfg (d d' : db) : Prop :=
  exists a, adds d d' a /\ Forall (backed ev a) (new_log a) /\ addressed contact cfg a.

(** Something was taken by the server it was sent to. *)
Definition taken (a : added) : Prop := new_mails a <> [] \/ Exists post_taken (new_posts a).

Definition nothing : added := Added [] [] [].

Definition join (a b : added) : added :=
  Added (new_log a ++ new_log b) (new_mails a ++ new_mails b) (new_posts a ++ new_posts b).

Lemma adds_refl d : adds d d nothing.
Proof. unfold adds. simpl. by rewrite !app_nil_r. Qed.

Lemma adds_trans d1 d2 d3 a b : adds d1 d2 a -> adds d2 d3 b -> adds d1 d3 (join a b).
Proof.
  intros (C1 & L1 & M1 & P1) (C2 & L2 & M2 & P2). unfold adds, join. simpl.
  rewrite C2, L2, M2, P2, C1, L1, M1, P1, !app_assoc. done.
Qed.

Lemma taken_join a b : taken b -> taken (join a b).
Proof.
  intros [Hm|Hp]; [left|right]; simpl; [by intros [_ E]%app_nil|]. apply Exists_app. by right.
Qed.

Lemma backed_mono ev a b e :
  (forall m, m ∈ new_mails a -> m ∈ new_mails b) -> (forall p, p ∈ new_posts a -> p ∈ new_posts b) ->
  backed ev a e -> backed ev b e.
Proof.
  intros Hm Hp (Hi & Ht & Hu & Hd). split_and!; [done..|]. intros Hs.
  destruct (Hd Hs) as [[Hc (m & Hin & E)]|[Hc (p & Hin & E & Hp')]]; [left|right]; eauto 10.
Qed.

#[export] Instance accounted_PreOrder `{Network} ev contact cfg : PreOrder (accounted ev contact cfg).
Proof.
  split.
  - intros d. exists nothing. split; [apply adds_refl|]. by repeat constructor.
  - intros d1 d2 d3 (a & Ha & Ba & [Ma Pa]) (b & Hb & Bb & [Mb Pb]). exists (join a b).
    split; [by eapply adds_trans|]. split; [|split; by apply Forall_app].
    apply Forall_app. split; eapply Forall_impl; [exact Ba| |exact Bb|]; intros e; apply backed_mono;
      simpl; intros x Hx; apply elem_of_app; auto.
Qed.

Section Dispatch.
Context `{Platform} `{TimeText} `{HttpEnv} `{Network}.

(** What the retry loop does, for a [send] that adds one item when it works. *)
Lemma attempts_adds (P : added -> Prop) n i msg send e w r w' :
  P nothing -> (forall a b, P a -> P b -> P (join a b)) ->
  (forall w r w', run send w = (r, w') -> exists a, adds (data w) (data w') a /\ P a
     /\ (r = Ok tt -> taken a)) ->
  run (attempts n i msg send e) w = (r, w') ->
  exists a, adds (data w) (data w') a /\ P a /\ (r = Ok tt -> taken a).
Proof.
  intros P0 PJ Hs. revert i e w. induction n as [|n IH]; intros i e w; cbn [attempts].
  { intros [= <- <-]. exists nothing. split; [apply adds_refl|]. split; [done|]. done. }
  rewrite run_bind. destruct (run send w) as [r1 w1] eqn:E1. destruct (Hs _ _ _ E1) as (a & Ha & Pa & Hne).
  destruct r1 as [[]|e1]; [intros [= <- <-]; exists a; auto|].
  assert (forall w2, data w2 = data w1 -> run (attempts n (S i) msg send e1) w2 = (r, w') ->
    exists a, adds (data w) (data w') a /\ P a /\ (r = Ok tt -> taken a)) as Hnext.
  { intros w2 E2 Hr. destruct (IH _ _ _ Hr) as (b & Hb & Pb & Hbe). rewrite E2 in Hb.
    exists (join a b). split; [by eapply adds_trans|]. split; [by apply PJ|]. intros Hok. by apply taken_join, Hbe. }
  destruct (i <? 2)%nat; [|by apply Hnext].
  rewrite run_bind. match goal with |- context [run (sleep_or_Done ?d) w1] =>
    change (run (sleep_or_Done d) w1) with (done_at (tick w1), World (S (tick w1)) (data w1)) end.
  cbv beta iota. destruct (done_at _); [|by apply Hnext]. intros [= <- <-]. by exists a.
Qed.

Variables (max window : Z).

Lemma adds_data (d d' : db) : contacts d' = contacts d -> log d' = log d -> mails d' = mails d -> posts d' = posts d ->
  adds d d' nothing.
Proof. unfold adds. simpl. rewrite !app_nil_r. done. Qed.

(** What a dispatcher adds: items for one recipient on its channel. *)
Definition sent_to (channel recipient : string) (a : added) : Prop :=
  new_log a = []
  /\ Forall (fun m => channel = ChannelEmail /\ mail_to m = recipient) (new_mails a)
  /\ Forall (fun p => channel = ChannelMattermost /\ post_url p = recipient) (new_posts a).

Lemma sent_nothing channel recipient : sent_to channel recipient nothing.
Proof. by repeat constructor. Qed.

Lemma sent_join channel recipient a b :
  sent_to channel recipient a -> sent_to channel recipient b -> sent_to channel recipient (join a b).
Proof. intros (E1 & M1 & P1) (E2 & M2 & P2). split_and!; simpl; [by rewrite E1, E2|by apply Forall_app..]. Qed.

(** A send: what it adds is for the recipient, and it adds something when it
    reports success. *)
Definition sends (channel recipient : string) (send : M db (res unit)) : Prop :=
  forall w r w', run send w = (r, w') -> exists a, adds (data w) (data w') a /\ sent_to channel recipient a
     /\ (r = Ok tt -> taken a).

Lemma attempts_sends channel recipient n i msg send e :
  sends channel recipient send -> sends channel recipient (attempts n i msg send e).
Proof. intros Hs w r w'. apply attempts_adds; [apply sent_nothing|apply sent_join|done]. Qed.

Lemma SendMail_sends from to raw : sends ChannelEmail to (SendMail from to raw).
Proof.
  intros w r w'. unfold SendMail. simpl.
  assert (adds (data w) (Db (contacts (data w)) (log (data w)) (limits (data w)) (tenant_cache (data w))
    (mails (data w) ++ [Mail from to raw]) (posts (data w))) (Added [] [Mail from to raw] [])) as Hm
    by (unfold adds; simpl; by rewrite !app_nil_r).
  assert (sent_to ChannelEmail to (Added [] [Mail from to raw] [])) as Hs by (by repeat constructor).
  destruct (fault_at (tick w)) as [[e|e]|]; [|destruct (has_break from || has_break to)..];
    intros [= <- <-]; first [exists nothing; split; [apply adds_refl|]; split; [apply sent_nothing|done]
      | eexists; split; [exact Hm|]; split; [exact Hs|]; intros _; left; done].
Qed.

Lemma post_once_sends url channel text : sends ChannelMattermost url (post_once url channel text).
Proof.
  intros w r w' E. cbn in E. injection E as Er <-.
  exists (Added [] [] [Post url channel text (http_post (tick w) url)]).
  split; [unfold adds; simpl; by rewrite !app_nil_r|]. split; [by repeat constructor|]. intros ->. right. left.
  destruct (http_post (tick w) url) as [code|] eqn:Ea; [|done]. exists code. split; [done|].
  unfold post_status in Er. destruct (_ && _) eqn:E; [|done]. bool_to_prop. lia.
Qed.

Lemma Email_Send_sends from to msg : sends ChannelEmail to (Email_Send from to msg).
Proof.
  intros w r w' E. unfold Email_Send in E. rewrite run_bind in E.
  exact (attempts_sends _ _ _ _ _ _ _ (SendMail_sends _ _ _) _ _ _ E).
Qed.

Lemma Mattermost_Send_sends url channel text : sends ChannelMattermost url (Mattermost_Send url channel text).
Proof.
  unfold Mattermost_Send. destruct (url_Parse url).
  - apply attempts_sends, post_once_sends.
  - intros w r w' [= <- <-]. exists nothing. split; [apply adds_refl|]. split; [apply sent_nothing|done].
Qed.

Lemma appendLog_adds l w r w' :
  run (appendLog l) w = (r, w') ->
  exists es, adds (data w) (data w') (Added es [] [])
    /\ Forall (fun e => NotificationLog.IncidentID e = NotificationLog.IncidentID l
          /\ NotificationLog.TenantID e = NotificationLog.TenantID l /\ NotificationLog.UserID e = NotificationLog.UserID l
          /\ NotificationLog.Channel e = NotificationLog.Channel l /\ NotificationLog.Status e = NotificationLog.Status l
          /\ NotificationLog.Recipient e = NotificationLog.Recipient l) es.
Proof.
  unfold appendLog. rewrite run_bind. destruct (run (AppendLog l) w) as [r1 w1] eqn:E. intros [= <- <-].
  unfold AppendLog in E. simpl in E.
  destruct (fault_at (tick w)) as [[e|e]|]; [|destruct (existsb _ _)..]; injection E as <- <-;
    first [exists []; split; [apply adds_data; done|constructor]
      | eexists [_]; split; [unfold adds; simpl; rewrite !app_nil_r; done|by repeat constructor]].
Qed.

Lemma Allow_quiet tenant user channel w r w' :
  run (Allow max window tenant user channel) w = (r, w') -> adds (data w) (data w') nothing.
Proof.
  unfold Allow. rewrite run_bind. cbn [run time_Now]. rewrite run_bind. unfold rcall.
  match goal with |- context [run (call ?f) ?w0] => destruct (run (call f) w0) as [r1 w1] eqn:E end.
  intros Hr. assert (data w' = data w1) as -> by (destruct r1; injection Hr as <- <-; done).
  simpl in E. destruct (fault_at _) as [[e|e]|]; [injection E as <- <-; apply adds_refl|..];
    match type of E with context [script ?a ?b ?c ?d ?e ?f] => destruct (script a b c d e f) as [[b0 st]|e0] end;
    injection E as <- <-; apply adds_data; done.
Qed.

(** One channel: the entry is backed by what was sent. *)
Lemma dispatchChannel_accounted ev contact cfg channel recipient send w r w' :
  sends channel recipient send ->
  (forall a, sent_to channel recipient a -> addressed contact cfg a) ->
  run (dispatchChannel max window (EscalationTriggered.TenantID ev) (EscalationTriggered.OncallUserID ev)
         (EscalationTriggered.IncidentID ev) channel recipient send) w = (r, w') ->
  accounted ev contact cfg (data w) (data w').
Proof.
  intros Hs Haddr. unfold dispatchChannel. rewrite run_bind.
  match goal with |- context [run (Allow ?a ?b ?c ?d ?e) w] => destruct (run (Allow a b c d e) w) as [r1 w1] eqn:E1 end.
  pose proof (Allow_quiet _ _ _ _ _ _ E1) as Hq.
  destruct (negb _).
  - intros (es & Ha & Hes)%appendLog_adds. exists (join nothing (Added es [] [])).
    split; [by eapply adds_trans|]. split; [|by repeat constructor].
    eapply Forall_impl; [exact Hes|]. intros e (Hi & Ht & Hu & Hc & Hst & Hre). split_and!; [done..|].
    rewrite Hst. done.
  - rewrite run_bind. destruct (run send w1) as [r2 w2] eqn:E2. destruct (Hs _ _ _ E2) as (b & Hb & Sb & Hne).
    intros (es & Ha & Hes)%appendLog_adds. exists (join nothing (join b (Added es [] []))).
    split; [by eapply adds_trans, adds_trans|]. pose proof (Haddr b Sb) as [Am Ap]. destruct Sb as (El & Sm & Sp).
    split; [|split; simpl; rewrite app_nil_r; done].
    simpl. rewrite El. simpl. eapply Forall_impl; [exact Hes|]. intros e (Hi & Ht & Hu & Hc & Hst & Hre).
    destruct r2 as [[]|e2]; (split_and!; [done..|]); rewrite Hst; [|done]. intros _. simpl. rewrite !app_nil_r.
    rewrite Hc, Hre. simpl. destruct (Hne eq_refl) as [Hm|Hp].
    + left. destruct (new_mails b) as [|m ms]; [done|]. apply Forall_cons in Sm as [[-> Em] _].
      split; [done|]. exists m. split; [by left|done].
    + right. apply Exists_exists in Hp as (p & Hin & Hp). rewrite Forall_forall in Sp.
      destruct (Sp p Hin) as [-> Ep]. split; [done|]. by exists p.
Qed.

Lemma appendLog_failed ev contact cfg detail w r w' :
  run (appendLog (log_entry (EscalationTriggered.IncidentID ev) (EscalationTriggered.TenantID ev)
         (EscalationTriggered.OncallUserID ev) ChannelMattermost StatusFailed "" detail)) w = (r, w') ->
  accounted ev contact cfg (data w) (data w').
Proof.
  intros (es & Ha & Hes)%appendLog_adds. exists (Added es [] []). split; [done|]. split; [|by repeat constructor].
  eapply Forall_impl; [exact Hes|]. intros e (Hi & Ht & Hu & Hc & Hst & Hre). split_and!; [done..|]. by rewrite Hst.
Qed.

Lemma addressed_email contact cfg a :
  (forall c, cfg = Some c -> TenantNotificationConfig.EmailEnabled c = true) ->
  sent_to ChannelEmail (UserContact.Email contact) a -> addressed contact cfg a.
Proof.
  intros Hc (_ & Hm & Hp). split; (eapply Forall_impl; [eassumption|]); simpl; [intros m [_ E]; done|].
  intros p [E _]. done.
Qed.

Lemma addressed_mattermost contact c a :
  TenantNotificationConfig.MattermostEnabled c = true ->
  webhookURLUsable (TenantNotificationConfig.MattermostWebhookURL c) = true ->
  sent_to ChannelMattermost (TenantNotificationConfig.MattermostWebhookURL c) a -> addressed contact (Some c) a.
Proof.
  intros He Hu (_ & Hm & Hp). split; (eapply Forall_impl; [eassumption|]); simpl; [intros m [E _]; done|].
  intros p [_ E]. by exists c.
Qed.

Variables (smtpFrom frontendBaseURL : string).

Lemma dispatch_one_accounted ev contact cfg ch w r w' :
  run (dispatch_one max window smtpFrom frontendBaseURL ev contact cfg ch) w = (r, w') ->
  accounted ev contact cfg (data w) (data w').
Proof.
  unfold dispatch_one. destruct (String.eqb (ToLower ch) ChannelEmail).
  - destruct (String.eqb (UserContact.Email contact) ""); [intros [= <- <-]; reflexivity|].
    destruct cfg as [c|]; [destruct (TenantNotificationConfig.EmailEnabled c) eqn:Ee; cbn [negb];
      [|intros [= <- <-]; reflexivity]|];
    apply dispatchChannel_accounted; try apply Email_Send_sends; intros a; apply addressed_email; congruence.
  - destruct (String.eqb (ToLower ch) ChannelMattermost); [|intros [= <- <-]; reflexivity].
    destruct cfg as [c|]; [|apply appendLog_failed].
    destruct (TenantNotificationConfig.MattermostEnabled c) eqn:Em; cbn [negb]; [|intros [= <- <-]; reflexivity].
    destruct (webhookURLUsable _) eqn:Eu; cbn [negb]; [|apply appendLog_failed].
    apply dispatchChannel_accounted; [apply Mattermost_Send_sends|]. intros a. by apply addressed_mattermost.
Qed.

Lemma dispatchToContact_accounted ev contact cfg w r w' :
  run (dispatchToContact max window smtpFrom frontendBaseURL ev contact cfg) w = (r, w') ->
  accounted ev contact cfg (data w) (data w').
Proof.
  unfold dispatchToContact. generalize (UserContact.EnabledChannels contact). intros l. revert w.
  induction l as [|ch l IH]; intros w; cbn [for_each]; [intros [= <- <-]; reflexivity|].
  rewrite run_bind. destruct (run (dispatch_one _ _ _ _ _ _ _ _) w) as [r1 w1] eqn:E1. intros E2.
  etrans; [exact (dispatch_one_accounted _ _ _ _ _ _ _ E1)|exact (IH _ E2)].
Qed.

Lemma cache_Get_quiet sched ttl slug w r w' :
  run (cache_Get sched ttl slug) w = (r, w') -> adds (data w) (data w') nothing.
Proof.
  assert (forall w, run (cache_fetch sched ttl slug) w = (r, w') -> adds (data w) (data w') nothing) as Hf.
  { intros w1. unfold cache_fetch, GetTenantNotificationConfig, GetJSON, Do, time_Now, local_step. simpl.
    destruct (http_reply _ _) as [[code b]|]; simpl;
      repeat case_match; simplify_eq; try (intros [= <- <-]); try apply adds_refl; try (by apply adds_data);
      simpl; intros [= <- <-]; first [apply adds_refl | by apply adds_data]. }
  unfold cache_Get. rewrite run_bind. cbn [run local_step].
  destruct (tenant_cache (data w) !! slug) as [[c ex]|]; [|apply Hf].
  rewrite run_bind. cbn [run time_Now tick data]. destruct (Before _ ex); [|apply Hf].
  intros [= <- <-]. apply adds_refl.
Qed.

Lemma GetContact_reads tenant user w r w' :
  run (Notification.GetContact tenant user) w = (r, w') ->
  data w' = data w /\ (forall c, r = Ok c -> find (same_contact user tenant) (contacts (data w)) = Some c).
Proof.
  unfold Notification.GetContact. simpl. destruct (fault_at (tick w)) as [[e|e]|]; [|destruct (find _ _)..];
    intros [= <- <-]; (split; [done|]); intros c0 E; by simplify_eq.
Qed.

End Dispatch.

(** ** What the sends and the configuration cache leave alone *)

Section Quiet.
Context `{Platform} `{TimeText} `{HttpEnv} `{Network}.
Variable R : db -> db -> Prop.
Context `{!Reflexive R}.

Lemma attempts_respects n i msg send e : respects R send -> respects R (attempts n i msg send e).
Proof.
  intros Hs. revert i e. induction n as [|n IH]; intros i e; cbn [attempts]; [done|].
  apply respects_bind; [done|]. intros [u|e']; [done|]. destruct (i <? 2)%nat; [|apply IH].
  apply respects_bind; [by apply respects_read|]. intros []; [done|apply IH].
Qed.

Lemma Mattermost_Send_respects url channel text :
  (forall d p, R d (Db (contacts d) (log d) (limits d) (tenant_cache d) (mails d) (posts d ++ [p]))) ->
  respects R (Mattermost_Send url channel text).
Proof.
  intros HR. unfold Mattermost_Send. destruct (url_Parse url); [|done].
  apply attempts_respects. intros w. left. split; [apply HR|done].
Qed.

Lemma cache_Get_respects sched ttl slug :
  (forall d m, R d (set_cache m d)) -> respects R (cache_Get sched ttl slug).
Proof.
  intros HR.
  assert (respects R (cache_fetch sched ttl slug)) as Hf.
  { unfold cache_fetch. apply respects_bind.
    - unfold GetTenantNotificationConfig, GetJSON, Do. apply respects_bind; [|done].
      apply respects_bind; [by apply respects_read|done].
    - intros [cfg|e]; [|done]. apply respects_bind; [by apply respects_read|]. intros now.
      apply respects_bind; [|done]. intros w. left. split; [apply HR|done]. }
  unfold cache_Get. apply respects_bind; [by intros w; left|].
  intros [[cfg expiresAt]|]; [|exact Hf]. apply respects_bind; [by apply respects_read|]. intros now.
  by destruct (Before _ _).
Qed.

End Quiet.

(** ** An event that reaches the mailbox when nothing fails *)

Section Mailing.
Context `{Platform} `{TimeText} `{HttpEnv} `{Network}.
Hypothesis Hrel : reliable.
Variables (max window : Z) (sched : Client) (ttl : Duration) (smtpFrom base : string).

(** A contact that has mail enabled, at an address SMTP takes. *)
Definition has_mailbox (contact : UserContact.t) : Prop :=
  UserContact.Email contact <> EmptyString /\ has_break (UserContact.Email contact) = false
  /\ exists ch, ch ∈ UserContact.EnabledChannels contact /\ ToLower ch = ChannelEmail.

(** The settings of the tenant, if there are any, allow mail. *)
Definition settings_allow_mail (slug : string) (d : db) : Prop :=
  has_break smtpFrom = false /\
  forall t c, config_or_nil (run (cache_Get sched ttl slug) (World t d)).1 = Some c ->
    TenantNotificationConfig.EmailEnabled c = true /\ has_break (TenantNotificationConfig.SMTPFrom c) = false.

(** The bucket of a contact is as it was: calls for other channels keep it so. *)
Definition same_bucket (key : string) (d d' : db) : Prop := limits d' !! key = limits d !! key.

#[local] Instance same_bucket_Reflexive key : Reflexive (same_bucket key).
Proof. done. Qed.

Lemma run_same_bucket {A} key (p : M db A) w a w' :
  respects (same_bucket key) p -> run p w = (a, w') -> limits (data w') !! key = limits (data w) !! key.
Proof.
  intros Hp Hr. refine (respects_run (same_bucket key) (fun d => limits d !! key = limits (data w) !! key) p w a w' _ Hp Hr _);
    [|done]. intros d d' E <-. exact E.
Qed.

Lemma limit_key_channel tenant user channel channel' :
  limit_key tenant user channel = limit_key tenant user channel' -> channel = channel'.
Proof. unfold limit_key. intros E. by do 5 apply str_app_inj_l in E. Qed.

Lemma script_other key key' now clock st b st' :
  script max window key now clock st = Ok (b, st') -> key' <> key -> st' !! key' = st !! key'.
Proof.
  unfold script, store_bucket. intros Hs Hne.
  repeat case_match; simplify_eq; try done; by rewrite ?lookup_insert_ne, ?lookup_delete_ne.
Qed.

Lemma Allow_other key tenant user channel :
  limit_key tenant user channel <> key -> respects (same_bucket key) (Allow max window tenant user channel).
Proof.
  intros Hne. unfold Allow. apply respects_bind; [by apply respects_read|]. intros now.
  apply respects_bind; [|by intros []]. intros w. left. split; [|done]. simpl.
  destruct (fault_at (tick w)) as [[e|e]|]; [done|..];
    destruct (script _ _ _ _ _ _) as [[b st]|e'] eqn:Es; simpl; try done;
    unfold same_bucket; simpl; by eapply script_other.
Qed.

Lemma appendLog_other key l : respects (same_bucket key) (appendLog l).
Proof.
  unfold appendLog, AppendLog. apply respects_bind; [|done]. apply respects_sql; [done|]. intros now uuid d u d' Hf.
  by case_match; simplify_eq.
Qed.

(** A channel other than mail leaves the bucket of the mails alone. *)
Lemma dispatch_one_other tenant user ev contact cfg ch :
  tenant = EscalationTriggered.TenantID ev -> user = EscalationTriggered.OncallUserID ev ->
  ToLower ch <> ChannelEmail ->
  respects (same_bucket (limit_key tenant user ChannelEmail)) (dispatch_one max window smtpFrom base ev contact cfg ch).
Proof.
  intros -> -> Hch. unfold dispatch_one. rewrite (proj2 (String.eqb_neq _ _) Hch).
  destruct (String.eqb _ _); [|done]. destruct cfg as [c|]; [|apply appendLog_other].
  destruct (negb _); [done|]. destruct (negb _); [apply appendLog_other|].
  unfold dispatchChannel. apply respects_bind.
  { apply Allow_other. intros E%limit_key_channel. done. }
  intros r. cbv zeta. destruct (negb _); [apply appendLog_other|]. apply respects_bind; [|intros; apply appendLog_other].
  by apply Mattermost_Send_respects.
Qed.

Lemma run_SendMail from to raw (w : world db) :
  has_break from = false -> has_break to = false ->
  exists d', run (SendMail from to raw) w = (Ok tt, World (S (tick w)) d') /\ mails d' = mails (data w) ++ [Mail from to raw].
Proof.
  intros Hf Ht. unfold SendMail. rewrite run_call_ok by apply Hrel. rewrite Hf, Ht. by eexists.
Qed.

(** The mail channel with a full bucket. *)
Lemma mail_channel from msg tenant user incidentID recipient (w : world db) :
  has_break from = false -> has_break recipient = false -> 0 < max ->
  limits (data w) !! limit_key tenant user ChannelEmail = None ->
  exists w' l m, run (dispatchChannel max window tenant user incidentID ChannelEmail recipient (Email_Send from recipient msg)) w
      = (tt, w') /\ mails (data w') = mails (data w) ++ l /\ m ∈ l /\ mail_to m = recipient.
Proof.
  intros Hf Hr Hmax Hl. unfold dispatchChannel. rewrite run_bind. unfold Allow. rewrite run_bind.
  cbn [run time_Now]. rewrite run_bind. unfold rcall. rewrite run_call_ok by apply Hrel. cbn [tick data rds db_Redis].
  unfold script, lookup_live. rewrite Hl. cbn [bucket]. rewrite (proj2 (Z.ltb_lt 0 max) Hmax). cbn [run negb].
  rewrite run_bind. unfold Email_Send. rewrite run_bind. cbn [run time_Now attempts]. rewrite run_bind.
  match goal with |- context [run (SendMail from recipient ?raw) ?x] =>
    destruct (run_SendMail from recipient raw x Hf Hr) as (d' & -> & Ed) end. cbn [run].
  match goal with |- context [run (appendLog ?x) ?y] => destruct (run (appendLog x) y) as [[] w1] eqn:E1 end.
  apply appendLog_adds in E1 as (es & (_ & _ & Em & _) & _). simpl in Em, Ed.
  eexists w1, [_], _. split; [done|]. split; [by rewrite Em, app_nil_r, Ed|]. split; [by left|done].
Qed.

Lemma dispatch_mails ev contact cfg l w :
  UserContact.Email contact <> EmptyString -> has_break (UserContact.Email contact) = false ->
  (exists ch, ch ∈ l /\ ToLower ch = ChannelEmail) -> has_break smtpFrom = false ->
  (forall c, cfg = Some c -> TenantNotificationConfig.EmailEnabled c = true
     /\ has_break (TenantNotificationConfig.SMTPFrom c) = false) -> 0 < max ->
  limits (data w) !! limit_key (EscalationTriggered.TenantID ev) (EscalationTriggered.OncallUserID ev) ChannelEmail = None ->
  exists w' new m, run (for_each l (dispatch_one max window smtpFrom base ev contact cfg)) w = (tt, w')
    /\ mails (data w') = mails (data w) ++ new /\ m ∈ new /\ mail_to m = UserContact.Email contact.
Proof.
  intros He Hb Hch Hfrom Hcfg Hmax. revert w. induction l as [|ch l IH]; intros w Hl.
  { destruct Hch as (? & Hin & _). by apply not_elem_of_nil in Hin. }
  cbn [for_each]. rewrite run_bind. destruct (decide (ToLower ch = ChannelEmail)) as [Ech|Nch].
  - assert (exists w1 l1 m, run (dispatch_one max window smtpFrom base ev contact cfg ch) w = (tt, w1)
      /\ mails (data w1) = mails (data w) ++ l1 /\ m ∈ l1 /\ mail_to m = UserContact.Email contact)
      as (w1 & l1 & m & -> & E1 & Hm & Hto).
    { unfold dispatch_one. rewrite Ech, String.eqb_refl, (proj2 (String.eqb_neq _ _) He).
      destruct cfg as [c|]; [|by apply mail_channel]. destruct (Hcfg c eq_refl) as [-> Hc]. cbn [negb].
      apply mail_channel; [|done..]. by destruct (String.eqb _ _). }
    destruct (run (for_each l _) w1) as [[] w2] eqn:E2.
    destruct (dispatchToContact_accounted max window smtpFrom base ev
      (UserContact.mk "" "" "" (UserContact.Email contact) (UserContact.MattermostUsername contact) l 0 0) cfg w1 tt w2)
      as (a & (_ & _ & Ea & _) & _); [exact E2|].
    exists w2, (l1 ++ new_mails a), m. split; [done|]. rewrite Ea, E1, app_assoc. split; [done|].
    split; [|done]. apply elem_of_app. by left.
  - destruct (run (dispatch_one _ _ _ _ _ _ _ _) w) as [[] w1] eqn:E1.
    pose proof (run_same_bucket _ _ _ _ _ (dispatch_one_other _ _ ev contact cfg ch eq_refl eq_refl Nch) E1) as Hq.
    apply dispatch_one_accounted in E1 as (a & (_ & _ & Ea & _) & _).
    destruct (IH ltac:(destruct Hch as (c & [->|Hc]%elem_of_cons & Hc'); [done|by exists c]) w1) as (w2 & new & m & -> & E2 & Hm & Hto).
    { by rewrite Hq. }
    exists w2, (new_mails a ++ new), m. split; [done|]. rewrite E2, Ea, app_assoc. split; [done|].
    split; [|done]. apply elem_of_app. by right.
Qed.

(** The handling of an event whose on-call user has a mailbox. *)
Lemma triggered_mails ev env contact t d :
  Envelope.Type_ env = RoutingKeyEscalationTriggered ->
  Envelope.DecodePayload env (payload_zero (A := EscalationTriggered.t)) = Ok ev ->
  EscalationTriggered.OncallUserID ev <> EmptyString ->
  find (same_contact (EscalationTriggered.OncallUserID ev) (EscalationTriggered.TenantID ev)) (contacts d) = Some contact ->
  has_mailbox contact -> settings_allow_mail (EscalationTriggered.TenantSlug ev) d -> 0 < max ->
  limits d !! limit_key (EscalationTriggered.TenantID ev) (EscalationTriggered.OncallUserID ev) ChannelEmail = None ->
  exists w' new m, run (handle max window sched ttl smtpFrom base env) (World t d) = (Ok tt, w')
    /\ mails (data w') = mails d ++ new /\ m ∈ new /\ mail_to m = UserContact.Email contact.
Proof.
  intros Ht Hp Hu Hc (He & Hb & Hch) [Hfrom Hset] Hmax Hl. unfold handle. rewrite Ht, String.eqb_refl.
  change EscalationTriggered.zero with (payload_zero (A := EscalationTriggered.t)). rewrite Hp, run_bind.
  unfold NotifyTriggered. rewrite (proj2 (String.eqb_neq _ _) Hu), run_bind. unfold Notification.GetContact.
  rewrite run_sql_ok by (apply Hrel || done). cbn [tick data]. rewrite Hc. rewrite run_bind.
  specialize (Hset (S t)). destruct (run (cache_Get _ _ _) _) as [cfg w1] eqn:E1. rewrite run_bind.
  pose proof (run_same_bucket (limit_key (EscalationTriggered.TenantID ev) (EscalationTriggered.OncallUserID ev)
    ChannelEmail) _ _ _ _ (cache_Get_respects _ _ _ _ (fun _ _ => eq_refl)) E1) as Hq. simpl in Hq, Hset.
  apply cache_Get_quiet in E1 as (_ & _ & Em & _). simpl in Em. rewrite app_nil_r in Em.
  destruct (dispatch_mails ev contact (config_or_nil cfg) (UserContact.EnabledChannels contact) w1) as (w2 & new & m & Hr & E2 & Hm & Hto);
    [done..|by rewrite Hq|].
  unfold dispatchToContact. rewrite Hr. exists w2, new, m. split; [done|]. by rewrite E2, Em.
Qed.

End Mailing.

(** C17: the log tells what was sent.  Whatever calls fail, handling an
    [escalation.triggered] event leaves the contacts alone, adds log entries that
    name the incident, the tenant and the on-call user, and every entry that says
    [delivered] is backed, in that run, by a mail the SMTP server took or a POST
    answered with a status of the 2xx class, to its recipient.
    Mails go only to the stored address of that user, never when the tenant has
    disabled e-mail; POSTs go only to the tenant's own webhook, never when it is
    disabled, masked or incomplete. *)
Theorem delivered_means_sent `{Platform} `{TimeText} `{HttpEnv} `{Network} max window sched ttl smtpFrom base
    (ev : EscalationTriggered.t) (w : world db) r w' :
  run (NotifyTriggered max window sched ttl smtpFrom base ev) w = (r, w') ->
  adds (data w) (data w') nothing \/
  exists contact cfg w1 w2,
    find (same_contact (EscalationTriggered.OncallUserID ev) (EscalationTriggered.TenantID ev)) (contacts (data w))
      = Some contact
    /\ data w1 = data w /\ run (cache_Get sched ttl (EscalationTriggered.TenantSlug ev)) w1 = (cfg, w2)
    /\ accounted ev contact (config_or_nil cfg) (data w) (data w').
Proof.
  unfold NotifyTriggered. destruct (String.eqb _ "") eqn:E0; [intros [= <- <-]; left; apply adds_refl|].
  rewrite run_bind. destruct (run (Notification.GetContact _ _) w) as [rc w1] eqn:E1.
  destruct (GetContact_reads _ _ _ _ _ E1) as [Ed Hc].
  destruct rc as [contact|e].
  2: { destruct (bool_decide _); intros [= <- <-]; left; rewrite Ed; apply adds_refl. }
  rewrite run_bind. destruct (run (cache_Get _ _ _) w1) as [cfg w2] eqn:E2. rewrite run_bind.
  destruct (run (dispatchToContact _ _ _ _ _ _ _) w2) as [[] w3] eqn:E3. intros [= <- <-].
  right. exists contact, cfg, w1, w2. split; [by apply Hc|]. split; [done|]. split; [done|]. rewrite <-Ed.
  etrans; [|exact (dispatchToContact_accounted _ _ _ _ _ _ _ _ _ _ E3)].
  exists nothing. split; [exact (cache_Get_quiet _ _ _ _ _ _ E2)|by repeat constructor].
Qed.

(** The examples: a contact with both channels, a tenant configuration over HTTP,
    and a webhook that answers 200. *)
Definition demo_http (code : Z) : HttpEnv := {|
  http_reply _ _ := Some (code, Some (JObj [("mattermost_enabled", JBool true);
    ("mattermost_webhook_url", JStr "https://mm/hooks/x"); ("email_enabled", JBool true)])) |}.

Definition demo_web : Network := {|
  url_Parse s := Some (Url "https" "mm" "/hooks/x");
  http_post _ _ := Some 200 |}.

Definition demo_contact : UserContact.t := UserContact.mk "c1" "u1" "acme" "u1@x" "" ["Email"; "mattermost"; "sms"] 0 0.

Definition demo_ev (title : string) : EscalationTriggered.t :=
  EscalationTriggered.mk "i1" "acme" "acme" 1 "u1" "alice" title "high" "open".

Definition demo_db : db := Db [demo_contact] [] ∅ ∅ [] [].

(** The first SMTP call fails, so the mail goes out with the second. *)
Abbreviation demo_run := (run (@NotifyTriggered (demo_platform [(4%nat, FailBefore (ErrNew "smtp"))]) demo_time_text
  (demo_http 200) demo_web 3 60 (New "http://sched" "k") Hour "from@x" "" (demo_ev "disk full")) (World 0 demo_db)).

Lemma delivered_means_sent_witness :
  map NotificationLog.Status (log (data demo_run.2)) = [StatusDelivered; StatusDelivered] /\
  (adds demo_db (data demo_run.2) nothing \/
   exists contact cfg w1 w2, find (same_contact "u1" "acme") [demo_contact] = Some contact
     /\ data w1 = demo_db
     /\ run (@cache_Get (demo_platform [(4%nat, FailBefore (ErrNew "smtp"))]) (demo_http 200)
             (New "http://sched" "k") Hour "acme") w1 = (cfg, w2)
     /\ @accounted demo_web (demo_ev "disk full") contact (config_or_nil cfg) demo_db (data demo_run.2)).
Proof.
  split; [vm_compute; reflexivity|].
  apply (@delivered_means_sent (demo_platform [(4%nat, FailBefore (ErrNew "smtp"))]) demo_time_text (demo_http 200)
           demo_web 3 60 (New "http://sched" "k") Hour "from@x" "" (demo_ev "disk full") (World 0 demo_db) demo_run.1).
  apply surjective_pairing.
Defined.

(** ** Header injection *)

(** A title can add header lines to the mail.  The subject is written
    into the header block as it is, so a title (or a subject prefix) that holds a
    line break followed by a header puts that header on a line of its own. *)
Lemma title_injects_header from to msg pre hdr :
  EmailMessage.Title msg = pre +:+ crlf +:+ hdr ->
  exists before after, email_headers from to msg = before +:+ crlf +:+ hdr +:+ crlf +:+ after.
Proof.
  intros Ht. unfold email_headers, email_subject. rewrite Ht.
  assert (String.eqb (pre +:+ crlf +:+ hdr) "" = false) as -> by (by destruct pre).
  exists ("From: " +:+ from +:+ crlf +:+ "To: " +:+ to +:+ crlf +:+ opt_line "Reply-To: " (EmailMessage.ReplyTo msg) crlf
    +:+ "Subject: " +:+ (if String.eqb (EmailMessage.SubjectPrefix msg) "" then "" else EmailMessage.SubjectPrefix msg +:+ " ")
    +:+ "[SRE OnCall] [" +:+ EmailMessage.Severity msg +:+ "] " +:+ pre),
    ("MIME-Version: 1.0" +:+ crlf +:+ "Content-Type: text/plain; charset=" +:+ String "034" ("utf-8" +:+ String "034" crlf)).
  destruct (String.eqb (EmailMessage.SubjectPrefix msg) ""); rewrite !str_app_assoc; done.
Qed.

Lemma title_injects_header_witness :
  let msg := EmailMessage.mk "i1" "acme" ("disk" +:+ crlf +:+ "Bcc: eve@x") "high" "open" 1 "" "" "" in
  exists before after, email_headers "from@x" "u1@x" msg = before +:+ crlf +:+ "Bcc: eve@x" +:+ crlf +:+ after.
Proof. intros msg. exact (title_injects_header "from@x" "u1@x" msg "disk" "Bcc: eve@x" eq_refl). Defined.
