(* ===== verification/NotificationLimit.v ===== *)
(** * Notification: what the rate limit bounds

    services/notification/internal: ratelimit/ratelimit.go under the dispatch of
    notifier/notifier.go, for deliveries that are handled at the same time.  The
    bound needs the limiter to answer: [dispatchChannel] sends when it fails. *)

From S2P Require Import Prelude Effects Json Events Interleaving Amqp Http Auth Redis Notification NotificationProps.
Open Scope go_scope.

(** ** The bucket *)

(** The bucket in the store: its tokens, refill time and expiry. *)
Definition has_bucket (key : string) (st : redis) (tokens last_refill : Z) (exp : Time) : Prop :=
  exists h, st !! key = Some (RHash h, Some exp)
    /\ h !! "tokens" = Some (Itoa tokens) /\ h !! "last_refill" = Some (Itoa last_refill).

(** What the limiter leaves under its key: nothing, or a bucket that is not
    over-full. *)
Definition limiter_ok (max : Z) (key : string) (st : redis) : Prop :=
  st !! key = None \/ exists tokens last exp, has_bucket key st tokens last exp /\ tokens <= max.

Section Bucket.
Variables (max window : Z) (key : string) (T : Z).
Hypothesis Hw : 0 < window.

Lemma store_bucket_has clock tokens last e st :
  has_bucket key (store_bucket window clock key tokens last e st) tokens last (Add clock (window * 2 * Second)).
Proof.
  unfold store_bucket, has_bucket. rewrite (proj2 (Z.ltb_lt 0 (window * 2))) by lia.
  eexists. rewrite lookup_insert_eq. split; [done|]. rewrite lookup_insert_ne, !lookup_insert_eq by done. done.
Qed.

(** A bucket refilled in the window that begins at [T], which lives to its end. *)
Definition fresh (last : Z) (exp : Time) : bool := (T <=? last) && ((T + window) * Second <=? exp).

(** How many calls the bucket can still allow in the window that begins at [T]:
    its tokens, and a full bucket more unless it is fresh. *)
Definition available (st : redis) : nat :=
  match st !! key with
  | Some (RHash h, Some exp) =>
      match h !! "tokens" ≫= atoi, h !! "last_refill" ≫= atoi with
      | Some tokens, Some last =>
          (Z.to_nat tokens + (if fresh last exp then 0 else Z.to_nat max))%nat
      | _, _ => Z.to_nat max
      end
  | _ => Z.to_nat max
  end.

Lemma available_bucket st tokens last exp :
  has_bucket key st tokens last exp ->
  available st = (Z.to_nat tokens + (if fresh last exp then 0 else Z.to_nat max))%nat.
Proof. intros (h & Hk & Ht & Hl). unfold available. rewrite Hk, Ht, Hl. cbn [mbind option_bind]. by rewrite !atoi_Itoa. Qed.

Lemma available_le st : limiter_ok max key st -> (available st <= 2 * Z.to_nat max)%nat.
Proof.
  intros [Hn|(tokens & last & exp & Hb & Hm)]; [unfold available; rewrite Hn; lia|].
  rewrite (available_bucket _ _ _ _ Hb). destruct (fresh _ _); lia.
Qed.

Lemma available_other st st' : st' !! key = st !! key -> available st' = available st.
Proof. unfold available. by intros ->. Qed.

Lemma limiter_ok_other st st' : st' !! key = st !! key -> limiter_ok max key st -> limiter_ok max key st'.
Proof. unfold limiter_ok, has_bucket. by intros ->. Qed.

(** A bucket written in the window. *)
Lemma stored_bucket clock tokens last e st :
  T * Second <= clock -> tokens <= max ->
  let st' := store_bucket window clock key tokens last e st in
  limiter_ok max key st' /\ available st' = (Z.to_nat tokens + (if (T <=? last)%Z then 0 else Z.to_nat max))%nat.
Proof.
  intros Hc Ht. cbv zeta. pose proof (store_bucket_has clock tokens last e st) as Hb. split; [right; by eauto 10|].
  rewrite (available_bucket _ _ _ _ Hb). unfold fresh. rewrite (proj2 (Z.leb_le ((T + window) * Second) _)); [by rewrite andb_true_r|].
  unfold Add, Second in *. lia.
Qed.

(** One call of the script: it answers, and an allowed call takes one of what is
    available. *)
Lemma script_available now clock st :
  limiter_ok max key st -> T <= now < T + window -> T * Second <= clock < (T + window) * Second ->
  exists b st', script max window key now clock st = Ok (b, st')
    /\ limiter_ok max key st' /\ (available st' + (if b : bool then 1 else 0) <= available st)%nat.
Proof.
  intros Hok Hn Hc. unfold script.
  assert (exists tokens last, bucket max window now (lookup_live clock key st) = (tokens, last) /\ tokens <= max
    /\ (forall v e, lookup_live clock key st = Some (RStr v, e) -> False)
    /\ ((0 < tokens)%Z -> Z.to_nat (tokens - 1) + (if (T <=? last)%Z then 0 else Z.to_nat max) + 1 <= available st)%nat)
    as (tokens & last & Hb & Hm & Hstr & Ha).
  { destruct Hok as [Hno|(tk & la & exp & Hbk & Hm)].
    - unfold lookup_live. rewrite Hno. exists max, now. split_and!; [done|lia|done|]. intros Hp.
      rewrite (proj2 (Z.leb_le T now)) by lia. unfold available. rewrite Hno. lia.
    - pose proof (available_bucket _ _ _ _ Hbk) as Ea. destruct Hbk as (h & Hk & Ht & Hl).
      unfold lookup_live. rewrite Hk. unfold live. cbn [snd].
      destruct (Z.ltb_spec clock exp) as [Hlive|Hdead].
      + unfold bucket. rewrite Ht, Hl. cbn [mbind option_bind]. rewrite !atoi_Itoa.
        destruct (Z.leb_spec window (now - la)).
        * exists max, now. split_and!; [done|lia|done|]. intros Hp. rewrite Ea.
          rewrite (proj2 (Z.leb_le T now)) by lia. unfold fresh. rewrite (proj2 (Z.leb_gt T la)) by lia. simpl. lia.
        * exists tk, la. split_and!; [done|lia|done|]. intros Hp. rewrite Ea.
          unfold fresh. destruct (T <=? la); simpl; [|lia]. destruct (_ <=? exp); lia.
      + exists max, now. split_and!; [done|lia|done|]. intros Hp. rewrite Ea.
        rewrite (proj2 (Z.leb_le T now)) by lia. unfold fresh. rewrite (proj2 (Z.leb_gt _ exp)) by lia.
        rewrite andb_false_r. lia. }
  destruct (lookup_live clock key st) as [[[v|h] e]|] eqn:El; [by destruct (Hstr v e)|..]; rewrite Hb;
    (destruct (Z.ltb_spec 0 tokens) as [Hp|Hp]; [|exists false, st; split_and!; [done..|lia]]);
    match goal with |- context [store_bucket _ _ _ ?tk ?la ?e ?st] =>
      destruct (stored_bucket clock tk la e st) as [Hok' Hav]; [lia..|] end;
    (do 2 eexists; split; [done|]; split; [done|]; rewrite Hav; by apply Ha).
Qed.

End Bucket.

(** ** The deliveries *)

(** An entry of a notification that the limiter let through. *)
Definition let_through (tenant user channel : string) (e : NotificationLog.t) : bool :=
  String.eqb (NotificationLog.TenantID e) tenant && String.eqb (NotificationLog.UserID e) user
  && String.eqb (NotificationLog.Channel e) channel
  && (String.eqb (NotificationLog.Status e) StatusDelivered || String.eqb (NotificationLog.Status e) StatusFailed)
  && negb (String.eqb (NotificationLog.Recipient e) "").

Lemma let_through_spec tenant user channel e :
  let_through tenant user channel e = true ->
  NotificationLog.TenantID e = tenant /\ NotificationLog.UserID e = user /\ NotificationLog.Channel e = channel
  /\ NotificationLog.Status e <> StatusRateLimited /\ NotificationLog.Recipient e <> EmptyString.
Proof.
  unfold let_through. rewrite !andb_true_iff, orb_true_iff, negb_true_iff, !String.eqb_eq, String.eqb_neq.
  intros ((((-> & ->) & ->) & Hs) & Hr). split_and!; [done..| |done]. by destruct Hs as [->| ->].
Qed.

Definition let_throughs (tenant user channel : string) (d : db) : nat :=
  length (List.filter (let_through tenant user channel) (log d)).

Definition mails_to (addr : string) (d : db) : nat :=
  length (List.filter (fun m => String.eqb (mail_to m) addr) (mails d)).

(** The address belongs to one contact. *)
Definition sole_owner (addr tenant user : string) (d : db) : Prop :=
  forall c, c ∈ contacts d -> UserContact.Email c = addr ->
    UserContact.TenantID c = tenant /\ UserContact.UserID c = user.

Definition same_contacts (d d' : db) : Prop := contacts d' = contacts d.

#[local] Instance same_contacts_PreOrder : PreOrder same_contacts.
Proof. split; unfold same_contacts; [done|]. intros d1 d2 d3. congruence. Qed.

(** What a window bounds: entries, or mails. *)
Inductive counted := Entries | Mails.

Section Deliveries.
Context `{Platform} `{TimeText} `{HttpEnv} `{Network}.
Variables (max window : Z) (sched : Client) (ttl : Duration) (smtpFrom base : string).
(** The address whose mails are counted, if any. *)
Variables (T : Z) (tenant user channel : string) (addr : option string).
Hypothesis Hw : 0 < window.
Hypothesis Hrel : reliable.
Hypothesis Hclock : forall t, T * Second <= now_at t < (T + window) * Second.
Hypothesis Huser : user <> EmptyString.

Local Abbreviation key := (limit_key tenant user channel).

Definition count (d : db) (x : counted) : nat :=
  match x with
  | Entries => let_throughs tenant user channel d
  | Mails => match addr with Some a => if String.eqb channel ChannelEmail then mails_to a d else 0 | None => 0 end
  end.

(** What was counted, and what the bucket can still allow. *)
Definition potential (d : db) (x : counted) : nat := (count d x + available max window key T (limits d))%nat.

Definition bucket_ok (d : db) : Prop := limiter_ok max key (limits d).

Local Abbreviation safe p c d0 Q := (wpD same_contacts bucket_ok potential p c d0 Q).

Local Abbreviation none := (fun _ : counted => 0%nat).
Local Abbreviation one := (fun _ : counted => 1%nat).

(** Steps on the cache and the posts. *)
Definition uncounted (d d' : db) : Prop :=
  contacts d' = contacts d /\ log d' = log d /\ limits d' = limits d /\ mails d' = mails d.

#[local] Instance uncounted_Reflexive : Reflexive uncounted.
Proof. done. Qed.

Lemma uncounted_safe {A} (p : M db A) c d0 :
  respects uncounted p -> safe p c d0 (fun _ c' d => same_contacts d0 d /\ c' = c).
Proof.
  intros Hp. apply (wpD_respects _ _ _ uncounted); [|done]. intros d d' (Hc & Hl & Hli & Hm) Hi.
  split; [done|]. split; [by unfold bucket_ok; rewrite Hli|]. intros x. unfold potential, count, let_throughs, mails_to.
  rewrite Hl, Hli, Hm. destruct x; lia.
Qed.

(** An allowed call leaves a credit when it is for this contact and channel. *)
Lemma Allow_safe t u ch d0 :
  safe (Allow max window t u ch) none d0 (fun r c d => same_contacts d0 d
    /\ ((t, u, ch) = (tenant, user, channel) -> match r with Ok false => True | _ => c = one end)).
Proof.
  unfold Allow. apply wpD_bind, (wpD_now same_contacts bucket_ok potential). intros t1 d1 Hle1. apply wpD_bind. unfold rcall.
  apply (wpD_call_reliable same_contacts bucket_ok potential); [done|]. intros t2 d2 Hle2 Hi.
  assert (same_contacts d0 d2) as Hle by (by transitivity d1).
  destruct (decide (limit_key t u ch = key)) as [->|Hne].
  - destruct (script_available max window key T Hw (now_at t1 / Second) (now_at t2) (limits d2) Hi) as (b & st & Es & Hok & Hav);
      [|apply Hclock|].
    { specialize (Hclock t1). assert (0 < Second) by done. split; [apply Z.div_le_lower_bound|apply Z.div_lt_upper_bound]; lia. }
    cbn [rds db_Redis]. rewrite Es. split; [done|]. split; [done|].
    exists (fun _ => if b then 1%nat else 0%nat). split.
    + intros x. unfold potential, count, let_throughs, mails_to. cbn [set_rds db_Redis log mails limits].
      destruct x, b; lia.
    + apply wpD_ret. split; [done|]. intros _. by destruct b.
  - cbn [rds db_Redis]. destruct (script _ _ _ _ _ _) as [[b st]|e] eqn:Es.
    + pose proof (script_other _ _ _ _ _ _ _ _ _ Es (not_eq_sym Hne)) as Ho.
      split; [done|]. split; [by apply (limiter_ok_other _ _ (limits d2))|]. exists none. split.
      * intros x. unfold potential, count, let_throughs, mails_to. cbn [set_rds db_Redis log mails limits].
        rewrite (available_other _ _ _ _ (limits d2) st Ho). destruct x; lia.
      * apply wpD_ret. split; [done|]. intros [= -> -> ->]. done.
    + apply wpD_ret. split; [done|]. intros [= -> -> ->]. done.
Qed.

(** An entry costs its credit. *)
Lemma appendLog_safe l c d0 :
  (let_through tenant user channel l = true -> 1 <= c Entries)%nat ->
  safe (appendLog l) c d0 (fun _ _ d => same_contacts d0 d).
Proof.
  intros Hc. unfold appendLog, AppendLog, sql. apply wpD_bind, (wpD_call_reliable same_contacts bucket_ok potential); [done|]. intros t d Hle Hi.
  cbn [forallb]. destruct (existsb _ _); [by apply wpD_ret|]. split; [done|]. split; [done|].
  exists (fun x => match x with Entries => c Entries - (if let_through tenant user channel l then 1 else 0) | Mails => c Mails end)%nat.
  split; [|by apply wpD_ret].
  intros []; unfold potential, count, let_throughs, mails_to; cbn; [|lia].
  rewrite List.filter_app, length_app. cbn [List.filter].
  change (let_through tenant user channel (NotificationLog.mk _ _ _ _ _ _ _ _ _)) with (let_through tenant user channel l).
  destruct (let_through _ _ _ l); simpl; [specialize (Hc eq_refl)|]; lia.
Qed.

(** A mail costs its credit. *)
Lemma SendMail_safe from to raw c d0 :
  (channel = ChannelEmail -> addr = Some to -> 1 <= c Mails)%nat ->
  safe (SendMail from to raw) c d0 (fun r c' d => same_contacts d0 d /\ c' Entries = c Entries
    /\ match r with Ok _ => True | Err _ => c' = c end).
Proof.
  intros Hc. unfold SendMail. apply (wpD_call_reliable same_contacts bucket_ok potential); [done|]. intros t d Hle Hi.
  destruct (_ || _); [done|]. split; [done|]. split; [done|].
  exists (fun x => match x with Entries => c Entries
    | Mails => c Mails - (if bool_decide (addr = Some to) && String.eqb channel ChannelEmail then 1 else 0) end)%nat.
  split; [|done].
  intros []; unfold potential, count, let_throughs, mails_to; cbn [log mails limits]; [lia|].
  destruct addr as [a|]; [|simpl; lia]. rewrite List.filter_app, length_app. cbn [List.filter mail_to].
  destruct (String.eqb_spec channel ChannelEmail) as [Ec|]; [|rewrite andb_false_r; lia].
  destruct (String.eqb_spec to a) as [->|Hne]; case_bool_decide; simplify_eq; simpl; [specialize (Hc Ec eq_refl)|]; lia.
Qed.

(** ... whatever the number of attempts. *)
Lemma attempts_mail_safe n i msg from to raw e c d0 :
  (channel = ChannelEmail -> addr = Some to -> 1 <= c Mails)%nat ->
  safe (attempts n i msg (SendMail from to raw) e) c d0 (fun _ c' d => same_contacts d0 d /\ c' Entries = c Entries).
Proof.
  intros Hc. revert i e d0. induction n as [|n IH]; intros i e d0; cbn [attempts]; [by apply wpD_ret|].
  apply wpD_bind. eapply wpD_mono; [|by apply SendMail_safe]. intros r c' d (Hle & HE & Hr).
  destruct r as [[]|e']; [by apply wpD_ret|subst c'].
  assert (forall d1, same_contacts d d1 -> safe (attempts n (S i) msg (SendMail from to raw) e') c d1
    (fun _ c' d => same_contacts d0 d /\ c' Entries = c Entries)) as Hnext.
  { intros d1 Hle1. eapply wpD_mono; [|apply IH]. intros a c' d2 [Hle2 ->]. split; [|done].
    transitivity d; [done|]. by transitivity d1. }
  destruct (i <? 2)%nat; [|by apply Hnext]. apply wpD_bind.
  eapply wpD_mono; [|apply (uncounted_safe (sleep_or_Done _)); intros w; left; by split].
  intros stop c' d1 [Hle1 ->]. destruct stop; [|by apply Hnext]. apply wpD_ret. split; [by transitivity d|done].
Qed.

(** One channel: a send that costs at most the credit for a mail. *)
Lemma dispatchChannel_safe t u inc ch recipient send d0 :
  (forall c d, ((t, u, ch) = (tenant, user, channel) -> c = one) ->
     safe send c d (fun _ c' d' => same_contacts d d' /\ c' Entries = c Entries)) ->
  safe (dispatchChannel max window t u inc ch recipient send) none d0 (fun _ _ d => same_contacts d0 d).
Proof.
  intros Hs. unfold dispatchChannel. apply wpD_bind. eapply wpD_mono; [|apply Allow_safe].
  intros r c d [Hle Hr]. cbv beta zeta.
  assert (forall st c d, same_contacts d0 d -> (st = StatusRateLimited \/ forall E : (t, u, ch) = (tenant, user, channel), c Entries = 1%nat) ->
    forall detail, safe (appendLog (log_entry inc t u ch st recipient detail)) c d (fun _ _ d => same_contacts d0 d)) as Hl.
  { intros st c1 d1 Hle1 Hst detail. eapply wpD_mono; [|apply appendLog_safe].
    - intros a c2 d2 Hle2. cbv beta. by transitivity d1.
    - intros (Ht & Hu & Hch & Hne & _)%let_through_spec. simpl in *.
      destruct Hst as [->|Hst]; [done|]. rewrite Hst by congruence. lia. }
  destruct (negb _) eqn:En.
  - apply Hl; [done|by left].
  - apply wpD_bind. eapply wpD_mono; [|apply (Hs c d)].
    + intros r2 c2 d2 [Hle2 Hc2]. cbv beta. assert (same_contacts d0 d2) by (by transitivity d).
      destruct r2 as [u2|e2]; apply Hl; try done; right; intros E; rewrite Hc2; destruct r as [[]|]; try done;
        by rewrite (Hr E).
    + intros E. destruct r as [[]|]; try done; by apply Hr.
Qed.

(** The entry for a missing webhook is no notification. *)
Lemma missing_safe inc t u d0 : forall c,
  safe (appendLog (log_entry inc t u ChannelMattermost StatusFailed "" missing_webhook)) c d0 (fun _ _ d => same_contacts d0 d).
Proof. intros c. apply appendLog_safe. intros (_ & _ & _ & _ & Hr)%let_through_spec. done. Qed.

Lemma Mattermost_Send_safe url ch text c d0 :
  safe (Mattermost_Send url ch text) c d0 (fun _ c' d => same_contacts d0 d /\ c' Entries = c Entries).
Proof.
  eapply wpD_mono; [|apply uncounted_safe; by apply Mattermost_Send_respects]. by intros a c' d [Hle ->].
Qed.

Lemma cache_Get_safe slug c d0 :
  safe (cache_Get sched ttl slug) c d0 (fun _ _ d => same_contacts d0 d).
Proof. eapply wpD_mono; [|apply uncounted_safe; by apply cache_Get_respects]. by intros a c' d [Hle _]. Qed.

Lemma dispatch_one_safe ev contact cfg ch d0 :
  (addr = Some (UserContact.Email contact) ->
     EscalationTriggered.TenantID ev = tenant /\ EscalationTriggered.OncallUserID ev = user) ->
  safe (dispatch_one max window smtpFrom base ev contact cfg ch) none d0 (fun _ _ d => same_contacts d0 d).
Proof.
  intros Ha.
  assert (forall from msg, safe (dispatchChannel max window (EscalationTriggered.TenantID ev) (EscalationTriggered.OncallUserID ev)
    (EscalationTriggered.IncidentID ev) ChannelEmail (UserContact.Email contact) (Email_Send from (UserContact.Email contact) msg))
    none d0 (fun _ _ d => same_contacts d0 d)) as Hmail.
  { intros from msg. apply dispatchChannel_safe. intros c d Hc. unfold Email_Send. apply wpD_bind.
    apply (wpD_now same_contacts bucket_ok potential). intros t d1 Hle. eapply wpD_mono; [|apply attempts_mail_safe].
    - intros a c' d2 [Hle2 ->]. split; [by transitivity d1|done].
    - intros -> He. rewrite Hc; [done|]. by destruct (Ha He) as [-> ->]. }
  unfold dispatch_one. destruct (String.eqb (ToLower ch) ChannelEmail).
  - destruct (String.eqb _ ""); [by apply wpD_ret|]. destruct cfg as [c|]; [|apply Hmail].
    destruct (negb _); [by apply wpD_ret|apply Hmail].
  - destruct (String.eqb _ ChannelMattermost); [|by apply wpD_ret]. destruct cfg as [c|]; [|apply missing_safe].
    destruct (negb _); [by apply wpD_ret|]. destruct (negb _); [apply missing_safe|].
    apply dispatchChannel_safe. intros c' d _. apply Mattermost_Send_safe.
Qed.

(** Credits are not kept from one channel to the next. *)
Lemma safe_no_credit {A} (p : M db A) c d0 :
  safe p none d0 (fun _ _ d => same_contacts d0 d) -> safe p c d0 (fun _ _ d => same_contacts d0 d).
Proof. intros Hp t. eapply wp_drop; [done| |apply Hp]. intros x. apply Nat.le_0_l. Qed.

Lemma NotifyTriggered_safe ev c d0 :
  (forall a, addr = Some a -> sole_owner a tenant user d0) ->
  safe (NotifyTriggered max window sched ttl smtpFrom base ev) c d0 (fun _ _ d => same_contacts d0 d).
Proof.
  intros Hso. unfold NotifyTriggered. destruct (String.eqb _ ""); [by apply wpD_ret|].
  apply wpD_bind. unfold Notification.GetContact, sql. apply (wpD_call_reliable same_contacts bucket_ok potential); [done|].
  intros t d1 Hle1 Hi. cbn [forallb]. destruct (find _ _) as [contact|] eqn:Ef.
  2: { destruct (bool_decide _); by apply wpD_ret. }
  split; [done|]. split; [done|]. exists c. split; [done|].
  apply wpD_bind. eapply wpD_mono; [|apply cache_Get_safe]. intros cfg c2 d2 Hle2. apply wpD_bind.
  eapply wpD_mono; [|apply (wpD_for_each same_contacts bucket_ok potential)].
  - intros [] c3 d3 Hle3. apply wpD_ret. by (transitivity d1; [|transitivity d2]).
  - intros ch c3 d3 _ Hle3. apply safe_no_credit, dispatch_one_safe. intros He.
    apply find_elem in Ef as [Hin Hsame]. unfold same_contact in Hsame. rewrite andb_true_iff, !String.eqb_eq in Hsame.
    destruct Hsame as [<- <-]. apply (Hso _ He); [|done]. by rewrite <- Hle1.
Qed.

Lemma NotifyExhausted_safe ev c d0 :
  safe (NotifyExhausted sched ttl ev) c d0 (fun _ _ d => same_contacts d0 d).
Proof.
  unfold NotifyExhausted. apply wpD_bind. eapply wpD_mono; [|apply cache_Get_safe]. intros cfg c1 d1 Hle1.
  assert (forall l, NotificationLog.UserID l = EmptyString -> forall c2 d2, same_contacts d0 d2 ->
    safe (let! _ := appendLog l in Ret (Ok tt)) c2 d2 (fun (_ : res unit) _ d => same_contacts d0 d)) as Hl.
  { intros l Hu c2 d2 Hle2. apply wpD_bind. eapply wpD_mono; [|apply appendLog_safe].
    - intros [] c3 d3 Hle3. apply wpD_ret. by transitivity d2.
    - intros (_ & E & _)%let_through_spec. congruence. }
  destruct (config_or_nil cfg) as [s|]; [|by apply Hl]. destruct (negb _); [by apply wpD_ret|].
  destruct (negb _); [by apply Hl|]. apply wpD_bind. eapply wpD_mono; [|apply Mattermost_Send_safe].
  intros r c2 d2 [Hle2 _]. apply Hl; [by destruct r|by transitivity d1].
Qed.

Lemma delivery_safe env c d0 :
  (forall a, addr = Some a -> sole_owner a tenant user d0) ->
  safe (handle max window sched ttl smtpFrom base env) c d0 (fun _ _ d => same_contacts d0 d).
Proof.
  intros Hso. unfold handle.
  destruct (String.eqb _ _); [|destruct (String.eqb _ _); [|by apply wpD_ret]];
    (destruct (Envelope.DecodePayload _ _) as [ev|e]; [|by apply wpD_ret]); apply wpD_bind.
  - eapply wpD_mono; [|by apply NotifyTriggered_safe]. intros r c' d Hle. by apply wpD_ret.
  - eapply wpD_mono; [|by apply NotifyExhausted_safe]. intros r c' d Hle. by apply wpD_ret.
Qed.

End Deliveries.

(** C37: the notification rate limit.  Any number of deliveries are handled in any
    interleaving while the clock stays in one window and no call fails; whatever
    bucket the limiter left for a user and a channel before, the log gains at most
    twice the maximum of entries of notifications it let through to them, delivered
    or failed, and, when the mail address of the user is in no other contact, that
    address gets at most twice the maximum of mails. *)
Theorem rate_limit_bound `{Platform} `{TimeText} `{HttpEnv} `{Network} max window sched ttl smtpFrom base
    T tenant user channel addr envs order (w : world db) :
  0 < window -> reliable ->
  (forall t, T * Second <= now_at t < (T + window) * Second) ->
  user <> EmptyString ->
  limiter_ok max (limit_key tenant user channel) (limits (data w)) ->
  let w' := (run_schedule order (map (handle max window sched ttl smtpFrom base) envs) w).2 in
  (let_throughs tenant user channel (data w')
     <= let_throughs tenant user channel (data w) + 2 * Z.to_nat max)%nat
  /\ (channel = ChannelEmail -> sole_owner addr tenant user (data w) ->
       (mails_to addr (data w') <= mails_to addr (data w) + 2 * Z.to_nat max)%nat).
Proof.
  intros Hw Hrel Hclock Hu Hok w'.
  assert (forall addr x, (forall a, addr = Some a -> sole_owner a tenant user (data w)) ->
    (count tenant user channel addr (data w') x <= count tenant user channel addr (data w) x + 2 * Z.to_nat max)%nat) as Hc.
  { intros a x Hso. pose proof (run_schedule_rtc order (map (handle max window sched ttl smtpFrom base) envs) w) as Hr.
    pose proof (available_le max window _ T (limits (data w)) Hok) as Ha.
    subst w'. destruct (run_schedule order _ w) as [ps' w1].
    destruct (pool_sound_nocredit (le_world same_contacts) (inv_world (bucket_ok max tenant user channel))
      (pot_world (potential max window T tenant user channel a)) _ _ _ _ Hr Hok) as (_ & _ & Hp).
    2: { specialize (Hp x). unfold pot_world, potential in Hp. simpl. lia. }
    apply Forall_map, Forall_forall. intros env _. unfold verified.
    eapply wp_mono; [|apply wp_start; by apply delivery_safe]. done. }
  split; [by apply (Hc None Entries)|]. intros -> Hso. apply (Hc (Some addr) Mails). by intros a [= <-].
Qed.

(** The examples: a minute, two notifications a minute, and a bucket filled half a
    minute before. *)
Definition demo_minute : Platform := {|
  now_at t := (1704067200 + Z.min (Z.of_nat t) 59) * Second;
  uuid_at t := "id" +:+ pretty t;
  uuid_ok s := true;
  fault_at t := None;
  done_at _ := false;
  conn_closed_at _ := false;
  chan_closed_at _ := false
|}.

Definition demo_bucket : redis :=
  match script 2 60 (limit_key "acme" "u1" ChannelEmail) 1704067170 (1704067170 * Second)
          {[ limit_key "acme" "u1" ChannelEmail := (RHash {[ "tokens" := "3"; "last_refill" := "1704067170" ]}, None) ]} with
  | Ok (_, st) => st
  | Err _ => ∅
  end.

Definition demo_world : world db :=
  World 0 (Db [UserContact.mk "c1" "u1" "acme" "u1@x" "" ["email"] 0 0] [] demo_bucket ∅ [] []).

Definition demo_envelope : Envelope.t :=
  Envelope.mk "e1" "1" RoutingKeyEscalationTriggered "acme" 0 (EscalationTriggered.encode (demo_ev "disk full")).

Abbreviation demo_deliveries := (map (@handle demo_minute demo_time_text (demo_http 404) demo_web 2 60
  (New "http://sched" "k") Hour "from@x" "") (replicate 6 demo_envelope)).

(** Six deliveries by two workers: twice the maximum goes out, within a minute. *)
Definition demo_turns : list nat :=
  concat (map (fun pair => concat (replicate 12 pair)) [[0; 1]; [2; 3]; [4; 5]])%nat.

Lemma rate_limit_bound_witness :
  let w' := (run_schedule demo_turns demo_deliveries demo_world).2 in
  (mails_to "u1@x" (data w') = 4 /\ length (List.filter (fun e => String.eqb (NotificationLog.Status e) StatusRateLimited) (log (data w'))) = 2)%nat
  /\ (let_throughs "acme" "u1" ChannelEmail (data w') <= 0 + 4)%nat
  /\ (mails_to "u1@x" (data w') <= 0 + 4)%nat.
Proof.
  intros w'. split; [vm_compute; split; reflexivity|].
  destruct (@rate_limit_bound demo_minute demo_time_text (demo_http 404) demo_web 2 60 (New "http://sched" "k") Hour
    "from@x" "" 1704067200 "acme" "u1" ChannelEmail "u1@x" (replicate 6 demo_envelope) demo_turns demo_world)
    as [He Hm]; [reflexivity|by intros t| |done| |].
  - intros t. cbn [now_at demo_minute]. unfold Second. lia.
  - right. exists 2, 1704067170, (1704067290 * Second). split; [|lia]. eexists. vm_compute. split_and!; reflexivity.
  - split; [exact He|]. apply Hm; [reflexivity|]. intros c Hc _. vm_compute in Hc. apply list_elem_of_singleton in Hc. by subst c.
Defined.
