(* ===== verification/ContactProps.v ===== *)
(** * Notification: the contacts a login provisions

    The sync of the contacts of a user with the token: every tenant of the user
    ends up with a contact that has the address of the token. *)

From S2P Require Import Prelude Effects Json Events Interleaving Amqp Http Auth Redis Notification NotificationHandler.
Open Scope go_scope.

(** ** Specification *)

Definition contact_of (d : db) (userID tenantID : string) : option UserContact.t :=
  find (same_contact userID tenantID) (contacts d).

(** The ids that are generated from now on are in no row. *)
Definition fresh_contacts `{Platform} (w : world db) : Prop :=
  forall t c, (tick w <= t)%nat -> c ∈ contacts (data w) -> UserContact.ID c <> uuid_at t.

(** The contact a tenant has after a login, from the one it had. *)
Definition provisioned (email : string) (old : option UserContact.t) (c : UserContact.t) : Prop :=
  UserContact.Email c = email /\
  match old with
  | None => UserContact.EnabledChannels c = ["email"] /\ UserContact.MattermostUsername c = ""
  | Some o =>
      UserContact.ID c = UserContact.ID o /\ UserContact.EnabledChannels c = UserContact.EnabledChannels o
      /\ UserContact.MattermostUsername c = UserContact.MattermostUsername o
      /\ UserContact.CreatedAt c = UserContact.CreatedAt o /\ (UserContact.Email o = email -> c = o)
  end.

(** The login has something to write. *)
Definition out_of_sync (email : string) (old : option UserContact.t) : bool :=
  match old with None => true | Some c => negb (String.eqb (UserContact.Email c) email) end.

(** ** The slugs of the groups *)

Lemma collect_slugs_NoDup groups out : NoDup out -> NoDup (collect_slugs groups out).
Proof.
  revert out. induction groups as [|g groups IH]; intros out Hn; [done|]. simpl.
  destruct (String.eqb (Trim g "/") ""); [by apply IH|].
  match goal with |- context [existsb (String.eqb ?s) out] => destruct (existsb (String.eqb s) out) eqn:E; [by apply IH|] end.
  apply IH. rewrite NoDup_app. split; [done|]. split; [|apply NoDup_singleton].
  intros x Hx ->%list_elem_of_singleton. rewrite existsb_false in E. specialize (E _ Hx). by rewrite String.eqb_refl in E.
Qed.

Lemma collect_slugs_keeps groups out s : s ∈ out -> s ∈ collect_slugs groups out.
Proof.
  revert out. induction groups as [|g groups IH]; intros out Hs; [done|]. simpl.
  repeat case_match; apply IH; set_solver.
Qed.

(** The slug of one group. *)
Definition group_slug (g : string) : string :=
  match cut_byte "/" (Trim g "/") with Some (l, _) => l | None => Trim g "/" end.

Lemma collect_slugs_has groups out g :
  g ∈ groups -> Trim g "/" <> "" -> group_slug g ∈ collect_slugs groups out.
Proof.
  revert out. induction groups as [|x groups IH]; intros out Hin Ht; [by apply not_elem_of_nil in Hin|].
  apply elem_of_cons in Hin as [<-|Hg]; simpl.
  - rewrite (proj2 (String.eqb_neq _ _) Ht). fold (group_slug g).
    destruct (existsb (String.eqb (group_slug g)) out) eqn:E; apply collect_slugs_keeps; [|set_solver].
    apply existsb_exists in E as (y & Hy%list_elem_of_In & ->%String.eqb_eq). done.
  - repeat case_match; by apply IH.
Qed.

Lemma trim_left_app c a b :
  trim_left_byte c (a +:+ b) = if String.eqb (trim_left_byte c a) "" then trim_left_byte c b else trim_left_byte c a +:+ b.
Proof. induction a as [|x a IH]; [done|]. simpl. destruct (Ascii.eqb x c); [exact IH|done]. Qed.

Lemma trim_left_none c s : has_byte c s = false -> trim_left_byte c s = s.
Proof. destruct s as [|a s]; [done|]. unfold has_byte. simpl. by destruct (Ascii.eqb a c). Qed.

Lemma TrimRight_app c l s :
  has_byte c l = false -> TrimRight (l +:+ s) c = l +:+ TrimRight s c.
Proof.
  intros Hl. unfold TrimRight. rewrite rev_str_app, trim_left_app.
  rewrite (trim_left_none c (rev_str l)) by (by rewrite has_byte_rev).
  destruct (String.eqb_spec (trim_left_byte c (rev_str s)) "") as [->|].
  - by rewrite rev_str_involutive, str_app_nil_r.
  - by rewrite rev_str_app, rev_str_involutive.
Qed.

Lemma TrimRight_sep c r : TrimRight (String c r) c = "" \/ exists r', TrimRight (String c r) c = String c r'.
Proof.
  unfold TrimRight. simpl. rewrite trim_left_app. destruct (String.eqb _ _).
  - left. simpl. by rewrite Ascii.eqb_refl.
  - right. rewrite rev_str_app. simpl. by eexists.
Qed.

(** A group whose first component is the slug has it as its slug. *)
Lemma member_group_slug g slug :
  slug <> "" -> has_byte "/" slug = false ->
  String.eqb g ("/" +:+ slug) || HasPrefix g (("/" +:+ slug) +:+ "/") = true ->
  Trim g "/" <> "" /\ group_slug g = slug.
Proof.
  intros Hne Hs Hg.
  assert (exists s, g = "/" +:+ slug +:+ s /\ (s = "" \/ exists r, s = String "/" r)) as (s & -> & Hcase).
  { apply orb_true_iff in Hg as [->%String.eqb_eq|(r & ->)%HasPrefix_spec].
    - exists "". rewrite str_app_nil_r. split; [done|by left].
    - exists (String "/" r). split; [by rewrite !str_app_assoc|right; by eexists]. }
  assert (Trim ("/" +:+ slug +:+ s) "/" = slug +:+ TrimRight s "/") as Et.
  { unfold Trim. simpl. rewrite trim_left_app, (trim_left_none _ slug) by done.
    rewrite (proj2 (String.eqb_neq _ _) Hne). by apply TrimRight_app. }
  unfold group_slug. rewrite Et. split; [by destruct slug|].
  destruct Hcase as [->|[r ->]].
  - unfold TrimRight. simpl. rewrite str_app_nil_r. by rewrite (has_byte_cut _ _ Hs).
  - destruct (TrimRight_sep "/" r) as [->|[r' ->]].
    + rewrite str_app_nil_r. by rewrite (has_byte_cut _ _ Hs).
    + by rewrite cut_byte_app by (by apply has_byte_cut).
Qed.

(** Every tenant the token makes the user a member of. *)
Lemma member_slugs claims slug :
  slug <> "" -> has_byte "/" slug = false -> IsMember claims slug = true -> slug ∈ tenantSlugs (Claims.Groups claims).
Proof.
  intros Hne Hs (g & Hin%list_elem_of_In & Hg)%existsb_exists.
  destruct (member_group_slug g slug Hne Hs Hg) as [Ht <-]. by apply collect_slugs_has.
Qed.

(** ** One contact *)

Section Sync.
Context `{Platform}.
Hypothesis Hrel : reliable.
Hypothesis Hinj : Inj eq eq uuid_at.

(** Only the contact of one user in one tenant differs. *)
Definition others_kept (userID tenantID : string) (d d' : db) : Prop :=
  forall u t, u <> userID \/ t <> tenantID -> contact_of d' u t = contact_of d u t.

Lemma same_contact_key u t c : same_contact u t c = true <-> UserContact.UserID c = u /\ UserContact.TenantID c = t.
Proof. unfold same_contact. by rewrite andb_true_iff, !String.eqb_eq. Qed.

(** The statement of an upsert of [c], on a row and on no row. *)
Definition updated (now : Time) (c o : UserContact.t) : UserContact.t :=
  UserContact.mk (UserContact.ID o) (UserContact.UserID o) (UserContact.TenantID o) (UserContact.Email c)
    (UserContact.MattermostUsername c) (UserContact.EnabledChannels c) (UserContact.CreatedAt o) now.

Definition inserted (id : string) (now : Time) (c : UserContact.t) : UserContact.t :=
  UserContact.mk id (UserContact.UserID c) (UserContact.TenantID c) (UserContact.Email c)
    (UserContact.MattermostUsername c) (UserContact.EnabledChannels c) now now.

Lemma run_UpsertContact c w :
  fresh_contacts w ->
  exists row w', run (UpsertContact c) w = (Ok row, w') /\ fresh_contacts w'
    /\ row = match contact_of (data w) (UserContact.UserID c) (UserContact.TenantID c) with
             | Some o => updated (now_at (tick w)) c o
             | None => inserted (uuid_at (tick w)) (now_at (tick w)) c
             end
    /\ contact_of (data w') (UserContact.UserID c) (UserContact.TenantID c) = Some row
    /\ others_kept (UserContact.UserID c) (UserContact.TenantID c) (data w) (data w').
Proof.
  intros Hf. unfold UpsertContact. rewrite run_sql_ok by (apply Hrel || done).
  set (hit := same_contact (UserContact.UserID c) (UserContact.TenantID c)).
  unfold contact_of at 1. fold hit. destruct (find hit (contacts (data w))) as [o|] eqn:Ef.
  - set (g := fun o => if hit o then _ else o).
    assert (forall u t x, same_contact u t (g x) = same_contact u t x) as Hg by (intros u t x; unfold g; by destruct (hit x)).
    eexists _, _. split; [reflexivity|]. split; [|split; [done|split]].
    + intros t x Ht (y & -> & Hy)%list_elem_of_fmap. simpl in Ht. unfold g.
      assert (UserContact.ID y <> uuid_at t) as Hy' by (apply Hf; [lia|done]). by destruct (hit y).
    + unfold contact_of. cbn [contacts data]. rewrite (find_map_same _ hit g) by apply Hg. rewrite Ef. simpl.
      unfold g. by apply find_elem in Ef as [_ ->].
    + intros u t Hne. unfold contact_of. cbn [contacts data]. rewrite (find_map_same _ (same_contact u t) g) by apply Hg.
      destruct (find (same_contact u t) _) as [x|] eqn:Ex; [|done]. simpl. unfold g.
      destruct (hit x) eqn:Eh; [|done]. exfalso. apply find_elem in Ex as [_ [E1 E2]%same_contact_key].
      apply same_contact_key in Eh as [E3 E4]. destruct Hne; congruence.
  - rewrite (proj2 (existsb_false _ _)).
    2: { intros x Hx. apply String.eqb_neq. by apply Hf. }
    eexists _, _. split; [reflexivity|]. split; [|split; [done|split]].
    + intros t x Ht. simpl in Ht. cbn [contacts data]. rewrite elem_of_app, list_elem_of_singleton.
      intros [Hx| ->]; [apply Hf; [lia|done]|]. cbn. intros E%Hinj. lia.
    + unfold contact_of. cbn [contacts data]. rewrite find_app. unfold hit in Ef. rewrite Ef. simpl.
      unfold same_contact. simpl. by rewrite !String.eqb_refl.
    + intros u t Hne. unfold contact_of. cbn [contacts data]. rewrite find_app.
      destruct (find (same_contact u t) _); [done|]. simpl. unfold same_contact. simpl.
      destruct (String.eqb_spec (UserContact.UserID c) u), (String.eqb_spec (UserContact.TenantID c) t); try done.
      destruct Hne; congruence.
Qed.

Lemma run_GetContact tenantID userID w :
  run (Notification.GetContact tenantID userID) w =
    (match contact_of (data w) userID tenantID with Some c => Ok c | None => Err ErrNotFound end, World (S (tick w)) (data w)).
Proof. unfold Notification.GetContact, contact_of. rewrite run_sql_ok by (apply Hrel || done). by destruct (find _ _). Qed.

Lemma fresh_later t w : (tick w <= t)%nat -> fresh_contacts w -> fresh_contacts (World t (data w)).
Proof. intros Ht Hf t' c Ht'. apply Hf. simpl in Ht'. lia. Qed.

Variable claims : Claims.t.
Local Abbreviation sub := (Claims.Sub claims).
Local Abbreviation email := (Claims.Email claims).

Lemma run_sync_one tenant w :
  fresh_contacts w ->
  exists w' c, run (sync_one claims tenant) w
      = (if out_of_sync email (contact_of (data w) sub tenant) then 1 else 0, w')
    /\ fresh_contacts w' /\ contact_of (data w') sub tenant = Some c
    /\ provisioned email (contact_of (data w) sub tenant) c /\ others_kept sub tenant (data w) (data w')
    /\ (out_of_sync email (contact_of (data w) sub tenant) = false -> data w' = data w).
Proof.
  intros Hf. unfold sync_one. rewrite run_bind, run_GetContact.
  pose proof (fresh_later (S (tick w)) w ltac:(lia) Hf) as Hf1.
  destruct (contact_of (data w) sub tenant) as [c|] eqn:Ec.
  - pose proof Ec as [Hin [Hu Ht]%same_contact_key]%find_elem. cbn [out_of_sync].
    destruct (String.eqb_spec (UserContact.Email c) email) as [E|E]; cbn [negb].
    + eexists _, c. split; [reflexivity|]. by split_and!.
    + rewrite run_bind. match goal with |- context [run (UpsertContact ?x) ?y] =>
        destruct (run_UpsertContact x y Hf1) as (row & w' & -> & Hf' & Hrow & Hc & Ho) end.
      cbn [UserContact.UserID UserContact.TenantID data] in *. rewrite Hu, Ht in *. rewrite Ec in Hrow.
      exists w', row. split; [done|]. split; [done|]. split; [done|]. subst row. by split_and!.
  - rewrite errors_Is_refl, run_bind. match goal with |- context [run (UpsertContact ?x) ?y] =>
      destruct (run_UpsertContact x y Hf1) as (row & w' & -> & Hf' & Hrow & Hc & Ho) end.
    cbn [UserContact.UserID UserContact.TenantID data] in *. rewrite Ec in Hrow.
    exists w', row. split; [done|]. split; [done|]. split; [done|]. subst row. by split_and!.
Qed.

(** ** All tenants *)

Definition pending (d : db) (tenants : list string) : nat :=
  length (List.filter (fun t => out_of_sync email (contact_of d sub t)) tenants).

Lemma run_sync_all tenants n w :
  NoDup tenants -> fresh_contacts w ->
  exists w', run (sync_all claims tenants n) w = (n + Z.of_nat (pending (data w) tenants), w') /\ fresh_contacts w'
    /\ (forall t, t ∈ tenants -> exists c, contact_of (data w') sub t = Some c
          /\ provisioned email (contact_of (data w) sub t) c)
    /\ (forall u t, u <> sub \/ t ∉ tenants -> contact_of (data w') u t = contact_of (data w) u t)
    /\ (pending (data w) tenants = 0%nat -> data w' = data w).
Proof.
  revert n w. induction tenants as [|t tenants IH]; intros n w Hn Hf.
  { exists w. split; [cbn; by rewrite Z.add_0_r|]. split; [done|]. split; [by intros t ?%not_elem_of_nil|done]. }
  apply NoDup_cons in Hn as [Ht Hn]. cbn [sync_all]. rewrite run_bind.
  destruct (run_sync_one t w Hf) as (w1 & c & -> & Hf1 & Hc & Hp & Ho & Hsame).
  destruct (IH (n + (if out_of_sync email (contact_of (data w) sub t) then 1 else 0)) w1 Hn Hf1)
    as (w2 & Hr & Hf2 & Hall & Hkeep & Hzero).
  assert (forall x, x ∈ tenants -> contact_of (data w1) sub x = contact_of (data w) sub x) as Hx.
  { intros x Hx. apply Ho. right. by intros ->. }
  assert (pending (data w1) tenants = pending (data w) tenants) as Hpend.
  { unfold pending. f_equal. apply filter_ext_in. intros x Hin%list_elem_of_In. by rewrite Hx. }
  exists w2. split_and!.
  - rewrite Hr, Hpend. unfold pending. simpl. destruct (out_of_sync _ _); simpl; f_equal; lia.
  - done.
  - intros x [->|Hin]%elem_of_cons.
    + exists c. rewrite Hkeep by (by right). done.
    + destruct (Hall x Hin) as (c' & Hc' & Hp'). exists c'. rewrite Hx in Hp' by done. done.
  - intros u x Hne. rewrite Hkeep by (destruct Hne; [by left|right; set_solver]).
    apply Ho. destruct Hne; [by left|right]. set_solver.
  - unfold pending. simpl. destruct (out_of_sync _ _); [done|]. intros Hz.
    rewrite Hzero by (by rewrite Hpend). by apply Hsame.
Qed.

End Sync.

(** ** Property *)

(** C19: a login provisions the contacts of its user.  When nothing fails, the
    sync of a token with a subject and an address answers the number of contacts
    that were missing or had another address.  Then every tenant the token makes
    the user a member of has a contact with that address: a new one with the mail
    channel, or the old one with everything else kept.  No other contact changes,
    and a second login writes nothing. *)
Theorem SyncContacts_provisions `{Platform} ctx claims (w : world db) :
  reliable -> Inj eq eq uuid_at -> fresh_contacts w ->
  FromContext ctx = Some claims -> Claims.Sub claims <> "" -> Claims.Email claims <> "" ->
  exists n w', run (SyncContacts ctx) w = (Json StatusOK (Synced n), w')
    /\ n = Z.of_nat (pending claims (data w) (tenantSlugs (Claims.Groups claims)))
    /\ (forall slug, slug <> "" -> has_byte "/" slug = false -> IsMember claims slug = true ->
          exists c, contact_of (data w') (Claims.Sub claims) slug = Some c
            /\ provisioned (Claims.Email claims) (contact_of (data w) (Claims.Sub claims) slug) c)
    /\ (forall u t, u <> Claims.Sub claims \/ t ∉ tenantSlugs (Claims.Groups claims) ->
          contact_of (data w') u t = contact_of (data w) u t)
    /\ exists w'', run (SyncContacts ctx) w' = (Json StatusOK (Synced 0), w'') /\ data w'' = data w'.
Proof.
  intros Hrel Hinj Hf Hc Hs He. unfold SyncContacts. rewrite Hc, (proj2 (String.eqb_neq _ _) Hs), (proj2 (String.eqb_neq _ _) He).
  assert (NoDup (tenantSlugs (Claims.Groups claims))) as Hn by apply collect_slugs_NoDup, NoDup_nil_2.
  destruct (run_sync_all Hrel Hinj claims _ 0 w Hn Hf) as (w' & Hr & Hf' & Hall & Hkeep & _).
  exists (Z.of_nat (pending claims (data w) (tenantSlugs (Claims.Groups claims)))), w'.
  split; [by rewrite run_bind, Hr|]. split; [done|]. split; [|split; [done|]].
  - intros slug Hne Hb Hm. apply Hall. by apply member_slugs.
  - destruct (run_sync_all Hrel Hinj claims _ 0 w' Hn Hf') as (w'' & Hr' & _ & _ & _ & Hzero).
    assert (pending claims (data w') (tenantSlugs (Claims.Groups claims)) = 0%nat) as Hz.
    { unfold pending. destruct (decide (Z.of_nat (length (List.filter (fun t => out_of_sync (Claims.Email claims)
        (contact_of (data w') (Claims.Sub claims) t)) (tenantSlugs (Claims.Groups claims)))) = 0)) as [|Hz]; [lia|exfalso].
      apply filter_nonempty in Hz as (t & Ht & Hp). revert Hp.
      destruct (Hall t Ht) as (c & -> & Hemail & _). cbn. by rewrite Hemail, String.eqb_refl. }
    exists w''. rewrite run_bind, Hr', Hz. split; [done|by apply Hzero].
Qed.

(** *** Witness: one contact with an old address, one tenant without a contact *)

Definition login_claims : Claims.t := Claims.mk "u1" "alice" "Alice" "new@x" ["/acme/admins"; "/acme"; "/beta"].

Definition login_db : db :=
  Db [UserContact.mk "c1" "u1" "acme" "old@x" "alice" ["mattermost"] 0 0;
      UserContact.mk "c2" "u2" "acme" "bob@x" "" ["email"] 0 0] [] ∅ ∅ [] [].

Lemma login_fresh : @fresh_contacts (demo_platform []) (World 0 login_db).
Proof.
  intros t c _ Hc. cbn in Hc. rewrite !elem_of_cons in Hc. by destruct Hc as [->|[->|Hc%not_elem_of_nil]].
Qed.

Lemma SyncContacts_provisions_witness :
  let ctx := {| claimsKey := Some login_claims; methodKey := None |} in
  (run (@SyncContacts (demo_platform []) ctx) (World 0 login_db)).1 = Json StatusOK (Synced 2) /\
  exists n w', run (@SyncContacts (demo_platform []) ctx) (World 0 login_db) = (Json StatusOK (Synced n), w')
    /\ n = Z.of_nat (pending login_claims login_db (tenantSlugs (Claims.Groups login_claims)))
    /\ (forall slug, slug <> "" -> has_byte "/" slug = false -> IsMember login_claims slug = true ->
          exists c, contact_of (data w') "u1" slug = Some c /\ provisioned "new@x" (contact_of login_db "u1" slug) c)
    /\ (forall u t, u <> "u1" \/ t ∉ tenantSlugs (Claims.Groups login_claims) ->
          contact_of (data w') u t = contact_of login_db u t)
    /\ exists w'', run (@SyncContacts (demo_platform []) ctx) w' = (Json StatusOK (Synced 0), w'') /\ data w'' = data w'.
Proof.
  intros ctx. split; [vm_compute; reflexivity|].
  apply (@SyncContacts_provisions (demo_platform []) ctx login_claims (World 0 login_db)).
  - by intros t.
  - apply demo_uuid_inj.
  - exact login_fresh.
  - done.
  - done.
  - done.
Defined.
