(* ===== verification/SchedulingDomain.v ===== *)
(** * Scheduling: domain types

    services/scheduling/internal/domain/schedule.go, one module per struct. *)

From S2P Require Import Prelude.

Module Tenant.
Record t := mk {
  ID : string;
  Slug : string;
  Name : string;
  CreatedAt : Time
}.
End Tenant.

Module WebhookToken.
Record t := mk {
  ID : string;
  TenantID : string;
  Source : string;
  CreatedAt : Time
}.
End WebhookToken.

Module Member.
Record t := mk {
  UserID : string;
  PreferredUsername : string;
  Role : string
}.
End Member.

Module Schedule.
Record t := mk {
  ID : string;
  TenantID : string;
  Name : string;
  Timezone : string;
  Rotation : list string;
  ShiftDuration : string;
  StartDate : Time;
  CreatedAt : Time;
  UpdatedAt : Time
}.
End Schedule.

Module Override.
Record t := mk {
  ID : string;
  ScheduleID : string;
  TenantID : string;
  UserID : string;
  StartAt : Time;
  EndAt : Time;
  CreatedAt : Time
}.
End Override.

Module OncallResult.
Record t := mk {
  UserID : string;
  Username : string;
  StartsAt : Time;
  EndsAt : Time
}.
End OncallResult.

Module Shift.
Record t := mk {
  UserID : string;
  StartAt : Time;
  EndAt : Time;
  IsOverride : bool
}.
End Shift.
