(* ===== verification/Ssrf.v ===== *)
(** * The guard against requests to internal addresses

    pkg/ssrf/ssrf.go.  An IP address is its bytes, 4 or 16 of them (net.IP), with
    the classifying methods of package net; parsing a URL or an address and
    resolving a name are parameters. *)

From S2P Require Import Prelude Effects.
Open Scope go_scope.

(** ** net.IP *)

Definition IP : Type := list Z.

Definition byte_at (ip : IP) (i : nat) : Z := default 0 (ip !! i).

Definition v4InV6Prefix : IP := replicate 10 0 ++ [255; 255].

Definition To4 (ip : IP) : option IP :=
  if (length ip =? 4)%nat then Some ip
  else if (length ip =? 16)%nat && bool_decide (take 12 ip = v4InV6Prefix) then Some (drop 12 ip)
  else None.

Definition IPv6unspecified : IP := replicate 16 0.
Definition IPv6loopback : IP := replicate 15 0 ++ [1].

Definition is16 (ip : IP) : bool := (length ip =? 16)%nat.

(** [ip.Equal(x)] for a 16-byte [x] that is not an IPv4 address. *)
Definition IsUnspecified (ip : IP) : bool :=
  match To4 ip with
  | Some ip4 => bool_decide (ip4 = [0; 0; 0; 0])
  | None => bool_decide (ip = IPv6unspecified)
  end.

Definition IsLoopback (ip : IP) : bool :=
  match To4 ip with
  | Some ip4 => byte_at ip4 0 =? 127
  | None => bool_decide (ip = IPv6loopback)
  end.

Definition IsPrivate (ip : IP) : bool :=
  match To4 ip with
  | Some ip4 =>
      (byte_at ip4 0 =? 10)
      || ((byte_at ip4 0 =? 172) && (Z.land (byte_at ip4 1) 240 =? 16))
      || ((byte_at ip4 0 =? 192) && (byte_at ip4 1 =? 168))
  | None => is16 ip && (Z.land (byte_at ip 0) 254 =? 252)
  end.

Definition IsMulticast (ip : IP) : bool :=
  match To4 ip with
  | Some ip4 => Z.land (byte_at ip4 0) 240 =? 224
  | None => is16 ip && (byte_at ip 0 =? 255)
  end.

Definition IsInterfaceLocalMulticast (ip : IP) : bool :=
  is16 ip && (byte_at ip 0 =? 255) && (Z.land (byte_at ip 1) 15 =? 1).

Definition IsLinkLocalMulticast (ip : IP) : bool :=
  match To4 ip with
  | Some ip4 => (byte_at ip4 0 =? 224) && (byte_at ip4 1 =? 0) && (byte_at ip4 2 =? 0)
  | None => is16 ip && (byte_at ip 0 =? 255) && (Z.land (byte_at ip 1) 15 =? 2)
  end.

Definition IsLinkLocalUnicast (ip : IP) : bool :=
  match To4 ip with
  | Some ip4 => (byte_at ip4 0 =? 169) && (byte_at ip4 1 =? 254)
  | None => is16 ip && (byte_at ip 0 =? 254) && (Z.land (byte_at ip 1) 192 =? 128)
  end.

(** ** ssrf.go *)

(** A nil IP is the empty list. *)
Definition isBlockedIP (ip : IP) : bool :=
  match ip with
  | [] => true
  | _ =>
      let ip := default ip (To4 ip) in
      IsLoopback ip || IsPrivate ip || IsLinkLocalUnicast ip || IsLinkLocalMulticast ip
      || IsInterfaceLocalMulticast ip || IsMulticast ip || IsUnspecified ip
  end.

Definition ErrInvalidURL : err := ErrNew "ssrf: invalid URL".
Definition ErrNotHTTPS : err := ErrNew "ssrf: URL scheme must be https".
Definition ErrBlockedAddress : err := ErrNew "ssrf: address is not allowed".

(** [url.Parse] gives the scheme and the host name; a lookup may answer
    differently each time; [Dial] is the connection of the base dialer to an
    address. *)
Class Resolver := {
  parse_url : string -> option (string * string);
  ParseIP : string -> option IP;
  LookupIPAddr : nat -> string -> res (list IP);
  Dial : nat -> IP -> string -> res unit
}.

Section Ssrf.
Context `{Resolver} {D : Type}.

Definition lookup (host : string) : M D (res (list IP)) :=
  Atomic (fun w => (LookupIPAddr (tick w) host, World (S (tick w)) (data w))) Ret.

Definition ValidateURL (raw : string) : M D (res unit) :=
  match parse_url raw with
  | None => Ret (Err (Wrap2 ErrInvalidURL (ErrNew "parse")))
  | Some (scheme, host) =>
      if negb (String.eqb scheme "https") then Ret (Err ErrNotHTTPS)
      else if String.eqb host "" then Ret (Err (Wrap2 ErrInvalidURL (ErrNew "empty host")))
      else match ParseIP host with
      | Some ip => Ret (if isBlockedIP ip then Err (Wrap2 ErrBlockedAddress (ErrNew "")) else Ok tt)
      | None =>
          let! ips := lookup host in
          Ret (match ips with
               | Err e => Err (Wrap2 ErrInvalidURL e)
               | Ok [] => Err (Wrap2 ErrInvalidURL (ErrNew "no addresses"))
               | Ok ips => if existsb isBlockedIP ips then Err (Wrap2 ErrBlockedAddress (ErrNew "resolves to")) else Ok tt
               end)
      end
  end.

(** The dial loop; a connection is named by the address it was made to, and the
    addresses that were tried are kept. *)
Fixpoint dial_first (ips : list IP) (port : string) (lastErr : err) : M D (res IP * list IP) :=
  match ips with
  | [] => Ret (Err lastErr, [])
  | ip :: ips =>
      let! conn := Atomic (fun w => (Dial (tick w) ip port, World (S (tick w)) (data w))) Ret in
      match conn with
      | Ok _ => Ret (Ok ip, [ip])
      | Err e => let! r := dial_first ips port e in Ret (r.1, ip :: r.2)
      end
  end.

Definition GuardedDialContext (addr : string) : M D (res IP * list IP) :=
  match SplitHostPort addr with
  | None => Ret (Err (ErrNew "missing port in address"), [])
  | Some (host, port) =>
      let! ips := lookup host in
      match ips with
      | Err e => Ret (Err e, [])
      | Ok [] => Ret (Err (Wrap2 ErrInvalidURL (ErrNew "no addresses")), [])
      | Ok ips => if existsb isBlockedIP ips then Ret (Err (Wrap2 ErrBlockedAddress (ErrNew "resolves to")), [])
                  else dial_first ips port (ErrNew "")
      end
  end.

End Ssrf.

(** ** Properties *)

(** The value of an address as one number, and the reserved blocks as ranges of
    it: first address, prefix length. *)
Definition ip_value (ip : IP) : Z := fold_left (fun v b => 256 * v + b) ip 0.

Definition in_block (width : Z) (v : Z) (b : list Z * Z) : bool :=
  let size := 2 ^ (width - b.2) in
  let first := ip_value b.1 in
  (first <=? v) && (v <? first + size).

Definition reserved4 : list (IP * Z) := [
  ([127; 0; 0; 0], 8); ([10; 0; 0; 0], 8); ([172; 16; 0; 0], 12); ([192; 168; 0; 0], 16);
  ([169; 254; 0; 0], 16); ([224; 0; 0; 0], 4); ([0; 0; 0; 0], 32)].

Definition reserved6 : list (IP * Z) := [
  (IPv6loopback, 128); (252 :: replicate 15 0, 7); (254 :: 128 :: replicate 14 0, 10);
  (255 :: replicate 15 0, 8); (IPv6unspecified, 128)].

Definition bytes_ok (ip : IP) : Prop := Forall (fun b => 0 <= b < 256) ip.

Definition well_formed (ip : IP) : Prop := bytes_ok ip /\ (length ip = 4%nat \/ length ip = 16%nat).

(** A public address lies in none of the reserved blocks. *)
Definition public (ip : IP) : bool :=
  match To4 ip with
  | Some ip4 => negb (existsb (in_block 32 (ip_value ip4)) reserved4)
  | None => negb (existsb (in_block 128 (ip_value ip)) reserved6)
  end.

Lemma ip_value_acc ip acc : fold_left (fun v b => 256 * v + b) ip acc = acc * 256 ^ Z.of_nat (length ip) + ip_value ip.
Proof.
  unfold ip_value. revert acc. induction ip as [|b ip IH]; intros acc; cbn [fold_left length]; [lia|].
  rewrite IH, (IH (256 * 0 + b)), Nat2Z.inj_succ, Z.pow_succ_r by lia. lia.
Qed.

Lemma ip_value_cons b ip : ip_value (b :: ip) = b * 256 ^ Z.of_nat (length ip) + ip_value ip.
Proof. unfold ip_value at 1. cbn [fold_left]. rewrite ip_value_acc. lia. Qed.

Lemma ip_value_range ip : bytes_ok ip -> 0 <= ip_value ip < 256 ^ Z.of_nat (length ip).
Proof.
  induction 1 as [|b ip Hb _ IH]; [done|]. rewrite ip_value_cons. cbn [length].
  rewrite Nat2Z.inj_succ, Z.pow_succ_r by lia. nia.
Qed.

Lemma ip_value_inj ip ip' : bytes_ok ip -> bytes_ok ip' -> length ip = length ip' -> ip_value ip = ip_value ip' -> ip = ip'.
Proof.
  intros Hb. revert ip'. induction Hb as [|b ip Hb Hr IH]; intros [|b' ip'] Hb' Hl; try done.
  apply Forall_cons in Hb' as [Hb' Hr']. injection Hl as Hl. rewrite !ip_value_cons, Hl.
  pose proof (ip_value_range ip Hr) as R. pose proof (ip_value_range ip' Hr') as R'. rewrite Hl in R. intros Hv.
  assert (b = b') as -> by nia. f_equal. apply IH; [done..|lia].
Qed.

(** A test on one byte is decided by trying them all. *)
Lemma byte_tests (P : Z -> bool) b :
  forallb (fun n => P (Z.of_nat n)) (seq 0 256) = true -> 0 <= b < 256 -> P b = true.
Proof.
  rewrite forallb_forall. intros Hf Hb. specialize (Hf (Z.to_nat b)). rewrite Z2Nat.id in Hf by lia.
  apply Hf, in_seq. lia.
Qed.

Lemma land_block (mask v lo hi b : Z) :
  forallb (fun n => Bool.eqb (Z.land (Z.of_nat n) mask =? v) ((lo <=? Z.of_nat n) && (Z.of_nat n <? hi))) (seq 0 256) = true ->
  0 <= b < 256 -> (Z.land b mask =? v) = (lo <=? b) && (b <? hi).
Proof. intros Hf Hb. apply Bool.eqb_true_iff. exact (byte_tests (fun b => Bool.eqb (Z.land b mask =? v) ((lo <=? b) && (b <? hi))) b Hf Hb). Qed.

Lemma blocked4 a b c d : bytes_ok [a; b; c; d] -> isBlockedIP [a; b; c; d] = negb (public [a; b; c; d]).
Proof.
  intros Hb. repeat (apply Forall_cons in Hb as [? Hb]).
  change (public [a; b; c; d]) with (negb (existsb (in_block 32 (ip_value [a; b; c; d])) reserved4)).
  rewrite negb_involutive.
  change (isBlockedIP [a; b; c; d]) with ((a =? 127)
    || ((a =? 10) || ((a =? 172) && (Z.land b 240 =? 16)) || ((a =? 192) && (b =? 168)))
    || ((a =? 169) && (b =? 254)) || ((a =? 224) && (b =? 0) && (c =? 0)) || false
    || (Z.land a 240 =? 224) || bool_decide ([a; b; c; d] = [0; 0; 0; 0])).
  rewrite (land_block 240 16 16 32 b), (land_block 240 224 224 240 a) by (done || (vm_compute; reflexivity)).
  replace (bool_decide ([a; b; c; d] = [0; 0; 0; 0])) with ((a =? 0) && (b =? 0) && (c =? 0) && (d =? 0)).
  2: { apply eq_true_iff_eq. rewrite bool_decide_eq_true, !andb_true_iff, !Z.eqb_eq.
       split; [intros (((-> & ->) & ->) & ->); done|intros [= -> -> -> ->]; done]. }
  unfold in_block, reserved4, existsb, ip_value. cbn [fold_left fst snd].
  change (2 ^ (32 - 8)) with 16777216. change (2 ^ (32 - 12)) with 1048576. change (2 ^ (32 - 16)) with 65536.
  change (2 ^ (32 - 4)) with 268435456. change (2 ^ (32 - 32)) with 1.
  apply eq_true_iff_eq. rewrite !orb_true_iff, !andb_true_iff, !Z.eqb_eq, !Z.leb_le, !Z.ltb_lt. lia.
Qed.

Lemma eq_ip_value ip x : bytes_ok ip -> bytes_ok x -> length ip = length x ->
  bool_decide (ip = x) = (ip_value x <=? ip_value ip) && (ip_value ip <? ip_value x + 1).
Proof.
  intros Hi Hx Hl. apply eq_true_iff_eq. rewrite bool_decide_eq_true, andb_true_iff, Z.leb_le, Z.ltb_lt.
  split; [intros ->; lia|]. intros. apply ip_value_inj; [done..|lia].
Qed.

(** A block whose prefix ends within the first two bytes is decided by them. *)
Lemma wide_block first plen lo n h v :
  ip_value first = lo * 256 ^ 14 -> 2 ^ (128 - plen) = n * 256 ^ 14 -> 0 <= v < 256 ^ 14 ->
  in_block 128 (h * 256 ^ 14 + v) (first, plen) = (lo <=? h) && (h <? lo + n).
Proof.
  unfold in_block. cbn [fst snd]. intros -> ->. generalize (256 ^ 14). intros L Hv.
  apply eq_true_iff_eq. rewrite !andb_true_iff, !Z.leb_le, !Z.ltb_lt. nia.
Qed.

Lemma one_block x v : in_block 128 v (x, 128) = (ip_value x <=? v) && (v <? ip_value x + 1).
Proof. done. Qed.

Lemma blocked16 a b ip : bytes_ok (a :: b :: ip) -> length ip = 14%nat -> To4 (a :: b :: ip) = None ->
  isBlockedIP (a :: b :: ip) = negb (public (a :: b :: ip)).
Proof.
  intros Hb Hl H4. pose proof Hb as Hb'. apply Forall_cons in Hb' as [Ha Hb']. apply Forall_cons in Hb' as [Hbb Hip].
  unfold public. rewrite H4, negb_involutive.
  unfold isBlockedIP. rewrite H4. cbn [default].
  unfold IsLoopback, IsPrivate, IsLinkLocalUnicast, IsLinkLocalMulticast, IsInterfaceLocalMulticast, IsMulticast, IsUnspecified.
  rewrite !H4. unfold is16. cbn [length]. rewrite Hl. cbn [Nat.eqb andb].
  change (byte_at (a :: b :: ip) 0) with a. change (byte_at (a :: b :: ip) 1) with b.
  rewrite (land_block 254 252 252 254 a), (land_block 192 128 128 192 b) by (done || (vm_compute; reflexivity)).
  rewrite (eq_ip_value _ IPv6loopback), (eq_ip_value _ IPv6unspecified)
    by (done || (simpl; rewrite Hl; reflexivity) || (repeat constructor; lia)).
  unfold reserved6, existsb. rewrite !one_block.
  pose proof (ip_value_range ip Hip) as Hr. rewrite Hl in Hr.
  assert (ip_value (a :: b :: ip) = (256 * a + b) * 256 ^ 14 + ip_value ip) as Hv
    by (rewrite !ip_value_cons; cbn [length]; rewrite Hl; lia).
  rewrite Hv.
  rewrite (wide_block (252 :: _) 7 (252 * 256) 512), (wide_block (254 :: _) 10 (254 * 256 + 128) 64),
    (wide_block (255 :: _) 8 (255 * 256) 256) by (exact Hr || (vm_compute; reflexivity)).
  rewrite <-Hv. generalize (ip_value (a :: b :: ip)). intros V.
  replace ((252 * 256 <=? 256 * a + b) && (256 * a + b <? 252 * 256 + 512)) with ((252 <=? a) && (a <? 254)) by lia.
  replace ((254 * 256 + 128 <=? 256 * a + b) && (256 * a + b <? 254 * 256 + 128 + 64))
    with ((a =? 254) && ((128 <=? b) && (b <? 192))) by lia.
  replace ((255 * 256 <=? 256 * a + b) && (256 * a + b <? 255 * 256 + 256)) with (a =? 255) by lia.
  destruct (a =? 255), ((252 <=? a) && (a <? 254)), ((a =? 254) && ((128 <=? b) && (b <? 192)));
    rewrite ?orb_true_r, ?orb_false_r; done.
Qed.

Lemma blocked_spec ip : well_formed ip -> isBlockedIP ip = negb (public ip).
Proof.
  intros [Hb [Hl|Hl]].
  - destruct ip as [|a [|b [|c [|d [|]]]]]; try done. by apply blocked4.
  - destruct (To4 ip) as [ip4|] eqn:H4.
    + assert (exists a b c d, ip4 = [a; b; c; d] /\ bytes_ok ip4) as (a & b & c & d & -> & Hb4).
      { unfold To4 in H4. rewrite Hl in H4. cbn [Nat.eqb andb] in H4. destruct (bool_decide _); [|done].
        injection H4 as <-. pose proof (Forall_drop _ 12 _ Hb) as Hb4. pose proof (length_drop ip 12) as Hd.
        rewrite Hl in Hd. unfold bytes_ok. revert Hb4 Hd. generalize (drop 12 ip). intros l.
        destruct l as [|? [|? [|? [|? [|]]]]]; intros; try done. by do 4 eexists. }
      transitivity (isBlockedIP [a; b; c; d]).
      { destruct ip; [done|]. unfold isBlockedIP. rewrite H4. done. }
      rewrite blocked4 by done. unfold public. rewrite H4. done.
    + destruct ip as [|a [|b ip]]; try done. simpl in Hl. apply blocked16; [done|lia|done].
Qed.

(** A guarded connection goes to a public address.  Whatever name service
    answers (and however it changes its answer), the dialer tries only addresses
    outside the loopback, private, link-local, multicast, unique-local and
    unspecified blocks, also when they are written as IPv4-mapped IPv6 addresses,
    and none at all when one address of the answer lies in such a block. *)
Lemma guarded_dial_public `{Resolver} {D} addr (w : world D) r tried w' :
  (forall t host ips, LookupIPAddr t host = Ok ips -> Forall well_formed ips) ->
  run (GuardedDialContext addr) w = ((r, tried), w') ->
  Forall (fun ip => public ip = true) tried /\ (forall ip, r = Ok ip -> ip ∈ tried)
  /\ (forall host port ips, SplitHostPort addr = Some (host, port) -> LookupIPAddr (tick w) host = Ok ips ->
        existsb (fun ip => negb (public ip)) ips = true -> tried = []).
Proof.
  intros Hwf. unfold GuardedDialContext. destruct (SplitHostPort addr) as [[host port]|]; [|by intros [= <- <- <-]].
  unfold lookup. rewrite run_bind. cbn [run].
  destruct (LookupIPAddr (tick w) host) as [ips|e] eqn:El.
  2: { intros [= <- <- <-]. split; [constructor|]. split; [done|]. intros ? ? ? [= <- <-]. by rewrite El. }
  pose proof (Hwf _ _ _ El) as Hips.
  assert (forall p q ips', Some (host, port) = Some (p, q) -> LookupIPAddr (tick w) p = Ok ips' -> ips' = ips) as Huniq
    by (intros ? ? ? [= <- <-]; rewrite El; by intros [= ->]).
  assert (existsb isBlockedIP ips = existsb (fun ip => negb (public ip)) ips) as He.
  { clear -Hips. induction Hips as [|ip ips Hip _ IH]; simpl; [done|]. by rewrite blocked_spec, IH. }
  destruct ips as [|ip0 ips0]; [intros [= <- <- <-]; split; [constructor|]; split; [done|]; done|].
  destruct (existsb isBlockedIP (ip0 :: ips0)) eqn:Eb; [intros [= <- <- <-]; split; [constructor|]; split; done|].
  intros Hr.
  assert (forall ips e w, run (dial_first ips port e) w = (r, tried, w') ->
    existsb (fun ip => negb (public ip)) ips = false ->
    Forall (fun ip => public ip = true) tried /\ (forall ip, r = Ok ip -> ip ∈ tried)) as Hd.
  { clear. intros ips. revert r tried. induction ips as [|ip ips IH]; intros r tried e w; cbn [dial_first].
    - intros [= <- <- <-]. by repeat constructor.
    - rewrite run_bind. cbn [run]. intros Hr [Hip Hips]%orb_false_iff. apply negb_false_iff in Hip.
      destruct (Dial (tick w) ip port) as [[]|e'].
      + injection Hr as <- <- <-. split; [by repeat constructor|]. intros ip' [= ->]. by left.
      + rewrite run_bind in Hr. destruct (run (dial_first ips port e') _) as [[r1 tried1] w1] eqn:E1.
        injection Hr as <- <- <-. destruct (IH _ _ _ _ E1 Hips) as [Hf Hok].
        split; [by constructor|]. intros ip' E. right. by apply Hok. }
  symmetry in He. destruct (Hd _ _ _ Hr He) as [Hf Hok]. split; [done|]. split; [done|].
  intros p q ips' Es El' Hx. rewrite (Huniq _ _ _ Es El') in Hx. congruence.
Qed.

(** A name that resolves to a public address first and to the metadata service
    later. *)
Definition rebinding : Resolver := {|
  parse_url _ := Some ("https", "evil"); ParseIP _ := None;
  LookupIPAddr t _ := Ok (if (t =? 0)%nat then [[8; 8; 8; 8]] else [[8; 8; 8; 8]; [169; 254; 169; 254]]);
  Dial _ _ _ := Ok tt |}.

Lemma guarded_dial_public_witness :
  (run (@ValidateURL rebinding nat "https://evil/") (World 0 0%nat)).1 = Ok tt /\
  let out := run (@GuardedDialContext rebinding nat "evil:443") (World 1 0%nat) in
  Forall (fun ip => public ip = true) out.1.2 /\ (forall ip, out.1.1 = Ok ip -> ip ∈ out.1.2)
  /\ (forall host port ips, SplitHostPort "evil:443" = Some (host, port) ->
        @LookupIPAddr rebinding 1 host = Ok ips -> existsb (fun ip => negb (public ip)) ips = true -> out.1.2 = []).
Proof.
  split; [vm_compute; reflexivity|]. intros out.
  apply (@guarded_dial_public rebinding nat "evil:443" (World 1 0%nat) out.1.1 out.1.2 out.2).
  - intros t host ips [= <-]. unfold well_formed, bytes_ok. destruct (t =? 0)%nat; repeat constructor; simpl; lia.
  - vm_compute. reflexivity.
Defined.
