(* ===== verification/Webhooks.v ===== *)
(** * Webhook posts down to their connections

    services/notification/internal/dispatcher/mattermost.go with pkg/ssrf/ssrf.go.
    [NewMattermost] builds an [http.Client] whose transport dials through
    [GuardedDialContext]; [Send] posts with it.  What the client of net/http does
    with that dialer is modelled as it is: redirects are followed, idle connections
    are used again by any goroutine, a proxy of the environment is asked first.  A
    round trip is one answer or one error: that net/http may send an idempotent
    request again on another connection, when a kept one turns out to be closed, is
    inside it. *)

From S2P Require Import Prelude Effects Interleaving Server Notification Ssrf.
Open Scope go_scope.

(** ** Requests, answers and the connections of a transport *)

(** The body is the channel and the text of the message. *)
Record request := Request { Method : string; URL : string; Body : option (string * string) }.

Record reply := Reply { StatusCode : Z; Location : string }.

(** What idle connections are kept under: proxy, scheme, address. *)
Definition conn_key : Type := option string * string * string.

Record transport := Transport {
  idle : list (conn_key * IP);
  dialled : list IP;               (* the addresses [GuardedDialContext] tried *)
  sent : list (IP * request)       (* the requests, with the peer of the connection *)
}.

(** [http.ProxyFromEnvironment], the resolution of a Location header, the fate of
    connections, and the servers of the world. *)
Class Internet := {
  proxy_url : string -> option string;
  resolve_ref : string -> string -> option string;
  reusable : nat -> IP -> bool;
  keeps : nat -> IP -> bool;
  answer : nat -> IP -> request -> option reply
}.

Section Client.
Context `{Platform} `{Network} `{Resolver} `{Internet}.

Local Abbreviation Prog A := (M transport A).

(** ** net/http *)

(** The method of the next request, and whether the body goes with it. *)
Definition redirectBehavior (reqMethod : string) (code : Z) : option (string * bool) :=
  if (code =? 301) || (code =? 302) || (code =? 303) then
    Some (if String.eqb reqMethod "GET" || String.eqb reqMethod "HEAD" then reqMethod else "GET", false)
  else if (code =? 307) || (code =? 308) then Some (reqMethod, true)
  else None.

Definition canonicalAddr (u : url) : string :=
  let port := if String.eqb (Scheme u) "https" then "443" else "80" in
  match SplitHostPort (Host u) with
  | Some (_, given) => if String.eqb given "" then Host u +:+ port else Host u
  | None => Host u +:+ ":" +:+ port
  end.

Fixpoint find_idle (key : conn_key) (l : list (conn_key * IP)) : option (IP * list (conn_key * IP)) :=
  match l with
  | [] => None
  | (k, ip) :: l =>
      if bool_decide (k = key) then Some (ip, l)
      else match find_idle key l with Some (found, l) => Some (found, (k, ip) :: l) | None => None end
  end.

(** An idle connection that turns out to be closed is dropped. *)
Definition take_idle (key : conn_key) : Prog (option IP) :=
  Atomic (fun w =>
    match find_idle key (idle (data w)) with
    | Some (ip, l) => (if reusable (tick w) ip then Some ip else None,
                       World (S (tick w)) (Transport l (dialled (data w)) (sent (data w))))
    | None => (None, World (S (tick w)) (data w))
    end) Ret.

(** The address the transport connects to for a key. *)
Definition dial_addr (key : conn_key) : string := default key.2 key.1.1.

Definition getConn (key : conn_key) : Prog (res IP) :=
  let! c := take_idle key in
  match c with
  | Some ip => Ret (Ok ip)
  | None =>
      let! r := GuardedDialContext (dial_addr key) in
      let! _ := local_step (fun t => (tt, Transport (idle t) (dialled t ++ r.2) (sent t))) in
      Ret r.1
  end.

Definition exchange (key : conn_key) (ip : IP) (req : request) : Prog (res reply) :=
  Atomic (fun w =>
    let t := data w in
    let r := answer (tick w) ip req in
    (match r with Some reply => Ok reply | None => Err (ErrNew "EOF") end,
     World (S (tick w))
       (Transport (if match r with Some _ => keeps (tick w) ip | None => false end then (key, ip) :: idle t else idle t)
          (dialled t) (sent t ++ [(ip, req)])))) Ret.

Definition key_of (u : url) (req : request) : conn_key := (proxy_url (URL req), Scheme u, canonicalAddr u).

Definition roundTrip (u : url) (req : request) : Prog (res reply) :=
  if negb (String.eqb (Scheme u) "http" || String.eqb (Scheme u) "https")
  then Ret (Err (ErrNew "unsupported protocol scheme"))
  else if String.eqb (Host u) "" then Ret (Err (ErrNew "http: no Host in request URL"))
  else
    let! c := getConn (key_of u req) in
    match c with
    | Err e => Ret (Err e)
    | Ok ip => exchange (key_of u req) ip req
    end.

(** [n] more requests are allowed; an answer that is not followed is returned. *)
Fixpoint follow (n : nat) (body : option (string * string)) (req : request) : Prog (res Z) :=
  match n with
  | O => Ret (Err (ErrNew "stopped after 10 redirects"))
  | S n =>
      match url_Parse (URL req) with
      | None => Ret (Err (ErrNew "parse url"))
      | Some u =>
          let! r := roundTrip u req in
          match r with
          | Err e => Ret (Err e)
          | Ok reply =>
              match redirectBehavior (Method req) (StatusCode reply) with
              | None => Ret (Ok (StatusCode reply))
              | Some (method, withBody) =>
                  if String.eqb (Location reply) "" then Ret (Ok (StatusCode reply))
                  else match resolve_ref (URL req) (Location reply) with
                  | None => Ret (Err (ErrNew "failed to parse Location header"))
                  | Some u' => follow n body (Request method u' (if withBody then body else None))
                  end
              end
          end
      end
  end.

(** The default [CheckRedirect] allows ten requests. *)
Definition Do_request (req : request) : Prog (res Z) := follow 10 (Body req) req.

(** ** dispatcher/mattermost.go *)

(** The settings of its client; the dialer is the one of [getConn]. *)
Definition NewMattermost : std_client := StdClient (10 * Second) 100 50 (90 * Second).

Definition post (webhookURL channel text : string) : Prog (res unit) :=
  let! r := Do_request (Request "POST" webhookURL (Some (channel, text))) in
  Ret (match r with Err e => Err e | Ok code => post_status code end).

Definition Send (webhookURL channel text : string) : Prog (res unit) :=
  match url_Parse webhookURL with
  | None => Ret (Err (ErrNew "parse url"))
  | Some _ => attempts 3 0 "mattermost send failed after 3 attempts" (post webhookURL channel text) (ErrNew "")
  end.

End Client.

(** ** Every connection is to a public address *)

Definition anything (_ _ : transport) : Prop := True.

#[local] Instance anything_PreOrder : PreOrder anything.
Proof. done. Qed.

Section Guard.
Context `{Platform} `{Network} `{Resolver} `{Internet}.
Hypothesis lookups_ok : forall t host ips, LookupIPAddr t host = Ok ips -> Forall well_formed ips.

(** [ip] is what the host of [addr] resolved to at some time, in an answer
    without an internal address. *)
Definition reached (ip : IP) (addr : string) : Prop :=
  exists host port t ips, SplitHostPort addr = Some (host, port) /\ LookupIPAddr t host = Ok ips
    /\ ip ∈ ips /\ Forall (fun ip => public ip = true) ips.

Lemma reached_public ip addr : reached ip addr -> public ip = true.
Proof. intros (? & ? & ? & ips & _ & _ & Hip & Hp). rewrite Forall_forall in Hp. by apply Hp. Qed.

Definition dialled_ok (addr : string) (r : res IP * list IP) : Prop :=
  Forall (fun ip => public ip = true) r.2 /\ forall ip, r.1 = Ok ip -> reached ip addr.

Lemma dial_first_always {D} addr host port t ips0 ips p e :
  SplitHostPort addr = Some (host, port) -> LookupIPAddr t host = Ok ips0 ->
  Forall (fun ip => public ip = true) ips0 -> ips ⊆ ips0 ->
  always (dial_first (D := D) ips p e) (dialled_ok addr).
Proof.
  intros Ha Hl Hp. revert e. induction ips as [|ip ips IH]; intros e Hs; cbn [dial_first].
  { split; [constructor|done]. }
  assert (ip ∈ ips0) as Hip by (apply Hs; by left).
  assert (public ip = true) as Hpub by (rewrite Forall_forall in Hp; by apply Hp).
  intros w. cbn. destruct (Dial (tick w) ip p) as [[]|e'].
  - split; [by repeat constructor|]. intros ip' [= <-]. by exists host, port, t, ips0.
  - eapply always_bind; [apply IH; intros x Hx; apply Hs; by right|].
    intros r [Hf Hr]. split; [by constructor|done].
Qed.

Lemma guarded_always {D} addr : always (GuardedDialContext (D := D) addr) (dialled_ok addr).
Proof.
  unfold GuardedDialContext. destruct (SplitHostPort addr) as [[host port]|] eqn:Es; [|split; [constructor|done]].
  intros w. cbn. destruct (LookupIPAddr (tick w) host) as [ips|e] eqn:El; [|split; [constructor|done]].
  destruct ips as [|ip ips]; [split; [constructor|done]|].
  destruct (existsb isBlockedIP (ip :: ips)) eqn:Eb; [split; [constructor|done]|].
  eapply dial_first_always; [exact Es|exact El| |done].
  apply Forall_forall. intros x Hx. pose proof (lookups_ok _ _ _ El) as Hwf. rewrite Forall_forall in Hwf.
  destruct (public x) eqn:Ep; [done|]. exfalso.
  assert (existsb isBlockedIP (ip :: ips) = true) as He; [|congruence].
  apply existsb_exists. exists x. split; [by apply list_elem_of_In|]. rewrite blocked_spec by auto. by rewrite Ep.
Qed.

Definition reads_only {D A} (p : M D A) : Prop :=
  budget (fun w w' : world D => data w = data w') (fun _ _ => False) p 0.

Lemma dial_first_reads {D} ips p e : reads_only (dial_first (D := D) ips p e).
Proof.
  unfold reads_only. revert e. induction ips as [|ip ips IH]; intros e; [done|].
  intros w. left. split; [done|]. cbn. destruct (Dial _ _ _); [done|].
  apply budget_quiet_bind; [apply IH|done].
Qed.

Lemma guarded_reads {D} addr : reads_only (GuardedDialContext (D := D) addr).
Proof.
  unfold reads_only, GuardedDialContext. destruct (SplitHostPort addr) as [[host port]|]; [|done].
  intros w. left. split; [done|]. cbn. destruct (LookupIPAddr (tick w) host) as [[|ip ips]|e]; [done| |done].
  destruct (existsb isBlockedIP (ip :: ips)); [done|]. exact (dial_first_reads (ip :: ips) port (ErrNew "")).
Qed.

(** The state of the transport, at any time. *)
Record clean (t : transport) : Prop := Clean {
  clean_idle key ip : (key, ip) ∈ idle t -> reached ip (dial_addr key);
  clean_dialled : Forall (fun ip => public ip = true) (dialled t);
  clean_sent ip req : (ip, req) ∈ sent t ->
    exists u, url_Parse (URL req) = Some u /\ reached ip (dial_addr (key_of u req))
}.

(** [p] keeps it, sends at most [n] requests, and its answer satisfies [Q]. *)
Definition costs {A} (n : nat) (p : M transport A) (Q : A -> Prop) : Prop :=
  forall m d, wpD anything clean (fun t (_ : unit) => length (sent t)) p (fun _ => n + m)%nat d
    (fun a c _ => Q a /\ (m <= c tt)%nat).

Lemma costs_ret {A} (a : A) n (Q : A -> Prop) : Q a -> costs n (Ret a) Q.
Proof. intros HQ m d. apply wpD_ret. split; [done|lia]. Qed.

Lemma costs_bind {A B} n m (p : M transport A) (f : A -> M transport B) P Q :
  costs n p P -> (forall a, P a -> costs m (f a) Q) -> costs (n + m) (bind p f) Q.
Proof.
  intros Hp Hf k d. apply wpD_bind. eapply wpD_mono; [|rewrite <- Nat.add_assoc; apply Hp].
  intros a c d' [HP Hc] t. eapply wp_drop; [| |by apply (Hf a HP k d')].
  - intros a' c1 c2 w Hle [HQ Hk]. split; [done|]. specialize (Hle tt). lia.
  - intros []. done.
Qed.

Lemma costs_atomic {A} n (op : world transport -> A * world transport) (Q : A -> Prop) :
  (forall w, clean (data w) -> clean (data (op w).2) /\ Q (op w).1
     /\ (length (sent (data (op w).2)) <= length (sent (data w)) + n)%nat) ->
  costs n (Atomic op Ret) Q.
Proof.
  intros Hop m d t w _ Hi. destruct (Hop w Hi) as (Hc & HQ & Hn). cbn.
  split; [done|]. split; [exact Hc|]. exists (fun _ => m). unfold pot_world. split; [intros; lia|done].
Qed.

Lemma costs_reads {A} (p : M transport A) (Q : A -> Prop) :
  reads_only p -> always p Q -> costs 0 p Q.
Proof.
  intros Hb Ha m d. eapply wpD_mono; [|by apply (wpD_quiet anything _ _ p Q)].
  intros a c d' (_ & HQ & ->). split; [done|lia].
Qed.

Lemma find_idle_in key l ip l' : find_idle key l = Some (ip, l') -> (key, ip) ∈ l /\ l' ⊆ l.
Proof.
  revert l'. induction l as [|[k x] l IH]; intros l'; simpl; [done|]. case_bool_decide as Ek.
  - intros [= <- <-]. subst. split; [by left|]. intros y Hy. by right.
  - destruct (find_idle key l) as [[y l1]|] eqn:El; [|done]. intros [= <- <-].
    destruct (IH _ eq_refl) as [Hin Hs]. split; [by right|]. by apply list_subseteq_skip.
Qed.

Lemma take_idle_costs key : costs 0 (take_idle key) (fun c => forall ip, c = Some ip -> reached ip (dial_addr key)).
Proof.
  apply costs_atomic. intros w Hc. destruct (find_idle key (idle (data w))) as [[ip l]|] eqn:Ef; simpl.
  - destruct (find_idle_in _ _ _ _ Ef) as [Hin Hs]. split; [|split; [|lia]].
    + split; [intros k x Hx; by apply (clean_idle _ Hc), Hs|apply Hc..].
    + intros x. destruct (reusable _ _); [|done]. intros [= <-]. by apply (clean_idle _ Hc).
  - split; [done|]. split; [done|lia].
Qed.

Lemma getConn_costs key : costs 0 (getConn key) (fun r => forall ip, r = Ok ip -> reached ip (dial_addr key)).
Proof.
  unfold getConn. apply (costs_bind 0 0 _ _ _ _ (take_idle_costs key)). intros [ip|] Hip.
  { apply costs_ret. intros x [= <-]. by apply Hip. }
  eapply (costs_bind 0 0); [apply costs_reads; [apply guarded_reads|apply guarded_always]|].
  intros [r tried] [Hf Hr]. apply (costs_bind 0 0 _ _ (fun _ => True)).
  - apply costs_atomic. intros w Hc. simpl. split; [|split; [done|lia]].
    split; simpl; [apply Hc|apply Forall_app; split; [apply Hc|done]|apply Hc].
  - intros _ _. by apply costs_ret.
Qed.

Lemma roundTrip_costs u req : url_Parse (URL req) = Some u -> costs 1 (roundTrip u req) (fun _ => True).
Proof.
  intros Hu. unfold roundTrip. destruct (negb _); [by apply costs_ret|]. destruct (String.eqb _ _); [by apply costs_ret|].
  apply (costs_bind 0 1 _ _ _ _ (getConn_costs _)). intros [ip|e] Hip; [|by apply costs_ret].
  specialize (Hip ip eq_refl). apply costs_atomic. intros w Hc. simpl.
  split; [|split; [done|rewrite length_app; simpl; lia]]. split; simpl; [|apply Hc|].
  - intros key x. destruct (answer _ _ _); [|by apply Hc]. destruct (keeps _ _); [|by apply Hc].
    intros [[= -> ->]|Hx]%elem_of_cons; [done|by apply Hc].
  - intros x r [Hx|Hx%list_elem_of_singleton]%elem_of_app; [by apply Hc|]. injection Hx as -> ->. eauto.
Qed.

Lemma follow_costs n body req : costs n (follow n body req) (fun _ => True).
Proof.
  revert req. induction n as [|n IH]; intros req; cbn [follow]; [by apply costs_ret|].
  destruct (url_Parse (URL req)) as [u|] eqn:Eu; [|by apply costs_ret].
  apply (costs_bind 1 n _ _ _ _ (roundTrip_costs u req Eu)). intros [reply|e] _; [|by apply costs_ret].
  destruct (redirectBehavior _ _) as [[m keep]|]; [|by apply costs_ret].
  destruct (String.eqb _ _); [by apply costs_ret|]. destruct (resolve_ref _ _); [apply IH|by apply costs_ret].
Qed.

Lemma attempts_costs k n i msg (send : M transport (res unit)) e :
  costs k send (fun _ => True) -> costs (n * k) (attempts n i msg send e) (fun _ => True).
Proof.
  intros Hs. revert i e. induction n as [|n IH]; intros i e; cbn [attempts]; [by apply costs_ret|].
  change (S n * k)%nat with (k + n * k)%nat. apply (costs_bind _ _ _ _ _ _ Hs). intros [[]|e'] _; [by apply costs_ret|].
  destruct (i <? 2)%nat; [|apply IH]. apply (costs_bind 0 (n * k) _ _ (fun _ => True)).
  - apply costs_atomic. intros w Hc. cbn. split; [done|]. split; [exact I|lia].
  - intros [] _; [by apply costs_ret|apply IH].
Qed.

Lemma Send_costs url channel text : costs 30 (Send url channel text) (fun _ => True).
Proof.
  unfold Send. destruct (url_Parse url); [|by apply costs_ret].
  apply (attempts_costs 10 3). apply (costs_bind 10 0 _ _ (fun _ => True)); [apply follow_costs|].
  intros r _. by apply costs_ret.
Qed.

End Guard.

(** ** Property *)

Definition NewTransport : transport := Transport [] [] [].

(** C21: a webhook never reaches an internal address.  Take any number of [Send]s
    to any URLs, also stored before validation existed, by goroutines that share
    the client, in any interleaving; whatever the servers answer (redirects
    included), whatever the name service answers and however it changes its mind,
    and whether connections are used again or not: every address that is dialled
    and the peer of every request is public; without a proxy in the environment the
    peer is one the host of the URL resolved to, in an answer without an internal
    address; and each [Send] makes at most thirty round trips. *)
Theorem webhook_stays_public `{Platform} `{Network} `{Resolver} `{Internet}
    (sends : list (string * string * string)) t ps w :
  (forall t host ips, LookupIPAddr t host = Ok ips -> Forall well_formed ips) ->
  rtc pool_step (map (fun x => Send x.1.1 x.1.2 x.2) sends, World t NewTransport) (ps, w) ->
  Forall (fun ip => public ip = true) (dialled (data w))
  /\ (forall ip req, (ip, req) ∈ sent (data w) -> public ip = true
       /\ (proxy_url (URL req) = None -> exists u, url_Parse (URL req) = Some u /\ reached ip (canonicalAddr u)))
  /\ (length (sent (data w)) <= 30 * length sends)%nat.
Proof.
  intros Hl Hr.
  destruct (pool_sound (le_world anything) (inv_world clean)
    (pot_world (fun t (_ : unit) => length (sent t))) _ _ _ _ (replicate (length sends) (fun _ => 30%nat)) Hr)
    as (_ & Hc & Hn).
  - split; [by intros ? ? ?%not_elem_of_nil|constructor|by intros ? ? ?%not_elem_of_nil].
  - clear Hr. induction sends as [|x sends IH]; simpl; constructor; [|done].
    eapply wp_mono; [|exact (Send_costs Hl x.1.1 x.1.2 x.2 0%nat NewTransport t)]. done.
  - unfold inv_world in Hc. split; [apply Hc|]. split.
    + intros ip req Hin. destruct (clean_sent _ Hc _ _ Hin) as (u & Hu & Hip).
      split; [by eapply reached_public|]. intros Hp. exists u. split; [done|].
      unfold dial_addr, key_of in Hip. simpl in Hip. by rewrite Hp in Hip.
    + specialize (Hn tt). unfold pot_world in Hn. simpl in Hn.
      assert (forall n, sum_credits (replicate n (fun _ : unit => 30%nat)) tt = 30 * n)%nat as Hs.
      { unfold sum_credits. induction n; simpl in *; lia. }
      rewrite Hs in Hn. lia.
Qed.

(** *** A webhook that redirects to the metadata service *)

Module Webhook_demo.
Definition P : Platform := demo_platform [].

Definition mm : string := "https://mm.example/hooks/1".
Definition old : string := "http://old.example/hooks/1".
Definition evil : string := "https://evil.example/".
Definition meta : string := "http://169.254.169.254/latest/meta-data/".

Definition net : Network := {|
  url_Parse s :=
    if String.eqb s mm then Some (Url "https" "mm.example" "/hooks/1")
    else if String.eqb s old then Some (Url "http" "old.example" "/hooks/1")
    else if String.eqb s evil then Some (Url "https" "evil.example" "/")
    else if String.eqb s meta then Some (Url "http" "169.254.169.254" "/latest/meta-data/")
    else None;
  http_post _ _ := None |}.

Definition names : Resolver := {|
  parse_url _ := None; ParseIP _ := None;
  LookupIPAddr _ host :=
    Ok (if String.eqb host "169.254.169.254" then [[169; 254; 169; 254]]
        else if String.eqb host "evil.example" then [[9; 9; 9; 9]] else [[8; 8; 8; 8]]);
  Dial _ _ _ := Ok tt |}.

(** The old address answers with a 302, the evil one with a redirect to [meta];
    the others take the message. *)
Definition world_wide (proxy : option string) : Internet := {|
  proxy_url _ := proxy;
  resolve_ref _ l := Some l;
  reusable _ _ := true;
  keeps _ _ := true;
  answer _ _ req := Some (
    if String.eqb (URL req) old then Reply 302 mm
    else if String.eqb (URL req) evil then Reply 307 meta
    else Reply 200 "") |}.

Definition send (proxy : option string) (u : string) : M transport (res unit) :=
  @Send P net names (world_wide proxy) u "ops" "disk full".

Definition result (proxy : option string) (u : string) : res unit * transport :=
  let '(r, w) := run (send proxy u) (World 0 NewTransport) in (r, data w).

Definition both : list (M transport (res unit)) * world transport :=
  run_schedule (concat (replicate 30 [0; 1]%nat)) (map (send None) [evil; mm]) (World 0 NewTransport).

Lemma names_ok t host ips : @LookupIPAddr names t host = Ok ips -> Forall well_formed ips.
Proof.
  intros [= <-]. destruct (String.eqb host _); [|destruct (String.eqb host _)];
    (constructor; [split; [repeat constructor; lia|by left]|constructor]).
Qed.
End Webhook_demo.
Import Webhook_demo.

(** The evil one is posted to three times, its redirect is never followed, and the
    other [Send] is not disturbed. *)
Lemma webhook_stays_public_witness :
  both.1 = [Ret (Err (Wrap "mattermost send failed after 3 attempts"
                        (Wrap2 ErrBlockedAddress (ErrNew "resolves to")))); Ret (Ok tt)]
  /\ map (fun x => (x.1, URL x.2)) (sent (data both.2)) =
       [([9; 9; 9; 9], evil); ([8; 8; 8; 8], mm); ([9; 9; 9; 9], evil); ([9; 9; 9; 9], evil)]
  /\ Forall (fun ip => public ip = true) (dialled (data both.2))
  /\ (forall ip req, (ip, req) ∈ sent (data both.2) -> public ip = true
       /\ (@proxy_url (world_wide None) (URL req) = None ->
             exists u, @url_Parse net (URL req) = Some u /\ @reached names ip (canonicalAddr u)))
  /\ (length (sent (data both.2)) <= 30 * 2)%nat.
Proof.
  split; [vm_compute; reflexivity|]. split; [vm_compute; reflexivity|].
  apply (@webhook_stays_public P net names (world_wide None)
           [(evil, "ops", "disk full"); (mm, "ops", "disk full")] 0%nat both.1 both.2 names_ok).
  pose proof (run_schedule_rtc (concat (replicate 30 [0; 1]%nat)) (map (send None) [evil; mm])
                (World 0 NewTransport)) as Hr.
  fold both in Hr. destruct both as [ps w]. exact Hr.
Defined.

(** A 302 turns the post into a GET without the message, whose 200 counts as a
    delivery: no server that took the message answered with success. *)
Example redirected_post_counts :
  (result None old).1 = Ok tt
  /\ map (fun x => (Method x.2, URL x.2, Body x.2)) (sent (result None old).2) =
       [("POST", old, Some ("ops", "disk full")); ("GET", mm, None)].
Proof. split; vm_compute; reflexivity. Qed.

(** With a proxy in the environment the guard looks at the proxy, not at the host
    of the URL, and an internal URL is asked for. *)
Example proxy_hides_target :
  (result (Some "proxy.example:3128") meta).1 = Ok tt
  /\ dialled (result (Some "proxy.example:3128") meta).2 = [[8; 8; 8; 8]]
  /\ (result None meta).2 = NewTransport.
Proof. split_and!; vm_compute; reflexivity. Qed.
