(* ===== verification/Rotation.v ===== *)
(** * Scheduling: on-call rotation

    services/scheduling/internal/rotation/rotation.go.  The time-zone data
    base is not part of the repository: [load_location] stands for
    [time.LoadLocation], and a location for the function that maps a civil
    midnight (in nanoseconds since 1970-01-01 00:00 of the civil calendar) to
    its instant, which is what [time.Date] computes from it. *)

From S2P Require Import Prelude Effects SchedulingDomain.

Definition ErrEmptyRotation : err := ErrNew "rotation has no members".

(** ** ParseISO8601Duration *)

Definition is_digit (c : Ascii.ascii) : bool :=
  let n := Ascii.nat_of_ascii c in ((48 <=? n) && (n <=? 57))%nat.

Fixpoint digit_prefix (s : string) : string * string :=
  match s with
  | String c s' => if is_digit c then let '(d, r) := digit_prefix s' in (String c d, r)
                   else (EmptyString, s)
  | EmptyString => (EmptyString, EmptyString)
  end.

Fixpoint digits_value (acc : Z) (s : string) : Z :=
  match s with
  | EmptyString => acc
  | String c s => digits_value (10 * acc + (Z.of_nat (Ascii.nat_of_ascii c) - 48)) s
  end.

(** [strconv.Atoi] on a non-empty string of digits. *)
Definition Atoi_digits (s : string) : res Z :=
  let n := digits_value 0 s in
  if n <=? maxInt64 then Ok n else Err (ErrNew "value out of range").

(** The nanoseconds of [n] units, with the 64-bit products of the code. *)
Definition duration_unit (inTime : bool) (unit : Ascii.ascii) (n : Z) : option Duration :=
  match inTime, unit with
  | false, "W"%char => Some (int64 (int64 (int64 (n * 7) * 24) * Hour))
  | false, "D"%char => Some (int64 (int64 (n * 24) * Hour))
  | true, "H"%char => Some (int64 (n * Hour))
  | true, "M"%char => Some (int64 (n * Minute))
  | true, "S"%char => Some (int64 (n * Second))
  | _, _ => None
  end.

(** The parsing loop; [None] is running out of fuel. *)
Fixpoint duration_loop (fuel : nat) (s : string) (inTime : bool) (total : Duration)
    : option (res Duration) :=
  match fuel with
  | O => None
  | S fuel =>
      match s with
      | EmptyString =>
          Some (if total <=? 0 then Err (ErrNew "duration must be positive") else Ok total)
      | String c s' =>
          if Ascii.eqb c "T" then duration_loop fuel s' true total
          else match digit_prefix s with
               | (EmptyString, _) | (_, EmptyString) =>
                   Some (Err (ErrNew "invalid duration: unexpected char"))
               | (ds, String unit s'') =>
                   match Atoi_digits ds with
                   | Err e => Some (Err e)
                   | Ok n =>
                       match duration_unit inTime unit n with
                       | Some d => duration_loop fuel s'' inTime (int64 (total + d))
                       | None => Some (Err (ErrNew "invalid duration unit"))
                       end
                   end
               end
      end
  end.

(** One iteration drops a byte at least, so the length plus one is enough fuel
    ([duration_loop_total]). *)
Definition ParseISO8601Duration (s : string) : res Duration :=
  match s with
  | EmptyString => Err (ErrNew "invalid duration")
  | String c s =>
      if negb (Ascii.eqb c "P") then Err (ErrNew "invalid duration")
      else match duration_loop (S (String.length s)) s false 0 with
           | Some r => r
           | None => Err (ErrNew "out of fuel")
           end
  end.

(** ** OnCallAt and GenerateShifts *)

Definition Location : Type := Z -> Time.

Definition UTC : Location := fun civil => civil.

Section Rotation.
Variable load_location : string -> option Location.

Definition location_of (tz : string) : Location := default UTC (load_location (TrimSpace tz)).

(** Midnight of the day of [start] (its civil date in UTC) in the location. *)
Definition epoch_of (loc : Location) (start : Time) : Time := loc (start / day_ns * day_ns).

(** [d] in [shift number int(elapsed/shiftDur)], with Go's truncated quotient
    and 64-bit product. *)
Definition shift_number (elapsed shiftDur : Duration) : Z := Z.quot elapsed shiftDur.

Definition shift_start (epoch : Time) (elapsed shiftDur : Duration) : Time :=
  Add epoch (int64 (shift_number elapsed shiftDur * shiftDur)).

Definition elapsed_at (epoch at_ : Time) : Duration :=
  let elapsed := Sub at_ epoch in if elapsed <? 0 then 0 else elapsed.

(** [rotation\[int(elapsed/shiftDur) % len(rotation)\]]. *)
Definition rotation_user (rotation : list string) (elapsed shiftDur : Duration) : string :=
  default EmptyString
    (rotation !! Z.to_nat (Z.rem (shift_number elapsed shiftDur) (Z.of_nat (length rotation)))).

Definition fromRotation (s : Schedule.t) (at_ : Time) : res (string * Time * Time) :=
  match Schedule.Rotation s with
  | [] => Err ErrEmptyRotation
  | _ =>
      let loc := location_of (Schedule.Timezone s) in
      match ParseISO8601Duration (Schedule.ShiftDuration s) with
      | Err e => Err (Wrap "parse shift_duration" e)
      | Ok shiftDur =>
          let epoch := epoch_of loc (Schedule.StartDate s) in
          let elapsed := elapsed_at epoch at_ in
          let start := shift_start epoch elapsed shiftDur in
          Ok (rotation_user (Schedule.Rotation s) elapsed shiftDur, start, Add start shiftDur)
      end
  end.

(** Whether [at_] is in the window of the override. *)
Definition covers (o : Override.t) (at_ : Time) : bool :=
  negb (Before at_ (Override.StartAt o)) && Before at_ (Override.EndAt o).

Fixpoint OnCallAt (s : Schedule.t) (overrides : list Override.t) (at_ : Time)
    : res (string * Time * Time) :=
  match overrides with
  | [] => fromRotation s at_
  | o :: os =>
      if covers o at_ then Ok (Override.UserID o, Override.StartAt o, Override.EndAt o)
      else OnCallAt s os at_
  end.

(** The base loop of GenerateShifts from [cur]; [None] is running out of fuel. *)
Fixpoint base_shifts (fuel : nat) (rotation : list string) (shiftDur : Duration)
    (epoch to cur : Time) : option (list Shift.t) :=
  match fuel with
  | O => None
  | S fuel =>
      if Before cur to then
        let elapsed := elapsed_at epoch cur in
        let shiftStart := shift_start epoch elapsed shiftDur in
        let shiftEnd := Add shiftStart shiftDur in
        let shiftEnd := if After shiftEnd to then to else shiftEnd in
        let sh := Shift.mk (rotation_user rotation elapsed shiftDur) shiftStart shiftEnd false in
        match base_shifts fuel rotation shiftDur epoch to shiftEnd with
        | Some l => Some (sh :: l)
        | None => None
        end
      else Some []
  end.

(** The override window clamped to [\[from, to)]. *)
Definition clamp (o : Override.t) (from to : Time) : Time * Time :=
  (if Before (Override.StartAt o) from then from else Override.StartAt o,
   if After (Override.EndAt o) to then to else Override.EndAt o).

(** The inner loop of applyOverrides over one base shift. *)
Fixpoint cut_shift (s : Shift.t) (overrides : list Override.t) (from to cur : Time)
    : list Shift.t :=
  match overrides with
  | [] =>
      if Before cur (Shift.EndAt s)
      then [Shift.mk (Shift.UserID s) cur (Shift.EndAt s) false] else []
  | o :: os =>
      let '(oStart, oEnd) := clamp o from to in
      if negb (Before oStart oEnd) then cut_shift s os from to cur
      else if Before oStart (Shift.EndAt s) && After oEnd (Shift.StartAt s) then
        (if Before cur oStart then [Shift.mk (Shift.UserID s) cur oStart false] else [])
        ++ Shift.mk (Override.UserID o) oStart oEnd true :: cut_shift s os from to oEnd
      else cut_shift s os from to cur
  end.

Definition applyOverrides (base : list Shift.t) (overrides : list Override.t)
    (from to : Time) : list Shift.t :=
  match overrides with
  | [] => base
  | _ => flat_map (fun s => cut_shift s overrides from to (Shift.StartAt s)) base
  end.

Definition GenerateShifts (fuel : nat) (s : Schedule.t) (overrides : list Override.t)
    (from to : Time) : option (res (list Shift.t)) :=
  match Schedule.Rotation s with
  | [] => Some (Err ErrEmptyRotation)
  | rotation =>
      let loc := location_of (Schedule.Timezone s) in
      match ParseISO8601Duration (Schedule.ShiftDuration s) with
      | Err e => Some (Err (Wrap "parse shift_duration" e))
      | Ok shiftDur =>
          let epoch := epoch_of loc (Schedule.StartDate s) in
          match base_shifts fuel rotation shiftDur epoch to from with
          | Some shifts => Some (Ok (applyOverrides shifts overrides from to))
          | None => None
          end
      end
  end.

End Rotation.

(** ** Lemmas: durations *)

(** The parsing loop never runs out of the fuel it is given. *)
Lemma digit_prefix_length s d r :
  digit_prefix s = (d, r) -> (String.length s = String.length d + String.length r)%nat.
Proof.
  revert d r. induction s as [|c s IH]; intros d r; simpl; [by intros [= <- <-]|].
  destruct (is_digit c); [|by intros [= <- <-]].
  destruct (digit_prefix s) as [d' r'] eqn:E. intros [= <- <-]. simpl.
  by rewrite (IH _ _ eq_refl).
Qed.

Lemma duration_loop_total fuel s inTime total :
  (String.length s < fuel)%nat -> is_Some (duration_loop fuel s inTime total).
Proof.
  revert s inTime total. induction fuel as [|fuel IH]; intros s inTime total Hf; [lia|].
  destruct s as [|c s]; [by eexists|].
  cbn [duration_loop String.length] in *.
  destruct (Ascii.eqb c "T"); [apply IH; lia|].
  destruct (digit_prefix (String c s)) as [ds [|unit r]] eqn:Ed; [destruct ds; by eexists|].
  destruct ds as [|c' ds]; [by eexists|].
  apply digit_prefix_length in Ed. simpl in Ed.
  destruct (Atoi_digits _); [|by eexists].
  destruct (duration_unit _ _ _); [|by eexists]. apply IH. lia.
Qed.

Lemma duration_loop_range fuel s inTime total d :
  in_int64 total -> duration_loop fuel s inTime total = Some (Ok d) -> 0 < d <= maxInt64.
Proof.
  revert s inTime total. induction fuel as [|fuel IH]; intros s inTime total Ht; [done|].
  destruct s as [|c s]; cbn [duration_loop].
  - destruct (Z.leb_spec total 0); intros [= <-]. unfold in_int64 in Ht. lia.
  - go_cases; intros; simplify_eq; eauto with oncall.
Qed.

Lemma ParseISO8601Duration_range s d :
  ParseISO8601Duration s = Ok d -> 0 < d <= maxInt64.
Proof.
  unfold ParseISO8601Duration. destruct s as [|c s]; [done|]. destruct (negb _); [done|].
  destruct (duration_loop _ _ _ _) eqn:E; [|done]. intros ->.
  eapply duration_loop_range; [|done]. unfold in_int64, minInt64, maxInt64. lia.
Qed.

(** ** Lemmas: shift arithmetic *)

Section Arithmetic.
Variables (epoch : Time) (d : Duration).
Hypothesis Hd : 0 < d <= maxInt64.

Lemma elapsed_at_eq at_ :
  elapsed_at epoch at_ = Z.max 0 (Z.min maxInt64 (at_ - epoch)).
Proof.
  unfold elapsed_at, Sub, minInt64. destruct (Z.ltb_spec (Z.max (- 2 ^ 63) (Z.min maxInt64 (at_ - epoch))) 0);
    unfold maxInt64 in *; lia.
Qed.

Lemma elapsed_at_range at_ : 0 <= elapsed_at epoch at_ <= maxInt64.
Proof. rewrite elapsed_at_eq. unfold maxInt64. lia. Qed.

Lemma shift_start_eq e :
  0 <= e <= maxInt64 -> shift_start epoch e d = epoch + e / d * d.
Proof.
  intros He. unfold shift_start, shift_number, Add. rewrite Z.quot_div_nonneg by lia.
  rewrite int64_id; [done|]. unfold in_int64, minInt64.
  pose proof (Z.div_pos e d). pose proof (Z.mul_div_le e d ltac:(lia)). nia.
Qed.

(** Two instants of the same shift have the same shift number. *)
Lemma div_in_shift q x : q * d <= x < q * d + d -> x / d = q.
Proof. intros. symmetry. apply Z.div_unique with (x - q * d); lia. Qed.

Lemma shift_bounds e : e / d * d <= e < e / d * d + d.
Proof. pose proof (Z.div_mod e d). pose proof (Z.mod_pos_bound e d). lia. Qed.

(** The number of base shifts the loop still has to produce from [cur]. *)
Definition remaining (to cur : Time) : Z :=
  (to - epoch) / d - Z.max 0 (cur - epoch) / d.

End Arithmetic.

Lemma rotation_user_number rotation e e' d :
  0 <= e -> 0 <= e' -> 0 < d -> e / d = e' / d ->
  rotation_user rotation e d = rotation_user rotation e' d.
Proof.
  intros. unfold rotation_user, shift_number. rewrite !Z.quot_div_nonneg by lia. congruence.
Qed.

Definition in_shift (sh : Shift.t) (at_ : Time) : Prop :=
  Shift.StartAt sh <= at_ < Shift.EndAt sh.

(** The end of the last shift whose start the code can compute: [Sub]
    saturates, so shift numbers stop at [maxInt64 / shiftDur]. *)
Definition horizon (epoch : Time) (d : Duration) : Time := epoch + (maxInt64 / d + 1) * d.

Section Base.
Variables (rotation : list string) (d : Duration) (epoch to : Time).
Hypothesis Hd : 0 < d <= maxInt64.

Lemma base_step fuel cur :
  cur < to ->
  let start := epoch + elapsed_at epoch cur / d * d in
  base_shifts (S fuel) rotation d epoch to cur =
  match base_shifts fuel rotation d epoch to (Z.min (start + d) to) with
  | Some l => Some (Shift.mk (rotation_user rotation (elapsed_at epoch cur) d) start
                             (Z.min (start + d) to) false :: l)
  | None => None
  end.
Proof.
  intros Hc start. cbn [base_shifts]. unfold Before, After.
  destruct (Z.ltb_spec cur to); [|lia].
  rewrite (shift_start_eq epoch d Hd) by apply elapsed_at_range. fold start. unfold Add.
  assert ((if to <? start + d then to else start + d) = Z.min (start + d) to) as ->; [|done].
  destruct (Z.ltb_spec to (start + d)); lia.
Qed.

Lemma base_done fuel cur : to <= cur -> base_shifts (S fuel) rotation d epoch to cur = Some [].
Proof. intros. simpl. unfold Before. by destruct (Z.ltb_spec cur to); [lia|]. Qed.

Lemma base_shifts_user fuel cur l sh at_ :
  to - epoch <= maxInt64 ->
  base_shifts fuel rotation d epoch to cur = Some l ->
  sh ∈ l -> in_shift sh at_ ->
  epoch <= at_ /\ Shift.UserID sh = rotation_user rotation (elapsed_at epoch at_) d.
Proof.
  intros Hto. revert cur l. induction fuel as [|fuel IH]; intros cur l; [done|].
  destruct (Z.lt_ge_cases cur to) as [Hc|Hc].
  2: { rewrite base_done by done. intros [= <-] Hin. by apply not_elem_of_nil in Hin. }
  rewrite base_step by done.
  set (start := epoch + elapsed_at epoch cur / d * d).
  destruct (base_shifts fuel _ _ _ _ _) as [l'|] eqn:E; [|done].
  intros [= <-] [->|Hin]%elem_of_cons Hat; [|eauto].
  unfold in_shift in Hat; simpl in *.
  pose proof (elapsed_at_range epoch cur) as He.
  pose proof (Z.div_pos (elapsed_at epoch cur) d ltac:(lia) ltac:(lia)).
  assert (epoch <= at_) by (unfold start in Hat; nia).
  split; [done|]. apply rotation_user_number; [apply He|apply elapsed_at_range|lia|].
  symmetry. apply div_in_shift. rewrite (elapsed_at_eq epoch at_).
  unfold start in Hat. lia.
Qed.

Lemma base_shifts_cover fuel cur l at_ :
  to - epoch <= maxInt64 ->
  base_shifts fuel rotation d epoch to cur = Some l ->
  cur <= at_ -> epoch <= at_ -> at_ < to ->
  exists sh, sh ∈ l /\ in_shift sh at_.
Proof.
  intros Hto. revert cur l. induction fuel as [|fuel IH]; intros cur l; [done|].
  intros Hb Hcur Hep Hat. rewrite base_step in Hb by lia.
  set (start := epoch + elapsed_at epoch cur / d * d) in *.
  destruct (base_shifts fuel _ _ _ _ _) as [l'|] eqn:E; [|done]. simplify_eq.
  destruct (Z.lt_ge_cases at_ (Z.min (start + d) to)) as [Hlt|Hge].
  - eexists. split; [left|]. unfold in_shift; simpl.
    pose proof (shift_bounds d Hd (elapsed_at epoch cur)) as Hs.
    pose proof (elapsed_at_eq epoch cur) as Hec. unfold start in *. lia.
  - destruct (IH _ _ E Hge Hep Hat) as (sh & ? & ?). exists sh. split; [by right|done].
Qed.

(** Enough fuel: one iteration per remaining shift. *)
Lemma base_shifts_total fuel cur :
  to <= horizon epoch d ->
  (Z.to_nat (remaining epoch d to cur) + 1 < fuel)%nat ->
  is_Some (base_shifts fuel rotation d epoch to cur).
Proof.
  intros Hto. revert cur. induction fuel as [|fuel IH]; intros cur Hf; [lia|].
  destruct (Z.lt_ge_cases cur to) as [Hc|Hc]; [|rewrite base_done by done; by eexists].
  rewrite base_step by done. set (start := epoch + elapsed_at epoch cur / d * d).
  assert (is_Some (base_shifts fuel rotation d epoch to (Z.min (start + d) to))) as [l ->];
    [|by eexists].
  destruct (Z.le_gt_cases to (start + d)) as [Hs|Hs].
  { destruct fuel; [lia|]. rewrite base_done by lia. by eexists. }
  apply IH. unfold remaining in *. rewrite Z.min_l by lia.
  pose proof (elapsed_at_range epoch cur) as He.
  pose proof (Z.div_pos (elapsed_at epoch cur) d ltac:(lia) ltac:(lia)) as Hq.
  assert (Z.max 0 (start + d - epoch) / d = elapsed_at epoch cur / d + 1) as ->.
  { apply div_in_shift. unfold start. nia. }
  assert (elapsed_at epoch cur / d + 1 <= (to - epoch) / d).
  { apply Z.div_le_lower_bound; unfold start in *; lia. }
  assert (Z.max 0 (cur - epoch) / d = elapsed_at epoch cur / d) as Hcur.
  { rewrite elapsed_at_eq. destruct (Z.le_gt_cases (cur - epoch) maxInt64).
    - f_equal. lia.
    - exfalso. assert (elapsed_at epoch cur = maxInt64) as Hm.
      { rewrite elapsed_at_eq. unfold maxInt64 in *. lia. }
      unfold start, horizon in *. rewrite Hm in *. lia. }
  rewrite Hcur in Hf. lia.
Qed.

(** Past the horizon the loop runs for ever. *)
Lemma base_shifts_diverges fuel cur :
  horizon epoch d < to -> cur < to -> base_shifts fuel rotation d epoch to cur = None.
Proof.
  intros Hto. revert cur. induction fuel as [|fuel IH]; intros cur Hc; [done|].
  rewrite base_step by done. rewrite IH; [done|].
  pose proof (elapsed_at_range epoch cur) as He.
  pose proof (Z.div_le_mono (elapsed_at epoch cur) maxInt64 d ltac:(lia) ltac:(lia)).
  unfold horizon in Hto. nia.
Qed.

(** The base shifts follow each other without gap or overlap, up to [to]. *)
Fixpoint contiguous (l : list Shift.t) (last : Time) : Prop :=
  match l with
  | [] => True
  | sh :: l => Shift.StartAt sh < Shift.EndAt sh
      /\ match l with [] => Shift.EndAt sh = last
                    | sh' :: _ => Shift.EndAt sh = Shift.StartAt sh' end
      /\ contiguous l last
  end.

Lemma base_shifts_contiguous fuel cur l :
  epoch <= cur -> to - epoch <= maxInt64 ->
  base_shifts fuel rotation d epoch to cur = Some l -> contiguous l to.
Proof.
  intros Hcur Hto. revert cur l Hcur. induction fuel as [|fuel IH]; intros cur l Hcur; [done|].
  destruct (Z.lt_ge_cases cur to) as [Hc|Hc].
  2: { rewrite base_done by done. by intros [= <-]. }
  rewrite base_step by done. set (start := epoch + elapsed_at epoch cur / d * d).
  destruct (base_shifts fuel _ _ _ _ _) as [l'|] eqn:E; [|done]. intros [= <-].
  pose proof (elapsed_at_range epoch cur) as He.
  pose proof (Z.div_pos (elapsed_at epoch cur) d ltac:(lia) ltac:(lia)) as Hq.
  pose proof (shift_bounds d Hd (elapsed_at epoch cur)) as Hsb.
  assert (elapsed_at epoch cur = cur - epoch) as Hec by (rewrite elapsed_at_eq; lia).
  assert (start <= cur < start + d) by (unfold start; lia).
  assert (epoch <= Z.min (start + d) to) as Hle by (unfold start in *; lia).
  simpl. split; [lia|]. split; [|by eapply IH].
  destruct fuel as [|fuel]; [done|].
  destruct (Z.le_gt_cases to (start + d)) as [Hs|Hs].
  - rewrite Z.min_r in * by lia. rewrite base_done in E by lia. by simplify_eq.
  - rewrite Z.min_l in * by lia. rewrite base_step in E by lia.
    destruct (base_shifts fuel _ _ _ _ _) as [l2|]; [|done]. simplify_eq/=.
    rewrite (elapsed_at_eq epoch (start + d)).
    rewrite (div_in_shift d (elapsed_at epoch cur / d + 1)); unfold start in *; nia.
Qed.

End Base.

(** ** Lemmas: overrides *)

(** What the store keeps for one schedule and lists by start time: windows that
    are not empty, sorted and disjoint. *)
Fixpoint ordered (os : list Override.t) : Prop :=
  match os with
  | [] => True
  | o :: os => Override.StartAt o < Override.EndAt o
      /\ Forall (fun o' => Override.EndAt o <= Override.StartAt o') os /\ ordered os
  end.

Lemma covers_spec o at_ :
  covers o at_ = true <-> Override.StartAt o <= at_ < Override.EndAt o.
Proof. unfold covers, Before. rewrite andb_true_iff, negb_true_iff, Z.ltb_ge, Z.ltb_lt. done. Qed.

Lemma clamp_eq o from to :
  clamp o from to = (Z.max from (Override.StartAt o), Z.min to (Override.EndAt o)).
Proof.
  unfold clamp, Before, After. f_equal;
    match goal with |- context [?a <? ?b] => destruct (Z.ltb_spec a b) end; lia.
Qed.

Lemma covers_later o os at_ :
  Forall (fun o' => Override.EndAt o <= Override.StartAt o') os ->
  at_ < Override.EndAt o -> forall o', o' ∈ os -> covers o' at_ = false.
Proof.
  rewrite Forall_forall. intros Hf Hat o' Hin. specialize (Hf _ Hin).
  apply not_true_is_false. rewrite covers_spec. lia.
Qed.

Lemma OnCallAt_covered ll s os o at_ :
  ordered os -> o ∈ os -> covers o at_ = true ->
  OnCallAt ll s os at_ = Ok (Override.UserID o, Override.StartAt o, Override.EndAt o).
Proof.
  induction os as [|o1 os IH]; simpl; [by intros ? ?%not_elem_of_nil|].
  intros (? & Hf & Ho) [->|Hin]%elem_of_cons Hc; [by rewrite Hc|].
  destruct (covers o1 at_) eqn:E; [|auto].
  apply covers_spec in E. rewrite (covers_later o1 os at_ Hf ltac:(lia) o Hin) in Hc. done.
Qed.

Lemma OnCallAt_uncovered ll s os at_ :
  (forall o, o ∈ os -> covers o at_ = false) -> OnCallAt ll s os at_ = fromRotation ll s at_.
Proof.
  induction os as [|o1 os IH]; simpl; [done|]. intros Hc.
  rewrite Hc by set_solver. apply IH. set_solver.
Qed.

Lemma ordered_nonempty os o : ordered os -> o ∈ os -> Override.StartAt o < Override.EndAt o.
Proof.
  induction os as [|o1 os IH]; simpl; [by intros ? ?%not_elem_of_nil|].
  intros (? & _ & ?) [->|?]%elem_of_cons; auto.
Qed.

Section Cut.
Variables (s : Shift.t) (from to : Time).

(** One iteration of the inner loop, with the window of the override clamped. *)
Lemma cut_shift_cons o os cur :
  let oStart := Z.max from (Override.StartAt o) in
  let oEnd := Z.min to (Override.EndAt o) in
  cut_shift s (o :: os) from to cur =
  if bool_decide (oStart < oEnd /\ oStart < Shift.EndAt s /\ Shift.StartAt s < oEnd)
  then (if Before cur oStart then [Shift.mk (Shift.UserID s) cur oStart false] else [])
       ++ Shift.mk (Override.UserID o) oStart oEnd true :: cut_shift s os from to oEnd
  else cut_shift s os from to cur.
Proof.
  intros oStart oEnd. cbn [cut_shift]. rewrite clamp_eq. fold oStart oEnd.
  unfold Before at 1 2, After.
  destruct (Z.ltb_spec oStart oEnd), (Z.ltb_spec oStart (Shift.EndAt s)),
    (Z.ltb_spec (Shift.StartAt s) oEnd); simpl; case_bool_decide; try done; lia.
Qed.

(** A piece that contains an instant of the window is the window of an override
    that covers it, or a part of the base shift no override covers. *)
Lemma cut_shift_sound os cur p at_ :
  ordered os -> from <= at_ < to -> Shift.StartAt s <= cur ->
  Forall (fun o => Shift.StartAt s < Override.EndAt o -> cur <= Override.EndAt o) os ->
  p ∈ cut_shift s os from to cur -> in_shift p at_ ->
  (exists o, o ∈ os /\ covers o at_ = true /\ Shift.UserID p = Override.UserID o) \/
  (cur <= at_ < Shift.EndAt s /\ Shift.UserID p = Shift.UserID s
    /\ forall o, o ∈ os -> covers o at_ = false).
Proof.
  intros Ho Hw. revert cur Ho. induction os as [|o os IH]; intros cur Ho Hs Hcur.
  { cbn [cut_shift]. unfold Before. destruct (Z.ltb_spec cur (Shift.EndAt s)).
    - intros ->%list_elem_of_singleton Hp. right. unfold in_shift in Hp; simpl in Hp.
      split; [lia|]. split; [done|]. intros ? ?%not_elem_of_nil. done.
    - intros ?%not_elem_of_nil. done. }
  rewrite cut_shift_cons. destruct Ho as (Hlt & Hlater & Ho).
  apply Forall_cons in Hcur as [Hco Hcur].
  set (oStart := Z.max from (Override.StartAt o)). set (oEnd := Z.min to (Override.EndAt o)).
  case_bool_decide as Hc.
  - rewrite elem_of_app, elem_of_cons. intros [Hp|[->|Hp]] Hin.
    + unfold Before in Hp. destruct (Z.ltb_spec cur oStart) in Hp; [|by apply not_elem_of_nil in Hp].
      apply list_elem_of_singleton in Hp as ->. unfold in_shift in Hin; simpl in *.
      right. split; [lia|]. split; [done|]. intros o' [->|Hin']%elem_of_cons.
      * apply not_true_is_false. rewrite covers_spec. lia.
      * eapply covers_later; [done|lia|done].
    + left. exists o. split; [by left|]. split; [|done].
      apply covers_spec. unfold in_shift in Hin; simpl in Hin. lia.
    + destruct (IH oEnd Ho ltac:(lia)) as [(o' & ? & ?)|(? & ? & Hn)]; [|done..| |].
      * rewrite Forall_forall in Hlater |- *. intros o' Hin' _. specialize (Hlater _ Hin').
        pose proof (ordered_nonempty _ _ Ho Hin'). lia.
      * left. exists o'. split; [by right|done].
      * right. split; [lia|]. split; [done|]. intros o' [->|Hin']%elem_of_cons; [|auto].
        apply not_true_is_false. rewrite covers_spec. lia.
  - intros Hp Hin. destruct (IH cur Ho Hs Hcur Hp Hin) as [(o' & ? & ?)|(? & ? & Hn)].
    + left. exists o'. split; [by right|done].
    + right. split; [lia|]. split; [done|]. intros o' [->|Hin']%elem_of_cons; [|auto].
      apply not_true_is_false. rewrite covers_spec. lia.
Qed.

(** The pieces cover the base shift. *)
Lemma cut_shift_cover os cur at_ :
  from <= at_ < to -> cur <= at_ < Shift.EndAt s -> Shift.StartAt s <= at_ ->
  exists p, p ∈ cut_shift s os from to cur /\ in_shift p at_.
Proof.
  intros Hw. revert cur. induction os as [|o os IH]; intros cur Hcur Hs.
  { cbn [cut_shift]. unfold Before. destruct (Z.ltb_spec cur (Shift.EndAt s)); [|lia].
    eexists. split; [left|]. unfold in_shift; simpl. lia. }
  rewrite cut_shift_cons.
  set (oStart := Z.max from (Override.StartAt o)). set (oEnd := Z.min to (Override.EndAt o)).
  case_bool_decide as Hc; [|by apply IH].
  destruct (Z.lt_ge_cases at_ oStart) as [H1|H1].
  { unfold Before. destruct (Z.ltb_spec cur oStart); [|lia].
    eexists. split; [left|]. unfold in_shift; simpl. lia. }
  destruct (Z.lt_ge_cases at_ oEnd) as [H2|H2].
  { eexists. split; [apply elem_of_app; right; left|]. unfold in_shift; simpl. lia. }
  destruct (IH oEnd ltac:(lia) Hs) as (p & Hp & ?).
  exists p. split; [|done]. apply elem_of_app. right. by right.
Qed.

End Cut.

Lemma elem_of_applyOverrides p base os from to :
  p ∈ applyOverrides base os from to ->
  (os = [] /\ p ∈ base) \/
  (exists s, s ∈ base /\ p ∈ cut_shift s os from to (Shift.StartAt s)).
Proof.
  destruct os as [|o os]; [by left|]. intros Hp. right.
  apply list_elem_of_In, in_flat_map in Hp as (s & Hs%list_elem_of_In & Hp%list_elem_of_In). eauto.
Qed.

Lemma applyOverrides_sound p base os from to at_ :
  ordered os -> from <= at_ < to ->
  p ∈ applyOverrides base os from to -> in_shift p at_ ->
  (exists o, o ∈ os /\ covers o at_ = true /\ Shift.UserID p = Override.UserID o) \/
  (exists s, s ∈ base /\ in_shift s at_ /\ Shift.UserID p = Shift.UserID s
    /\ forall o, o ∈ os -> covers o at_ = false).
Proof.
  intros Ho Hw [[-> Hp]|(s & Hs & Hp)]%elem_of_applyOverrides Hin.
  - right. exists p. split; [done|]. split; [done|]. split; [done|]. by intros ? ?%not_elem_of_nil.
  - destruct (cut_shift_sound s from to os (Shift.StartAt s) p at_ Ho Hw) as [?|(? & ? & ?)];
      [done| |done..|by left|right; by exists s].
    apply Forall_forall. lia.
Qed.

Lemma applyOverrides_cover base os from to at_ s :
  from <= at_ < to -> s ∈ base -> in_shift s at_ ->
  exists p, p ∈ applyOverrides base os from to /\ in_shift p at_.
Proof.
  intros Hw Hs Hin. destruct os as [|o os]; [by exists s|].
  destruct (cut_shift_cover s from to (o :: os) (Shift.StartAt s) at_) as (p & Hp & ?);
    [done|done|apply Hin|].
  exists p. split; [|done].
  apply list_elem_of_In, in_flat_map. exists s. by rewrite <- !list_elem_of_In.
Qed.

Lemma fromRotation_eq ll s at_ d :
  Schedule.Rotation s <> [] ->
  ParseISO8601Duration (Schedule.ShiftDuration s) = Ok d ->
  let epoch := epoch_of (location_of ll (Schedule.Timezone s)) (Schedule.StartDate s) in
  let start := shift_start epoch (elapsed_at epoch at_) d in
  fromRotation ll s at_ =
    Ok (rotation_user (Schedule.Rotation s) (elapsed_at epoch at_) d, start, Add start d).
Proof. intros Hr Hd. unfold fromRotation. rewrite Hd. by destruct (Schedule.Rotation s). Qed.

Lemma GenerateShifts_eq ll fuel s os from to d :
  Schedule.Rotation s <> [] ->
  ParseISO8601Duration (Schedule.ShiftDuration s) = Ok d ->
  GenerateShifts ll fuel s os from to =
  match base_shifts fuel (Schedule.Rotation s) d
          (epoch_of (location_of ll (Schedule.Timezone s)) (Schedule.StartDate s)) to from with
  | Some shifts => Some (Ok (applyOverrides shifts os from to))
  | None => None
  end.
Proof. intros Hr Hd. unfold GenerateShifts. rewrite Hd. by destruct (Schedule.Rotation s). Qed.

Lemma GenerateShifts_inv ll fuel s os from to l :
  GenerateShifts ll fuel s os from to = Some (Ok l) ->
  exists d base, Schedule.Rotation s <> []
    /\ ParseISO8601Duration (Schedule.ShiftDuration s) = Ok d
    /\ base_shifts fuel (Schedule.Rotation s) d
         (epoch_of (location_of ll (Schedule.Timezone s)) (Schedule.StartDate s)) to from = Some base
    /\ l = applyOverrides base os from to.
Proof.
  unfold GenerateShifts. destruct (Schedule.Rotation s) eqn:Er; [done|].
  destruct (ParseISO8601Duration _) as [d|] eqn:Ed; [|done].
  destruct (base_shifts _ _ _ _ _ _) as [base|] eqn:Eb; [|done].
  intros [= <-]. eauto 10.
Qed.

(** ** The rotation answers one question in two ways *)

Lemma shifts_agree ll fuel s os from to l at_ :
  GenerateShifts ll fuel s os from to = Some (Ok l) ->
  ordered os ->
  let epoch := epoch_of (location_of ll (Schedule.Timezone s)) (Schedule.StartDate s) in
  to - epoch <= maxInt64 -> from <= at_ < to ->
  (epoch <= at_ -> exists p, p ∈ l /\ in_shift p at_) /\
  (forall p, p ∈ l -> in_shift p at_ ->
     exists a b, OnCallAt ll s os at_ = Ok (Shift.UserID p, a, b)) /\
  (at_ < epoch -> (forall o, o ∈ os -> covers o at_ = false) ->
     (forall p, p ∈ l -> ~ in_shift p at_) /\
     exists u a b, head (Schedule.Rotation s) = Some u /\ OnCallAt ll s os at_ = Ok (u, a, b)).
Proof.
  intros (d & base & Hr & Hd & Hb & ->)%GenerateShifts_inv Ho epoch Hto Hw.
  pose proof (ParseISO8601Duration_range _ _ Hd) as Hd'. split_and!.
  - intros Hep. destruct (base_shifts_cover _ d epoch to Hd' fuel from base at_ Hto Hb) as (s0 & Hs & Hin);
      [lia..|]. by eapply applyOverrides_cover.
  - intros p Hp Hin.
    destruct (applyOverrides_sound _ _ _ _ _ _ Ho Hw Hp Hin)
      as [(o & Hoin & Hc & ->)|(s0 & Hs & Hs0 & -> & Hn)].
    + do 2 eexists. by apply OnCallAt_covered.
    + rewrite OnCallAt_uncovered by done. rewrite (fromRotation_eq ll s at_ d) by done.
      destruct (base_shifts_user _ d epoch to Hd' fuel from base s0 at_ Hto Hb Hs Hs0) as [_ ->].
      do 2 eexists. done.
  - intros Hep Hn. split.
    + intros p Hp Hin. destruct (applyOverrides_sound _ _ _ _ _ _ Ho Hw Hp Hin)
        as [(o & Hoin & Hc & _)|(s0 & Hs & Hs0 & _)]; [by rewrite (Hn o Hoin) in Hc|].
      destruct (base_shifts_user _ d epoch to Hd' fuel from base s0 at_ Hto Hb Hs Hs0) as [? _]. lia.
    + rewrite OnCallAt_uncovered by done. rewrite (fromRotation_eq ll s at_ d) by done.
      fold epoch. unfold rotation_user. rewrite elapsed_at_eq.
      replace (Z.max 0 (Z.min maxInt64 (at_ - epoch))) with 0 by lia.
      destruct (Schedule.Rotation s) as [|u us]; [done|]. exists u. do 2 eexists. split; [done|].
      unfold shift_number. by rewrite Z.quot_0_l, Z.rem_0_l by (simpl; lia).
Qed.

(** C14: the list of shifts and the on-call query agree.  For overrides that are
    sorted, disjoint and not empty, a window that ends less than 292 years after
    the start date, and any instant of it: every shift that contains the instant,
    override or not, names the user [OnCallAt] returns, and from the start date on
    there is one.  Before the start date, outside every override, no shift contains
    the instant, though [OnCallAt] names the first user of the rotation. *)
Theorem GenerateShifts_agrees_with_OnCallAt ll fuel s os from to l at_ :
  GenerateShifts ll fuel s os from to = Some (Ok l) ->
  ordered os ->
  let epoch := epoch_of (location_of ll (Schedule.Timezone s)) (Schedule.StartDate s) in
  to - epoch <= maxInt64 -> from <= at_ < to ->
  (epoch <= at_ -> exists p, p ∈ l /\ in_shift p at_) /\
  (forall p, p ∈ l -> in_shift p at_ ->
     exists a b, OnCallAt ll s os at_ = Ok (Shift.UserID p, a, b)) /\
  (at_ < epoch -> (forall o, o ∈ os -> covers o at_ = false) ->
     (forall p, p ∈ l -> ~ in_shift p at_) /\
     exists u a b, head (Schedule.Rotation s) = Some u /\ OnCallAt ll s os at_ = Ok (u, a, b)).
Proof. apply shifts_agree. Qed.

Definition demo_schedule (rotation : list string) (dur : string) : Schedule.t :=
  Schedule.mk "sched1" "t" "primary" "UTC" rotation dur (19723 * day_ns) 0 0.

Definition demo_day (n : Z) : Time := (19723 + n) * day_ns.

Definition demo_override (user : string) (a b : Z) : Override.t :=
  Override.mk "o1" "sched1" "t" user (demo_day a) (demo_day b) 0.

Definition no_tzdata : string -> option Location := fun _ => None.

Lemma GenerateShifts_agrees_with_OnCallAt_witness :
  let s := demo_schedule ["alice"; "bob"] "P7D" in
  let os := [demo_override "dave" 3 5] in
  exists l, GenerateShifts no_tzdata 10 s os (demo_day 0) (demo_day 14) = Some (Ok l) /\
  (exists p, p ∈ l /\ in_shift p (demo_day 4)) /\
  (forall p, p ∈ l -> in_shift p (demo_day 4) ->
     exists a b, OnCallAt no_tzdata s os (demo_day 4) = Ok (Shift.UserID p, a, b)) /\
  exists l, GenerateShifts no_tzdata 10 s os (demo_day (-2)) (demo_day 14) = Some (Ok l) /\
  (forall p, p ∈ l -> ~ in_shift p (demo_day (-1))) /\
  exists u a b, head (Schedule.Rotation s) = Some u /\ OnCallAt no_tzdata s os (demo_day (-1)) = Ok (u, a, b).
Proof.
  intros s os. assert (ordered os) as Ho.
  { simpl. split; [vm_compute; reflexivity|]. split; [constructor|done]. }
  eexists. split; [vm_compute; reflexivity|].
  destruct (GenerateShifts_agrees_with_OnCallAt no_tzdata 10 s os (demo_day 0) (demo_day 14) _ (demo_day 4)
    ltac:(vm_compute; reflexivity) Ho) as (H1 & H2 & _); [by vm_compute|by vm_compute|].
  split; [apply H1; by vm_compute|]. split; [exact H2|].
  eexists. split; [vm_compute; reflexivity|].
  destruct (GenerateShifts_agrees_with_OnCallAt no_tzdata 10 s os (demo_day (-2)) (demo_day 14) _ (demo_day (-1))
    ltac:(vm_compute; reflexivity) Ho) as (_ & _ & H3); [by vm_compute|by vm_compute|].
  apply H3; [by vm_compute|]. by intros o ->%list_elem_of_singleton.
Defined.

(** ** Termination *)

(** C32: GenerateShifts returns whenever the window ends before the horizon of
    the schedule (about 292 years after the start date): one iteration per
    shift that remains, and two, are enough. *)
Theorem GenerateShifts_returns ll s os from to d :
  Schedule.Rotation s <> [] ->
  ParseISO8601Duration (Schedule.ShiftDuration s) = Ok d ->
  let epoch := epoch_of (location_of ll (Schedule.Timezone s)) (Schedule.StartDate s) in
  to <= horizon epoch d ->
  forall fuel, (Z.to_nat (remaining epoch d to from) + 1 < fuel)%nat ->
  exists l, GenerateShifts ll fuel s os from to = Some (Ok l).
Proof.
  intros Hr Hd epoch Hto fuel Hf.
  pose proof (ParseISO8601Duration_range _ _ Hd) as Hd'.
  destruct (base_shifts_total (Schedule.Rotation s) d epoch to Hd' fuel from Hto Hf) as [base Hb].
  rewrite (GenerateShifts_eq _ _ _ _ _ _ d) by done. fold epoch. rewrite Hb. by eexists.
Qed.

Lemma GenerateShifts_returns_witness :
  let s := demo_schedule ["alice"; "bob"] "P7D" in
  exists l, GenerateShifts no_tzdata 5 s [] (demo_day 0) (demo_day 14) = Some (Ok l).
Proof.
  intros s. apply (GenerateShifts_returns no_tzdata s [] (demo_day 0) (demo_day 14) (7 * day_ns)).
  - discriminate.
  - vm_compute. reflexivity.
  - vm_compute. discriminate.
  - vm_compute. repeat constructor.
Defined.

(** The listing has no bound on the window it is asked for.  A window that
    ends past the horizon (the elapsed time saturates there) keeps the loop at
    the same shift for ever: no amount of fuel produces the list. *)
Lemma GenerateShifts_diverges ll s os from to d :
  Schedule.Rotation s <> [] ->
  ParseISO8601Duration (Schedule.ShiftDuration s) = Ok d ->
  let epoch := epoch_of (location_of ll (Schedule.Timezone s)) (Schedule.StartDate s) in
  horizon epoch d < to -> from < to ->
  forall fuel, GenerateShifts ll fuel s os from to = None.
Proof.
  intros Hr Hd epoch Hto Hft fuel.
  rewrite (GenerateShifts_eq _ _ _ _ _ _ d) by done. fold epoch.
  by rewrite (base_shifts_diverges _ d epoch to (ParseISO8601Duration_range _ _ Hd)).
Qed.

Lemma GenerateShifts_diverges_witness :
  horizon (demo_day 0) (7 * day_ns) < demo_day 200000 /\
  forall fuel, GenerateShifts no_tzdata fuel (demo_schedule ["alice"] "P7D") []
                 (demo_day 0) (demo_day 200000) = None.
Proof.
  split; [vm_compute; reflexivity|].
  apply (GenerateShifts_diverges no_tzdata _ [] (demo_day 0) (demo_day 200000) (7 * day_ns)).
  - discriminate.
  - vm_compute. reflexivity.
  - vm_compute. reflexivity.
  - vm_compute. reflexivity.
Defined.

(** ** The answer of the rotation *)

(** From the start date on, and before elapsed times saturate, the rotation
    answers with the window of one shift length that contains the instant, a
    whole number [k] of shifts after the start of the rotation, and the user is
    the [k]-th of the rotation taken cyclically. *)
Lemma fromRotation_window ll s at_ d :
  Schedule.Rotation s <> [] ->
  ParseISO8601Duration (Schedule.ShiftDuration s) = Ok d ->
  let epoch := epoch_of (location_of ll (Schedule.Timezone s)) (Schedule.StartDate s) in
  epoch <= at_ -> at_ - epoch <= maxInt64 ->
  exists user start k, fromRotation ll s at_ = Ok (user, start, start + d)
    /\ start <= at_ < start + d /\ start = epoch + k * d
    /\ Schedule.Rotation s !! Z.to_nat (k mod Z.of_nat (length (Schedule.Rotation s))) = Some user.
Proof.
  intros Hr Hd epoch Hep Hsat. pose proof (ParseISO8601Duration_range _ _ Hd) as Hd'.
  rewrite (fromRotation_eq ll s at_ d Hr Hd). fold epoch.
  pose proof (elapsed_at_range epoch at_) as He.
  pose proof (shift_bounds d Hd' (elapsed_at epoch at_)) as Hs.
  pose proof (elapsed_at_eq epoch at_) as Hee.
  pose proof (Z.div_pos (elapsed_at epoch at_) d ltac:(lia) ltac:(lia)) as Hq.
  rewrite (shift_start_eq epoch d Hd') by done.
  set (k := elapsed_at epoch at_ / d) in *. set (n := Z.of_nat (length (Schedule.Rotation s))).
  assert (0 < n) by (unfold n; destruct (Schedule.Rotation s); simpl; [done|lia]).
  destruct (lookup_lt_is_Some_2 (Schedule.Rotation s) (Z.to_nat (k mod n))) as [user Hu].
  { pose proof (Z.mod_pos_bound k n). unfold n in *. lia. }
  exists user, (epoch + k * d), k. split; [|split; [lia|done]].
  unfold rotation_user, shift_number. rewrite Z.quot_div_nonneg by lia. fold k n.
  rewrite Z.rem_mod_nonneg by lia. by rewrite Hu.
Qed.

Lemma fromRotation_window_witness :
  let s := demo_schedule ["alice"; "bob"] "P7D" in
  exists user start k, fromRotation no_tzdata s (demo_day 10) = Ok (user, start, start + 7 * day_ns)
    /\ start <= demo_day 10 < start + 7 * day_ns /\ start = demo_day 0 + k * (7 * day_ns)
    /\ ["alice"; "bob"] !! Z.to_nat (k mod 2) = Some user.
Proof.
  intros s. apply (fromRotation_window no_tzdata s (demo_day 10) (7 * day_ns)).
  - discriminate.
  - vm_compute. reflexivity.
  - vm_compute. discriminate.
  - vm_compute. discriminate.
Defined.

(** Without overrides the list is a partition: shifts follow each other
    without gap or overlap, none is empty, and the last ends at [to]. *)
Lemma GenerateShifts_partition ll fuel s from to l :
  GenerateShifts ll fuel s [] from to = Some (Ok l) ->
  let epoch := epoch_of (location_of ll (Schedule.Timezone s)) (Schedule.StartDate s) in
  epoch <= from -> to - epoch <= maxInt64 -> contiguous l to.
Proof.
  intros (d & base & Hr & Hd & Hb & ->)%GenerateShifts_inv epoch Hfrom Hto.
  exact (base_shifts_contiguous _ d epoch to (ParseISO8601Duration_range _ _ Hd) fuel from base
           Hfrom Hto Hb).
Qed.

Lemma GenerateShifts_partition_witness :
  exists l, GenerateShifts no_tzdata 10 (demo_schedule ["alice"; "bob"] "P1D") []
              (demo_day 0) (demo_day 3) = Some (Ok l) /\ length l = 3%nat
    /\ contiguous l (demo_day 3).
Proof.
  eexists. split; [vm_compute; reflexivity|]. split; [reflexivity|].
  apply (GenerateShifts_partition no_tzdata 10 (demo_schedule ["alice"; "bob"] "P1D")
           (demo_day 0) (demo_day 3)).
  - vm_compute. reflexivity.
  - vm_compute. discriminate.
  - vm_compute. discriminate.
Defined.

(** ** Printing and parsing of durations *)

Definition print_duration (w d h m s : N) : string :=
  "P" +:+ (pretty w +:+ String "W" (pretty d +:+ String "D" (String "T"
    (pretty h +:+ String "H" (pretty m +:+ String "M" (pretty s +:+ "S")))))).

Definition duration_value (w d h m s : N) : Z :=
  Z.of_N w * (7 * day_ns) + Z.of_N d * day_ns + Z.of_N h * Hour + Z.of_N m * Minute
  + Z.of_N s * Second.

Lemma digit_value_char c : (c < 10)%N ->
  is_digit (pretty_N_char c) = true /\
  Z.of_nat (nat_of_ascii (pretty_N_char c)) - 48 = Z.of_N c.
Proof.
  rewrite <- (N2Nat.id c). generalize (N.to_nat c) as n. intros n Hn.
  do 10 (destruct n as [|n]; [by vm_compute|]). lia.
Qed.

Fixpoint all_digits (s : string) : bool :=
  match s with
  | EmptyString => true
  | String c s => is_digit c && all_digits s
  end.

Lemma pretty_N_go_digits x s : all_digits s = true -> all_digits (pretty_N_go x s) = true.
Proof.
  revert s. induction (N.lt_wf_0 x) as [x _ IH]. intros s Hs.
  destruct (decide (x = 0)%N) as [->|]; [by rewrite pretty_N_go_0|].
  rewrite pretty_N_go_step by lia. apply IH; [apply N.div_lt; lia|].
  cbn [all_digits]. by rewrite Hs, (proj1 (digit_value_char _ (N.mod_lt x 10 ltac:(lia)))).
Qed.

Lemma pretty_N_go_value x s : digits_value 0 (pretty_N_go x s) = digits_value (Z.of_N x) s.
Proof.
  revert s. induction (N.lt_wf_0 x) as [x _ IH]. intros s.
  destruct (decide (x = 0)%N) as [->|]; [by rewrite pretty_N_go_0|].
  rewrite pretty_N_go_step by lia. rewrite IH by (apply N.div_lt; lia). cbn [digits_value].
  rewrite (proj2 (digit_value_char _ (N.mod_lt x 10 ltac:(lia)))). f_equal.
  pose proof (N.div_mod x 10 ltac:(lia)). lia.
Qed.

Lemma pretty_digits (n : N) : all_digits (pretty n) = true.
Proof.
  unfold pretty, pretty_N. destruct (decide (n = 0)%N); [done|]. by apply pretty_N_go_digits.
Qed.

Lemma pretty_value (n : N) : digits_value 0 (pretty n) = Z.of_N n.
Proof.
  unfold pretty, pretty_N. destruct (decide (n = 0)%N) as [->|]; [done|].
  by rewrite pretty_N_go_value.
Qed.

Lemma pretty_nonempty (n : N) : exists c s, pretty n = String c s.
Proof.
  destruct (pretty n) as [|c s] eqn:E; [|eauto]. exfalso.
  pose proof (pretty_value n) as Hv. rewrite E in Hv. simpl in Hv.
  assert (n = 0)%N as -> by lia. done.
Qed.

Lemma digit_prefix_app s u r :
  all_digits s = true -> is_digit u = false ->
  digit_prefix (s +:+ String u r) = (s, String u r).
Proof.
  intros Hs Hu. induction s as [|c s IH]; simpl; [by rewrite Hu|].
  simpl in Hs. apply andb_prop in Hs as [-> Hs]. by rewrite IH.
Qed.

Lemma digit_not_T c : is_digit c = true -> Ascii.eqb c "T" = false.
Proof. intros Hc. apply Ascii.eqb_neq. by intros ->. Qed.

(** One component of a printed duration. *)
Lemma duration_loop_component fuel (n : N) u r inTime total v :
  is_digit u = false -> Z.of_N n <= maxInt64 -> duration_unit inTime u (Z.of_N n) = Some v ->
  duration_loop (S fuel) (pretty n +:+ String u r) inTime total
  = duration_loop fuel r inTime (int64 (total + v)).
Proof.
  intros Hu Hn Hv. pose proof (pretty_digits n) as Hd. pose proof (pretty_value n) as Hval.
  pose proof (digit_prefix_app (pretty n) u r Hd Hu) as Hp.
  destruct (pretty_nonempty n) as (c & s & E). rewrite E in *.
  cbn [duration_loop]. change (String c s +:+ String u r) with (String c (s +:+ String u r)) in *.
  cbn [all_digits] in Hd. apply andb_prop in Hd as [Hc _].
  rewrite (digit_not_T c Hc), Hp. unfold Atoi_digits. rewrite Hval.
  destruct (Z.leb_spec (Z.of_N n) maxInt64); [|lia]. by rewrite Hv.
Qed.

Lemma duration_loop_T fuel r inTime total :
  duration_loop (S fuel) (String "T" r) inTime total = duration_loop fuel r true total.
Proof. done. Qed.

Lemma str_length_app (s t : string) :
  String.length (s +:+ t) = (String.length s + String.length t)%nat.
Proof. induction s as [|c s IH]; simpl; [done|]. by rewrite IH. Qed.

(** The units never overflow when their value fits. *)
Lemma duration_unit_exact inTime u n k :
  (inTime, u, k) ∈ [(false, "W"%char, 7 * day_ns); (false, "D"%char, day_ns);
                    (true, "H"%char, Hour); (true, "M"%char, Minute); (true, "S"%char, Second)] ->
  Z.of_N n * k <= maxInt64 -> duration_unit inTime u (Z.of_N n) = Some (Z.of_N n * k).
Proof.
  rewrite !elem_of_cons, elem_of_nil.
  intros [[= -> -> ->]|[[= -> -> ->]|[[= -> -> ->]|[[= -> -> ->]|[[= -> -> ->]|[]]]]]] Hn;
    unfold duration_unit, day_ns, Hour, Minute, Second in *;
    unfold maxInt64 in Hn; no_wrap; f_equal; lia.
Qed.

(** C33: parsing inverts printing: a duration printed with any numbers of weeks,
    days, hours, minutes and seconds, in that order, is parsed to its exact
    value when that value is positive and fits in a [time.Duration]. *)
Theorem ParseISO8601Duration_print (w d h m s : N) :
  0 < duration_value w d h m s <= maxInt64 ->
  ParseISO8601Duration (print_duration w d h m s) = Ok (duration_value w d h m s).
Proof.
  unfold duration_value. intros Hv. unfold print_duration.
  set (rest := pretty w +:+ _). change ("P" +:+ rest) with (String "P" rest).
  unfold ParseISO8601Duration. rewrite Ascii.eqb_refl. cbn [negb].
  assert (exists k, S (String.length rest) = 7 + k)%nat as [k ->].
  { exists (S (String.length rest) - 7)%nat. unfold rest. repeat (rewrite str_length_app; cbn [String.length]). lia. }
  assert (0 < Second /\ 0 < Minute /\ 0 < Hour /\ 0 < day_ns) as (?&?&?&?) by done.
  assert (minInt64 < 0) by done.
  assert (0 <= Z.of_N w * (7 * day_ns) /\ 0 <= Z.of_N d * day_ns /\ 0 <= Z.of_N h * Hour
          /\ 0 <= Z.of_N m * Minute /\ 0 <= Z.of_N s * Second) as (?&?&?&?&?)
    by (repeat split; apply Z.mul_nonneg_nonneg; lia).
  unfold rest. cbn [Nat.add].
  rewrite (duration_loop_component _ w "W" _ false 0 (Z.of_N w * (7 * day_ns)));
    [|done|nia|apply duration_unit_exact; [rewrite !elem_of_cons; tauto|lia]].
  rewrite (duration_loop_component _ d "D" _ false _ (Z.of_N d * day_ns));
    [|done|nia|apply duration_unit_exact; [rewrite !elem_of_cons; tauto|lia]].
  rewrite duration_loop_T.
  rewrite (duration_loop_component _ h "H" _ true _ (Z.of_N h * Hour));
    [|done|nia|apply duration_unit_exact; [rewrite !elem_of_cons; tauto|lia]].
  rewrite (duration_loop_component _ m "M" _ true _ (Z.of_N m * Minute));
    [|done|nia|apply duration_unit_exact; [rewrite !elem_of_cons; tauto|lia]].
  change "S" with (String "S" "") at 1.
  rewrite (duration_loop_component _ s "S" _ true _ (Z.of_N s * Second));
    [|done|nia|apply duration_unit_exact; [rewrite !elem_of_cons; tauto|lia]].
  no_wrap. cbn [duration_loop].
  destruct (Z.leb_spec (0 + Z.of_N w * (7 * day_ns) + Z.of_N d * day_ns + Z.of_N h * Hour
    + Z.of_N m * Minute + Z.of_N s * Second) 0); [lia|]. do 2 f_equal.
Qed.

Lemma ParseISO8601Duration_print_witness :
  print_duration 1 2 12 30 5 = "P1W2DT12H30M5S" /\
  ParseISO8601Duration (print_duration 1 2 12 30 5) = Ok (duration_value 1 2 12 30 5).
Proof.
  split; [vm_compute; reflexivity|].
  apply (ParseISO8601Duration_print 1 2 12 30 5). vm_compute. split; [reflexivity|discriminate].
Defined.
