(* ===== verification/SchedulingStore.v ===== *)
(** * Scheduling: the store

    services/scheduling/internal/store/store.go on the tables of migrations/,
    and internal/tokenindex/index.go.  A table is the list of its rows in
    insertion order.  A time bound to a TIMESTAMPTZ parameter loses what is
    below a microsecond, a DATE keeps the day.  The generated ids of users are
    left out: nothing reads them. *)

From S2P Require Import Prelude Effects Sha256 Json Interleaving Redis SchedulingDomain.
Open Scope go_scope.

Module NotificationConfig.
Record t := mk {
  TenantID : string;
  MattermostEnabled : bool;
  MattermostWebhookURL : string;
  MattermostChannel : string;
  SMTPFrom : string;
  EmailEnabled : bool;
  EmailReplyTo : string;
  EmailSubjectPrefix : string
}.
End NotificationConfig.

Module TokenHashEntry.
Record t := mk {
  Hash : string;
  TenantID : string
}.
End TokenHashEntry.

(** Rows of scheduling.users and scheduling.tenant_webhook_tokens. *)
Record user := User {
  user_sub : string;
  user_username : string;
  user_name : string;
  user_email : string;
  user_last_seen : Time
}.

Record token_row := TokenRow { token : WebhookToken.t; token_hash : string }.

Record db := Db {
  schedules : list Schedule.t;
  overrides : list Override.t;
  tenants : list Tenant.t;
  tokens : list token_row;
  users : list user;
  configs : list NotificationConfig.t;
  index : redis
}.

Definition set_schedules l (d : db) := Db l (overrides d) (tenants d) (tokens d) (users d) (configs d) (index d).
Definition set_overrides l (d : db) := Db (schedules d) l (tenants d) (tokens d) (users d) (configs d) (index d).
Definition set_tenants l (d : db) := Db (schedules d) (overrides d) l (tokens d) (users d) (configs d) (index d).
Definition set_tokens l (d : db) := Db (schedules d) (overrides d) (tenants d) l (users d) (configs d) (index d).
Definition set_users l (d : db) := Db (schedules d) (overrides d) (tenants d) (tokens d) l (configs d) (index d).
Definition set_configs l (d : db) := Db (schedules d) (overrides d) (tenants d) (tokens d) (users d) l (index d).

#[export] Instance db_Redis : Redis db :=
  {| rds := index;
     set_rds r d := Db (schedules d) (overrides d) (tenants d) (tokens d) (users d) (configs d) r;
     rds_set_rds _ _ := eq_refl;
     set_rds_rds d := match d with Db _ _ _ _ _ _ _ => eq_refl end;
     set_rds_set_rds _ _ _ := eq_refl |}.

Local Abbreviation Prog A := (M db A).

(** A TIMESTAMPTZ parameter, and a DATE parameter: there is no year 0. *)
Definition pg_time (t : Time) : Time := t / 1000 * 1000.

Definition pg_date (t : Time) : res Time :=
  if t <? -62135596800 * Second then Err (ErrNew "date/time field value out of range") else Ok (t / day_ns * day_ns).

Section Store.
Context `{Platform}.

(** ** Schedules *)

Definition same_schedule (tenantID id : string) (s : Schedule.t) : bool :=
  String.eqb (Schedule.ID s) id && String.eqb (Schedule.TenantID s) tenantID.

(** The struct of the caller with the generated columns; its start date keeps the
    value of the caller, the row has the day. *)
Definition CreateSchedule (sched : Schedule.t) : Prog (res Schedule.t) :=
  sql Pool [] (fun now uuid d =>
    match pg_date (Schedule.StartDate sched) with
    | Err e => Err e
    | Ok day =>
        if existsb (fun s => String.eqb (Schedule.ID s) uuid) (schedules d) then Err unique_violation
        else
          let row start := Schedule.mk uuid (Schedule.TenantID sched) (Schedule.Name sched) (Schedule.Timezone sched)
                       (Schedule.Rotation sched) (Schedule.ShiftDuration sched) start now now in
          Ok (row (Schedule.StartDate sched), set_schedules (schedules d ++ [row day]) d)
    end).

Definition GetSchedule (tenantID id : string) : Prog (res Schedule.t) :=
  sql Pool [id] (fun _ _ d =>
    match find (same_schedule tenantID id) (schedules d) with
    | Some s => Ok (s, d)
    | None => Err ErrNotFound
    end).

Definition by_schedule_time (a b : Schedule.t) : Prop := Schedule.CreatedAt a <= Schedule.CreatedAt b.

#[export] Instance by_schedule_time_dec : RelDecision by_schedule_time.
Proof. intros a b. apply Z_le_dec. Defined.

Definition ListSchedules (tenantID : string) : Prog (res (list Schedule.t)) :=
  sql Pool [] (fun _ _ d =>
    Ok (merge_sort by_schedule_time (List.filter (fun s => String.eqb (Schedule.TenantID s) tenantID) (schedules d)), d)).

Definition UpdateSchedule (sched : Schedule.t) : Prog (res unit) :=
  let? n := sql Pool [Schedule.ID sched] (fun now _ d =>
    match pg_date (Schedule.StartDate sched) with
    | Err e => Err e
    | Ok day =>
        let hit := same_schedule (Schedule.TenantID sched) (Schedule.ID sched) in
        Ok (Z.of_nat (length (List.filter hit (schedules d))),
            set_schedules (map (fun s =>
              if hit s then Schedule.mk (Schedule.ID s) (Schedule.TenantID s) (Schedule.Name sched)
                              (Schedule.Timezone sched) (Schedule.Rotation sched) (Schedule.ShiftDuration sched) day
                              (Schedule.CreatedAt s) now
              else s) (schedules d)) d)
    end) in
  Ret (if n =? 0 then Err ErrNotFound else Ok tt).

(** The overrides of a deleted schedule go with it. *)
Definition DeleteSchedule (tenantID id : string) : Prog (res unit) :=
  let? n := sql Pool [id] (fun _ _ d =>
    let hit := same_schedule tenantID id in
    let gone o := existsb (fun s => hit s && String.eqb (Schedule.ID s) (Override.ScheduleID o)) (schedules d) in
    Ok (Z.of_nat (length (List.filter hit (schedules d))),
        set_schedules (List.filter (fun s => negb (hit s)) (schedules d))
          (set_overrides (List.filter (fun o => negb (gone o)) (overrides d)) d))) in
  Ret (if n =? 0 then Err ErrNotFound else Ok tt).

(** ** Overrides *)

Definition by_start (a b : Override.t) : Prop := Override.StartAt a <= Override.StartAt b.

#[export] Instance by_start_dec : RelDecision by_start.
Proof. intros a b. apply Z_le_dec. Defined.

Definition override_of (tenantID scheduleID : string) (o : Override.t) : bool :=
  String.eqb (Override.ScheduleID o) scheduleID && String.eqb (Override.TenantID o) tenantID.

Definition ListOverrides (tenantID scheduleID : string) : Prog (res (list Override.t)) :=
  sql Pool [scheduleID] (fun _ _ d =>
    Ok (merge_sort by_start (List.filter (override_of tenantID scheduleID) (overrides d)), d)).

Definition in_window (from to : Time) (o : Override.t) : bool :=
  (Override.StartAt o <? pg_time to) && (pg_time from <? Override.EndAt o).

Definition ListOverridesInWindow (tenantID scheduleID : string) (from to : Time) : Prog (res (list Override.t)) :=
  sql Pool [scheduleID] (fun _ _ d =>
    Ok (merge_sort by_start (List.filter (fun o => override_of tenantID scheduleID o && in_window from to o)
                               (overrides d)), d)).

(** The first override of the schedule that overlaps, of any tenant. *)
Definition first_conflict (o : Override.t) (d : db) : option Override.t :=
  head (merge_sort by_start (List.filter (fun r =>
    String.eqb (Override.ScheduleID r) (Override.ScheduleID o) && in_window (Override.StartAt o) (Override.EndAt o) r)
    (overrides d))).

Definition insert_override (o : Override.t) : Prog (res Override.t) :=
  sql Pool [Override.ScheduleID o] (fun now uuid d =>
    if existsb (fun r => String.eqb (Override.ID r) uuid) (overrides d) then Err unique_violation
    else if negb (pg_time (Override.StartAt o) <? pg_time (Override.EndAt o)) then Err check_violation
    else if negb (existsb (fun s => String.eqb (Schedule.ID s) (Override.ScheduleID o)) (schedules d)) then Err fk_violation
    else
      let row start end_ := Override.mk uuid (Override.ScheduleID o) (Override.TenantID o) (Override.UserID o) start end_ now in
      Ok (row (Override.StartAt o) (Override.EndAt o),
          set_overrides (overrides d ++ [row (pg_time (Override.StartAt o)) (pg_time (Override.EndAt o))]) d)).

Definition CreateOverride (o : Override.t) : Prog (res Override.t) :=
  let? conflict := sql Pool [Override.ScheduleID o] (fun _ _ d => Ok (first_conflict o d, d)) in
  match conflict with
  | Some c => Ret (Err (OverrideConflictError (Override.UserID c) (Override.StartAt c) (Override.EndAt c)))
  | None => insert_override o
  end.

Definition DeleteOverride (tenantID id : string) : Prog (res unit) :=
  let? n := sql Pool [id] (fun _ _ d =>
    let hit o := String.eqb (Override.ID o) id && String.eqb (Override.TenantID o) tenantID in
    Ok (Z.of_nat (length (List.filter hit (overrides d))),
        set_overrides (List.filter (fun o => negb (hit o)) (overrides d)) d)) in
  Ret (if n =? 0 then Err ErrNotFound else Ok tt).

(** ** Tenants *)

Definition isUniqueViolation (e : err) : bool :=
  let msg := error_text e in Contains msg "duplicate key" || Contains msg "unique constraint".

Definition CreateTenant (t : Tenant.t) : Prog (res Tenant.t) :=
  let! r := sql Pool [] (fun now uuid d =>
    if existsb (fun o => String.eqb (Tenant.ID o) uuid || String.eqb (Tenant.Slug o) (Tenant.Slug t)) (tenants d)
    then Err unique_violation
    else
      let row := Tenant.mk uuid (Tenant.Slug t) (Tenant.Name t) now in
      Ok (row, set_tenants (tenants d ++ [row]) d)) in
  Ret (match r with
       | Err e => if isUniqueViolation e then Err ErrConflict else Err e
       | Ok t => Ok t
       end).

Definition has_slug (slug : string) (t : Tenant.t) : bool := String.eqb (Tenant.Slug t) slug.

Definition GetTenantBySlug (slug : string) : Prog (res Tenant.t) :=
  sql Pool [] (fun _ _ d =>
    match find (has_slug slug) (tenants d) with Some t => Ok (t, d) | None => Err ErrNotFound end).

Definition by_tenant_time (a b : Tenant.t) : Prop := Tenant.CreatedAt a <= Tenant.CreatedAt b.

#[export] Instance by_tenant_time_dec : RelDecision by_tenant_time.
Proof. intros a b. apply Z_le_dec. Defined.

Definition ListTenants : Prog (res (list Tenant.t)) :=
  sql Pool [] (fun _ _ d => Ok (merge_sort by_tenant_time (tenants d), d)).

Definition UpdateTenant (slug name : string) : Prog (res Tenant.t) :=
  sql Pool [] (fun _ _ d =>
    let upd t := Tenant.mk (Tenant.ID t) (Tenant.Slug t) name (Tenant.CreatedAt t) in
    match find (has_slug slug) (tenants d) with
    | Some t => Ok (upd t, set_tenants (map (fun t => if has_slug slug t then upd t else t) (tenants d)) d)
    | None => Err ErrNotFound
    end).

Definition DeleteTenant (slug : string) : Prog (res unit) :=
  let? n := sql Pool [] (fun _ _ d =>
    Ok (Z.of_nat (length (List.filter (has_slug slug) (tenants d))),
        set_tenants (List.filter (fun t => negb (has_slug slug t)) (tenants d)) d)) in
  Ret (if n =? 0 then Err ErrNotFound else Ok tt).

(** ** Webhook tokens *)

Definition CreateWebhookToken (tenantID source tokenHash : string) : Prog (res WebhookToken.t) :=
  sql Pool [] (fun now uuid d =>
    if existsb (fun r => String.eqb (WebhookToken.ID (token r)) uuid || String.eqb (token_hash r) tokenHash) (tokens d)
    then Err unique_violation
    else
      let row := WebhookToken.mk uuid tenantID source now in
      Ok (row, set_tokens (tokens d ++ [TokenRow row tokenHash]) d)).

Definition by_token_time (a b : WebhookToken.t) : Prop := WebhookToken.CreatedAt a <= WebhookToken.CreatedAt b.

#[export] Instance by_token_time_dec : RelDecision by_token_time.
Proof. intros a b. apply Z_le_dec. Defined.

Definition ListWebhookTokens (tenantID : string) : Prog (res (list WebhookToken.t)) :=
  sql Pool [] (fun _ _ d =>
    Ok (merge_sort by_token_time (List.filter (fun t => String.eqb (WebhookToken.TenantID t) tenantID)
                                    (map token (tokens d))), d)).

Definition ListWebhookTokenHashes : Prog (res (list TokenHashEntry.t)) :=
  sql Pool [] (fun _ _ d =>
    Ok (map (fun r => TokenHashEntry.mk (token_hash r) (WebhookToken.TenantID (token r))) (tokens d), d)).

Definition same_token (tenantID id : string) (r : token_row) : bool :=
  String.eqb (WebhookToken.ID (token r)) id && String.eqb (WebhookToken.TenantID (token r)) tenantID.

Definition DeleteWebhookToken (tenantID id : string) : Prog (res string) :=
  sql Pool [id] (fun _ _ d =>
    match find (same_token tenantID id) (tokens d) with
    | Some r => Ok (token_hash r, set_tokens (List.filter (fun r => negb (same_token tenantID id r)) (tokens d)) d)
    | None => Err ErrNotFound
    end).

(** ** Users *)

Definition UpsertUser (sub username name email : string) : Prog (res unit) :=
  sql Pool [] (fun now _ d =>
    let row := User sub username name email now in
    let hit u := String.eqb (user_sub u) sub in
    Ok (tt, set_users (if existsb hit (users d) then map (fun u => if hit u then row else u) (users d)
                       else users d ++ [row]) d)).

(** The pair of results: an unknown user is shown by its sub. *)
Definition GetUserBySub (sub : string) : Prog (string * res unit) :=
  let! r := sql Pool [] (fun _ _ d => Ok (option_map user_username (find (fun u => String.eqb (user_sub u) sub) (users d)), d)) in
  Ret (match r with
       | Ok (Some username) => (username, Ok tt)
       | Ok None => (sub, Ok tt)
       | Err e => (EmptyString, Err e)
       end).

(** ** Notification configuration *)

Definition of_tenant (tenantID : string) (c : NotificationConfig.t) : bool :=
  String.eqb (NotificationConfig.TenantID c) tenantID.

Definition GetNotificationConfig (tenantID : string) : Prog (res NotificationConfig.t) :=
  sql Pool [] (fun _ _ d =>
    match find (of_tenant tenantID) (configs d) with
    | Some c => Ok (c, d)
    | None => Err (Wrap "notification config" ErrNotFound)
    end).

Definition UpsertNotificationConfig (c : NotificationConfig.t) : Prog (res unit) :=
  sql Pool [] (fun _ _ d =>
    let hit := of_tenant (NotificationConfig.TenantID c) in
    Ok (tt, set_configs (if existsb hit (configs d) then map (fun o => if hit o then c else o) (configs d)
                         else configs d ++ [c]) d)).

(** ** tokenindex/index.go *)

Definition keyPrefix : string := "oncall:tokens:".

Definition index_Set (hash tenantID : string) : Prog (res unit) := HSet (keyPrefix +:+ hash) "tenant_id" tenantID.

Definition SetMany (entries : list TokenHashEntry.t) : Prog (res unit) :=
  match entries with
  | [] => Ret (Ok tt)
  | _ =>
      let! rs := pipeline (map (fun e => HSet (keyPrefix +:+ TokenHashEntry.Hash e) "tenant_id"
                                           (TokenHashEntry.TenantID e)) entries) in
      Ret (match first_error rs with Ok _ => Ok tt | Err e => Err (Wrap "tokenindex: setmany" e) end)
  end.

Definition index_Del (hash : string) : Prog (res unit) :=
  let? _ := Del (keyPrefix +:+ hash) wrap "tokenindex: del" in
  Ret (Ok tt).

(** The rehydration of the index before the service listens (cmd/server/main.go):
    every failure only leaves a warning. *)
Definition rehydrate : Prog unit :=
  let! hashes := ListWebhookTokenHashes in
  match hashes with
  | Err _ => Ret tt
  | Ok hashes => let! _ := SetMany hashes in Ret tt
  end.

End Store.
