(* ===== verification/Keycloak.v ===== *)
(** * Keycloak Admin client

    services/scheduling/internal/keycloak/client.go.  A request is answered with
    a status and a body ([None]: not JSON), or fails in transport. *)

From S2P Require Import Prelude Effects Json Http SchedulingDomain.
Open Scope go_scope.

(** The method, the URL and the Authorization header decide the answer. *)
Class Keycloak := {
  kc_reply : nat -> string -> string -> string -> option (Z * option json)
}.

Module kcGroup.
Record t := mk { ID : string; Name : string; Path : string }.

Definition zero : t := mk "" "" "".

Definition json_fields : fields t := [
  field "id" ID (fun v a => mk v (Name a) (Path a)) dec_string;
  field "name" Name (fun v a => mk (ID a) v (Path a)) dec_string;
  field "path" Path (fun v a => mk (ID a) (Name a) v) dec_string].
End kcGroup.

Module kcUser.
Record t := mk { ID : string; PreferredUsername : string }.

Definition zero : t := mk "" "".

Definition json_fields : fields t := [
  field "id" ID (fun v a => mk v (PreferredUsername a)) dec_string;
  field "username" PreferredUsername (fun v a => mk (ID a) v) dec_string].
End kcUser.

(** [url.QueryEscape]: letters, digits and [-_.~] stay, a space is [+], the other
    bytes are written in hexadecimal. *)
Definition unreserved (c : ascii) : bool :=
  let n := Z.of_nat (nat_of_ascii c) in
  ((48 <=? n) && (n <=? 57)) || ((65 <=? n) && (n <=? 90)) || ((97 <=? n) && (n <=? 122))
  || (n =? 45) || (n =? 95) || (n =? 46) || (n =? 126).

Definition upper_hex (n : Z) : ascii :=
  ascii_of_nat (Z.to_nat (if n <? 10 then 48 + n else 55 + n)).

Fixpoint QueryEscape (s : string) : string :=
  match s with
  | EmptyString => EmptyString
  | String c s =>
      if unreserved c then String c (QueryEscape s)
      else if Ascii.eqb c " " then String "+" (QueryEscape s)
      else let n := Z.of_nat (nat_of_ascii c) in
           String "%" (String (upper_hex (n / 16)) (String (upper_hex (n mod 16)) (QueryEscape s)))
  end.

Section Client.
Context `{Keycloak} {D : Type}.

(** [c.adminURL] and [c.realm]. *)
Variables (adminURL realm : string).

Definition kc_Do (method url authorization : string) : M D (res (Z * option json)) :=
  Atomic (fun w =>
    (match kc_reply (tick w) method url authorization with
     | Some r => Ok r
     | None => Err (ErrNew "keycloak: do request")
     end, World (S (tick w)) (data w))) Ret.

Definition clientCredentials : M D (res string) :=
  let? resp := kc_Do "POST" (adminURL +:+ "/realms/" +:+ realm +:+ "/protocol/openid-connect/token") "" in
  Ret (if negb (resp.1 =? 200) then Err (ErrNew "token endpoint")
       else Decode (dec_struct [field "access_token" id (fun v _ => v) dec_string]) resp.2 EmptyString).

Definition bearer (token : string) : string := "Bearer " +:+ token.

Definition groups_url : string := adminURL +:+ "/admin/realms/" +:+ realm +:+ "/groups".

Definition dec_groups : decoder (list kcGroup.t) := dec_slice kcGroup.zero (dec_struct kcGroup.json_fields).

Definition findGroupByPath (token path : string) : M D (res string) :=
  let? resp := kc_Do "GET" (groups_url +:+ "?search=" +:+ QueryEscape (TrimPrefix path "/") +:+ "&exact=true")
                 (bearer token) in
  Ret (match Decode dec_groups resp.2 [] with
       | Err e => Err e
       | Ok groups =>
           match find (fun g => String.eqb (kcGroup.Path g) path) groups with
           | Some g => Ok (kcGroup.ID g)
           | None => Err (ErrNew "group not found")
           end
       end).

Definition groupMembers (token groupID : string) : M D (res (list Member.t)) :=
  let? resp := kc_Do "GET" (groups_url +:+ "/" +:+ groupID +:+ "/members?max=500") (bearer token) in
  Ret (match Decode (dec_slice kcUser.zero (dec_struct kcUser.json_fields)) resp.2 [] with
       | Err e => Err e
       | Ok users => Ok (map (fun u => Member.mk (kcUser.ID u) (kcUser.PreferredUsername u) "member") users)
       end).

Definition findSubgroup (token parentID name : string) : M D (res string) :=
  let? resp := kc_Do "GET" (groups_url +:+ "/" +:+ parentID +:+ "/children") (bearer token) in
  Ret (match Decode dec_groups resp.2 [] with
       | Err e => Err e
       | Ok groups =>
           Ok (match find (fun g => String.eqb (kcGroup.Name g) name) groups with
               | Some g => kcGroup.ID g
               | None => EmptyString
               end)
       end).

Definition promote (admins : list Member.t) (m : Member.t) : Member.t :=
  if existsb (fun a => String.eqb (Member.UserID a) (Member.UserID m)) admins
  then Member.mk (Member.UserID m) (Member.PreferredUsername m) "admin"
  else m.

Definition GetMembers (slug : string) : M D (res (list Member.t)) :=
  let? token := clientCredentials wrap "keycloak: get token" in
  let? groupID := findGroupByPath token ("/" +:+ slug) wrap "keycloak: find group" in
  let? members := groupMembers token groupID wrap "keycloak: group members" in
  let! adminGroupID := findSubgroup token groupID "admins" in
  match adminGroupID with
  | Ok id =>
      if String.eqb id "" then Ret (Ok members)
      else
        let? admins := groupMembers token id wrap "keycloak: admin group members" in
        Ret (Ok (map (promote admins) members))
  | Err _ => Ret (Ok members)
  end.

End Client.
