(* ===== verification/KeycloakProps.v ===== *)
(** * Keycloak Admin client: whom GetMembers calls an administrator

    What [Keycloak.GetMembers] answers when the directory answers: the members of
    the group in its order, and the role of each. *)

From S2P Require Import Prelude Effects Json Http SchedulingDomain Keycloak.
Open Scope go_scope.

Section Roles.
Context `{Keycloak} {D : Type}.
Variables (adminURL realm slug : string).

Definition dec_users : decoder (list kcUser.t) := dec_slice kcUser.zero (dec_struct kcUser.json_fields).

(** Keycloak answers a GET with a JSON text that reads as [a], whenever it is asked. *)
Definition answers {A} (url token : string) (dec : decoder (list A)) (a : list A) : Prop :=
  forall t, exists code body, kc_reply t "GET" url (bearer token) = Some (code, body) /\ Decode dec body [] = Ok a.

Definition gives_token (token : string) : Prop :=
  forall t, exists body,
    kc_reply t "POST" (adminURL +:+ "/realms/" +:+ realm +:+ "/protocol/openid-connect/token") "" = Some (200, body)
    /\ Decode (dec_struct [field "access_token" id (fun v _ => v) dec_string]) body EmptyString = Ok token.

Definition search_url : string := groups_url adminURL realm +:+ "?search=" +:+ QueryEscape (TrimPrefix ("/" +:+ slug) "/") +:+ "&exact=true".
Definition members_url (id : string) : string := groups_url adminURL realm +:+ "/" +:+ id +:+ "/members?max=500".
Definition children_url (id : string) : string := groups_url adminURL realm +:+ "/" +:+ id +:+ "/children".

Definition as_member (u : kcUser.t) : Member.t := Member.mk (kcUser.ID u) (kcUser.PreferredUsername u) "member".

(** The group of the tenant and its users. *)
Record directory (token : string) (groups : list kcGroup.t) (g : kcGroup.t) (users : list kcUser.t)
    (subgroups : list kcGroup.t) : Prop := Directory {
  dir_token : gives_token token;
  dir_groups : answers search_url token dec_groups groups;
  dir_group : find (fun g => String.eqb (kcGroup.Path g) ("/" +:+ slug)) groups = Some g;
  dir_users : answers (members_url (kcGroup.ID g)) token dec_users users;
  dir_children : answers (children_url (kcGroup.ID g)) token dec_groups subgroups
}.

(** The subgroup of the administrators; the code takes the empty id for its absence. *)
Definition admin_group (subgroups : list kcGroup.t) : string :=
  match find (fun g => String.eqb (kcGroup.Name g) "admins") subgroups with Some g => kcGroup.ID g | None => "" end.

(** The users of a subgroup, none when it does not exist. *)
Definition admin_users (token : string) (subgroups : list kcGroup.t) (admins : list kcUser.t) : Prop :=
  if String.eqb (admin_group subgroups) "" then admins = []
  else answers (members_url (admin_group subgroups)) token dec_users admins.

Lemma run_kc_Do t (d : D) method url auth r :
  kc_reply t method url auth = Some r -> run (kc_Do method url auth) (World t d) = (Ok r, World (S t) d).
Proof. intros E. simpl. by rewrite E. Qed.

Lemma run_groupMembers token id users t (d : D) :
  answers (members_url id) token dec_users users ->
  run (groupMembers adminURL realm token id) (World t d) = (Ok (map as_member users), World (S t) d).
Proof.
  intros Ha. destruct (Ha t) as (code & body & Hr & Hd). unfold groupMembers.
  rewrite run_bind, (run_kc_Do _ _ _ _ _ _ Hr). simpl. unfold dec_users in Hd. by rewrite Hd.
Qed.

Lemma run_findSubgroup token id subgroups t (d : D) :
  answers (children_url id) token dec_groups subgroups ->
  run (findSubgroup adminURL realm token id "admins") (World t d) = (Ok (admin_group subgroups), World (S t) d).
Proof.
  intros Ha. destruct (Ha t) as (code & body & Hr & Hd). unfold findSubgroup.
  rewrite run_bind, (run_kc_Do _ _ _ _ _ _ Hr). simpl. by rewrite Hd.
Qed.

Lemma run_clientCredentials token t (d : D) :
  gives_token token -> run (clientCredentials adminURL realm) (World t d) = (Ok token, World (S t) d).
Proof.
  intros Ha. destruct (Ha t) as (body & Hr & Hd). unfold clientCredentials.
  rewrite run_bind, (run_kc_Do _ _ _ _ _ _ Hr). simpl. by rewrite Hd.
Qed.

Lemma run_findGroupByPath token groups g t (d : D) :
  answers search_url token dec_groups groups ->
  find (fun g => String.eqb (kcGroup.Path g) ("/" +:+ slug)) groups = Some g ->
  run (findGroupByPath adminURL realm token ("/" +:+ slug)) (World t d) = (Ok (kcGroup.ID g), World (S t) d).
Proof.
  intros Ha Hg. destruct (Ha t) as (code & body & Hr & Hd). unfold findGroupByPath.
  rewrite run_bind, (run_kc_Do _ _ _ _ _ _ Hr). simpl in *. by rewrite Hd, Hg.
Qed.

Lemma promote_role admins u :
  promote (map as_member admins) (as_member u) =
    Member.mk (kcUser.ID u) (kcUser.PreferredUsername u)
      (if bool_decide (kcUser.ID u ∈ map kcUser.ID admins) then "admin" else "member").
Proof.
  unfold promote. assert (existsb (fun a => String.eqb (Member.UserID a) (Member.UserID (as_member u))) (map as_member admins)
    = bool_decide (kcUser.ID u ∈ map kcUser.ID admins)) as ->.
  { apply eq_bool_prop_intro. rewrite bool_decide_spec, Is_true_true, existsb_exists, list_elem_of_fmap. split.
    - intros (a & (x & <- & Hx)%in_map_iff & E%String.eqb_eq). simpl in E. exists x. split; [done|by apply list_elem_of_In].
    - intros (x & E & Hx). exists (as_member x). split; [by apply in_map, list_elem_of_In|]. simpl. rewrite E. apply String.eqb_refl. }
  by destruct (bool_decide _).
Qed.

(** The members of the tenant are the users of its group, in Keycloak's order, and
    exactly those who are also in its subgroup admins have the role admin. *)
Lemma GetMembers_roles token groups g users subgroups admins t (d : D) :
  directory token groups g users subgroups -> admin_users token subgroups admins ->
  exists t', run (GetMembers adminURL realm slug) (World t d) =
    (Ok (map (fun u => Member.mk (kcUser.ID u) (kcUser.PreferredUsername u)
               (if bool_decide (kcUser.ID u ∈ map kcUser.ID admins) then "admin" else "member")) users), World t' d).
Proof.
  intros [Htok Hgr Hg Hus Hch] Hadm. unfold GetMembers.
  rewrite run_bind, (run_clientCredentials _ _ _ Htok). cbv iota beta.
  rewrite run_bind, (run_findGroupByPath _ _ _ _ _ Hgr Hg). cbv iota beta.
  rewrite run_bind, (run_groupMembers _ _ _ _ _ Hus). cbv iota beta.
  rewrite run_bind, (run_findSubgroup _ _ _ _ _ Hch). cbv iota beta.
  unfold admin_users in Hadm. destruct (String.eqb _ _).
  - subst admins. by eexists.
  - rewrite run_bind, (run_groupMembers _ _ _ _ _ Hadm). eexists. cbn [run]. rewrite map_map.
    do 2 f_equal. apply map_ext. intros u. apply promote_role.
Qed.
End Roles.

(** *** A tenant with an administrator *)

Module Roles_demo.
Definition group (id name path : string) : json := JObj [("id", JStr id); ("name", JStr name); ("path", JStr path)].
Definition user (id name : string) : json := JObj [("id", JStr id); ("username", JStr name)].

Definition base : string := "http://kc/admin/realms/oncall/groups".

(** [children] is the answer for the subgroups. *)
Definition keycloak (children : option (Z * option json)) : Keycloak := {|
  kc_reply _ method url _ :=
    if String.eqb method "POST" then Some (200, Some (JObj [("access_token", JStr "tok")]))
    else if String.eqb url (base +:+ "?search=acme&exact=true") then Some (200, Some (JArr [group "g1" "acme" "/acme"]))
    else if String.eqb url (base +:+ "/g1/members?max=500") then Some (200, Some (JArr [user "u1" "alice"; user "u2" "bob"]))
    else if String.eqb url (base +:+ "/g1/children") then children
    else if String.eqb url (base +:+ "/g2/members?max=500") then Some (200, Some (JArr [user "u1" "alice"]))
    else None |}.

Definition up : Keycloak := keycloak (Some (200, Some (JArr [group "g2" "admins" "/acme/admins"]))).
Definition flaky : Keycloak := keycloak None.

Definition members_of (K : Keycloak) : res (list Member.t) :=
  (run (@GetMembers K unit "http://kc" "oncall" "acme") (World 0 tt)).1.
End Roles_demo.
Import Roles_demo.

Lemma GetMembers_roles_witness :
  members_of up = Ok [Member.mk "u1" "alice" "admin"; Member.mk "u2" "bob" "member"] /\
  exists t', run (@GetMembers up unit "http://kc" "oncall" "acme") (World 0 tt) =
    (Ok (map (fun u => Member.mk (kcUser.ID u) (kcUser.PreferredUsername u)
               (if bool_decide (kcUser.ID u ∈ map kcUser.ID [kcUser.mk "u1" "alice"]) then "admin" else "member"))
          [kcUser.mk "u1" "alice"; kcUser.mk "u2" "bob"]), World t' tt).
Proof.
  split; [by vm_compute|].
  apply (@GetMembers_roles up unit "http://kc" "oncall" "acme" "tok" [kcGroup.mk "g1" "acme" "/acme"]
           (kcGroup.mk "g1" "acme" "/acme") [kcUser.mk "u1" "alice"; kcUser.mk "u2" "bob"]
           [kcGroup.mk "g2" "admins" "/acme/admins"] [kcUser.mk "u1" "alice"] 0 tt).
  - split; [intros t..| |intros t|intros t]; repeat eexists; by vm_compute.
  - intros t. do 2 eexists. split; by vm_compute.
Defined.

(** When the request for the subgroups fails, the answer is not an error: the
    administrator is listed as a plain member. *)
Lemma role_lookup_failure :
  members_of flaky = Ok [Member.mk "u1" "alice" "member"; Member.mk "u2" "bob" "member"].
Proof. by vm_compute. Qed.
