(* ===== verification/SchedulingHandler.v ===== *)
(** * Scheduling: HTTP handlers

    services/scheduling/internal/handler/handler.go and the routes of
    cmd/server/main.go.  The listing of shifts may not return, so a handler
    gives an option; its fuel bounds only the loop of [GenerateShifts]. *)

From S2P Require Import Prelude Effects Sha256 Json Interleaving Http Auth Redis SchedulingDomain Ssrf Rotation SchedulingStore Keycloak.
Open Scope go_scope.

Local Abbreviation Prog A := (M db A).

(** The values the handlers write. *)
Inductive body :=
| Schedules (l : list Schedule.t)
| ASchedule (s : Schedule.t)
| MissingFields (l : list string)
| AnOncallResult (o : OncallResult.t)
| Overrides (l : list Override.t)
| AnOverride (o : Override.t)
| AConflict (existing_start existing_end : Time) (existing_user : string)
| Shifts (l : list Shift.t)
| Tenants (l : list Tenant.t)
| ATenant (t : Tenant.t)
| Members (l : list Member.t)
| WebhookTokens (l : list WebhookToken.t)
| ANewToken (t : WebhookToken.t) (raw : string)
| AConfig (c : NotificationConfig.t).

Definition internal_error : response body := Error StatusInternalServerError "internal error".
Definition invalid_json : response body := Error StatusBadRequest "invalid JSON".
Definition not_found : response body := Error StatusNotFound "not found".
Definition unprocessable (msg : string) : response body := Error StatusUnprocessableEntity msg.

(** [errors.Is(err, store.ErrNotFound)] is 404, any other error 500. *)
Definition fail (e : err) : response body := if errors_Is e ErrNotFound then not_found else internal_error.

(** ** The bodies the handlers decode *)

Module schedule_body.
Record t := mk { Name : string; Timezone : string; Rotation : list string; ShiftDuration : string; StartDate : string }.

Definition zero : t := mk "" "" [] "" "".

Definition json_fields : fields t := [
  field "name" Name (fun v a => mk v (Timezone a) (Rotation a) (ShiftDuration a) (StartDate a)) dec_string;
  field "timezone" Timezone (fun v a => mk (Name a) v (Rotation a) (ShiftDuration a) (StartDate a)) dec_string;
  field "rotation" Rotation (fun v a => mk (Name a) (Timezone a) v (ShiftDuration a) (StartDate a)) (dec_slice EmptyString dec_string);
  field "shift_duration" ShiftDuration (fun v a => mk (Name a) (Timezone a) (Rotation a) v (StartDate a)) dec_string;
  field "start_date" StartDate (fun v a => mk (Name a) (Timezone a) (Rotation a) (ShiftDuration a) v) dec_string].
End schedule_body.

(** A slice that is [None] when it is nil. *)
Definition dec_nil_slice : decoder (option (list string)) := dec_ptr [] (dec_slice EmptyString dec_string).

Module schedule_patch.
Record t := mk {
  Name : option string;
  Timezone : option string;
  Rotation : option (list string);
  ShiftDuration : option string;
  StartDate : option string
}.

Definition zero : t := mk None None None None None.

Definition json_fields : fields t := [
  field "name" Name (fun v a => mk v (Timezone a) (Rotation a) (ShiftDuration a) (StartDate a)) (dec_ptr EmptyString dec_string);
  field "timezone" Timezone (fun v a => mk (Name a) v (Rotation a) (ShiftDuration a) (StartDate a)) (dec_ptr EmptyString dec_string);
  field "rotation" Rotation (fun v a => mk (Name a) (Timezone a) v (ShiftDuration a) (StartDate a)) dec_nil_slice;
  field "shift_duration" ShiftDuration (fun v a => mk (Name a) (Timezone a) (Rotation a) v (StartDate a)) (dec_ptr EmptyString dec_string);
  field "start_date" StartDate (fun v a => mk (Name a) (Timezone a) (Rotation a) (ShiftDuration a) v) (dec_ptr EmptyString dec_string)].
End schedule_patch.

Module override_body.
Record t := mk { UserID : string; StartAt : string; EndAt : string }.

Definition zero : t := mk "" "" "".

Definition json_fields : fields t := [
  field "user_id" UserID (fun v a => mk v (StartAt a) (EndAt a)) dec_string;
  field "start_at" StartAt (fun v a => mk (UserID a) v (EndAt a)) dec_string;
  field "end_at" EndAt (fun v a => mk (UserID a) (StartAt a) v) dec_string].
End override_body.

Definition tenant_fields : fields (string * string) := [
  field "slug" fst (fun v a => (v, a.2)) dec_string;
  field "name" snd (fun v a => (a.1, v)) dec_string].

Definition name_fields : fields string := [field "name" id (fun v _ => v) dec_string].

Definition source_fields : fields string := [field "source" id (fun v _ => v) dec_string].

Module notificationConfigPatch.
Record t := mk {
  MattermostEnabled : option bool;
  MattermostWebhookURL : option string;
  MattermostChannel : option string;
  SMTPFrom : option string;
  EmailEnabled : option bool;
  EmailReplyTo : option string;
  EmailSubjectPrefix : option string
}.

Definition zero : t := mk None None None None None None None.

Definition json_fields : fields t := [
  field "mattermost_enabled" MattermostEnabled (fun v a => mk v (MattermostWebhookURL a) (MattermostChannel a) (SMTPFrom a) (EmailEnabled a) (EmailReplyTo a) (EmailSubjectPrefix a)) (dec_ptr false dec_bool);
  field "mattermost_webhook_url" MattermostWebhookURL (fun v a => mk (MattermostEnabled a) v (MattermostChannel a) (SMTPFrom a) (EmailEnabled a) (EmailReplyTo a) (EmailSubjectPrefix a)) (dec_ptr EmptyString dec_string);
  field "mattermost_channel" MattermostChannel (fun v a => mk (MattermostEnabled a) (MattermostWebhookURL a) v (SMTPFrom a) (EmailEnabled a) (EmailReplyTo a) (EmailSubjectPrefix a)) (dec_ptr EmptyString dec_string);
  field "smtp_from" SMTPFrom (fun v a => mk (MattermostEnabled a) (MattermostWebhookURL a) (MattermostChannel a) v (EmailEnabled a) (EmailReplyTo a) (EmailSubjectPrefix a)) (dec_ptr EmptyString dec_string);
  field "email_enabled" EmailEnabled (fun v a => mk (MattermostEnabled a) (MattermostWebhookURL a) (MattermostChannel a) (SMTPFrom a) v (EmailReplyTo a) (EmailSubjectPrefix a)) (dec_ptr false dec_bool);
  field "email_reply_to" EmailReplyTo (fun v a => mk (MattermostEnabled a) (MattermostWebhookURL a) (MattermostChannel a) (SMTPFrom a) (EmailEnabled a) v (EmailSubjectPrefix a)) (dec_ptr EmptyString dec_string);
  field "email_subject_prefix" EmailSubjectPrefix (fun v a => mk (MattermostEnabled a) (MattermostWebhookURL a) (MattermostChannel a) (SMTPFrom a) (EmailEnabled a) (EmailReplyTo a) v) (dec_ptr EmptyString dec_string)].
End notificationConfigPatch.

(** ** [time.Parse("2006-01-02", s)] *)

Definition digit (c : ascii) : option Z :=
  if is_digit c then Some (Z.of_nat (nat_of_ascii c) - 48) else None.

Definition is_leap (y : Z) : bool := (y mod 4 =? 0) && (negb (y mod 100 =? 0) || (y mod 400 =? 0)).

Definition month_days (y m : Z) : Z :=
  if m =? 2 then (if is_leap y then 29 else 28)
  else if (m =? 4) || (m =? 6) || (m =? 9) || (m =? 11) then 30 else 31.

(** Days from 1970-01-01: the years from year 0 with their leap days, the months,
    the day. *)
Definition days_of_date (y m d : Z) : Z :=
  365 * y + (y + 3) / 4 - (y + 99) / 100 + (y + 399) / 400
  + fold_left (fun n k => n + month_days y (Z.of_nat k)) (seq 1 (Z.to_nat m - 1)) 0 + (d - 1) - 719528.

Definition parse_date (s : string) : option Time :=
  match s with
  | String y1 (String y2 (String y3 (String y4 (String h1 (String m1 (String m2 (String h2 (String d1 (String d2 EmptyString))))))))) =>
      y1 ← digit y1; y2 ← digit y2; y3 ← digit y3; y4 ← digit y4;
      m1 ← digit m1; m2 ← digit m2; d1 ← digit d1; d2 ← digit d2;
      let y := 1000 * y1 + 100 * y2 + 10 * y3 + y4 in
      let m := 10 * m1 + m2 in
      let d := 10 * d1 + d2 in
      if Ascii.eqb h1 "-" && Ascii.eqb h2 "-" && (1 <=? m) && (m <=? 12) && (1 <=? d) && (d <=? month_days y m)
      then Some (days_of_date y m d * day_ns) else None
  | _ => None
  end.

Example parse_date_values :
  map parse_date ["1970-01-01"; "2024-02-29"; "2023-02-29"; "2026-06-14"; "0000-01-01"; "2024-1-01"; "2024-13-01"]
  = [Some 0; Some (19782 * day_ns); None; Some (20618 * day_ns); Some (-719528 * day_ns); None; None].
Proof. vm_compute. reflexivity. Qed.

(** ** helpers *)

(** [rand.Read] of 32 bytes. *)
Class Entropy := {
  rand_Read : nat -> res (list Z)
}.

Definition hashToken (raw : string) : string := sha256_hex raw.

(** [maskURL]: the scheme and the host. *)
Fixpoint mask_with (prefixes : list string) (rawURL : string) : string :=
  match prefixes with
  | [] => "***"
  | p :: prefixes =>
      if HasPrefix rawURL p then
        match cut_byte "/" (TrimPrefix rawURL p) with
        | Some (host, _) => p +:+ host +:+ "/***"
        | None => mask_with prefixes rawURL
        end
      else mask_with prefixes rawURL
  end.

Definition maskURL (rawURL : string) : string :=
  if String.eqb rawURL "" then "" else mask_with ["https://"; "http://"] rawURL.

(** [r.URL.Query()]: the first value of each parameter. *)
Abbreviation query := (string -> string).

(** The names of the fields that are empty. *)
Definition missing_fields (l : list (string * bool)) : list string := map fst (List.filter snd l).

Section Handler.
Context `{Platform} `{TimeText} `{Resolver} `{Entropy} `{Keycloak}.
Variable load_location : string -> option Location.

Definition tenantSlug (r : request) : string := URLParam r "tenant".

Definition scheduleID (r : request) : string := URLParam r "scheduleId".

Definition generateToken : Prog (res string) :=
  Atomic (fun w =>
    (match rand_Read (tick w) with Ok b => Ok (hex_EncodeToString b) | Err e => Err e end,
     World (S (tick w)) (data w))) Ret.

(** ** Schedules *)

Definition ListSchedules (r : request) : Prog (response body) :=
  let! l := SchedulingStore.ListSchedules (tenantSlug r) in
  Ret (match l with Err _ => internal_error | Ok l => Json StatusOK (Schedules l) end).

Definition empty (s : string) : bool := String.eqb s "".

Definition CreateSchedule (r : request) (req : option json) : Prog (response body) :=
  match Decode (dec_struct schedule_body.json_fields) req schedule_body.zero with
  | Err _ => Ret invalid_json
  | Ok b =>
      match missing_fields [("rotation", match schedule_body.Rotation b with [] => true | _ => false end);
                            ("shift_duration", empty (schedule_body.ShiftDuration b));
                            ("start_date", empty (schedule_body.StartDate b));
                            ("name", empty (schedule_body.Name b))] with
      | _ :: _ as missing => Ret (Json StatusUnprocessableEntity (MissingFields missing))
      | [] =>
          match ParseISO8601Duration (schedule_body.ShiftDuration b) with
          | Err e => Ret (unprocessable ("invalid shift_duration: " +:+ error_text e))
          | Ok _ =>
              match parse_date (schedule_body.StartDate b) with
              | None => Ret (unprocessable "invalid start_date, expected YYYY-MM-DD")
              | Some startDate =>
                  let tz := if empty (schedule_body.Timezone b) then "UTC" else schedule_body.Timezone b in
                  let! sched := SchedulingStore.CreateSchedule
                    (Schedule.mk "" (tenantSlug r) (schedule_body.Name b) tz (schedule_body.Rotation b)
                       (schedule_body.ShiftDuration b) startDate 0 0) in
                  Ret (match sched with
                       | Err _ => internal_error
                       | Ok sched => Json StatusCreated (ASchedule sched)
                       end)
              end
          end
      end
  end.

Definition GetSchedule (r : request) : Prog (response body) :=
  let! sched := SchedulingStore.GetSchedule (tenantSlug r) (scheduleID r) in
  Ret (match sched with Err e => fail e | Ok sched => Json StatusOK (ASchedule sched) end).

(** The fields of the patch on a schedule, or the answer of the first that is
    not valid. *)
Definition apply_patch (b : schedule_patch.t) (s : Schedule.t) : response body + Schedule.t :=
  let with_date d := Schedule.mk (Schedule.ID s) (Schedule.TenantID s) (default (Schedule.Name s) (schedule_patch.Name b))
    (default (Schedule.Timezone s) (schedule_patch.Timezone b)) (default (Schedule.Rotation s) (schedule_patch.Rotation b))
    (default (Schedule.ShiftDuration s) (schedule_patch.ShiftDuration b)) d (Schedule.CreatedAt s) (Schedule.UpdatedAt s) in
  match option_map ParseISO8601Duration (schedule_patch.ShiftDuration b) with
  | Some (Err _) => inl (unprocessable "invalid shift_duration")
  | _ =>
      match option_map parse_date (schedule_patch.StartDate b) with
      | Some None => inl (unprocessable "invalid start_date")
      | Some (Some sd) => inr (with_date sd)
      | None => inr (with_date (Schedule.StartDate s))
      end
  end.

Definition PatchSchedule (r : request) (req : option json) : Prog (response body) :=
  let! sched := SchedulingStore.GetSchedule (tenantSlug r) (scheduleID r) in
  match sched with
  | Err e => Ret (fail e)
  | Ok sched =>
      match Decode (dec_struct schedule_patch.json_fields) req schedule_patch.zero with
      | Err _ => Ret invalid_json
      | Ok b =>
          match apply_patch b sched with
          | inl resp => Ret resp
          | inr sched =>
              let! e := UpdateSchedule sched in
              Ret (match e with Err _ => internal_error | Ok _ => Json StatusOK (ASchedule sched) end)
          end
      end
  end.

Definition DeleteSchedule (r : request) : Prog (response body) :=
  let! e := SchedulingStore.DeleteSchedule (tenantSlug r) (scheduleID r) in
  Ret (match e with Err e => fail e | Ok _ => NoBody StatusNoContent end).

(** ** On-call *)

Definition GetOnCall (r : request) (q : query) : Prog (response body) :=
  let! now := time_Now in
  match (if empty (q "at") then Some now else time_Parse (q "at")) with
  | None => Ret (Error StatusBadRequest "invalid ?at, expected RFC3339")
  | Some at_ =>
      let! sched := SchedulingStore.GetSchedule (tenantSlug r) (scheduleID r) in
      match sched with
      | Err e => Ret (fail e)
      | Ok sched =>
          let! overrides := ListOverridesInWindow (tenantSlug r) (scheduleID r) at_ (Add at_ Second) in
          match overrides with
          | Err _ => Ret internal_error
          | Ok overrides =>
              match OnCallAt load_location sched overrides at_ with
              | Err e => Ret (Error StatusInternalServerError (error_text e))
              | Ok (userID, startsAt, endsAt) =>
                  let! username := GetUserBySub userID in
                  Ret (Json StatusOK (AnOncallResult (OncallResult.mk userID username.1 startsAt endsAt)))
              end
          end
      end
  end.

(** ** Overrides *)

Definition ListOverrides (r : request) : Prog (response body) :=
  let! l := SchedulingStore.ListOverrides (tenantSlug r) (scheduleID r) in
  Ret (match l with Err _ => internal_error | Ok l => Json StatusOK (Overrides l) end).

Definition CreateOverride (r : request) (req : option json) : Prog (response body) :=
  match Decode (dec_struct override_body.json_fields) req override_body.zero with
  | Err _ => Ret invalid_json
  | Ok b =>
      match missing_fields [("user_id", empty (override_body.UserID b)); ("start_at", empty (override_body.StartAt b));
                            ("end_at", empty (override_body.EndAt b))] with
      | _ :: _ as missing => Ret (Json StatusUnprocessableEntity (MissingFields missing))
      | [] =>
          match time_Parse (override_body.StartAt b), time_Parse (override_body.EndAt b) with
          | None, _ => Ret (unprocessable "invalid start_at, expected RFC3339")
          | _, None => Ret (unprocessable "invalid end_at, expected RFC3339")
          | Some startAt, Some endAt =>
              if negb (After endAt startAt) then Ret (unprocessable "end_at must be after start_at")
              else
                let! o := SchedulingStore.CreateOverride
                  (Override.mk "" (scheduleID r) (tenantSlug r) (override_body.UserID b) startAt endAt 0) in
                Ret (match o with
                     | Err (OverrideConflictError user start end_) => Json StatusConflict (AConflict start end_ user)
                     | Err _ => internal_error
                     | Ok o => Json StatusCreated (AnOverride o)
                     end)
          end
      end
  end.

Definition DeleteOverride (r : request) : Prog (response body) :=
  let! e := SchedulingStore.DeleteOverride (tenantSlug r) (URLParam r "overrideId") in
  Ret (match e with Err e => fail e | Ok _ => NoBody StatusNoContent end).

(** ** Shifts *)

Definition ListShifts (fuel : nat) (r : request) (q : query) : Prog (option (response body)) :=
  if empty (q "from") || empty (q "to") then Ret (Some (Error StatusBadRequest "from and to query params required"))
  else match time_Parse (q "from"), time_Parse (q "to") with
  | None, _ => Ret (Some (Error StatusBadRequest "invalid ?from, expected RFC3339"))
  | _, None => Ret (Some (Error StatusBadRequest "invalid ?to, expected RFC3339"))
  | Some from, Some to =>
      if negb (After to from) then Ret (Some (Error StatusBadRequest "to must be after from"))
      else
        let! sched := SchedulingStore.GetSchedule (tenantSlug r) (scheduleID r) in
        match sched with
        | Err e => Ret (Some (fail e))
        | Ok sched =>
            let! overrides := ListOverridesInWindow (tenantSlug r) (scheduleID r) from to in
            match overrides with
            | Err _ => Ret (Some internal_error)
            | Ok overrides =>
                Ret (match GenerateShifts load_location fuel sched overrides from to with
                     | None => None
                     | Some (Err e) => Some (Error StatusInternalServerError (error_text e))
                     | Some (Ok shifts) => Some (Json StatusOK (Shifts shifts))
                     end)
            end
        end
  end.

(** ** Tenants *)

Definition ListTenants (r : request) : Prog (response body) :=
  let! l := SchedulingStore.ListTenants in
  Ret (match l with Err _ => internal_error | Ok l => Json StatusOK (Tenants l) end).

Definition CreateTenant (r : request) (req : option json) : Prog (response body) :=
  match Decode (dec_struct tenant_fields) req ("", "") with
  | Err _ => Ret invalid_json
  | Ok (slug, name) =>
      if empty slug || empty name then Ret (unprocessable "slug and name required")
      else
        let! t := SchedulingStore.CreateTenant (Tenant.mk "" slug name 0) in
        Ret (match t with
             | Err e => if errors_Is e ErrConflict then Error StatusConflict "slug already exists" else internal_error
             | Ok t => Json StatusCreated (ATenant t)
             end)
  end.

Definition GetTenant (r : request) : Prog (response body) :=
  let! t := GetTenantBySlug (URLParam r "slug") in
  Ret (match t with Err e => fail e | Ok t => Json StatusOK (ATenant t) end).

Definition PatchTenant (r : request) (req : option json) : Prog (response body) :=
  match Decode (dec_struct name_fields) req "" with
  | Err _ => Ret invalid_json
  | Ok name =>
      if empty name then Ret (unprocessable "name required")
      else
        let! t := UpdateTenant (URLParam r "slug") name in
        Ret (match t with Err e => fail e | Ok t => Json StatusOK (ATenant t) end)
  end.

Definition DeleteTenant (r : request) : Prog (response body) :=
  let! e := SchedulingStore.DeleteTenant (URLParam r "slug") in
  Ret (match e with Err e => fail e | Ok _ => NoBody StatusNoContent end).

(** ** Members: the client is [None] when it is not configured, else the URL and
    the realm of Keycloak. *)

Variable members : option (string * string).

Definition GetMembers (r : request) : Prog (response body) :=
  match members with
  | None => Ret (Error StatusServiceUnavailable "keycloak admin not configured")
  | Some (adminURL, realm) =>
      let! l := Keycloak.GetMembers adminURL realm (URLParam r "slug") in
      Ret (match l with Err _ => internal_error | Ok l => Json StatusOK (Members l) end)
  end.

(** ** Webhook tokens: without Redis there is no index *)

Variable tokenIndex : bool.

Definition ListWebhookTokens (r : request) : Prog (response body) :=
  let! l := SchedulingStore.ListWebhookTokens (URLParam r "slug") in
  Ret (match l with Err _ => internal_error | Ok l => Json StatusOK (WebhookTokens l) end).

Definition validSources (source : string) : bool := String.eqb source "alertmanager" || String.eqb source "grafana".

Definition CreateWebhookToken (r : request) (req : option json) : Prog (response body) :=
  match Decode (dec_struct source_fields) req "" with
  | Err _ => Ret invalid_json
  | Ok source =>
      if negb (validSources source) then Ret (unprocessable "source must be alertmanager or grafana")
      else
        let! raw := generateToken in
        match raw with
        | Err _ => Ret (Error StatusInternalServerError "token generation failed")
        | Ok raw =>
            let hash := hashToken raw in
            let slug := URLParam r "slug" in
            let! tok := SchedulingStore.CreateWebhookToken slug source hash in
            match tok with
            | Err _ => Ret internal_error
            | Ok tok =>
                let! _ := (if tokenIndex then index_Set hash slug else Ret (Ok tt)) in
                Ret (Json StatusCreated (ANewToken tok raw))
            end
        end
  end.

Definition DeleteWebhookToken (r : request) : Prog (response body) :=
  let! hash := SchedulingStore.DeleteWebhookToken (URLParam r "slug") (URLParam r "tokenId") in
  match hash with
  | Err e => Ret (fail e)
  | Ok hash =>
      let! _ := (if tokenIndex then index_Del hash else Ret (Ok tt)) in
      Ret (NoBody StatusNoContent)
  end.

(** ** Notification configuration *)

Definition default_config (slug : string) : NotificationConfig.t :=
  NotificationConfig.mk slug true "" "" "" true "" "".

(** The stored row, or the default when there is none. *)
Definition config_or_default (slug : string) (r : res NotificationConfig.t) : res NotificationConfig.t :=
  match r with
  | Err e => if errors_Is e ErrNotFound then Ok (default_config slug) else Err e
  | Ok c => Ok c
  end.

Definition with_url (url : string) (c : NotificationConfig.t) : NotificationConfig.t :=
  NotificationConfig.mk (NotificationConfig.TenantID c) (NotificationConfig.MattermostEnabled c) url
    (NotificationConfig.MattermostChannel c) (NotificationConfig.SMTPFrom c) (NotificationConfig.EmailEnabled c)
    (NotificationConfig.EmailReplyTo c) (NotificationConfig.EmailSubjectPrefix c).

(** The configuration as a caller sees it: only a service sees the whole URL. *)
Definition shown (ctx : context) (c : NotificationConfig.t) : NotificationConfig.t :=
  match MethodFromContext ctx with
  | Some MethodService => c
  | _ => with_url (maskURL (NotificationConfig.MattermostWebhookURL c)) c
  end.

(** The JSON object of the answer. *)
Definition enc_config (c : NotificationConfig.t) : json :=
  JObj [("email_enabled", JBool (NotificationConfig.EmailEnabled c)); ("email_reply_to", JStr (NotificationConfig.EmailReplyTo c));
        ("email_subject_prefix", JStr (NotificationConfig.EmailSubjectPrefix c));
        ("mattermost_channel", JStr (NotificationConfig.MattermostChannel c));
        ("mattermost_enabled", JBool (NotificationConfig.MattermostEnabled c));
        ("mattermost_webhook_url", JStr (NotificationConfig.MattermostWebhookURL c));
        ("smtp_from", JStr (NotificationConfig.SMTPFrom c)); ("tenant_id", JStr (NotificationConfig.TenantID c))].

Definition GetTenantNotificationConfig (ctx : context) (r : request) : Prog (response body) :=
  let slug := URLParam r "slug" in
  let! cfg := GetNotificationConfig slug in
  Ret (match config_or_default slug cfg with
       | Err _ => internal_error
       | Ok cfg => Json StatusOK (AConfig (shown ctx cfg))
       end).

(** The fields of the patch on the current row; the URL is checked before. *)
Definition merge_config (slug : string) (p : notificationConfigPatch.t) (cur : NotificationConfig.t) : NotificationConfig.t :=
  NotificationConfig.mk slug
    (default (NotificationConfig.MattermostEnabled cur) (notificationConfigPatch.MattermostEnabled p))
    (match notificationConfigPatch.MattermostWebhookURL p with
     | Some url => if empty url then NotificationConfig.MattermostWebhookURL cur else url
     | None => NotificationConfig.MattermostWebhookURL cur
     end)
    (default (NotificationConfig.MattermostChannel cur) (notificationConfigPatch.MattermostChannel p))
    (default (NotificationConfig.SMTPFrom cur) (notificationConfigPatch.SMTPFrom p))
    (default (NotificationConfig.EmailEnabled cur) (notificationConfigPatch.EmailEnabled p))
    (default (NotificationConfig.EmailReplyTo cur) (notificationConfigPatch.EmailReplyTo p))
    (default (NotificationConfig.EmailSubjectPrefix cur) (notificationConfigPatch.EmailSubjectPrefix p)).

Definition new_url_ok (p : notificationConfigPatch.t) : Prog (res unit) :=
  match notificationConfigPatch.MattermostWebhookURL p with
  | Some url => if empty url then Ret (Ok tt) else ValidateURL url
  | None => Ret (Ok tt)
  end.

Definition PutTenantNotificationConfig (ctx : context) (r : request) (req : option json) : Prog (response body) :=
  match Decode (dec_struct notificationConfigPatch.json_fields) req notificationConfigPatch.zero with
  | Err _ => Ret invalid_json
  | Ok p =>
      let slug := URLParam r "slug" in
      let! cur := GetNotificationConfig slug in
      match config_or_default slug cur with
      | Err _ => Ret internal_error
      | Ok cur =>
          let! valid := new_url_ok p in
          match valid with
          | Err _ => Ret (unprocessable "invalid mattermost_webhook_url: must be https and point to a public address")
          | Ok _ =>
              let cfg := merge_config slug p cur in
              let! e := UpsertNotificationConfig cfg in
              Ret (match e with Err _ => internal_error | Ok _ => Json StatusOK (AConfig (shown ctx cfg)) end)
          end
      end
  end.

(** ** The routes of cmd/server/main.go *)

Inductive route :=
| RListTenants
| RCreateTenant (req : option json)
| RGetTenant (slug : string)
| RGetMembers (slug : string)
| RListWebhookTokens (slug : string)
| RGetConfig (slug : string)
| RPatchTenant (slug : string) (req : option json)
| RDeleteTenant (slug : string)
| RCreateWebhookToken (slug : string) (req : option json)
| RDeleteWebhookToken (slug tokenId : string)
| RPutConfig (slug : string) (req : option json)
| RListSchedules (tenant : string)
| RCreateSchedule (tenant : string) (req : option json)
| RGetSchedule (tenant scheduleId : string)
| RPatchSchedule (tenant scheduleId : string) (req : option json)
| RDeleteSchedule (tenant scheduleId : string)
| RGetOnCall (tenant scheduleId : string) (q : query)
| RListOverrides (tenant scheduleId : string)
| RCreateOverride (tenant scheduleId : string) (req : option json)
| RDeleteOverride (tenant scheduleId overrideId : string)
| RListShifts (tenant scheduleId : string) (q : query).

(** The parameters of the URL. *)
Definition params (rt : route) : list (string * string) :=
  match rt with
  | RListTenants | RCreateTenant _ => []
  | RGetTenant s | RGetMembers s | RListWebhookTokens s | RGetConfig s | RPatchTenant s _ | RDeleteTenant s
  | RCreateWebhookToken s _ | RPutConfig s _ => [("slug", s)]
  | RDeleteWebhookToken s t => [("slug", s); ("tokenId", t)]
  | RListSchedules t | RCreateSchedule t _ => [("tenant", t)]
  | RGetSchedule t i | RPatchSchedule t i _ | RDeleteSchedule t i | RGetOnCall t i _ | RListOverrides t i
  | RCreateOverride t i _ | RListShifts t i _ => [("tenant", t); ("scheduleId", i)]
  | RDeleteOverride t i o => [("tenant", t); ("scheduleId", i); ("overrideId", o)]
  end.

Definition url_params (rt : route) (key : string) : string :=
  match find (fun kv => String.eqb kv.1 key) (params rt) with
  | Some (_, v) => v
  | None => EmptyString
  end.

(** The tenant check in front of a route. *)
Definition guard {B} (rt : route) : middleware B :=
  match rt with
  | RListTenants | RCreateTenant _ => fun next => next
  | RPatchTenant _ _ | RDeleteTenant _ | RCreateWebhookToken _ _ | RDeleteWebhookToken _ _ | RPutConfig _ _ =>
      RequireTenantAdmin
  | _ => RequireTenantMember
  end.

Definition always {A} (p : Prog A) : Prog (option A) := let! a := p in Ret (Some a).

Definition dispatch (fuel : nat) (ctx : context) (r : request) (rt : route) : Prog (option (response body)) :=
  match rt with
  | RListTenants => always (ListTenants r)
  | RCreateTenant req => always (CreateTenant r req)
  | RGetTenant _ => always (GetTenant r)
  | RGetMembers _ => always (GetMembers r)
  | RListWebhookTokens _ => always (ListWebhookTokens r)
  | RGetConfig _ => always (GetTenantNotificationConfig ctx r)
  | RPatchTenant _ req => always (PatchTenant r req)
  | RDeleteTenant _ => always (DeleteTenant r)
  | RCreateWebhookToken _ req => always (CreateWebhookToken r req)
  | RDeleteWebhookToken _ _ => always (DeleteWebhookToken r)
  | RPutConfig _ req => always (PutTenantNotificationConfig ctx r req)
  | RListSchedules _ => always (ListSchedules r)
  | RCreateSchedule _ req => always (CreateSchedule r req)
  | RGetSchedule _ _ => always (GetSchedule r)
  | RPatchSchedule _ _ req => always (PatchSchedule r req)
  | RDeleteSchedule _ _ => always (DeleteSchedule r)
  | RGetOnCall _ _ q => always (GetOnCall r q)
  | RListOverrides _ _ => always (ListOverrides r)
  | RCreateOverride _ _ req => always (CreateOverride r req)
  | RDeleteOverride _ _ _ => always (DeleteOverride r)
  | RListShifts _ _ q => ListShifts fuel r q
  end.

(** The user of a token is stored before the tenant check; an error is ignored. *)
Definition upsertUserMW (ctx : context) : Prog unit :=
  match FromContext ctx with
  | Some c =>
      if empty (Claims.Sub c) then Ret tt
      else let! _ := UpsertUser (Claims.Sub c) (Claims.PreferredUsername c) (Claims.Name c) (Claims.Email c) in Ret tt
  | None => Ret tt
  end.

Definition serve (authMW : middleware (context * request)) (fuel : nat) (adminKey authorization : string) (rt : route)
    : Prog (option (response body)) :=
  let inner := fun ctx r => Json StatusOK (ctx, r) in
  match authMW inner background (Request adminKey authorization (url_params rt)) with
  | Json _ (ctx, r) =>
      let! _ := upsertUserMW ctx in
      match guard rt inner ctx r with
      | Json _ (ctx, r) => dispatch fuel ctx r rt
      | Error code msg => Ret (Some (Error code msg))
      | NoBody code => Ret (Some (NoBody code))
      end
  | Error code msg => Ret (Some (Error code msg))
  | NoBody code => Ret (Some (NoBody code))
  end.

End Handler.
