(* ===== verification/SchedulingProps.v ===== *)
(** * Scheduling: properties *)

From S2P Require Import Prelude Effects Sha256 Json Interleaving Http Auth Redis SchedulingDomain Ssrf Rotation SchedulingStore Keycloak SchedulingHandler.
Open Scope go_scope.

(** ** Pairs of a list *)

Section Pairs.
Context {A : Type} (R : A -> A -> Prop).

Lemma pairs_filter (f : A -> bool) l : ForallOrdPairs R l -> ForallOrdPairs R (List.filter f l).
Proof.
  induction 1 as [|x l Hx _ IH]; simpl; [constructor|]. destruct (f x); [|done]. constructor; [|done].
  rewrite Forall_forall in *. intros y [Hy _]%list_elem_of_In%filter_In. by apply Hx, list_elem_of_In.
Qed.

Lemma pairs_snoc l x : ForallOrdPairs R l -> Forall (fun y => R y x) l -> ForallOrdPairs R (l ++ [x]).
Proof.
  induction 1 as [|y l Hy _ IH]; simpl; intros Hf; [by repeat constructor|].
  apply Forall_cons in Hf as [Hyx Hf]. constructor; [|by apply IH]. apply Forall_app. by repeat constructor.
Qed.

Lemma pairs_app_r l l' : ForallOrdPairs R (l ++ l') -> ForallOrdPairs R l'.
Proof. induction l as [|x l IH]; simpl; [done|]. inversion 1. auto. Qed.

Lemma pairs_permutation l l' : (forall x y, R x y -> R y x) -> l ≡ₚ l' -> ForallOrdPairs R l -> ForallOrdPairs R l'.
Proof.
  intros Hs HP. induction HP as [|x l l' HP IH|x y l|l1 l2 l3 _ IH1 _ IH2]; intros Hl; auto.
  - inversion Hl; subst. constructor; [by rewrite <-HP|auto].
  - inversion Hl as [|? ? Hy Hl']; subst. inversion Hl' as [|? ? Hx Hl'']; subst.
    apply Forall_cons in Hy as [Hyx Hy]. constructor; [constructor; [by apply Hs|done]|by constructor].
Qed.

End Pairs.

Lemma Forall_bfilter {A} (P : A -> Prop) (f : A -> bool) l : Forall P l -> Forall P (List.filter f l).
Proof.
  intros Hl. rewrite Forall_forall in *. intros y [Hy _]%list_elem_of_In%filter_In. by apply Hl, list_elem_of_In.
Qed.

(** ** The windows of overrides *)

(** Overrides of one schedule do not overlap. *)
Definition apart (o o' : Override.t) : Prop :=
  Override.ScheduleID o = Override.ScheduleID o' ->
  Override.EndAt o <= Override.StartAt o' \/ Override.EndAt o' <= Override.StartAt o.

Definition nonempty (o : Override.t) : Prop := Override.StartAt o < Override.EndAt o.

Definition windows_ok (d : db) : Prop := Forall nonempty (overrides d) /\ ForallOrdPairs apart (overrides d).

Lemma apart_sym o o' : apart o o' -> apart o' o.
Proof. intros H E. destruct (H (eq_sym E)); auto. Qed.

Lemma windows_ok_eq d d' : overrides d' = overrides d -> windows_ok d -> windows_ok d'.
Proof. unfold windows_ok. by intros ->. Qed.

(** What the programs other than the creation of an override do to the table:
    rows may go. *)
Definition shrinks (d d' : db) : Prop :=
  overrides d' = overrides d \/ exists f, overrides d' = List.filter f (overrides d).

#[export] Instance shrinks_refl : Reflexive shrinks.
Proof. by left. Qed.

Lemma shrinks_windows d d' : shrinks d d' -> windows_ok d -> windows_ok d'.
Proof.
  intros [E|[f E]]; [by apply windows_ok_eq|]. intros [Hn Ha]. unfold windows_ok. rewrite E.
  split; [by apply Forall_bfilter|by apply pairs_filter].
Qed.

Ltac table_step :=
  apply respects_sql; [exact _|]; intros ? ? ? ? ? Hf; cbv zeta beta in Hf;
  repeat case_match; simplify_eq; try (by left); by right; eexists.

Ltac shrink_step :=
  first
    [ done
    | apply (respects_read shrinks)
    | table_step
    | apply respects_bind; [|intros ?]
    | match goal with
      | |- respects _ (if ?b then _ else _) => destruct b
      | |- respects _ (match ?r with _ => _ end) => destruct r
      end ].

Section Windows.
Context `{Platform} `{TimeText} `{Resolver} `{Entropy} `{Keycloak}.
Variable load_location : string -> option Location.

Local Abbreviation quiet p := (respects shrinks p).

Lemma HSet_quiet k f v : quiet (HSet k f v).
Proof.
  unfold HSet, rcall. intros w. left. simpl. split; [|done].
  destruct (fault_at _) as [[]|]; simpl; [by left|..];
    destruct (lookup_live _ _ _) as [[[] ?]|]; simpl; by left.
Qed.

Lemma Del_quiet k : quiet (Del k).
Proof. unfold Del, rcall. intros w. left. simpl. split; [|done]. destruct (fault_at _) as [[]|]; by left. Qed.

Lemma ValidateURL_quiet url : quiet (ValidateURL url).
Proof. unfold ValidateURL, lookup. repeat shrink_step. Qed.

Lemma kc_Do_quiet m u a : quiet (kc_Do m u a).
Proof. intros w. left. split; [by left|done]. Qed.

Lemma GetMembers_quiet adminURL realm slug : quiet (Keycloak.GetMembers adminURL realm slug).
Proof.
  unfold Keycloak.GetMembers, clientCredentials, findGroupByPath, groupMembers, findSubgroup.
  repeat first [apply kc_Do_quiet | shrink_step].
Qed.

Lemma GetUserBySub_quiet sub : quiet (GetUserBySub sub).
Proof. unfold GetUserBySub. repeat shrink_step. Qed.

Lemma always_quiet {A} (p : M db A) : quiet p -> quiet (always p).
Proof. intros Hp. unfold always. by apply respects_bind. Qed.

Ltac unfold_ops :=
  unfold SchedulingHandler.ListSchedules, SchedulingHandler.CreateSchedule, SchedulingHandler.GetSchedule, PatchSchedule,
    SchedulingHandler.DeleteSchedule, GetOnCall, SchedulingHandler.ListOverrides, SchedulingHandler.DeleteOverride, ListShifts,
    SchedulingHandler.ListTenants, SchedulingHandler.CreateTenant, GetTenant, PatchTenant, SchedulingHandler.DeleteTenant,
    SchedulingHandler.GetMembers, SchedulingHandler.ListWebhookTokens, SchedulingHandler.CreateWebhookToken,
    SchedulingHandler.DeleteWebhookToken, GetTenantNotificationConfig, PutTenantNotificationConfig, generateToken, time_Now,
    SchedulingStore.ListSchedules, SchedulingStore.CreateSchedule, SchedulingStore.GetSchedule, UpdateSchedule,
    SchedulingStore.DeleteSchedule, SchedulingStore.ListOverrides, ListOverridesInWindow, SchedulingStore.DeleteOverride,
    SchedulingStore.ListTenants, SchedulingStore.CreateTenant, GetTenantBySlug, UpdateTenant, SchedulingStore.DeleteTenant,
    SchedulingStore.ListWebhookTokens, SchedulingStore.CreateWebhookToken, SchedulingStore.DeleteWebhookToken,
    GetNotificationConfig, UpsertNotificationConfig, index_Set, index_Del, new_url_ok.

Definition creates_override (rt : route) : bool := match rt with RCreateOverride _ _ _ => true | _ => false end.

Lemma dispatch_quiet members tokenIndex fuel ctx r rt :
  creates_override rt = false -> quiet (dispatch load_location members tokenIndex fuel ctx r rt).
Proof.
  intros Hrt. destruct rt; try done; cbn [dispatch]; try apply always_quiet; unfold_ops.
  all: repeat first [apply GetMembers_quiet | apply HSet_quiet | apply Del_quiet | apply ValidateURL_quiet
    | apply GetUserBySub_quiet | shrink_step].
Qed.

Lemma upsertUserMW_quiet ctx : quiet (upsertUserMW ctx).
Proof. unfold upsertUserMW, UpsertUser. repeat shrink_step. Qed.

Lemma first_conflict_none o d :
  first_conflict o d = None ->
  Forall (fun r => Override.ScheduleID r = Override.ScheduleID o ->
            Override.EndAt r <= pg_time (Override.StartAt o) \/ pg_time (Override.EndAt o) <= Override.StartAt r) (overrides d).
Proof.
  unfold first_conflict. intros Hn. rewrite Forall_forall. intros r Hr Hs.
  destruct (in_window (Override.StartAt o) (Override.EndAt o) r) eqn:E.
  - exfalso. assert (r ∈ merge_sort by_start (List.filter (fun r => String.eqb (Override.ScheduleID r) (Override.ScheduleID o)
      && in_window (Override.StartAt o) (Override.EndAt o) r) (overrides d))) as Hin.
    { rewrite merge_sort_Permutation. apply list_elem_of_In, filter_In. split; [by apply list_elem_of_In|].
      by rewrite Hs, String.eqb_refl, E. }
    destruct (merge_sort _ _); [by apply not_elem_of_nil in Hin|done].
  - unfold in_window in E. apply andb_false_iff in E as [E%Z.ltb_ge|E%Z.ltb_ge]; auto.
Qed.

(** Creating an override alone keeps the windows of a schedule apart, whatever
    fails; what a statement did is told by its answer or by the table. *)
Lemma CreateOverride_windows o (w : world db) r w' :
  run (SchedulingStore.CreateOverride o) w = (r, w') -> windows_ok (data w) -> windows_ok (data w').
Proof.
  unfold SchedulingStore.CreateOverride. rewrite run_bind.
  match goal with |- context [run (sql ?q ?u ?f) w] => destruct (run (sql q u f) w) as [rc w1] eqn:Ec end.
  assert (data w1 = data w) as Ed.
  { simpl in Ec. repeat case_match; by simplify_eq. }
  destruct rc as [[c|]|e]; [intros [= <- <-]; by rewrite Ed| |intros [= <- <-]; by rewrite Ed].
  apply run_sql_inv in Ec as (now0 & uuid0 & [= Hnone]). apply first_conflict_none in Hnone as Hap.
  rewrite <-Ed in Hap. intros Hi [Hn Ha]. rewrite <-Ed in Hn, Ha. clear Ed Hnone.
  unfold insert_override in Hi. simpl in Hi.
  assert (forall row, overrides (data w') = overrides (data w1) ++ [row] ->
    Override.ScheduleID row = Override.ScheduleID o -> Override.StartAt row = pg_time (Override.StartAt o) ->
    Override.EndAt row = pg_time (Override.EndAt o) -> nonempty row -> windows_ok (data w')) as Hrow.
  { intros row Eo Es E1 E2 Hne. unfold windows_ok. rewrite Eo. split; [apply Forall_app; by repeat constructor|].
    apply pairs_snoc; [done|]. eapply Forall_impl; [exact Hap|]. intros x Hx Esx. rewrite E1, E2. apply Hx. congruence. }
  destruct (fault_at (tick w1)) as [[]|]; [by simplify_eq|..].
  all: destruct (uuid_ok _ && true); [|by simplify_eq].
  all: destruct (existsb _ (overrides _)); [by simplify_eq|].
  all: destruct (pg_time (Override.StartAt o) <? pg_time (Override.EndAt o)) eqn:Hlt; cbn [negb] in Hi; [|by simplify_eq].
  all: destruct (negb (existsb _ _)); [by simplify_eq|].
  all: simplify_eq; eapply Hrow; [reflexivity..|]; apply Z.ltb_lt in Hlt; exact Hlt.
Qed.

End Windows.

(** Requests served one after the other. *)
Fixpoint serve_all `{Platform} `{TimeText} `{Resolver} `{Entropy} `{Keycloak} (ll : string -> option Location)
    (members : option (string * string)) (tokenIndex : bool) (authMW : middleware (context * request)) (fuel : nat)
    (reqs : list (string * string * route)) (w : world db) : world db :=
  match reqs with
  | [] => w
  | (key, token, rt) :: reqs =>
      serve_all ll members tokenIndex authMW fuel reqs (run (serve ll members tokenIndex authMW fuel key token rt) w).2
  end.

(** C15: overrides of a schedule never overlap.  Whatever requests are served one
    after the other, and whatever statements fail (before or after their effect),
    the stored overrides have windows that are not empty, and the windows of one
    schedule are disjoint. *)
Theorem overrides_stay_disjoint `{Platform} `{TimeText} `{Resolver} `{Entropy} `{Keycloak} ll members tokenIndex authMW
    fuel reqs (w : world db) :
  windows_ok (data w) -> windows_ok (data (serve_all ll members tokenIndex authMW fuel reqs w)).
Proof.
  revert w. induction reqs as [|[[key token] rt] reqs IH]; intros w Hw; cbn [serve_all]; [done|]. apply IH.
  destruct (run (serve _ _ _ _ _ _ _ _) w) as [resp w'] eqn:E. cbn [snd]. unfold serve in E.
  destruct (authMW _ _ _) as [? [ctx r]|code msg|code]; [|injection E as _ <-; exact Hw..].
  rewrite run_bind in E. destruct (run (upsertUserMW ctx) w) as [u w1] eqn:E1.
  pose proof (respects_run shrinks windows_ok _ _ _ _ shrinks_windows (upsertUserMW_quiet ctx) E1 Hw) as Hw1.
  destruct (guard rt _ ctx r) as [c' [ctx' r']|c' msg|c']; [|injection E as _ <-; exact Hw1..].
  destruct (creates_override rt) eqn:Hc.
  - destruct rt; try done. cbn [dispatch] in E. unfold always in E. rewrite run_bind in E.
    destruct (run (CreateOverride r' req) w1) as [r2 w2] eqn:E2. injection E as _ <-.
    unfold CreateOverride in E2.
    destruct (Decode _ _ _) as [b|e]; [|by injection E2 as _ <-].
    destruct (missing_fields _); [|by injection E2 as _ <-].
    destruct (time_Parse (override_body.StartAt b)); [|by injection E2 as _ <-].
    destruct (time_Parse (override_body.EndAt b)); [|by injection E2 as _ <-].
    destruct (negb _); [by injection E2 as _ <-|]. rewrite run_bind in E2. destruct (run (SchedulingStore.CreateOverride _) w1) as [r3 w3] eqn:E3.
    injection E2 as _ <-. exact (CreateOverride_windows _ _ _ _ E3 Hw1).
  - eapply (respects_run shrinks windows_ok); [apply shrinks_windows| |exact E|exact Hw1].
    by apply dispatch_quiet.
Qed.

(** ** Examples: two tenants, each with a member *)

Definition demo_token (opts : Options) (raw : string) : option (list (string * json)) :=
  if String.eqb raw "alice" then Some [("sub", JStr "u1"); ("groups", JArr [JStr "/acme"])]
  else if String.eqb raw "eve" then Some [("sub", JStr "u9"); ("groups", JArr [JStr "/evil"])]
  else None.

Definition demo_auth : middleware (context * request) := fun next => serve_auth demo_token (Build_Options "https://kc" "key" "" "" false) next.

Definition demo_resolver : Resolver := {|
  parse_url _ := None; ParseIP _ := None; LookupIPAddr _ _ := Ok []; Dial _ _ _ := Ok tt |}.

Definition demo_entropy : Entropy := {| rand_Read t := Ok (replicate 32 (Z.of_nat t)) |}.

Definition no_keycloak : Keycloak := {| kc_reply _ _ _ _ := None |}.

Definition at_text (t : Time) : json := JStr (demo_format t).

Definition override_req (user : string) (a b : Z) : option json :=
  Some (JObj [("user_id", JStr user); ("start_at", at_text (demo_day a)); ("end_at", at_text (demo_day b))]).

Definition demo_start : db :=
  Db [Schedule.mk "s1" "acme" "primary" "UTC" ["u1"; "u2"] "P7D" (demo_day 0) 0 0] [] [] [] [] [] ∅.

Abbreviation demo_serve := (@serve (demo_platform []) demo_time_text demo_resolver demo_entropy no_keycloak no_tzdata
  None true demo_auth 10 "").

Abbreviation serve_all_demo l := (@serve_all (demo_platform []) demo_time_text demo_resolver demo_entropy no_keycloak no_tzdata
  None true demo_auth 10 l (World 0 demo_start)).

Lemma overrides_stay_disjoint_witness :
  let w := serve_all_demo [("", "alice", RCreateOverride "acme" "s1" (override_req "u1" 1 3));
              ("", "alice", RCreateOverride "acme" "s1" (override_req "u2" 2 4));
              ("", "alice", RCreateOverride "acme" "s1" (override_req "u2" 3 4))] in
  length (overrides (data w)) = 2%nat /\ windows_ok (data w).
Proof.
  intros w. split; [vm_compute; reflexivity|].
  apply (@overrides_stay_disjoint (demo_platform []) demo_time_text demo_resolver demo_entropy no_keycloak no_tzdata None true
    demo_auth 10 _ (World 0 demo_start)).
  split; constructor.
Defined.

(** A member of one tenant can block the schedule of another.  Eve, a member
    of the tenant evil only, creates an override on the schedule of acme: the
    foreign key accepts it and the answer is 201.  Alice of acme then gets 409
    for the same days, with the user id of Eve, though her list of overrides is
    empty and the on-call query ignores the override of Eve. *)
Lemma foreign_override_blocks :
  let eve := run (demo_serve "eve" (RCreateOverride "evil" "s1" (override_req "u9" 1 3))) (World 0 demo_start) in
  let alice := run (demo_serve "alice" (RCreateOverride "acme" "s1" (override_req "u1" 2 4))) eve.2 in
  option_map Code eve.1 = Some StatusCreated
  /\ alice.1 = Some (Json StatusConflict (AConflict (demo_day 1) (demo_day 3) "u9"))
  /\ (run (demo_serve "alice" (RListOverrides "acme" "s1")) alice.2).1 = Some (Json StatusOK (Overrides []))
  /\ (run (demo_serve "alice" (RGetOnCall "acme" "s1" (fun _ => demo_format (demo_day 1)))) alice.2).1
     = Some (Json StatusOK (AnOncallResult (OncallResult.mk "u1" "" (demo_day 0) (demo_day 7)))).
Proof. vm_compute. split_and!; reflexivity. Qed.

(** The conflict check and the insertion are two statements.  When two
    requests for overlapping windows of a schedule both check before either
    inserts, both are stored and the windows of the schedule overlap (no
    constraint of the table forbids it). *)
Lemma concurrent_overrides_overlap `{Platform} (o1 o2 : Override.t) (w : world db) :
  reliable -> Override.ScheduleID o1 = Override.ScheduleID o2 -> uuid_ok (Override.ScheduleID o1) = true ->
  existsb (fun s => String.eqb (Schedule.ID s) (Override.ScheduleID o1)) (schedules (data w)) = true ->
  first_conflict o1 (data w) = None -> first_conflict o2 (data w) = None ->
  pg_time (Override.StartAt o1) < pg_time (Override.EndAt o1) -> pg_time (Override.StartAt o2) < pg_time (Override.EndAt o2) ->
  pg_time (Override.StartAt o1) < pg_time (Override.EndAt o2) -> pg_time (Override.StartAt o2) < pg_time (Override.EndAt o1) ->
  (forall t o, o ∈ overrides (data w) -> String.eqb (Override.ID o) (uuid_at t) = false) ->
  String.eqb (uuid_at (2 + tick w)) (uuid_at (3 + tick w)) = false ->
  exists r1 r2 w', run_schedule [0; 1; 0; 1]%nat [SchedulingStore.CreateOverride o1; SchedulingStore.CreateOverride o2] w
    = ([Ret (Ok r1); Ret (Ok r2)], w') /\ ~ windows_ok (data w').
Proof.
  intros Hrel Hs Hu Hex C1 C2 N1 N2 O12 O21 Hfresh Hid. simpl in Hid.
  unfold SchedulingStore.CreateOverride, insert_override, sql, call. simpl.
  rewrite !Hrel, <-Hs, Hu. simpl. rewrite C1, !Hrel, <-?Hs, ?Hu. simpl. rewrite C2, !Hrel, <-?Hs, ?Hu. simpl.
  assert (forall t, existsb (fun r => String.eqb (Override.ID r) (uuid_at t)) (overrides (data w)) = false) as Hf.
  { intros t. apply not_true_is_false. intros (o & Ho%list_elem_of_In & E)%existsb_exists. by rewrite Hfresh in E. }
  rewrite Hf, (proj2 (Z.ltb_lt _ _) N1). simpl. rewrite Hex. simpl. rewrite !Hrel. simpl.
  rewrite existsb_app, Hf. simpl. rewrite Hid. simpl. rewrite (proj2 (Z.ltb_lt _ _) N2). simpl. rewrite Hex. simpl.
  do 3 eexists. split; [reflexivity|]. cbn [data overrides set_overrides].
  intros [_ Ha]. rewrite <-app_assoc in Ha. apply pairs_app_r in Ha. inversion Ha as [|? ? Hx _]; subst.
  apply Forall_cons in Hx as [Hx _]. destruct (Hx eq_refl) as [E|E]; simpl in E; lia.
Qed.

Lemma concurrent_overrides_overlap_witness :
  let P := demo_platform [] in
  let o user a b := Override.mk "" "s1" "acme" user (demo_day a) (demo_day b) 0 in
  exists r1 r2 w', run_schedule [0; 1; 0; 1]%nat
      [@SchedulingStore.CreateOverride P (o "u1" 1 3); @SchedulingStore.CreateOverride P (o "u2" 2 4)] (World 0 demo_start)
    = ([Ret (Ok r1); Ret (Ok r2)], w') /\ ~ windows_ok (data w').
Proof.
  intros P o. apply (@concurrent_overrides_overlap P); try (vm_compute; reflexivity).
  intros t x Hx. by apply not_elem_of_nil in Hx.
Defined.

(** ** The two on-call answers of the API *)

Lemma sorted_ordered id os :
  StronglySorted by_start os -> Forall nonempty os -> ForallOrdPairs apart os ->
  Forall (fun o => Override.ScheduleID o = id) os -> ordered os.
Proof.
  induction 1 as [|o os _ IH Hle]; cbn [ordered]; [done|]. intros Hn Ha Hs.
  apply Forall_cons in Hn as [Ho Hn], Hs as [Hso Hs]. inversion Ha as [|? ? Hap Ha']; subst.
  split; [exact Ho|]. split; [|by apply IH]. rewrite Forall_forall in *. intros o' Hin.
  pose proof (Hle o' Hin). pose proof (Hn o' Hin). unfold by_start, nonempty in *.
  destruct (Hap o' Hin) as [?|?]; [by rewrite (Hs o' Hin)|done|lia].
Qed.

#[local] Instance by_start_trans : Transitive by_start.
Proof. intros a b c. unfold by_start. lia. Qed.

#[local] Instance by_start_total : Total by_start.
Proof. intros a b. unfold by_start. lia. Qed.

(** What the window query answers is fit for the rotation. *)
Lemma window_query_ordered tenant id f d :
  windows_ok d -> ordered (merge_sort by_start (List.filter (fun o => override_of tenant id o && f o) (overrides d))).
Proof.
  intros [Hn Ha]. apply (sorted_ordered id).
  - apply StronglySorted_merge_sort; apply _.
  - rewrite merge_sort_Permutation. by apply Forall_bfilter.
  - eapply pairs_permutation; [apply apart_sym|symmetry; apply merge_sort_Permutation|]. by apply pairs_filter.
  - rewrite merge_sort_Permutation. rewrite Forall_forall. intros o [_ Ho]%list_elem_of_In%filter_In.
    unfold override_of in Ho. by apply andb_prop in Ho as [[Hs%String.eqb_eq _]%andb_prop _].
Qed.

(** Two lists of overrides with the same ones at an instant give one answer. *)
Lemma OnCallAt_ext ll s os os' at_ :
  ordered os -> ordered os' -> (forall o, covers o at_ = true -> o ∈ os <-> o ∈ os') ->
  OnCallAt ll s os at_ = OnCallAt ll s os' at_.
Proof.
  intros Ho Ho' Hext. destruct (existsb (fun o => covers o at_) os) eqn:E.
  - apply existsb_exists in E as (o & Hin%list_elem_of_In & Hc).
    rewrite !(OnCallAt_covered _ _ _ o); [done|done|by apply Hext|done..].
  - assert (forall o, o ∈ os -> covers o at_ = false) as Hn.
    { intros o Hin. apply not_true_is_false. intros Hc. apply not_true_iff_false in E. apply E, existsb_exists.
      exists o. split; [by apply list_elem_of_In|done]. }
    rewrite !OnCallAt_uncovered; [done| |done]. intros o Hin. apply not_true_is_false. intros Hc.
    specialize (Hn o (proj2 (Hext o Hc) Hin)). congruence.
Qed.

Lemma in_query tenant id f d o :
  o ∈ merge_sort by_start (List.filter (fun o => override_of tenant id o && f o) (overrides d)) <->
  o ∈ overrides d /\ override_of tenant id o = true /\ f o = true.
Proof. rewrite merge_sort_Permutation, !list_elem_of_In, filter_In, andb_true_iff. done. Qed.

Lemma pg_time_bounds t : pg_time t <= t < pg_time t + 1000.
Proof. unfold pg_time. pose proof (Z.mul_div_le t 1000). pose proof (Z.mul_succ_div_gt t 1000). lia. Qed.

(** An override in force at an instant is found by the query for that second and
    by the query for a window around it. *)
Lemma window_has from to at_ o :
  covers o at_ = true -> from <= at_ < pg_time to -> in_window from to o = true.
Proof.
  rewrite covers_spec. intros [Hs He] [Hf Ht]. unfold in_window. rewrite andb_true_iff, !Z.ltb_lt.
  pose proof (pg_time_bounds from). lia.
Qed.

Lemma GetSchedule_inv `{Platform} tenant id (w : world db) s w' :
  run (SchedulingStore.GetSchedule tenant id) w = (Ok s, w') ->
  find (same_schedule tenant id) (schedules (data w)) = Some s /\ data w' = data w.
Proof. intros (now & uuid & Hf)%run_sql_inv. destruct (find _ _); by simplify_eq. Qed.

Lemma ListOverridesInWindow_inv `{Platform} tenant id from to (w : world db) os w' :
  run (ListOverridesInWindow tenant id from to) w = (Ok os, w') ->
  os = merge_sort by_start (List.filter (fun o => override_of tenant id o && in_window from to o) (overrides (data w)))
  /\ data w' = data w.
Proof. intros (now & uuid & Hf)%run_sql_inv. by simplify_eq. Qed.

(** The answers 200 of the two handlers. *)
Lemma ListShifts_ok `{Platform} `{TimeText} ll fuel r q (w : world db) l w' :
  run (ListShifts ll fuel r q) w = (Some (Json StatusOK (Shifts l)), w') ->
  exists from to s, time_Parse (q "from") = Some from /\ time_Parse (q "to") = Some to
    /\ find (same_schedule (tenantSlug r) (scheduleID r)) (schedules (data w)) = Some s
    /\ GenerateShifts ll fuel s (merge_sort by_start (List.filter (fun o => override_of (tenantSlug r) (scheduleID r) o
         && in_window from to o) (overrides (data w)))) from to = Some (Ok l).
Proof.
  unfold ListShifts. destruct (empty _ || empty _); [done|].
  destruct (time_Parse (q "from")) as [from|]; [|done]. destruct (time_Parse (q "to")) as [to|]; [|done].
  destruct (negb _); [done|]. rewrite run_bind.
  destruct (run (SchedulingStore.GetSchedule _ _) w) as [[s|e] w1] eqn:E1; [|by unfold fail; destruct (errors_Is _ _)].
  destruct (GetSchedule_inv _ _ _ _ _ E1) as [Hs Ed]. rewrite run_bind.
  destruct (run (ListOverridesInWindow _ _ _ _) w1) as [[os|e] w2] eqn:E2; [|done].
  destruct (ListOverridesInWindow_inv _ _ _ _ _ _ _ E2) as [Eo _]. rewrite Ed in Eo.
  destruct (GenerateShifts _ _ _ _ _ _) as [[l'|e]|] eqn:Eg; intros [= ]; subst. eauto 10.
Qed.

Lemma GetOnCall_ok `{Platform} `{TimeText} ll r q (w : world db) o w' at_ :
  empty (q "at") = false -> time_Parse (q "at") = Some at_ ->
  run (GetOnCall ll r q) w = (Json StatusOK (AnOncallResult o), w') ->
  exists s, find (same_schedule (tenantSlug r) (scheduleID r)) (schedules (data w)) = Some s
    /\ OnCallAt ll s (merge_sort by_start (List.filter (fun o => override_of (tenantSlug r) (scheduleID r) o
         && in_window at_ (Add at_ Second) o) (overrides (data w)))) at_
       = Ok (OncallResult.UserID o, OncallResult.StartsAt o, OncallResult.EndsAt o).
Proof.
  intros Hq Hat. unfold GetOnCall, time_Now. cbn [bind run]. rewrite Hq, Hat.
  rewrite run_bind. set (w0 := World _ _).
  destruct (run (SchedulingStore.GetSchedule _ _) w0) as [[s|e] w1] eqn:E1; [|by unfold fail; destruct (errors_Is _ _)].
  destruct (GetSchedule_inv _ _ _ _ _ E1) as [Hs Ed]. rewrite run_bind.
  destruct (run (ListOverridesInWindow _ _ _ _) w1) as [[os|e] w2] eqn:E2; [|done].
  destruct (ListOverridesInWindow_inv _ _ _ _ _ _ _ E2) as [Eo _]. rewrite Ed in Eo. cbn [data] in *.
  destruct (OnCallAt _ _ _ _) as [[[u a] b]|e] eqn:Eg; [|done]. rewrite run_bind.
  destruct (run (GetUserBySub u) w2) as [name w3]. intros [= <- _]. subst os. eauto.
Qed.


(** U2 takes two days of the first week of U1. *)
Definition demo_swapped : db :=
  set_overrides [Override.mk "id1" "s1" "acme" "u2" (demo_day 1) (demo_day 3) 0] demo_start.

Definition demo_request : request := Request "" "" (url_params (RGetSchedule "acme" "s1")).

Definition demo_window (k : string) : string :=
  if String.eqb k "from" then demo_format (demo_day 0) else demo_format (demo_day 14).

Abbreviation demo_shifts := (run (@ListShifts (demo_platform []) demo_time_text no_tzdata 10 demo_request demo_window)
  (World 0 demo_swapped)).

Abbreviation demo_oncall := (run (@GetOnCall (demo_platform []) demo_time_text no_tzdata demo_request
  (fun _ => demo_format (demo_day 2))) (World 0 demo_swapped)).

Definition shifts_of (r : option (response body)) : list Shift.t :=
  match r with Some (Json _ (Shifts l)) => l | _ => [] end.

