(* ===== verification/TenantProps.v ===== *)
(** * Scheduling: what it promises to notification and ingestion

    The notification configuration of a tenant, which notification fetches, and
    the webhook tokens, which ingestion resolves through the shared Redis. *)

From S2P Require Import Prelude Effects Sha256 Json Interleaving Http Auth Redis Events Amqp Ingestion Notification SchedulingDomain Ssrf Rotation SchedulingStore Keycloak SchedulingHandler.
Open Scope go_scope.

Local Abbreviation db := SchedulingStore.db.

(** ** Masked URLs *)

Lemma Contains_app s t sub : Contains t sub = true -> Contains (s +:+ t) sub = true.
Proof. intros Ht. induction s as [|a s IH]; [done|]. simpl. rewrite IH. apply orb_true_r. Qed.

Lemma maskURL_masked u : maskURL u = "" \/ Contains (maskURL u) "***" = true.
Proof.
  unfold maskURL. destruct (String.eqb u ""); [by left|]. right.
  assert (forall ps, Contains (mask_with ps u) "***" = true) as Hm; [|apply Hm].
  induction ps as [|p ps IH]; cbn [mask_with]; [done|]. destruct (HasPrefix u p); [|done].
  destruct (cut_byte "/" (TrimPrefix u p)) as [[host ?]|]; [|done]. do 2 apply Contains_app. done.
Qed.

Lemma maskURL_unusable `{Network} u : webhookURLUsable (maskURL u) = false.
Proof. unfold webhookURLUsable. destruct (maskURL_masked u) as [->| ->]; [done|]. by rewrite orb_true_r. Qed.

Lemma TrimPrefix_app p s : TrimPrefix (p +:+ s) p = s.
Proof.
  unfold TrimPrefix. rewrite (proj2 (HasPrefix_spec _ _)) by eauto.
  induction p as [|a p IH]; [done|exact IH].
Qed.

Lemma maskURL_host p host path :
  p ∈ ["https://"; "http://"] -> cut_byte "/" host = None ->
  maskURL (p +:+ host +:+ "/" +:+ path) = p +:+ host +:+ "/***".
Proof.
  intros Hp Hh. unfold maskURL.
  assert (forall ps, p ∈ ps -> (forall q, q ∈ ps -> q <> p -> HasPrefix (p +:+ host +:+ "/" +:+ path) q = false) ->
    mask_with ps (p +:+ host +:+ "/" +:+ path) = p +:+ host +:+ "/***") as Hm.
  { induction ps as [|q ps IH]; intros Hin Hq; [by apply not_elem_of_nil in Hin|]. cbn [mask_with].
    destruct (decide (q = p)) as [->|Hne].
    - rewrite (proj2 (HasPrefix_spec _ _)) by eauto. rewrite TrimPrefix_app.
      change (host +:+ "/" +:+ path) with (host +:+ String "/" path). by rewrite cut_byte_app.
    - rewrite (Hq q) by (done || by left). apply IH; [by apply elem_of_cons in Hin as [->|?]|].
      intros q' Hq'. apply Hq. by right. }
  destruct (String.eqb _ "") eqn:E.
  { apply String.eqb_eq in E. apply elem_of_cons in Hp as [->|[->|Hp%not_elem_of_nil]%elem_of_cons]; done. }
  apply Hm; [done|]. intros q Hq Hne.
  apply elem_of_cons in Hp as [->|[->|Hp%not_elem_of_nil]%elem_of_cons]; [..|done];
  apply elem_of_cons in Hq as [->|[->|Hq%not_elem_of_nil]%elem_of_cons]; done.
Qed.

(** ** The notification configuration *)

Lemma find_upsert {A} (hit : A -> bool) c l :
  hit c = true ->
  find hit (if existsb hit l then map (fun o => if hit o then c else o) l else l ++ [c]) = Some c.
Proof.
  intros Hc. destruct (existsb hit l) eqn:E.
  - induction l as [|o l IH]; [done|]. simpl in *. destruct (hit o) eqn:Ho; [by rewrite Hc|]. rewrite Ho. by apply IH.
  - induction l as [|o l IH]; simpl in *; [by rewrite Hc|]. apply orb_false_iff in E as [-> E]. by apply IH.
Qed.

Lemma find_upsert_other {A} (hit other : A -> bool) c l :
  other c = false -> (forall o, hit o = true -> other o = false) ->
  find other (if existsb hit l then map (fun o => if hit o then c else o) l else l ++ [c]) = find other l.
Proof.
  intros Hc Ho. destruct (existsb hit l); induction l as [|o l IH]; simpl; rewrite ?Hc; try done.
  - destruct (hit o) eqn:E; [rewrite Hc, (Ho _ E)|]; by rewrite IH.
  - by rewrite IH.
Qed.

(** What a tenant's configuration is: its row, or the default. *)
Definition current_config (slug : string) (d : db) : NotificationConfig.t :=
  default (default_config slug) (find (of_tenant slug) (configs d)).

Lemma GetNotificationConfig_reliable `{Platform} slug (w : world db) :
  reliable ->
  exists r, run (GetNotificationConfig slug) w = (r, World (S (tick w)) (data w))
    /\ config_or_default slug r = Ok (current_config slug (data w)).
Proof.
  intros Hrel. unfold GetNotificationConfig. rewrite run_sql_ok by (apply Hrel || done). unfold current_config.
  destruct (find _ _); eexists; (split; [reflexivity|]); done.
Qed.

Lemma new_url_ok_data `{Resolver} p (w : world db) r w' :
  run (new_url_ok p) w = (r, w') -> data w' = data w.
Proof.
  unfold new_url_ok, ValidateURL, Ssrf.lookup.
  destruct (notificationConfigPatch.MattermostWebhookURL p) as [url|]; [|by intros [= <- <-]].
  destruct (empty url); [by intros [= <- <-]|]. destruct (parse_url url) as [[scheme host]|]; [|by intros [= <- <-]].
  destruct (negb _); [by intros [= <- <-]|]. destruct (String.eqb host ""); [by intros [= <- <-]|].
  destruct (ParseIP host); [by intros [= <- <-]|]. intros [= <- <-]. done.
Qed.

(** The fields of a configuration for notification. *)
Definition for_notification (c : NotificationConfig.t) : TenantNotificationConfig.t :=
  TenantNotificationConfig.mk (NotificationConfig.MattermostEnabled c) (NotificationConfig.MattermostWebhookURL c)
    (NotificationConfig.MattermostChannel c) (NotificationConfig.SMTPFrom c) (NotificationConfig.EmailEnabled c)
    (NotificationConfig.EmailReplyTo c) (NotificationConfig.EmailSubjectPrefix c).

(** A setting of a tenant: what a patch says of it, and where it is stored. *)
Record setting := Setting {
  setting_type : Type;
  patched : notificationConfigPatch.t -> option setting_type;
  stored_as : NotificationConfig.t -> setting_type
}.

(** The settings a PUT can change.  The web UI sees only the masked URL, so an
    empty one means the stored one. *)
Definition settings : list setting := [
  Setting bool notificationConfigPatch.MattermostEnabled NotificationConfig.MattermostEnabled;
  Setting string (fun p => match notificationConfigPatch.MattermostWebhookURL p with
                           | Some EmptyString => None | url => url end) NotificationConfig.MattermostWebhookURL;
  Setting string notificationConfigPatch.MattermostChannel NotificationConfig.MattermostChannel;
  Setting string notificationConfigPatch.SMTPFrom NotificationConfig.SMTPFrom;
  Setting bool notificationConfigPatch.EmailEnabled NotificationConfig.EmailEnabled;
  Setting string notificationConfigPatch.EmailReplyTo NotificationConfig.EmailReplyTo;
  Setting string notificationConfigPatch.EmailSubjectPrefix NotificationConfig.EmailSubjectPrefix].

(** [cfg] is [cur] with what the patch says, setting by setting. *)
Definition patch_of (slug : string) (p : notificationConfigPatch.t) (cur cfg : NotificationConfig.t) : Prop :=
  NotificationConfig.TenantID cfg = slug
  /\ Forall (fun s => match patched s p with
                     | Some v => stored_as s cfg = v
                     | None => stored_as s cfg = stored_as s cur
                     end) settings.

Lemma merge_config_patch slug p cur : patch_of slug p cur (merge_config slug p cur).
Proof.
  split; [done|]. destruct p as [me url ch from en rt sp]. unfold settings.
  repeat constructor; cbn;
    match goal with |- context [default _ ?o] => by destruct o | |- _ => by destruct url as [[]|] end.
Qed.

(** C18: the notification configuration.  When nothing fails, a PUT of a body that
    decodes answers 200 and stores the current configuration (the row, or the
    default) changed in exactly the settings the body gives, with an empty webhook
    URL standing for the stored one, leaving the other tenants alone, or it
    answers 422 because the new webhook URL did not pass the check, and changes
    nothing.  A GET then answers the stored configuration: to a service with the
    admin key as it is, in a body that notification decodes to the same fields; to
    anybody else with a masked URL, which notification never posts to. *)
Theorem notification_config_contract `{Platform} `{Resolver} `{Network} ctx ctx' r req p t d :
  reliable ->
  Decode (dec_struct notificationConfigPatch.json_fields) req notificationConfigPatch.zero = Ok p ->
  let slug := URLParam r "slug" in
  exists cfg, patch_of slug p (current_config slug d) cfg /\
  let '(resp, w') := run (PutTenantNotificationConfig ctx r req) (World t d) in
  ((resp = Json StatusOK (AConfig (shown ctx cfg)) /\ current_config slug (data w') = cfg
    /\ (forall s, s <> slug -> current_config s (data w') = current_config s d)
    /\ (run (GetTenantNotificationConfig ctx' r) w').1 = Json StatusOK (AConfig (shown ctx' cfg))) \/
   (Code resp = StatusUnprocessableEntity /\ data w' = d
    /\ exists e, (run (new_url_ok p) (World (S t) d)).1 = Err e))
  /\ (methodKey ctx' = Some MethodService ->
        dec_struct TenantNotificationConfig.json_fields (enc_config (shown ctx' cfg)) TenantNotificationConfig.zero
          = Some (for_notification cfg))
  /\ (methodKey ctx' <> Some MethodService ->
        webhookURLUsable (NotificationConfig.MattermostWebhookURL (shown ctx' cfg)) = false).
Proof.
  intros Hrel Hp slug. set (cfg := merge_config slug p (current_config slug d)). exists cfg.
  split; [apply merge_config_patch|].
  destruct (run _ _) as [resp w'] eqn:E. split.
  - unfold PutTenantNotificationConfig in E. rewrite Hp in E. fold slug in E. rewrite run_bind in E.
    destruct (GetNotificationConfig_reliable slug (World t d) Hrel) as (r0 & E0 & Ec). rewrite E0, Ec in E. cbn [tick data] in E.
    rewrite run_bind in E. destruct (run (new_url_ok p) (World (S t) d)) as [v w1] eqn:Ev.
    pose proof (new_url_ok_data _ _ _ _ Ev) as Ed. cbn [data] in Ed.
    destruct v as [[]|e]; [|injection E as <- <-; right; split; [done|]; split; [done|]; by exists e].
    left. fold cfg in E. rewrite run_bind in E. unfold UpsertNotificationConfig in E.
    rewrite run_sql_ok in E by (apply Hrel || done). cbn [run] in E. injection E as <- <-.
    assert (current_config slug (data (World (S (tick w1)) (set_configs
      (if existsb (of_tenant slug) (configs (data w1)) then map (fun o => if of_tenant slug o then cfg else o) (configs (data w1))
       else configs (data w1) ++ [cfg]) (data w1)))) = cfg) as Hcur.
    { unfold current_config. cbn [data configs set_configs]. rewrite find_upsert; [done|].
      unfold of_tenant. apply String.eqb_refl. }
    split; [done|]. split; [exact Hcur|]. split.
    + intros s Hs. unfold current_config. cbn [data configs set_configs].
      rewrite find_upsert_other; [by rewrite Ed| |].
      * apply String.eqb_neq. intros E. by apply Hs.
      * unfold of_tenant. intros o ->%String.eqb_eq. apply String.eqb_neq. intros E. by apply Hs.
    + unfold GetTenantNotificationConfig. fold slug. rewrite run_bind.
      destruct (GetNotificationConfig_reliable slug (World (S (tick w1)) (set_configs
        (if existsb (of_tenant slug) (configs (data w1)) then map (fun o => if of_tenant slug o then cfg else o) (configs (data w1))
         else configs (data w1) ++ [cfg]) (data w1))) Hrel) as (r1 & E1 & Ec1).
      change (NotificationConfig.TenantID cfg) with slug. rewrite E1. cbn [run fst]. rewrite Ec1, Hcur. done.
  - unfold shown, MethodFromContext. split.
    + intros ->. unfold enc_config, for_notification. destruct cfg. reflexivity.
    + intros Hm. destruct (methodKey ctx') as [[]|]; [done|..]; apply maskURL_unusable.
Qed.

(** A patch of the channel, and a webhook URL on a public address. *)
Definition public_resolver : Resolver := {|
  parse_url _ := Some ("https", "8.8.8.8"); ParseIP _ := Some [8; 8; 8; 8]; LookupIPAddr _ _ := Ok [];
  Dial _ _ _ := Ok tt |}.

Definition some_network : Network := {|
  url_Parse s := Some (Url "https" "mm" "/hooks/x"); http_post _ _ := Some 200 |}.

Definition config_request : request := Request "" "" (fun k => if String.eqb k "slug" then "acme" else "").

Definition config_put : option json :=
  Some (JObj [("mattermost_channel", JStr "ops"); ("mattermost_webhook_url", JStr "https://8.8.8.8/hooks/x")]).

Definition config_patch : notificationConfigPatch.t :=
  notificationConfigPatch.mk None (Some "https://8.8.8.8/hooks/x") (Some "ops") None None None None.

Definition config_db : db :=
  SchedulingStore.Db [] [] [] [] [] [NotificationConfig.mk "acme" true "" "old" "from@x" false "" "[acme]"] ∅.

Abbreviation config_run := (run (@PutTenantNotificationConfig (demo_platform []) public_resolver (Ctx None (Some MethodUser))
  config_request config_put) (World 0 config_db)).

Lemma notification_config_contract_witness :
  current_config "acme" (data config_run.2)
    = NotificationConfig.mk "acme" true "https://8.8.8.8/hooks/x" "ops" "from@x" false "" "[acme]" /\
  exists cfg, patch_of "acme" config_patch (current_config "acme" config_db) cfg /\
  (let '(resp, w') := config_run in
  ((resp = Json StatusOK (AConfig (shown (Ctx None (Some MethodUser)) cfg))
    /\ current_config "acme" (data w') = cfg
    /\ (forall s, s <> "acme" -> current_config s (data w') = current_config s config_db)
    /\ (run (@GetTenantNotificationConfig (demo_platform []) (Ctx None (Some MethodService)) config_request) w').1
       = Json StatusOK (AConfig cfg)) \/
   (Code resp = StatusUnprocessableEntity /\ data w' = config_db
    /\ exists e, (run (@new_url_ok public_resolver config_patch) (World 1 config_db)).1 = Err e))
  /\ (Some MethodService = Some MethodService ->
        dec_struct TenantNotificationConfig.json_fields (enc_config cfg) TenantNotificationConfig.zero = Some (for_notification cfg))
  /\ (Some MethodService <> Some MethodService ->
        @webhookURLUsable some_network (NotificationConfig.MattermostWebhookURL cfg) = false)).
Proof.
  split; [vm_compute; reflexivity|].
  refine (@notification_config_contract (demo_platform []) public_resolver some_network (Ctx None (Some MethodUser))
    (Ctx None (Some MethodService)) config_request config_put config_patch 0%nat config_db _ _).
  - intros t. reflexivity.
  - vm_compute. reflexivity.
Defined.

(** ** Webhook tokens *)

(** The index has a hash without expiry under each of its keys: no other code
    writes there. *)
Definition index_ok (st : redis) : Prop :=
  forall h v e, st !! (keyPrefix +:+ h) = Some (v, e) -> e = None /\ exists m, v = RHash m.

(** A token is resolved: the key of its hash names the tenant. *)
Definition indexed (hash tenant : string) (st : redis) : Prop :=
  exists m, st !! (keyPrefix +:+ hash) = Some (RHash m, None) /\ m !! "tenant_id" = Some tenant.

(** What [HSET] writes. *)
Definition hset (hash tenant : string) (st : redis) : redis :=
  match st !! (keyPrefix +:+ hash) with
  | Some (RHash m, e) => <[keyPrefix +:+ hash := (RHash (<["tenant_id" := tenant]> m), e)]> st
  | _ => <[keyPrefix +:+ hash := (RHash {[ "tenant_id" := tenant ]}, None)]> st
  end.

Lemma keyPrefix_inj h h' : keyPrefix +:+ h = keyPrefix +:+ h' -> h = h'.
Proof. intros E. rewrite <-(TrimPrefix_app keyPrefix h), <-(TrimPrefix_app keyPrefix h'). by rewrite E. Qed.

Lemma hset_indexed hash tenant st : index_ok st -> indexed hash tenant (hset hash tenant st).
Proof.
  intros Hok. unfold hset, indexed. destruct (st !! (keyPrefix +:+ hash)) as [[v e]|] eqn:E.
  - destruct (Hok _ _ _ E) as [-> [m ->]]. eexists. rewrite lookup_insert_eq. split; [done|]. by rewrite lookup_insert_eq.
  - eexists. rewrite lookup_insert_eq. split; [done|]. by rewrite lookup_singleton_eq.
Qed.

Lemma hset_other hash tenant h v st : hash <> h -> indexed h v st -> indexed h v (hset hash tenant st).
Proof.
  intros Hne (m & Hm & Hv). exists m. split; [|done]. unfold hset.
  assert (keyPrefix +:+ hash <> keyPrefix +:+ h) as Hk by (intros E; by apply keyPrefix_inj in E).
  destruct (st !! (keyPrefix +:+ hash)) as [[[] ?]|]; by rewrite lookup_insert_ne.
Qed.

Lemma hset_ok hash tenant st : index_ok st -> index_ok (hset hash tenant st).
Proof.
  intros Hok h v e. unfold hset. intros Hl.
  destruct (decide (hash = h)) as [->|Hne].
  - destruct (st !! (keyPrefix +:+ h)) as [[v' e']|] eqn:E.
    + destruct (Hok _ _ _ E) as [-> [m ->]]. rewrite lookup_insert_eq in Hl. injection Hl as <- <-. eauto.
    + rewrite lookup_insert_eq in Hl. injection Hl as <- <-. eauto.
  - assert (keyPrefix +:+ hash <> keyPrefix +:+ h) as Hk by (intros E; by apply keyPrefix_inj in E).
    apply (Hok h). destruct (st !! (keyPrefix +:+ hash)) as [[[] ?]|]; by rewrite lookup_insert_ne in Hl.
Qed.

Lemma run_HSet `{Platform} hash tenant (w : world db) :
  reliable -> index_ok (index (data w)) ->
  run (HSet (keyPrefix +:+ hash) "tenant_id" tenant) w
    = (Ok tt, World (S (tick w)) (set_rds (hset hash tenant (index (data w))) (data w))).
Proof.
  intros Hrel Hok. unfold HSet, rcall. rewrite run_call_ok by apply Hrel. unfold lookup_live, hset. cbn [rds db_Redis].
  destruct (index (data w) !! (keyPrefix +:+ hash)) as [[v e]|] eqn:E; [|done].
  destruct (Hok _ _ _ E) as [-> [m ->]]. done.
Qed.

Lemma run_index_Del `{Platform} hash (w : world db) :
  reliable -> run (index_Del hash) w = (Ok tt, World (S (tick w)) (set_rds (delete (keyPrefix +:+ hash) (index (data w))) (data w))).
Proof. intros Hrel. unfold index_Del, Del, rcall. rewrite run_bind, run_call_ok by apply Hrel. done. Qed.

(** The rehydration writes the entries one after the other. *)
Definition hset_all (l : list TokenHashEntry.t) (st : redis) : redis :=
  fold_left (fun st e => hset (TokenHashEntry.Hash e) (TokenHashEntry.TenantID e) st) l st.

Lemma hset_all_ok l st : index_ok st -> index_ok (hset_all l st).
Proof. revert st. induction l as [|e l IH]; intros st Hok; [done|]. apply IH. by apply hset_ok. Qed.

Lemma hset_all_indexed l st h v :
  index_ok st -> ~ In h (map TokenHashEntry.Hash l) -> indexed h v st -> indexed h v (hset_all l st).
Proof.
  revert st. induction l as [|e l IH]; intros st Hok Hn Hi; [done|]. simpl in Hn.
  apply IH; [by apply hset_ok|tauto|]. apply hset_other; [intros E; apply Hn; by left|done].
Qed.

Lemma hset_all_all l st e :
  index_ok st -> List.NoDup (map TokenHashEntry.Hash l) -> In e l ->
  indexed (TokenHashEntry.Hash e) (TokenHashEntry.TenantID e) (hset_all l st).
Proof.
  revert st. induction l as [|e' l IH]; intros st Hok Hn; [done|]. inversion Hn as [|? ? Hni Hn']; subst.
  intros [->|Hin].
  - cbn [hset_all fold_left]. apply hset_all_indexed; [by apply hset_ok|done|by apply hset_indexed].
  - apply IH; [by apply hset_ok|done|done].
Qed.

Lemma run_set_pipeline `{Platform} l (w : world db) :
  reliable -> index_ok (index (data w)) ->
  exists rs t, run (pipeline (map (fun e => HSet (keyPrefix +:+ TokenHashEntry.Hash e) "tenant_id"
                                              (TokenHashEntry.TenantID e)) l)) w
    = (rs, World t (set_rds (hset_all l (index (data w))) (data w))).
Proof.
  intros Hrel. revert w. induction l as [|e l IH]; intros w Hok; cbn [pipeline map].
  - exists [], (tick w). cbn [run hset_all fold_left]. by destruct w as [? []].
  - rewrite run_bind, run_HSet by done. rewrite run_bind.
    destruct (IH (World (S (tick w)) (set_rds (hset (TokenHashEntry.Hash e) (TokenHashEntry.TenantID e) (index (data w))) (data w))))
      as (rs & t & ->); [by apply hset_ok|].
    exists (Ok tt :: rs), t. cbn [run data]. f_equal.
Qed.

Lemma run_rehydrate `{Platform} (w : world db) :
  reliable -> index_ok (index (data w)) ->
  index (data (run rehydrate w).2)
    = hset_all (map (fun r => TokenHashEntry.mk (token_hash r) (WebhookToken.TenantID (token r))) (tokens (data w)))
        (index (data w)).
Proof.
  intros Hrel Hok. unfold rehydrate, ListWebhookTokenHashes. rewrite run_bind, run_sql_ok by (apply Hrel || done).
  rewrite run_bind. unfold SetMany. destruct (map _ (tokens (data w))) as [|e l] eqn:El; [done|].
  rewrite run_bind. destruct (run_set_pipeline (e :: l) (World (S (tick w)) (data w)) Hrel Hok) as (rs & t & E).
  cbn [data] in E. rewrite E. done.
Qed.

(** ** Ingestion on the same Redis *)

(** A webhook with the token is handled for the tenant; one with an unknown token
    is refused. *)
Definition accepted_for (raw slug : string) (st : redis) : Prop :=
  forall (P : Platform) next t di, @reliable P -> cache di = st ->
    run (@Tenant P next raw) (World t di) = run (next slug) (World (S t) di).

Definition refused (raw : string) (st : redis) : Prop :=
  forall (P : Platform) next t di, @reliable P -> cache di = st ->
    (run (@Tenant P next raw) (World t di)).1 = Error StatusUnauthorized "invalid token".

Lemma indexed_accepted raw slug st :
  raw <> "" -> slug <> "" -> indexed (sha256_hex raw) slug st -> accepted_for raw slug st.
Proof.
  intros Hr Hs (m & Hm & Hv) P next t di Hrel <-. unfold Tenant. rewrite (proj2 (String.eqb_neq raw "")) by done.
  unfold GetTenantID, HGet, rcall. rewrite run_bind, run_bind, run_call_ok by apply Hrel.
  unfold lookup_live. cbn [rds Ingestion.db_Redis data]. change "oncall:tokens:" with keyPrefix. rewrite Hm. cbn [live snd].
  rewrite Hv. cbn [run tick]. rewrite (proj2 (String.eqb_neq slug "")) by done. by destruct di.
Qed.

Lemma missing_refused raw st :
  raw <> "" -> st !! (keyPrefix +:+ sha256_hex raw) = None -> refused raw st.
Proof.
  intros Hr Hn P next t di Hrel <-. unfold Tenant. rewrite (proj2 (String.eqb_neq raw "")) by done.
  unfold GetTenantID, HGet, rcall. rewrite run_bind, run_bind, run_call_ok by apply Hrel.
  unfold lookup_live. cbn [rds Ingestion.db_Redis data]. change "oncall:tokens:" with keyPrefix. rewrite Hn. done.
Qed.

Lemma find_snoc {A} (f : A -> bool) l x : (forall y, In y l -> f y = false) -> f x = true -> find f (l ++ [x]) = Some x.
Proof.
  intros Hl Hx. induction l as [|y l IH]; simpl; [by rewrite Hx|]. rewrite (Hl y) by by left. apply IH. intros z Hz.
  apply Hl. by right.
Qed.

Lemma filter_all {A} (f : A -> bool) l : (forall y, In y l -> f y = true) -> List.filter f l = l.
Proof. induction l as [|y l IH]; simpl; intros Hl; [done|]. rewrite Hl by by left. f_equal. auto. Qed.

(** C16: the life of a webhook token.  When a token is created for a tenant (201),
    only its hash is stored, and ingestion from then on takes a webhook with the
    token for that tenant.  After Redis lost its data, the rehydration at start-up
    gives every stored token back.  Deleting the token (204) makes ingestion refuse
    it with 401.  Deleting the tenant does not: its tokens stay in the table and in
    the index, and ingestion goes on taking webhooks for it. *)
Theorem webhook_token_lifecycle `{Platform} `{Entropy} r req source t d tok raw w1 :
  let slug := URLParam r "slug" in
  reliable -> (forall t b, rand_Read t = Ok b -> length b = 32%nat) ->
  index_ok (index d) -> List.NoDup (map token_hash (tokens d)) -> slug <> "" ->
  Decode (dec_struct source_fields) req "" = Ok source ->
  run (CreateWebhookToken true r req) (World t d) = (Json StatusCreated (ANewToken tok raw), w1) ->
  accepted_for raw slug (index (data w1))
  /\ tokens (data w1) = tokens d ++ [TokenRow tok (sha256_hex raw)]
  /\ (forall t', let w2 := (run rehydrate (World t' (set_rds ∅ (data w1)))).2 in accepted_for raw slug (index (data w2)))
  /\ (forall r' t', URLParam r' "slug" = slug -> URLParam r' "tokenId" = WebhookToken.ID tok -> uuid_ok (WebhookToken.ID tok) = true ->
        let '(resp, w3) := run (DeleteWebhookToken true r') (World t' (data w1)) in
        resp = NoBody StatusNoContent /\ refused raw (index (data w3)) /\ tokens (data w3) = tokens d)
  /\ (forall r' t', let w4 := (run (DeleteTenant r') (World t' (data w1))).2 in
        accepted_for raw slug (index (data w4)) /\ tokens (data w4) = tokens (data w1)).
Proof.
  intros slug Hrel Hent Hok Hnd Hslug Hdec Hrun.
  unfold CreateWebhookToken in Hrun. rewrite Hdec in Hrun. destruct (negb (validSources source)); [done|].
  unfold generateToken in Hrun. cbn [bind run tick data] in Hrun. destruct (rand_Read t) as [b|] eqn:Eb; [|done].
  fold slug in Hrun. rewrite run_bind in Hrun. unfold SchedulingStore.CreateWebhookToken in Hrun.
  rewrite run_sql_ok in Hrun by (apply Hrel || done). cbn [tick data] in Hrun.
  destruct (existsb _ (tokens d)) eqn:Ex; [done|]. cbv beta iota in Hrun. rewrite run_bind in Hrun. unfold index_Set in Hrun.
  rewrite run_HSet in Hrun by done. cbn [run] in Hrun. injection Hrun as <- <- <-. cbn [data].
  set (raw := hex_EncodeToString b) in *.
  assert (raw <> "") as Hraw.
  { apply Hent in Eb. unfold raw. destruct b; [done|]. cbn. by destruct (hex_EncodeToString b). }
  set (tok := WebhookToken.mk _ slug source _).
  assert (forall x, In x (tokens d) -> token_hash x <> sha256_hex raw /\ WebhookToken.ID (token x) <> WebhookToken.ID tok) as Hfresh.
  { intros x Hx. apply not_true_iff_false in Ex. split; intros E; apply Ex, existsb_exists; exists x; (split; [done|]);
      apply orb_true_iff; [right|left]; by apply String.eqb_eq. }
  split; [|split; [|split; [|split]]].
  - apply indexed_accepted; [done..|]. by apply hset_indexed.
  - reflexivity.
  - intros t'. cbv zeta. rewrite run_rehydrate; [|done|]. 2: { intros h v e. cbn. by rewrite lookup_empty. }
    cbn [data index set_rds db_Redis tokens set_tokens]. rewrite map_app. cbn [map].
    apply indexed_accepted; [done..|].
    apply (hset_all_all _ ∅ (TokenHashEntry.mk (sha256_hex raw) slug)).
    + intros h v e. by rewrite lookup_empty.
    + rewrite map_app, map_map. cbn [map TokenHashEntry.Hash]. apply NoDup_Add with (a := sha256_hex raw) (l := map token_hash (tokens d)).
      * rewrite <-(app_nil_r (map _ (tokens d))) at 1. apply Add_app.
      * split; [done|]. intros (x & E & Hx)%in_map_iff. exact (proj1 (Hfresh x Hx) E).
    + apply in_or_app. right. by left.
  - intros r' t' Es Et Hu. unfold DeleteWebhookToken. rewrite Es, Et. unfold SchedulingStore.DeleteWebhookToken.
    rewrite run_bind, run_sql_ok by (apply Hrel || (cbn [forallb]; by rewrite Hu)). cbn [data tokens set_rds db_Redis set_tokens].
    assert (forall x, In x (tokens d) -> same_token slug (WebhookToken.ID tok) x = false) as Hno.
    { intros x Hx. unfold same_token. apply andb_false_iff. left. apply String.eqb_neq. by apply Hfresh. }
    assert (same_token slug (WebhookToken.ID tok) (TokenRow tok (sha256_hex raw)) = true) as Hyes.
    { unfold same_token. cbn [token]. by rewrite !String.eqb_refl. }
    change (hashToken raw) with (sha256_hex raw).
    rewrite (find_snoc _ _ _ Hno Hyes). cbn [token_hash]. rewrite run_bind, run_index_Del by done. cbn [run data].
    split; [done|]. split.
    + apply missing_refused; [done|]. cbn. apply lookup_delete_eq.
    + cbn [tokens set_rds db_Redis set_tokens]. rewrite List.filter_app. cbn [List.filter]. rewrite Hyes. cbn [negb].
      rewrite app_nil_r. apply filter_all. intros x Hx. by rewrite Hno.
  - intros r' t'. unfold DeleteTenant, SchedulingStore.DeleteTenant. rewrite run_bind, run_bind.
    rewrite run_sql_ok by (apply Hrel || done). cbn [run data snd].
    split; [|reflexivity]. apply indexed_accepted; [done..|]. by apply hset_indexed.
Qed.

Definition hex_entropy : Entropy := {| rand_Read t := Ok (replicate 32 (Z.of_nat t mod 256)) |}.

Definition token_body : option json := Some (JObj [("source", JStr "grafana")]).

Abbreviation token_run := (run (@CreateWebhookToken (demo_platform []) hex_entropy true config_request token_body)
  (World 0 config_db)).

Definition token_of (r : response body) : WebhookToken.t * string :=
  match r with Json _ (ANewToken tok raw) => (tok, raw) | _ => (WebhookToken.mk "" "" "" 0, "") end.

Lemma webhook_token_lifecycle_witness :
  let tok := (token_of token_run.1).1 in
  let raw := (token_of token_run.1).2 in
  accepted_for raw "acme" (index (data token_run.2))
  /\ tokens (data token_run.2) = [TokenRow tok (sha256_hex raw)]
  /\ (forall t', let w2 := (run (@rehydrate (demo_platform [])) (World t' (set_rds ∅ (data token_run.2)))).2 in
        accepted_for raw "acme" (index (data w2)))
  /\ (forall r' t', URLParam r' "slug" = "acme" -> URLParam r' "tokenId" = WebhookToken.ID tok ->
        @uuid_ok (demo_platform []) (WebhookToken.ID tok) = true ->
        let '(resp, w3) := run (@DeleteWebhookToken (demo_platform []) true r') (World t' (data token_run.2)) in
        resp = NoBody StatusNoContent /\ refused raw (index (data w3)) /\ tokens (data w3) = [])
  /\ (forall r' t', let w4 := (run (@DeleteTenant (demo_platform []) r') (World t' (data token_run.2))).2 in
        accepted_for raw "acme" (index (data w4)) /\ tokens (data w4) = tokens (data token_run.2)).
Proof.
  refine (@webhook_token_lifecycle (demo_platform []) hex_entropy config_request token_body "grafana" 0 config_db
    (token_of token_run.1).1 (token_of token_run.1).2 token_run.2 _ _ _ _ _ _ _).
  - intros t. reflexivity.
  - intros t b [= <-]. reflexivity.
  - intros h v e. change (index config_db) with (∅ : redis). by rewrite lookup_empty.
  - constructor.
  - discriminate.
  - reflexivity.
  - vm_compute. reflexivity.
Defined.
