(* ===== verification/Startup.v ===== *)
(** * The start of the five services: cmd/server/main.go

    With pkg/db/db.go (NewPool), pkg/migrate, pkg/redis, pkg/httpserver (NewRouter,
    Run) and the wiring of each main function.  A process is the list of what it
    has brought up and the state of its service.  [os.Exit(1)] after a failed
    step is the error of the program; its log line, the metrics and the release
    of the pool are left out.  A goroutine is recorded when it is started: what
    it runs is in [consumer] and [monitor]. *)

From S2P Require Import Prelude Effects Json Events Interleaving Amqp Http Auth Config RateLimit Redis EscalationStore Escalator EscalationHandler Cursor IncidentStore IncidentConsumer IncidentHandler Ingestion Notification NotificationHandler Ssrf Rotation SchedulingStore Keycloak SchedulingHandler.
Open Scope go_scope.

Inductive action :=
| PoolUp (dsn : string) (pc : PoolConfig)
| Migrated (dsn source : string)
| RedisUp (addr password : string)
| AmqpUp (url : string)
| TopologyUp
| ConsumerStarted
| MonitorStarted (interval : Duration)
| Listening (addr : string)
| Waited                          (* [g.Wait] has returned; Process says what that takes *)
| PublisherClosed
| ConnectionClosed.

Record proc (D : Type) := Proc { trace : list action; svc : D }.
Arguments Proc {_} _ _.
Arguments trace {_} _.
Arguments svc {_} _.

#[export] Instance proc_Part {D} : Part D (proc D) :=
  {| part := svc;
     set_part d e := Proc (trace e) d;
     part_set_part _ _ := eq_refl;
     set_part_part e := match e with Proc _ _ => eq_refl end;
     set_part_set_part _ _ _ := eq_refl |}.

(** The broker of a service behind a rate limiter. *)
#[export] Instance limited_Broker `{RateLib} {D} `{Broker D} : Broker (limited D).
Proof.
  refine {| net d := net (inner d); set_net n d := Limited (rl d) (set_net n (inner d)) |}.
  - intros n d. apply net_set_net.
  - intros d. rewrite set_net_net. by destruct d.
  - intros n n' d. simpl. by rewrite set_net_set_net.
Defined.

(** The notification service only consumes: its tables have no broker, the
    connection is beside them. *)
Record connected (D : Type) := Connected { link : netstate; served : D }.
Arguments Connected {_} _ _.
Arguments link {_} _.
Arguments served {_} _.

#[export] Instance connected_Broker {D} : Broker (connected D) :=
  {| net := link;
     set_net n d := Connected n (served d);
     net_set_net _ _ := eq_refl;
     set_net_net d := match d with Connected _ _ => eq_refl end;
     set_net_set_net _ _ _ := eq_refl |}.

(** The readiness probes of a service: the name of a check and what it asks. *)
Inductive probe := PoolPing | RedisPing | ConnectionReady | ConsumerHealthy.

(** What a main function has built when it starts to serve. *)
Record server (D Req Resp : Type) := Server {
  addr : string;
  checks : list (string * probe);
  consumer : option (Envelope.t -> M D handled);
  monitor : option (Duration * M D unit);
  api : Req -> M D Resp
}.
Arguments Server {_ _ _} _ _ _ _ _.
Arguments addr {_ _ _} _.
Arguments checks {_ _ _} _.
Arguments consumer {_ _ _} _.
Arguments monitor {_ _ _} _.
Arguments api {_ _ _} _.

(** The credentials of a request to a service behind the authentication. *)
Record credentials := Credentials { admin_header : string; authorization : string }.

Section Steps.
Context `{Platform} {D : Type}.

(** A step outside the process that can fail, and one inside. *)
Definition io (a : action) : M (proc D) (res unit) :=
  call (fun _ _ p => Ok (tt, Proc (trace p ++ [a]) (svc p))).

Definition note (a : action) : M (proc D) unit :=
  local_step (fun p => (tt, Proc (trace p ++ [a]) (svc p))).

(** A step outside the process that leaves nothing to remember. *)
Definition ask : M (proc D) (res unit) := call (fun _ _ p => Ok (tt, p)).

(** ** pkg/db: NewPool *)

(** Whether [pgxpool.ParseConfig] accepts a connection string. *)
Variable parse_dsn : string -> bool.

Definition NewPool (e : env) (dsn : string) : M (proc D) (res unit) :=
  let? _ := Ret (if parse_dsn dsn then Ok tt else Err (ErrNew "cannot parse")) wrap "parse dsn" in
  let? _ := ask wrap "create pool" in
  let? _ := io (PoolUp dsn (DefaultPoolConfig e)) wrap "ping db" in
  Ret (Ok tt).

(** ** pkg/migrate: Run *)

Definition ErrNoChange : err := ErrNew "no change".

Definition migrate_Run (dsn source table : string) : M (proc D) (res unit) :=
  let sep := if Contains dsn "?" then "&" else "?" in
  let dsn := dsn +:+ sep +:+ "x-migrations-table=" +:+ table in
  let? _ := ask wrap "migrate.New" in
  let! up := ask in
  match up with
  | Err e =>
      if errors_Is e ErrNoChange then let! _ := note (Migrated dsn source) in Ret (Ok tt)
      else Ret (Err (Wrap "migrate up" e))
  | Ok _ => let! _ := note (Migrated dsn source) in Ret (Ok tt)
  end.

(** ** pkg/redis: NewClient *)

Definition NewClient (addr password : string) : M (proc D) (res unit) :=
  let? _ := io (RedisUp addr password) wrap "ping redis" in
  Ret (Ok tt).

(** ** pkg/amqp: NewConnection, and the topology every service declares *)

Definition NewConnection `{Broker D} (url : string) : M (proc D) (res unit) :=
  let? _ := zoom dial in
  let! _ := note (AmqpUp url) in
  Ret (Ok tt).

Definition amqp_setup `{Broker D} (url : string) : M (proc D) (res unit) :=
  let? _ := NewConnection url in
  let? _ := zoom Channel in
  let? _ := zoom DeclareTopology in
  let! _ := note TopologyUp in
  let! _ := ask in
  Ret (Ok tt).

(** ** pkg/httpserver: NewRouter without /metrics, and Run

    [Run] fails when the listener does, and returns when the process is told to
    stop. *)

Definition NewRouter (checks : list (string * probe)) (status : probe -> res unit) (path : string)
    : option (response (string * gmap string string)) :=
  if String.eqb path "/healthz" then Some (NoBody StatusOK)
  else if String.eqb path "/readyz"
  then Some (ReadyHandler (map (fun c => {| Http.Name := c.1; Http.Probe := status c.2 |}) checks))
  else None.

Definition Run (addr : string) : M (proc D) (res unit) := io (Listening addr).

End Steps.

(** The authentication a service builds from its configuration. *)
Record auth_config := AuthConfig { opts : Options; disabled : bool }.

Section Mains.
Context `{Platform} `{TimeText} `{HttpEnv} `{Network} `{Planner} `{Resolver} `{Entropy} `{Keycloak} `{RateLib}.
Variable parse_dsn : string -> bool.
Variable url_scheme : string -> option string.
Variable jwks_ok : string -> bool.
Variable parse_jwt : Options -> string -> option (list (string * json)).
Variable load_location : string -> option Location.

Definition auth_init {B} (c : auth_config) : res (middleware B) :=
  MiddlewareOrPassthrough url_scheme jwks_ok parse_jwt (opts c) (disabled c).

(** A request to [/{tenant}/...]: the authentication, the tenant check, the
    handler. *)
Definition tenant_params (tenant : string) (key : string) : string :=
  if String.eqb key "tenant" then tenant else EmptyString.

(** ** services/incident/cmd/server/main.go *)

Definition incident_auth (cfg : Config.Incident.Config) : auth_config :=
  AuthConfig {| JWKSURL := Config.Incident.KeycloakJWKSURL cfg; AdminKey := Config.Incident.AdminKey cfg;
                Issuer := Config.Incident.KeycloakIssuer cfg; Audience := Config.Incident.KeycloakAudience cfg;
                AllowInsecureJWKS := Config.Incident.AllowInsecureJWKS cfg |}
             (Config.Incident.AuthDisabled cfg).

Definition incident_start (e : env)
    : M (proc IncidentStore.db) (res (server IncidentStore.db (credentials * string * IncidentHandler.route)
                                        (response IncidentHandler.body))) :=
  let cfg := Config.Incident.Load e in
  let? _ := NewPool parse_dsn e (Config.Incident.DBDSN cfg) in
  let? _ := migrate_Run (Config.Incident.DBDSN cfg) "file://./migrations" "incident_schema_migrations" in
  let? _ := amqp_setup (Config.Incident.AMQPURL cfg) in
  match auth_init (incident_auth cfg) with
  | Err e => Ret (Err e)
  | Ok authMW =>
      let! _ := note ConsumerStarted in
      Ret (Ok (Server (":" +:+ Config.Incident.HTTPPort cfg)
        [("postgres", PoolPing); ("amqp", ConnectionReady); ("consumer", ConsumerHealthy)]
        (Some IncidentConsumer.consumer_handler) None
        (fun r => IncidentHandler.serve authMW (admin_header r.1.1) (authorization r.1.1) r.1.2 r.2)))
  end.

Definition incident_main (e : env) : M (proc IncidentStore.db) (res unit) :=
  let? srv := incident_start e in
  let? _ := Run (addr srv) in
  let! _ := note Waited in
  let! _ := zoom Publisher_Close in
  let! _ := note PublisherClosed in
  let! _ := zoom Connection_Close in
  let! _ := note ConnectionClosed in
  Ret (Ok tt).

(** ** services/escalation/cmd/server/main.go *)

Definition escalation_auth (cfg : Config.Escalation.Config) : auth_config :=
  AuthConfig {| JWKSURL := Config.Escalation.KeycloakJWKSURL cfg; AdminKey := Config.Escalation.AdminKey cfg;
                Issuer := Config.Escalation.KeycloakIssuer cfg; Audience := Config.Escalation.KeycloakAudience cfg;
                AllowInsecureJWKS := Config.Escalation.AllowInsecureJWKS cfg |}
             (Config.Escalation.AuthDisabled cfg).

(** The event publisher: without RabbitMQ events are discarded. *)
Definition escalation_publisher (cfg : Config.Escalation.Config) : EscalationPublisher :=
  if String.eqb (Config.Escalation.AMQPURL cfg) "" then Noop else Publisher.

Definition escalation_api (cfg : Config.Escalation.Config)
    (authMW : middleware (Auth.context * Auth.request)) (r : credentials * string * EscalationHandler.request)
    : M EscalationStore.db (response EscalationHandler.body) :=
  let req := Auth.Request (admin_header r.1.1) (authorization r.1.1) (tenant_params r.1.2) in
  match authMW (RequireTenantMember (fun ctx r => Json StatusOK (ctx, r))) background req with
  | Json _ _ =>
      @EscalationHandler.serve _ _ _ (escalation_publisher cfg)
        (Http.New (Config.Escalation.SchedulingURL cfg) (Config.Escalation.SchedulingAdminKey cfg))
        (Some (Http.New (Config.Escalation.IncidentURL cfg) (Config.Escalation.IncidentAdminKey cfg)))
        r.1.2 r.2
  | Error code msg => Ret (Error code msg)
  | NoBody code => Ret (NoBody code)
  end.

Definition escalation_start (e : env)
    : M (proc EscalationStore.db) (res (server EscalationStore.db (credentials * string * EscalationHandler.request)
                                          (response EscalationHandler.body))) :=
  let cfg := Config.Escalation.Load e in
  let? _ := NewPool parse_dsn e (Config.Escalation.DBDSN cfg) in
  let? _ := migrate_Run (Config.Escalation.DBDSN cfg) "file://./migrations" "escalation_schema_migrations" in
  let sched := Http.New (Config.Escalation.SchedulingURL cfg) (Config.Escalation.SchedulingAdminKey cfg) in
  let amqp := negb (String.eqb (Config.Escalation.AMQPURL cfg) "") in
  let? _ := (if amqp then amqp_setup (Config.Escalation.AMQPURL cfg) else Ret (Ok tt)) in
  let pub := escalation_publisher cfg in
  let! _ := (if amqp then note ConsumerStarted else Ret tt) in
  let! _ := note (MonitorStarted (30 * Second)) in
  match auth_init (escalation_auth cfg) with
  | Err e => Ret (Err e)
  | Ok authMW =>
      Ret (Ok (Server (":" +:+ Config.Escalation.HTTPPort cfg)
        (("postgres", PoolPing) :: if amqp then [("amqp", ConnectionReady); ("consumer", ConsumerHealthy)] else [])
        (if amqp then Some (@Escalator.consumer_handler _ _ _ pub sched) else None)
        (Some (30 * Second, @Escalator.step _ _ _ pub sched))
        (escalation_api cfg authMW)))
  end.

Definition escalation_main (e : env) : M (proc EscalationStore.db) (res unit) :=
  let? srv := escalation_start e in
  let? _ := Run (addr srv) in
  let! _ := note Waited in
  if negb (String.eqb (Config.Escalation.AMQPURL (Config.Escalation.Load e)) "") then
    let! _ := zoom Publisher_Close in
    let! _ := note PublisherClosed in
    let! _ := zoom Connection_Close in
    let! _ := note ConnectionClosed in
    Ret (Ok tt)
  else Ret (Ok tt).

(** ** services/notification/cmd/server/main.go *)

Definition notification_auth (cfg : Config.Notification.Config) : auth_config :=
  AuthConfig {| JWKSURL := Config.Notification.KeycloakJWKSURL cfg; AdminKey := Config.Notification.AdminKey cfg;
                Issuer := Config.Notification.KeycloakIssuer cfg; Audience := Config.Notification.KeycloakAudience cfg;
                AllowInsecureJWKS := Config.Notification.AllowInsecureJWKS cfg |}
             (Config.Notification.AuthDisabled cfg).

Definition notification_handler (cfg : Config.Notification.Config) (env : Envelope.t)
    : M Notification.db handled :=
  let! r := Notification.handle (Config.Notification.RateLimitMax cfg) (Config.Notification.RateLimitWindow cfg)
              (Http.New (Config.Notification.SchedulingURL cfg) (Config.Notification.SchedulingAdminKey cfg))
              (5 * Minute) (Config.Notification.SMTPFrom cfg) (Config.Notification.FrontendBaseURL cfg) env in
  Ret (Returned r).

Definition notification_start (e : env)
    : M (proc (connected Notification.db)) (res (server Notification.db (credentials * NotificationHandler.route)
                                       (response NotificationHandler.body))) :=
  let cfg := Config.Notification.Load e in
  let? _ := NewPool parse_dsn e (Config.Notification.DBDSN cfg) in
  let? _ := migrate_Run (Config.Notification.DBDSN cfg) "file://./migrations" "notification_schema_migrations" in
  let? _ := NewClient (Config.Notification.RedisAddr cfg) (Config.Notification.RedisPassword cfg) in
  let amqp := negb (String.eqb (Config.Notification.AMQPURL cfg) "") in
  let? _ := (if amqp then amqp_setup (Config.Notification.AMQPURL cfg) else Ret (Ok tt)) in
  let! _ := (if amqp then note ConsumerStarted else Ret tt) in
  match auth_init (notification_auth cfg) with
  | Err e => Ret (Err e)
  | Ok authMW =>
      Ret (Ok (Server (":" +:+ Config.Notification.HTTPPort cfg)
        ([("postgres", PoolPing); ("redis", RedisPing)] ++ if amqp then [("consumer", ConsumerHealthy)] else [])
        (if amqp then Some (notification_handler cfg) else None) None
        (fun r => NotificationHandler.serve authMW (admin_header r.1) (authorization r.1) r.2)))
  end.

Definition notification_main (e : env) : M (proc (connected Notification.db)) (res unit) :=
  let? srv := notification_start e in
  let? _ := Run (addr srv) in
  let! _ := note Waited in
  if negb (String.eqb (Config.Notification.AMQPURL (Config.Notification.Load e)) "")
  then let! _ := zoom Connection_Close in let! _ := note ConnectionClosed in Ret (Ok tt)
  else Ret (Ok tt).

(** ** services/ingestion/cmd/server/main.go

    The state of the process has the rate limiter of the webhook routes. *)

Definition new_limiter (rps burst : Z) : M (proc (limited Ingestion.db)) unit :=
  Atomic (fun w => (tt, World (S (tick w)) (Proc (trace (data w))
    (Limited (new_rateLimiter rps burst (now_at (tick w))) (inner (svc (data w))))))) Ret.

(** A webhook request: the address of the peer, the route, the token, the body. *)
Record webhook_request := WebhookRequest {
  RemoteAddr : string;
  endpoint : webhook;
  X_Webhook_Token : string;
  webhook_body : Ingestion.upload
}.

Definition ingestion_start (e : env)
    : M (proc (limited Ingestion.db)) (res (server (limited Ingestion.db) webhook_request (response unit))) :=
  let cfg := Config.Ingestion.Load e in
  let? _ := NewPool parse_dsn e (Config.Ingestion.DBDSN cfg) in
  let? _ := migrate_Run (Config.Ingestion.DBDSN cfg) "file://./migrations" "ingestion_schema_migrations" in
  let? _ := NewClient (Config.Ingestion.RedisAddr cfg) (Config.Ingestion.RedisPass cfg) in
  let? _ := amqp_setup (Config.Ingestion.AMQPURL cfg) in
  let! _ := new_limiter (Config.Ingestion.RateLimitRPS cfg) (Config.Ingestion.RateLimitBurst cfg) in
  Ret (Ok (Server (":" +:+ Config.Ingestion.HTTPPort cfg)
    [("postgres", PoolPing); ("redis", RedisPing); ("amqp", ConnectionReady)] None None
    (fun r => RateLimit (Ingestion.serve (Config.Ingestion.DedupTTL cfg) (endpoint r) (X_Webhook_Token r) (webhook_body r))
                (RemoteAddr r)))).

Definition ingestion_main (e : env) : M (proc (limited Ingestion.db)) (res unit) :=
  let? srv := ingestion_start e in
  let? _ := Run (addr srv) in
  let! _ := zoom Publisher_Close in
  let! _ := note PublisherClosed in
  let! _ := zoom Connection_Close in
  let! _ := note ConnectionClosed in
  Ret (Ok tt).

(** ** services/scheduling/cmd/server/main.go

    Without Redis there is no token index, without a Keycloak client no members. *)

Definition scheduling_auth (cfg : Config.Scheduling.Config) : auth_config :=
  AuthConfig {| JWKSURL := Config.Scheduling.KeycloakJWKSURL cfg; AdminKey := Config.Scheduling.AdminKey cfg;
                Issuer := Config.Scheduling.KeycloakIssuer cfg; Audience := Config.Scheduling.KeycloakAudience cfg;
                AllowInsecureJWKS := Config.Scheduling.AllowInsecureJWKS cfg |}
             (Config.Scheduling.AuthDisabled cfg).

Definition membersClient (cfg : Config.Scheduling.Config) : option (string * string) :=
  if negb (String.eqb (Config.Scheduling.KeycloakClientID cfg) "")
     && negb (String.eqb (Config.Scheduling.KeycloakClientSecret cfg) "")
  then Some (Config.Scheduling.KeycloakAdminURL cfg, Config.Scheduling.KeycloakRealm cfg)
  else None.

(** [fuel] is the one of the shift listing. *)
Definition scheduling_start (e : env)
    : M (proc SchedulingStore.db)
        (res (server SchedulingStore.db (nat * credentials * SchedulingHandler.route)
                (option (response SchedulingHandler.body)))) :=
  let cfg := Config.Scheduling.Load e in
  let? _ := NewPool parse_dsn e (Config.Scheduling.DBDSN cfg) in
  let? _ := migrate_Run (Config.Scheduling.DBDSN cfg) "file://./migrations" "scheduling_schema_migrations" in
  let! rdb := NewClient (Config.Scheduling.RedisAddr cfg) (Config.Scheduling.RedisPassword cfg) in
  let members := membersClient cfg in
  let! _ := (if is_ok rdb then zoom rehydrate else Ret tt) in
  match auth_init (scheduling_auth cfg) with
  | Err e => Ret (Err e)
  | Ok authMW =>
      Ret (Ok (Server (":" +:+ Config.Scheduling.HTTPPort cfg)
        (("postgres", PoolPing) :: if is_ok rdb then [("redis", RedisPing)] else []) None None
        (fun r => SchedulingHandler.serve load_location members (is_ok rdb) authMW r.1.1
                    (admin_header r.1.2) (authorization r.1.2) r.2)))
  end.

Definition scheduling_main (e : env) : M (proc SchedulingStore.db) (res unit) :=
  let? srv := scheduling_start e in
  Run (addr srv).

End Mains.
