(* ===== verification/StartupProps.v ===== *)
(** * What the start of a service guarantees *)

From S2P Require Import Prelude Effects Json Events Interleaving Amqp Messages Http Auth Config RateLimit Redis EscalationStore Escalator EscalationHandler Cursor IncidentStore IncidentConsumer IncidentHandler Ingestion Notification NotificationHandler Ssrf Rotation SchedulingStore Keycloak SchedulingHandler IncidentProps Startup.
Open Scope go_scope.

(** ** The order of a start *)

Inductive kind :=
| KPool | KMigrated | KRedis | KAmqp | KTopology | KConsumer | KMonitor | KListening | KWaited
| KPublisherClosed | KConnectionClosed.

#[export] Instance kind_eq_dec : EqDecision kind.
Proof. solve_decision. Defined.

Definition kind_of (a : action) : kind :=
  match a with
  | PoolUp _ _ => KPool
  | Migrated _ _ => KMigrated
  | RedisUp _ _ => KRedis
  | AmqpUp _ => KAmqp
  | TopologyUp => KTopology
  | ConsumerStarted => KConsumer
  | MonitorStarted _ => KMonitor
  | Listening _ => KListening
  | Waited => KWaited
  | PublisherClosed => KPublisherClosed
  | ConnectionClosed => KConnectionClosed
  end.

(** What must have happened before a step; [listen] is what the service needs to
    listen. *)
Definition prerequisites (listen : list kind) (k : kind) : list kind :=
  match k with
  | KMigrated => [KPool]
  | KTopology => [KAmqp]
  | KConsumer => [KMigrated; KTopology]
  | KMonitor => [KMigrated]
  | KListening => listen
  | KWaited | KPublisherClosed | KConnectionClosed => [KListening]
  | _ => []
  end.

(** What a service that can do without a broker needs to listen: with one, the
    topology and the consumer too. *)
Definition with_broker (e : env) (l : list kind) : list kind :=
  if String.eqb (e "RABBITMQ_URL") "" then l else l ++ [KTopology; KConsumer].

(** Every step comes after its prerequisites, and the connection is closed only
    when a started consumer has been waited for. *)
Definition well_ordered (listen : list kind) (tr : list kind) : Prop :=
  forall pre k post, tr = pre ++ k :: post ->
    Forall (fun k' => k' ∈ pre) (prerequisites listen k)
    /\ (k = KConnectionClosed -> KConsumer ∈ pre -> KWaited ∈ pre).

(** The kinds of the steps of a process. *)
Definition kinds {D} (p : proc D) : list kind := map kind_of (trace p).

Lemma well_ordered_snoc listen tr k :
  well_ordered listen tr -> Forall (fun k' => k' ∈ tr) (prerequisites listen k) ->
  (k = KConnectionClosed -> KConsumer ∈ tr -> KWaited ∈ tr) -> well_ordered listen (tr ++ [k]).
Proof.
  intros Hw Hp Hc pre k' post E. destruct post as [|x post _] using rev_ind.
  - apply app_inj_tail in E as [-> ->]. done.
  - rewrite app_comm_cons, app_assoc in E. apply app_inj_tail in E as [-> ->]. by eapply Hw.
Qed.

(** ** What is known of the steps so far: those of [ks] have happened, and no
    consumer was started unless [c] *)

Definition known (ks : list kind) (c : bool) (tr : list kind) : Prop :=
  Forall (fun k => k ∈ tr) ks /\ (c = false -> KConsumer ∉ tr).

(** Whether that is enough for a step. *)
Definition permits (listen ks : list kind) (c : bool) (k : kind) : bool :=
  forallb (fun k' => bool_decide (k' ∈ ks)) (prerequisites listen k)
  && (negb (bool_decide (k = KConnectionClosed)) || negb c || bool_decide (KWaited ∈ ks)).

Lemma permits_in listen ks c k :
  Forall (fun k' => k' ∈ ks) (prerequisites listen k) -> (k = KConnectionClosed -> c = true -> KWaited ∈ ks) ->
  permits listen ks c k = true.
Proof.
  intros Hp Hc. unfold permits. apply andb_true_intro. split.
  - apply forallb_forall. intros k' Hk%list_elem_of_In. apply bool_decide_eq_true. by eapply Forall_forall in Hp.
  - destruct (bool_decide_reflect (k = KConnectionClosed)); [|done]. destruct c; [|done].
    simpl. apply bool_decide_eq_true. auto.
Qed.

Lemma permits_sound listen ks c k tr :
  permits listen ks c k = true -> known ks c tr -> well_ordered listen tr -> well_ordered listen (tr ++ [k]).
Proof.
  unfold permits. intros [Hp Hc]%andb_prop [Hks Hcons] Hw. apply well_ordered_snoc; [done|..].
  - apply Forall_forall. intros k' Hk'. rewrite forallb_forall in Hp.
    apply list_elem_of_In in Hk'. specialize (Hp k' Hk'). apply bool_decide_eq_true in Hp.
    by eapply Forall_forall in Hks.
  - intros -> Hin. rewrite bool_decide_true in Hc by done. simpl in Hc. destruct c; simpl in Hc.
    + apply bool_decide_eq_true in Hc. by eapply Forall_forall in Hks.
    + by destruct (Hcons eq_refl).
Qed.

Lemma known_snoc ks c tr k :
  known ks c tr -> known (k :: ks) (c || bool_decide (k = KConsumer)) (tr ++ [k]).
Proof.
  intros [Hks Hc]. split.
  - constructor; [apply elem_of_app; right; by left|].
    eapply Forall_impl; [exact Hks|]. intros k' ?. apply elem_of_app. by left.
  - intros [-> Hk%bool_decide_eq_false]%orb_false_iff [Hin|Hin%list_elem_of_singleton]%elem_of_app.
    + by apply Hc.
    + by apply Hk.
Qed.

Section Boots.
Context `{Platform} {D : Type}.
Variable listen : list kind.

(** From a well-ordered trace with what [P] knows, [p] leads to one with what [Q]
    knows of its answer. *)
Definition boots {A} (ks : list kind) (c : bool) (p : M (proc D) A) (Q : A -> list kind -> Prop) : Prop :=
  forall w a w', well_ordered listen (kinds (data w)) -> known ks c (kinds (data w)) -> run p w = (a, w') ->
    well_ordered listen (kinds (data w')) /\ Q a (kinds (data w')).

Lemma boots_ret {A} ks c (a : A) (Q : A -> list kind -> Prop) :
  (forall tr, known ks c tr -> Q a tr) -> boots ks c (Ret a) Q.
Proof. intros HQ w a' w' Hw Hk [= <- <-]. auto. Qed.

(** A step whose answer is an error ends the start: nothing is asked of it. *)
Definition next_known (ks : list kind) (c : bool) (A : Type) (r : res A) (tr : list kind) : Prop :=
  match r with Ok _ => known ks c tr | Err _ => True end.

Lemma boots_bind {A B} ks c ks' c' (p : M (proc D) (res A)) (f : res A -> M (proc D) (res B)) Q :
  boots ks c p (next_known ks' c' A) -> (forall a, boots ks' c' (f (Ok a)) Q) ->
  (forall e, exists e', f (Err e) = Ret (Err e')) -> (forall e tr, Q (Err e) tr) ->
  boots ks c (bind p f) Q.
Proof.
  intros Hp Hf He HQ w b w' Hw Hk Hr. rewrite run_bind in Hr.
  destruct (run p w) as [[a|e] w1] eqn:E1; destruct (Hp _ _ _ Hw Hk E1) as [Hw1 Hk1].
  - by eapply Hf.
  - destruct (He e) as [e' Ee]. rewrite Ee in Hr. injection Hr as <- <-. auto.
Qed.

Lemma boots_note {B} ks c k a (f : M (proc D) (res B)) Q :
  kind_of a = k -> permits listen ks c k = true ->
  boots (k :: ks) (c || bool_decide (k = KConsumer)) f Q ->
  boots ks c (bind (note a) (fun _ => f)) Q.
Proof.
  intros Hk Hp Hf w b w' Hw Hkn Hr. rewrite run_bind in Hr. cbn in Hr.
  eapply Hf in Hr; [exact Hr|..]; unfold kinds; simpl; rewrite map_app; simpl; rewrite Hk.
  - by eapply permits_sound.
  - by apply known_snoc.
Qed.

Lemma boots_zoom {A B} ks c (p : M D A) (f : A -> M (proc D) B) Q :
  (forall a, boots ks c (f a) Q) -> boots ks c (bind (zoom p) f) Q.
Proof.
  intros Hf w b w' Hw Hk Hr. rewrite run_bind, run_zoom in Hr.
  destruct (run p _) as [a w1]. by eapply Hf in Hr.
Qed.

Lemma boots_weaken {A} ks c (p : M (proc D) A) (Q Q' : A -> list kind -> Prop) :
  (forall a tr, Q a tr -> Q' a tr) -> boots ks c p Q -> boots ks c p Q'.
Proof. intros HQ Hp w a w' Hw Hk Hr. destruct (Hp _ _ _ Hw Hk Hr). auto. Qed.

(** A step outside the process may fail before or after its effect. *)
Lemma boots_io ks c a :
  permits listen ks c (kind_of a) = true ->
  boots ks c (io a) (next_known (kind_of a :: ks) (c || bool_decide (kind_of a = KConsumer)) unit).
Proof.
  intros Hp w r w' Hw Hk Hr. cbn in Hr.
  destruct (fault_at (tick w)) as [[e|e]|]; injection Hr as <- <-; [done|..];
    unfold kinds; simpl; rewrite map_app; (split; [by eapply permits_sound|]); [done|].
  by apply known_snoc.
Qed.

Lemma boots_ask ks c : boots ks c (@ask _ D) (next_known ks c unit).
Proof.
  intros w r w' Hw Hk Hr. cbn in Hr. by destruct (fault_at (tick w)) as [[e|e]|]; injection Hr as <- <-.
Qed.

(** Going on after a step whatever it answered. *)
Lemma boots_any {A B} ks c (p : M (proc D) A) (f : A -> M (proc D) B) Q :
  boots ks c p (fun _ => known ks c) -> (forall a, boots ks c (f a) Q) -> boots ks c (bind p f) Q.
Proof.
  intros Hp Hf w b w' Hw Hk Hr. rewrite run_bind in Hr.
  destruct (run p w) as [a w1] eqn:E1. destruct (Hp _ _ _ Hw Hk E1). by eapply Hf.
Qed.

Lemma boots_NewPool parse ks c e dsn :
  boots ks c (NewPool parse e dsn) (next_known (KPool :: ks) c unit).
Proof.
  unfold NewPool. eapply (boots_bind _ _ ks c).
  - destruct (parse dsn); by apply boots_ret.
  - intros _. eapply boots_bind; [apply boots_ask|intros _|eauto|done].
    eapply boots_bind; [by apply boots_io|intros _|eauto|done]. apply boots_ret.
    simpl. by rewrite orb_false_r.
  - eauto.
  - done.
Qed.

Lemma boots_migrate_Run ks c dsn source table :
  KPool ∈ ks -> boots ks c (migrate_Run dsn source table) (next_known (KMigrated :: ks) c unit).
Proof.
  intros Hks. unfold migrate_Run. eapply boots_bind; [apply boots_ask|intros _|eauto|done].
  assert (forall dsn, boots ks c (bind (note (Migrated dsn source)) (fun _ => Ret (Ok tt)))
            (next_known (KMigrated :: ks) c unit)) as Hn.
  { intros dsn'. eapply boots_note; [reflexivity|by apply permits_in; [repeat constructor|]|]. apply boots_ret.
    simpl. by rewrite orb_false_r. }
  apply boots_any.
  - intros w r w' Hw Hk Hr. destruct (boots_ask ks c w r w' Hw Hk Hr) as [? _].
    cbn in Hr. destruct (fault_at (tick w)) as [[]|]; by injection Hr as <- <-.
  - intros [u|e]; [apply Hn|]. destruct (errors_Is e ErrNoChange); [apply Hn|by apply boots_ret].
Qed.

Lemma boots_NewClient ks c addr password :
  boots ks c (NewClient addr password) (next_known (KRedis :: ks) c unit).
Proof.
  unfold NewClient. eapply boots_bind; [by apply boots_io|intros _|eauto|done]. apply boots_ret.
  simpl. by rewrite orb_false_r.
Qed.

(** ... when the service can do without Redis. *)
Lemma boots_NewClient_any ks c addr password : boots ks c (NewClient addr password) (fun _ => known ks c).
Proof.
  intros w r w' Hw Hk Hr. destruct (boots_NewClient ks c addr password w r w' Hw Hk Hr) as [Hw' _].
  split; [done|]. unfold NewClient in Hr. rewrite run_bind in Hr. cbn in Hr.
  assert (known ks c (kinds (data w) ++ [KRedis])) as Hn.
  { apply (known_snoc _ _ _ KRedis) in Hk as [Hks Hc]. apply Forall_cons in Hks as [_ Hks].
    split; [done|]. intros ->. by apply Hc. }
  destruct (fault_at (tick w)) as [[]|]; injection Hr as <- <-; [done|..];
    unfold kinds; simpl; by rewrite map_app.
Qed.

Lemma boots_amqp_setup `{Broker D} ks c url :
  boots ks c (amqp_setup url) (next_known (KTopology :: KAmqp :: ks) c unit).
Proof.
  unfold amqp_setup. eapply (boots_bind _ _ (KAmqp :: ks) c).
  - unfold NewConnection. apply boots_zoom. intros [u|e]; [|by apply boots_ret].
    eapply boots_note; [reflexivity|done|]. apply boots_ret. simpl. by rewrite orb_false_r.
  - intros _. apply boots_zoom. intros [u|e]; [|by apply boots_ret].
    apply boots_zoom. intros [v|e]; [|by apply boots_ret].
    eapply boots_note; [reflexivity|by apply permits_in; [repeat constructor|]|].
    apply boots_any; [|intros a; apply boots_ret; simpl; by rewrite orb_false_r].
    intros w r w' Hw Hk Hr. cbn in Hr. rewrite orb_false_r in *.
    destruct (fault_at (tick w)) as [[]|]; by injection Hr as <- <-.
  - eauto.
  - done.
Qed.

Lemma boots_Run ks c addr :
  Forall (fun k => k ∈ ks) listen -> boots ks c (Run addr) (next_known (KListening :: ks) c unit).
Proof.
  intros Hl. unfold Run. eapply boots_weaken; [|apply boots_io].
  - intros [u|e] tr; simpl; [|done]. by rewrite orb_false_r.
  - by apply permits_in.
Qed.

End Boots.

(** ** The five starts *)

(** What is known once the service listens is enough for the closing steps. *)
Ltac boots_step :=
  lazymatch goal with
  | |- boots _ _ _ (bind (NewPool _ _ _) _) _ => eapply boots_bind; [apply boots_NewPool|intros []|eauto|done]
  | |- boots _ _ _ (bind (migrate_Run _ _ _) _) _ =>
      eapply boots_bind; [apply boots_migrate_Run; repeat constructor|intros []|eauto|done]
  | |- boots _ _ _ (bind (amqp_setup _) _) _ => eapply boots_bind; [apply boots_amqp_setup|intros []|eauto|done]
  | |- boots _ _ _ (bind (NewClient _ _) _) _ => eapply boots_bind; [apply boots_NewClient|intros []|eauto|done]
  | |- boots _ _ _ (bind (Run _) _) _ =>
      eapply boots_bind; [apply boots_Run; repeat constructor|intros []|eauto|done]
  | |- boots _ _ _ (bind (note _) _) _ =>
      eapply boots_note; [reflexivity|apply permits_in; [repeat constructor|by intros; repeat constructor]|]
  | |- boots _ _ _ (bind (zoom _) _) _ => apply boots_zoom; intros ?
  | |- boots _ _ _ (Ret _) _ => by apply boots_ret
  | |- boots _ _ _ (bind (Ret _) _) _ => cbn [bind]
  | |- boots _ _ _ (match auth_init _ _ _ _ with _ => _ end) _ =>
      destruct (auth_init _ _ _ _) as [?|?]
  end.

Section Order.
Context `{Platform} `{TimeText} `{HttpEnv} `{Network} `{Planner} `{Resolver} `{Entropy} `{Keycloak} `{RateLib}.
Variable parse_dsn : string -> bool.
Variable url_scheme : string -> option string.
Variable jwks_ok : string -> bool.
Variable parse_jwt : Options -> string -> option (list (string * json)).
Variable load_location : string -> option Location.

Lemma incident_order e :
  boots [KPool; KMigrated; KTopology; KConsumer] [] false
    (incident_main parse_dsn url_scheme jwks_ok parse_jwt e) (fun _ _ => True).
Proof.
  unfold incident_main. eapply (boots_bind _ _ _ [KConsumer; KTopology; KAmqp; KMigrated; KPool] true).
  - unfold incident_start. cbv zeta. repeat boots_step.
  - intros srv. repeat boots_step.
  - eauto.
  - done.
Qed.

Lemma escalation_order e :
  boots (with_broker e [KPool; KMigrated; KMonitor]) [] false
    (escalation_main parse_dsn url_scheme jwks_ok parse_jwt e) (fun _ _ => True).
Proof.
  unfold escalation_main, escalation_start, with_broker. cbv zeta.
  assert (Config.Escalation.AMQPURL (Config.Escalation.Load e) = e "RABBITMQ_URL") as -> by done.
  destruct (String.eqb (e "RABBITMQ_URL") ""); cbn [negb app].
  2: eapply (boots_bind _ _ _ [KMonitor; KConsumer; KTopology; KAmqp; KMigrated; KPool] true);
      [repeat boots_step|intros srv; repeat boots_step|eauto|done].
  eapply (boots_bind _ _ _ [KMonitor; KMigrated; KPool] false);
      [repeat boots_step|intros srv; repeat boots_step|eauto|done].
Qed.

Lemma notification_order e :
  boots (with_broker e [KPool; KMigrated; KRedis]) [] false
    (notification_main parse_dsn url_scheme jwks_ok parse_jwt e) (fun _ _ => True).
Proof.
  unfold notification_main, notification_start, with_broker. cbv zeta.
  assert (Config.Notification.AMQPURL (Config.Notification.Load e) = e "RABBITMQ_URL") as -> by done.
  destruct (String.eqb (e "RABBITMQ_URL") ""); cbn [negb app].
  2: eapply (boots_bind _ _ _ [KConsumer; KTopology; KAmqp; KRedis; KMigrated; KPool] true);
      [repeat boots_step|intros srv; repeat boots_step|eauto|done].
  eapply (boots_bind _ _ _ [KRedis; KMigrated; KPool] false);
      [repeat boots_step|intros srv; repeat boots_step|eauto|done].
Qed.

Lemma boots_new_limiter {B} listen ks c x y (f : M (proc (limited Ingestion.db)) B) Q :
  boots listen ks c f Q -> boots listen ks c (bind (new_limiter x y) (fun _ => f)) Q.
Proof. intros Hf w b w' Hw Hk Hr. rewrite run_bind in Hr. cbn in Hr. by eapply Hf in Hr. Qed.

Lemma ingestion_order e :
  boots [KPool; KMigrated; KRedis; KTopology] [] false (ingestion_main parse_dsn e) (fun _ _ => True).
Proof.
  unfold ingestion_main, ingestion_start. cbv zeta.
  eapply (boots_bind _ _ _ [KTopology; KAmqp; KRedis; KMigrated; KPool] false).
  - do 4 boots_step. apply boots_new_limiter. repeat boots_step.
  - intros srv. repeat boots_step.
  - eauto.
  - done.
Qed.

Lemma scheduling_order e :
  boots [KPool; KMigrated] [] false
    (scheduling_main parse_dsn url_scheme jwks_ok parse_jwt load_location e) (fun _ _ => True).
Proof.
  unfold scheduling_main, scheduling_start. cbv zeta.
  eapply (boots_bind _ _ _ [KMigrated; KPool] false).
  - do 2 boots_step. apply boots_any; [apply boots_NewClient_any|intros rdb].
    apply boots_any; [|intros _; repeat boots_step].
    destruct (is_ok rdb); [|by apply boots_ret].
    intros w a w' Hw Hk Hr. rewrite run_zoom in Hr. destruct (run rehydrate _) as [u w1]. by injection Hr as <- <-.
  - intros srv. eapply boots_weaken; [|apply boots_Run; repeat constructor]. done.
  - eauto.
  - done.
Qed.
End Order.

(** ** Who a started service answers *)

(** Whatever the state, the answer is 401 or 403. *)
Definition refuses {D A} (answer : Z -> string -> A) (p : M D A) : Prop :=
  forall w, exists code msg w', run p w = (answer code msg, w') /\ (code = StatusUnauthorized \/ code = StatusForbidden).

Lemma admin_member c slug : IsAdmin c slug = true -> IsMember c slug = true.
Proof.
  unfold IsAdmin, IsMember. rewrite !existsb_exists. intros (g & Hin & ->%String.eqb_eq).
  eexists. split; [exact Hin|]. apply orb_true_iff. right.
  replace ("/" +:+ slug +:+ "/admins") with ((("/" +:+ slug) +:+ "/") +:+ "admins") by (by rewrite !str_app_assoc).
  apply HasPrefix_app.
Qed.

Section Access.
Variable url_scheme : string -> option string.
Variable jwks_ok : string -> bool.
Variable parse_jwt : Options -> string -> option (list (string * json)).

Lemma auth_configured {B} c (mw : middleware B) :
  auth_init url_scheme jwks_ok parse_jwt c = Ok mw -> disabled c = false ->
  JWKSURL (opts c) <> EmptyString /\ mw = serve_auth parse_jwt (opts c).
Proof.
  unfold auth_init, MiddlewareOrPassthrough. intros Hmw Hd. rewrite Hd in Hmw.
  destruct (String.eqb_spec (JWKSURL (opts c)) "") as [E|E]; [done|]. simpl in Hmw. split; [done|].
  unfold Middleware in Hmw. rewrite (proj2 (String.eqb_neq _ _) E) in Hmw.
  destruct (url_scheme _); [|done]. destruct (negb _ && negb _); [done|]. destruct (negb _); [done|].
  by injection Hmw as <-.
Qed.

(** An unauthorized request is refused, or goes on with the claims of a user who is
    not a member. *)
Lemma serve_auth_unauthorized {B} o (next : Auth.context -> Auth.request -> response B) r :
  ~ authorized parse_jwt o r (tenantFromRequest r) ->
  (exists msg, serve_auth parse_jwt o next background r = Error StatusUnauthorized msg) \/
  (exists ctx claims, serve_auth parse_jwt o next background r = next ctx r /\ FromContext ctx = Some claims
     /\ IsMember claims (tenantFromRequest r) = false).
Proof.
  intros Hna. unfold serve_auth.
  destruct (negb (String.eqb (AdminKey o) "") && negb (String.eqb (X_Admin_Key r) "") &&
            String.eqb (X_Admin_Key r) (AdminKey o)) eqn:Ek.
  - apply andb_prop in Ek as [[Ha%negb_true_iff%String.eqb_neq _]%andb_prop Ek%String.eqb_eq].
    destruct Hna. by left.
  - destruct (String.eqb (TrimPrefix (Authorization r) "Bearer ") ""); [left; eauto|].
    destruct (parse_jwt o _) as [mc|] eqn:Ep; [|left; eauto]. right. do 2 eexists. split; [done|].
    split; [reflexivity|]. apply not_true_is_false. intros Hm. destruct Hna. right. eauto.
Qed.

Lemma require_refuses {B} (allowed : Claims.t -> string -> bool) (next : Auth.context -> Auth.request -> response B)
    ctx r claims :
  FromContext ctx = Some claims -> allowed claims (tenantFromRequest r) = false ->
  tenantFromRequest r <> EmptyString -> require allowed next ctx r = Error StatusForbidden "forbidden".
Proof. intros Hc Ha Ht. unfold require. rewrite Hc, Ha, (proj2 (String.eqb_neq _ _) Ht). done. Qed.

(** The chain in front of a tenant's handlers. *)
Lemma member_chain_refuses {B} c (mw : middleware B) next r :
  auth_init url_scheme jwks_ok parse_jwt c = Ok mw -> disabled c = false ->
  tenantFromRequest r <> EmptyString -> ~ authorized parse_jwt (opts c) r (tenantFromRequest r) ->
  exists code msg, mw (RequireTenantMember next) background r = Error code msg
    /\ (code = StatusUnauthorized \/ code = StatusForbidden).
Proof.
  intros Hmw Hd Ht Hna. destruct (auth_configured _ _ Hmw Hd) as [_ ->].
  destruct (serve_auth_unauthorized (opts c) (RequireTenantMember next) r Hna)
    as [(msg & ->)|(ctx & claims & -> & Hc & Hm)]; [eauto|].
  unfold RequireTenantMember. erewrite require_refuses; eauto.
Qed.
End Access.

(** What a sequence of fallible steps did when it succeeded. *)
Lemma run_try_inv {W A B} (p : prog W (res A)) (k : A -> prog W (res B)) g w b w' :
  run (bind p (fun r => match r with Ok x => k x | Err e => Ret (Err (g e)) end)) w = (Ok b, w') ->
  exists a w1, run p w = (Ok a, w1) /\ run (k a) w1 = (Ok b, w').
Proof. rewrite run_bind. destruct (run p w) as [[a|e] w1]; [eauto|]. by intros [=]. Qed.

Section Served.
Context `{Platform} `{TimeText} `{HttpEnv} `{Network} `{Planner} `{Resolver} `{Entropy} `{Keycloak} `{RateLib}.
Variable parse_dsn : string -> bool.
Variable url_scheme : string -> option string.
Variable jwks_ok : string -> bool.
Variable parse_jwt : Options -> string -> option (list (string * json)).
Variable load_location : string -> option Location.

(** The options every service reads from the same variables. *)
Definition env_auth (e : env) : auth_config :=
  AuthConfig {| JWKSURL := e "KEYCLOAK_JWKS_URL"; AdminKey := e "ADMIN_API_KEY"; Issuer := e "KEYCLOAK_ISSUER";
                Audience := e "KEYCLOAK_AUDIENCE"; AllowInsecureJWKS := String.eqb (e "AUTH_INSECURE") "true" |}
             (String.eqb (e "AUTH_DISABLED") "true").

(** A start that succeeded got its middleware from the configuration. *)
Lemma incident_served e w srv w' :
  run (incident_start parse_dsn url_scheme jwks_ok parse_jwt e) w = (Ok srv, w') ->
  exists mw, auth_init url_scheme jwks_ok parse_jwt (env_auth e) = Ok mw
    /\ api srv = fun r => IncidentHandler.serve mw (admin_header r.1.1) (authorization r.1.1) r.1.2 r.2.
Proof.
  unfold incident_start. cbv zeta. change (incident_auth (Config.Incident.Load e)) with (env_auth e).
  intros (? & ? & _ & (? & ? & _ & (? & ? & _ & Hr)%run_try_inv)%run_try_inv)%run_try_inv.
  destruct (auth_init _ _ _ _) as [mw|er]; [|done]. injection Hr as <- <-. eauto.
Qed.

Lemma escalation_served e w srv w' :
  run (escalation_start parse_dsn url_scheme jwks_ok parse_jwt e) w = (Ok srv, w') ->
  exists mw, auth_init url_scheme jwks_ok parse_jwt (env_auth e) = Ok mw
    /\ api srv = escalation_api (Config.Escalation.Load e) mw.
Proof.
  unfold escalation_start. cbv zeta. change (escalation_auth (Config.Escalation.Load e)) with (env_auth e).
  intros (? & ? & _ & (? & ? & _ & (? & ? & _ & Hr)%run_try_inv)%run_try_inv)%run_try_inv.
  rewrite run_bind in Hr. destruct (run _ _) as [[] w1] in Hr. rewrite run_bind in Hr. cbn in Hr.
  destruct (auth_init _ _ _ _) as [mw|er]; [|done]. injection Hr as <- <-. eauto.
Qed.

Lemma notification_served e w srv w' :
  run (notification_start parse_dsn url_scheme jwks_ok parse_jwt e) w = (Ok srv, w') ->
  exists mw, auth_init url_scheme jwks_ok parse_jwt (env_auth e) = Ok mw
    /\ api srv = fun r => NotificationHandler.serve mw (admin_header r.1) (authorization r.1) r.2.
Proof.
  unfold notification_start. cbv zeta. change (notification_auth (Config.Notification.Load e)) with (env_auth e).
  intros (? & ? & _ & (? & ? & _ & (? & ? & _ & (? & ? & _ & Hr)%run_try_inv)%run_try_inv)%run_try_inv)%run_try_inv.
  rewrite run_bind in Hr. destruct (run _ _) as [[] w1] in Hr.
  destruct (auth_init _ _ _ _) as [mw|er]; [|done]. injection Hr as <- <-. eauto.
Qed.

Lemma scheduling_served e w srv w' :
  run (scheduling_start parse_dsn url_scheme jwks_ok parse_jwt load_location e) w = (Ok srv, w') ->
  exists mw index, auth_init url_scheme jwks_ok parse_jwt (env_auth e) = Ok mw
    /\ api srv = fun r => SchedulingHandler.serve load_location (membersClient (Config.Scheduling.Load e)) index mw
                            r.1.1 (admin_header r.1.2) (authorization r.1.2) r.2.
Proof.
  unfold scheduling_start. cbv zeta. change (scheduling_auth (Config.Scheduling.Load e)) with (env_auth e).
  intros (? & ? & _ & (? & ? & _ & Hr)%run_try_inv)%run_try_inv.
  rewrite run_bind in Hr. destruct (run _ _) as [rdb w1] in Hr. rewrite run_bind in Hr. destruct (run _ _) as [[] w2] in Hr.
  destruct (auth_init _ _ _ _) as [mw|er]; [|done]. injection Hr as <- <-. eauto.
Qed.

(** The credentials open a tenant: the admin key, or the token of a member. *)
Definition may_enter (e : env) (cred : credentials) (tenant : string) : Prop :=
  authorized parse_jwt (opts (env_auth e)) (Auth.Request (admin_header cred) (authorization cred) (fun _ => tenant)) tenant.

Lemma chain_refuses {D B X} e (mw : middleware X) (ps : string -> string) cred tenant next
    (k : response X -> M D (response B)) :
  auth_init url_scheme jwks_ok parse_jwt (env_auth e) = Ok mw -> e "AUTH_DISABLED" <> "true" ->
  tenant <> EmptyString -> ~ may_enter e cred tenant ->
  let r := Auth.Request (admin_header cred) (authorization cred) ps in
  tenantFromRequest r = tenant ->
  (forall code msg, k (Error code msg) = Ret (Error code msg)) ->
  refuses Error (k (mw (RequireTenantMember next) background r)).
Proof.
  intros Hmw Hd Ht Hna r Er Hk w.
  destruct (member_chain_refuses url_scheme jwks_ok parse_jwt (env_auth e) mw next r Hmw) as (code & msg & -> & Hc).
  - by apply String.eqb_neq.
  - congruence.
  - rewrite Er. exact Hna.
  - rewrite Hk. eauto.
Qed.

Lemma scheduling_refuses e mw load members index fuel cred rt tenant :
  auth_init url_scheme jwks_ok parse_jwt (env_auth e) = Ok mw -> e "AUTH_DISABLED" <> "true" ->
  tenantFromRequest (Auth.Request (admin_header cred) (authorization cred) (SchedulingHandler.url_params rt)) = tenant ->
  tenant <> EmptyString -> ~ may_enter e cred tenant ->
  refuses (fun code msg => Some (Error code msg))
    (SchedulingHandler.serve load members index mw fuel (admin_header cred) (authorization cred) rt).
Proof.
  intros Hmw Hd Er Ht Hna w. set (r := Auth.Request _ _ _) in Er.
  destruct (auth_configured _ _ _ (env_auth e) mw Hmw) as [_ ->]; [by apply String.eqb_neq|].
  unfold SchedulingHandler.serve. fold r.
  destruct (serve_auth_unauthorized parse_jwt (opts (env_auth e)) (fun ctx r => Json StatusOK (ctx, r)) r)
    as [(msg & ->)|(ctx & claims & -> & Hc & Hm)]; [rewrite Er; exact Hna|simpl; eauto 10|].
  rewrite run_bind. destruct (run (upsertUserMW ctx) w) as [[] w1].
  assert (SchedulingHandler.guard rt (fun ctx r => Json StatusOK (ctx, r)) ctx r = Error StatusForbidden "forbidden") as ->.
  2: { simpl. eauto 10. }
  assert (IsAdmin claims (tenantFromRequest r) = false) as Ha.
  { apply not_true_is_false. intros Ha%admin_member. congruence. }
  destruct rt; try (by destruct Ht; rewrite <- Er); simpl guard;
    unfold RequireTenantMember, RequireTenantAdmin; by (erewrite require_refuses by (eauto; congruence)).
Qed.


(** ** Properties *)

(** C25: no service is open by accident.  Whatever the environment says and
    whatever fails on the way, a service that got as far as serving while
    AUTH_DISABLED is not exactly "true" has a key set URL, and every request for a
    tenant that has neither the admin key nor the token of a member of the tenant
    is answered with 401 or 403, on every route and in every state. *)
Theorem served_requires_auth (e : env) :
  e "AUTH_DISABLED" <> "true" ->
  (forall w srv w', run (incident_start parse_dsn url_scheme jwks_ok parse_jwt e) w = (Ok srv, w') ->
     e "KEYCLOAK_JWKS_URL" <> EmptyString /\
     forall cred tenant rt, tenant <> EmptyString -> ~ may_enter e cred tenant ->
       refuses Error (api srv (cred, tenant, rt)))
  /\ (forall w srv w', run (escalation_start parse_dsn url_scheme jwks_ok parse_jwt e) w = (Ok srv, w') ->
     e "KEYCLOAK_JWKS_URL" <> EmptyString /\
     forall cred tenant rt, tenant <> EmptyString -> ~ may_enter e cred tenant ->
       refuses Error (api srv (cred, tenant, rt)))
  /\ (forall w srv w', run (notification_start parse_dsn url_scheme jwks_ok parse_jwt e) w = (Ok srv, w') ->
     e "KEYCLOAK_JWKS_URL" <> EmptyString /\
     forall cred rt tenant,
       tenantFromRequest (Auth.Request (admin_header cred) (authorization cred) (NotificationHandler.url_params rt))
         = tenant -> tenant <> EmptyString -> ~ may_enter e cred tenant -> refuses Error (api srv (cred, rt)))
  /\ (forall w srv w', run (scheduling_start parse_dsn url_scheme jwks_ok parse_jwt load_location e) w = (Ok srv, w') ->
     e "KEYCLOAK_JWKS_URL" <> EmptyString /\
     forall fuel cred rt tenant,
       tenantFromRequest (Auth.Request (admin_header cred) (authorization cred) (SchedulingHandler.url_params rt))
         = tenant -> tenant <> EmptyString -> ~ may_enter e cred tenant ->
       refuses (fun code msg => Some (Error code msg)) (api srv (fuel, cred, rt))).
Proof.
  intros Hd.
  assert (forall B (mw : middleware B), auth_init url_scheme jwks_ok parse_jwt (env_auth e) = Ok mw ->
    e "KEYCLOAK_JWKS_URL" <> EmptyString) as Hj.
  { intros B mw Hmw. eapply (auth_configured _ _ _ (env_auth e)); [exact Hmw|by apply String.eqb_neq]. }
  split_and!; intros w srv w' Hs.
  - apply incident_served in Hs as (mw & Hmw & ->). split; [by eapply Hj|].
    intros cred tenant rt Ht Hna.
    by apply (chain_refuses e mw (IncidentHandler.url_params tenant rt) cred tenant _
      (fun a => match a with Json _ (ctx, r) => _ | Error code msg => Ret (Error code msg) | NoBody code => Ret (NoBody code) end));
      [..|apply IncidentProps.tenantFromRequest_route|].
  - apply escalation_served in Hs as (mw & Hmw & ->). split; [by eapply Hj|].
    intros cred tenant rt Ht Hna.
    apply (chain_refuses e mw (tenant_params tenant) cred tenant _
      (fun a => match a with Json _ _ => _ | Error code msg => Ret (Error code msg) | NoBody code => Ret (NoBody code) end));
      [done..|by unfold tenantFromRequest; simpl; destruct tenant|done].
  - apply notification_served in Hs as (mw & Hmw & ->). split; [by eapply Hj|].
    intros cred rt tenant Er Ht Hna. destruct rt as [|t u req|t u]; [by destruct Ht| |];
      by apply (chain_refuses e mw _ cred tenant _
        (fun a => match a with Json _ (ctx, r) => _ | Error code msg => Ret (Error code msg)
                  | NoBody code => Ret (NoBody code) end)).
  - apply scheduling_served in Hs as (mw & index & Hmw & ->). split; [by eapply Hj|].
    intros fuel cred rt tenant Er Ht Hna. by eapply scheduling_refuses.
Qed.

End Served.

(** ** A start on a reliable platform *)

Section Reliable.
Context `{Platform}.
Hypothesis Hrel : reliable.
Hypothesis Hsteady : steady.

Lemma run_for_res {D A} (l : list A) (body : A -> M D (res unit)) :
  (forall x w, exists w', run (body x) w = (Ok tt, w')) -> forall w, exists w', run (for_res l body) w = (Ok tt, w').
Proof.
  intros Hb. induction l as [|x l IH]; intros w; cbn [for_res]; [eauto|].
  rewrite run_bind. destruct (Hb x w) as [w1 ->]. apply IH.
Qed.

Lemma run_DeclareTopology {D} `{Broker D} (w : world D) : exists w', run DeclareTopology w = (Ok tt, w').
Proof.
  unfold DeclareTopology. rewrite run_bind.
  destruct (run_for_res [ExchangeAlerts; ExchangeIncidents; ExchangeEscalations] (fun _ => net_call id)
              (fun _ w => ex_intro _ _ (run_net_call Hrel id w)) w) as [w1 ->].
  apply run_for_res. intros b w2. rewrite run_bind. rewrite (run_net_call Hrel id w2).
  eexists. by apply run_net_call.
Qed.

Lemma run_io {D} a (w : world (proc D)) :
  run (io a) w = (Ok tt, World (S (tick w)) (Proc (trace (data w) ++ [a]) (svc (data w)))).
Proof. unfold io. by rewrite run_call_ok by apply Hrel. Qed.

Lemma run_ask {D} (w : world (proc D)) : run ask w = (Ok tt, World (S (tick w)) (data w)).
Proof. unfold ask. by rewrite run_call_ok by apply Hrel. Qed.

Lemma run_NewPool {D} parse e dsn (w : world (proc D)) :
  parse dsn = true -> exists t, run (NewPool parse e dsn) w
    = (Ok tt, World t (Proc (trace (data w) ++ [PoolUp dsn (DefaultPoolConfig e)]) (svc (data w)))).
Proof.
  intros Hp. unfold NewPool. rewrite Hp. cbn [bind]. rewrite run_bind, run_ask, run_bind, run_io. eauto.
Qed.

Lemma run_migrate_Run {D} dsn source table (w : world (proc D)) :
  exists t dsn', run (migrate_Run dsn source table) w
    = (Ok tt, World t (Proc (trace (data w) ++ [Migrated dsn' source]) (svc (data w)))).
Proof. unfold migrate_Run. rewrite run_bind, run_ask, run_bind, run_ask. cbn. eauto. Qed.

Lemma run_NewClient {D} addr password (w : world (proc D)) :
  exists t, run (NewClient addr password) w
    = (Ok tt, World t (Proc (trace (data w) ++ [RedisUp addr password]) (svc (data w)))).
Proof. unfold NewClient. rewrite run_bind, run_io. eauto. Qed.

Lemma run_amqp_setup {D} `{Broker D} url (w : world (proc D)) :
  exists t d, run (amqp_setup url) w = (Ok tt, World t (Proc (trace (data w) ++ [AmqpUp url; TopologyUp]) d)).
Proof.
  unfold amqp_setup, NewConnection. rewrite run_bind, run_bind, run_zoom.
  unfold dial, amqp_Dial. rewrite run_bind, run_net_call by done. cbn -[Channel DeclareTopology zoom].
  set (w1 := World _ _). rewrite run_bind, run_zoom.
  assert (exists w2, run Channel (World (tick w1) (part (data w1))) = (Ok tt, w2)) as [w2 Ew2].
  { unfold Channel, current. rewrite run_bind. cbn. unfold upd_net. rewrite !net_set_net. simpl.
    rewrite Hsteady. simpl. rewrite Hrel. eauto. }
  rewrite Ew2. cbn -[DeclareTopology zoom]. rewrite run_bind, run_zoom.
  match goal with |- context [run DeclareTopology ?x] => destruct (run_DeclareTopology x) as [w3 Ew3] end.
  rewrite Ew3. cbn. rewrite Hrel. rewrite <- app_assoc. simpl. eauto.
Qed.
End Reliable.

(** The outcome of a program. *)
Definition runs {D A} (p : M D A) (w : world D) (Q : A -> world D -> Prop) : Prop :=
  exists a w', run p w = (a, w') /\ Q a w'.

Section Runs.
Context `{Platform}.
Hypothesis Hrel : reliable.
Hypothesis Hsteady : steady.

Lemma runs_ret {D A} (a : A) (w : world D) (Q : A -> world D -> Prop) : Q a w -> runs (Ret a) w Q.
Proof. intros HQ. by exists a, w. Qed.

Lemma runs_note {D A} a f (w : world (proc D)) (Q : A -> world (proc D) -> Prop) :
  runs (f tt) (World (tick w) (Proc (trace (data w) ++ [a]) (svc (data w)))) Q -> runs (bind (note a) f) w Q.
Proof. intros (x & w' & Hr & HQ). exists x, w'. by rewrite run_bind. Qed.

Lemma runs_zoom {D E A X} `{Part D E} (p : M D X) f (w : world E) (Q : A -> world E -> Prop) :
  (forall x t d, runs (f x) (World t (set_part d (data w))) Q) -> runs (bind (zoom p) f) w Q.
Proof.
  intros Hf. destruct (run p (World (tick w) (part (data w)))) as [x w1] eqn:E1.
  destruct (Hf x (tick w1) (data w1)) as (a & w' & Hr & HQ). exists a, w'. by rewrite run_bind, run_zoom, E1.
Qed.

Lemma runs_NewPool {D A} parse e dsn f (w : world (proc D)) (Q : A -> world (proc D) -> Prop) :
  parse dsn = true ->
  (forall t, runs (f (Ok tt)) (World t (Proc (trace (data w) ++ [PoolUp dsn (DefaultPoolConfig e)]) (svc (data w)))) Q) ->
  runs (bind (NewPool parse e dsn) f) w Q.
Proof.
  intros Hp Hf. destruct (run_NewPool Hrel parse e dsn w Hp) as [t E]. destruct (Hf t) as (x & w' & Hr & HQ).
  exists x, w'. by rewrite run_bind, E.
Qed.

Lemma runs_migrate_Run {D A} dsn source table f (w : world (proc D)) (Q : A -> world (proc D) -> Prop) :
  (forall t dsn', runs (f (Ok tt)) (World t (Proc (trace (data w) ++ [Migrated dsn' source]) (svc (data w)))) Q) ->
  runs (bind (migrate_Run dsn source table) f) w Q.
Proof.
  intros Hf. destruct (run_migrate_Run Hrel dsn source table w) as (t & dsn' & E).
  destruct (Hf t dsn') as (x & w' & Hr & HQ). exists x, w'. by rewrite run_bind, E.
Qed.

Lemma runs_NewClient {D A} addr password f (w : world (proc D)) (Q : A -> world (proc D) -> Prop) :
  (forall t, runs (f (Ok tt)) (World t (Proc (trace (data w) ++ [RedisUp addr password]) (svc (data w)))) Q) ->
  runs (bind (NewClient addr password) f) w Q.
Proof.
  intros Hf. destruct (run_NewClient Hrel addr password w) as [t E]. destruct (Hf t) as (x & w' & Hr & HQ).
  exists x, w'. by rewrite run_bind, E.
Qed.

Lemma runs_amqp_setup {D A} `{Broker D} url f (w : world (proc D)) (Q : A -> world (proc D) -> Prop) :
  (forall t d, runs (f (Ok tt)) (World t (Proc (trace (data w) ++ [AmqpUp url; TopologyUp]) d)) Q) ->
  runs (bind (amqp_setup url) f) w Q.
Proof.
  intros Hf. destruct (run_amqp_setup Hrel Hsteady url w) as (t & d & E).
  destruct (Hf t d) as (x & w' & Hr & HQ). exists x, w'. by rewrite run_bind, E.
Qed.
End Runs.

Section Starts.
Context `{Platform} `{TimeText} `{HttpEnv} `{Network} `{Planner} `{Resolver} `{Entropy} `{Keycloak} `{RateLib}.
Variable parse_dsn : string -> bool.
Variable url_scheme : string -> option string.
Variable jwks_ok : string -> bool.
Variable parse_jwt : Options -> string -> option (list (string * json)).
Variable load_location : string -> option Location.

Definition auth_ok (e : env) : bool := is_ok (@auth_init url_scheme jwks_ok parse_jwt unit (env_auth e)).

Lemma auth_ok_any {B} e : is_ok (@auth_init url_scheme jwks_ok parse_jwt B (env_auth e)) = auth_ok e.
Proof.
  unfold auth_ok, auth_init, MiddlewareOrPassthrough, Middleware. by repeat case_match.
Qed.

(** How a start ends: with a server or an error, and what it has brought up. *)
Definition ends {D A} (p : M (proc D) (res A)) (ok : bool) (ks : list kind) : Prop :=
  forall w, trace (data w) = [] -> runs p w (fun r w' => is_ok r = ok /\ kinds (data w') = ks).

Lemma runs_auth {D A B} e (w : world (proc D)) (f : middleware B -> M (proc D) (res A)) Q :
  (auth_ok e = true -> forall mw, runs (f mw) w Q) ->
  (auth_ok e = false -> forall err, Q (Err err) w) ->
  runs (match auth_init url_scheme jwks_ok parse_jwt (env_auth e) with
        | Ok mw => f mw | Err err => Ret (Err err) end) w Q.
Proof.
  rewrite <- (@auth_ok_any B e). destruct (auth_init _ _ _ (env_auth e)) as [mw|err]; simpl; intros Hok Herr.
  - by apply Hok.
  - apply runs_ret. by apply Herr.
Qed.

Hypothesis Hrel : reliable.
Hypothesis Hsteady : steady.

Ltac start_steps Hw :=
  repeat lazymatch goal with
  | |- runs (bind (NewPool _ _ _) _) _ _ => apply runs_NewPool; [done..|]; intros ?
  | |- runs (bind (migrate_Run _ _ _) _) _ _ => apply runs_migrate_Run; [done|]; intros ? ?
  | |- runs (bind (NewClient _ _) _) _ _ => apply runs_NewClient; [done|]; intros ?
  | |- runs (bind (amqp_setup _) _) _ _ => apply runs_amqp_setup; [done..|]; intros ? ?
  | |- runs (bind (note _) _) _ _ => apply runs_note
  | |- runs (bind (Ret _) _) _ _ => cbn [bind]
  | |- runs (Ret _) _ _ => apply runs_ret; unfold kinds; simpl; by rewrite Hw
  | |- runs (match auth_init _ _ _ _ with _ => _ end) _ _ =>
      let E := fresh in apply runs_auth; intros E ?; rewrite ?E; [|unfold kinds; simpl; by rewrite Hw]
  end.

Lemma incident_ends e :
  parse_dsn (e "DB_DSN") = true ->
  ends (incident_start parse_dsn url_scheme jwks_ok parse_jwt e) (auth_ok e)
    ([KPool; KMigrated; KAmqp; KTopology] ++ if auth_ok e then [KConsumer] else []).
Proof.
  intros Hp w Hw. unfold incident_start. cbv zeta. change (incident_auth _) with (env_auth e). start_steps Hw.
Qed.


Lemma escalation_ends e :
  parse_dsn (e "DB_DSN") = true ->
  ends (escalation_start parse_dsn url_scheme jwks_ok parse_jwt e) (auth_ok e)
    ([KPool; KMigrated] ++ (if String.eqb (e "RABBITMQ_URL") "" then [] else [KAmqp; KTopology; KConsumer]) ++ [KMonitor]).
Proof.
  intros Hp w Hw. unfold escalation_start. cbv zeta. change (escalation_auth _) with (env_auth e).
  change (Config.Escalation.AMQPURL (Config.Escalation.Load e)) with (e "RABBITMQ_URL").
  destruct (String.eqb (e "RABBITMQ_URL") ""); simpl negb; cbv iota; start_steps Hw.
Qed.

Lemma notification_ends e :
  parse_dsn (e "DB_DSN") = true ->
  ends (notification_start parse_dsn url_scheme jwks_ok parse_jwt e) (auth_ok e)
    ([KPool; KMigrated; KRedis] ++ if String.eqb (e "RABBITMQ_URL") "" then [] else [KAmqp; KTopology; KConsumer]).
Proof.
  intros Hp w Hw. unfold notification_start. cbv zeta. change (notification_auth _) with (env_auth e).
  change (Config.Notification.AMQPURL (Config.Notification.Load e)) with (e "RABBITMQ_URL").
  destruct (String.eqb (e "RABBITMQ_URL") ""); simpl negb; cbv iota; start_steps Hw.
Qed.

Lemma ingestion_ends e :
  parse_dsn (e "DB_DSN") = true ->
  ends (ingestion_start parse_dsn e) true [KPool; KMigrated; KRedis; KAmqp; KTopology].
Proof.
  intros Hp w Hw. unfold ingestion_start. cbv zeta.
  assert (Config.Ingestion.DBDSN (Config.Ingestion.Load e) = e "DB_DSN") as Ed.
  { simpl. unfold String_. by destruct (String.eqb_spec (e "DB_DSN") ""). }
  rewrite Ed. start_steps Hw. do 2 eexists. rewrite run_bind. cbn. split; [reflexivity|].
  unfold kinds. simpl. by rewrite Hw.
Qed.

Lemma scheduling_ends e :
  parse_dsn (e "DB_DSN") = true ->
  ends (scheduling_start parse_dsn url_scheme jwks_ok parse_jwt load_location e) (auth_ok e)
    [KPool; KMigrated; KRedis].
Proof.
  intros Hp w Hw. unfold scheduling_start. cbv zeta. change (scheduling_auth _) with (env_auth e).
  start_steps Hw. simpl is_ok. cbv iota. apply runs_zoom; intros [] ? ?. start_steps Hw.
Qed.

End Starts.

(** ** Properties of a start *)

Section Properties.
Context `{Platform} `{TimeText} `{HttpEnv} `{Network} `{Planner} `{Resolver} `{Entropy} `{Keycloak} `{RateLib}.
Variable parse_dsn : string -> bool.
Variable url_scheme : string -> option string.
Variable jwks_ok : string -> bool.
Variable parse_jwt : Options -> string -> option (list (string * json)).
Variable load_location : string -> option Location.

(** C26: the order of a start and of a stop, in every service, whatever fails.
    Migrations run on a data base that answered; a consumer starts only after the
    migrations and after the exchanges and queues were declared, the monitor only
    after the migrations; a service listens only when what it requires is up: the
    migrated data base, Redis (ingestion and notification), the topology and the
    consumer where a broker is configured, the monitor (escalation); the connection
    to the broker is closed only after the listener was up and, when a consumer was
    started, after [g.Wait] returned. *)
Theorem start_order (e : env) :
  (forall w r w', trace (data w) = [] ->
     run (incident_main parse_dsn url_scheme jwks_ok parse_jwt e) w = (r, w') ->
     well_ordered [KPool; KMigrated; KTopology; KConsumer] (kinds (data w')))
  /\ (forall w r w', trace (data w) = [] ->
     run (escalation_main parse_dsn url_scheme jwks_ok parse_jwt e) w = (r, w') ->
     well_ordered (with_broker e [KPool; KMigrated; KMonitor]) (kinds (data w')))
  /\ (forall w r w', trace (data w) = [] ->
     run (notification_main parse_dsn url_scheme jwks_ok parse_jwt e) w = (r, w') ->
     well_ordered (with_broker e [KPool; KMigrated; KRedis]) (kinds (data w')))
  /\ (forall w r w', trace (data w) = [] -> run (ingestion_main parse_dsn e) w = (r, w') ->
     well_ordered [KPool; KMigrated; KRedis; KTopology] (kinds (data w')))
  /\ (forall w r w', trace (data w) = [] ->
     run (scheduling_main parse_dsn url_scheme jwks_ok parse_jwt load_location e) w = (r, w') ->
     well_ordered [KPool; KMigrated] (kinds (data w'))).
Proof.
  assert (forall D (p : M (proc D) (res unit)) listen, boots listen [] false p (fun _ _ => True) ->
    forall w r w', trace (data w) = [] -> run p w = (r, w') -> well_ordered listen (kinds (data w'))) as Hb.
  { intros D p listen Hp w r w' Ht Hr. apply (Hp w r w'); [..|done]; unfold kinds; rewrite Ht; simpl.
    - intros pre k post Ek. by destruct pre.
    - split; [constructor|]. intros _ Hin. by apply not_elem_of_nil in Hin. }
  split_and!.
  - eapply Hb, incident_order.
  - eapply Hb, escalation_order.
  - eapply Hb, notification_order.
  - eapply Hb, ingestion_order.
  - eapply Hb, scheduling_order.
Qed.

(** What a start amounts to when nothing outside fails and the connection
    string is accepted.  ingestion always comes up; each of the others comes up
    exactly when its authentication is configured (a usable key set URL, or
    AUTH_DISABLED set to "true").  When it is not, incident gives up before it
    consumes anything, but escalation has already started its consumer and its
    monitor, and notification its consumer, when the process exits. *)
Lemma start_reliable (e : env) :
  reliable -> steady -> parse_dsn (e "DB_DSN") = true ->
  let ok := auth_ok url_scheme jwks_ok parse_jwt e in
  let amqp := if String.eqb (e "RABBITMQ_URL") "" then [] else [KAmqp; KTopology; KConsumer] in
  ends (incident_start parse_dsn url_scheme jwks_ok parse_jwt e) ok
    ([KPool; KMigrated; KAmqp; KTopology] ++ if ok then [KConsumer] else [])
  /\ ends (escalation_start parse_dsn url_scheme jwks_ok parse_jwt e) ok ([KPool; KMigrated] ++ amqp ++ [KMonitor])
  /\ ends (notification_start parse_dsn url_scheme jwks_ok parse_jwt e) ok ([KPool; KMigrated; KRedis] ++ amqp)
  /\ ends (ingestion_start parse_dsn e) true [KPool; KMigrated; KRedis; KAmqp; KTopology]
  /\ ends (scheduling_start parse_dsn url_scheme jwks_ok parse_jwt load_location e) ok [KPool; KMigrated; KRedis].
Proof.
  intros Hrel Hst Hp ok amqp. split_and!.
  - by apply incident_ends.
  - by apply escalation_ends.
  - by apply notification_ends.
  - by apply ingestion_ends.
  - by apply scheduling_ends.
Qed.

End Properties.

(** ** An environment *)

Module Start_demo.
Definition vars (l : list (string * string)) : env := fun k =>
  match find (fun kv => String.eqb kv.1 k) l with Some (_, v) => v | None => EmptyString end.

Definition configured : env := vars
  [("DB_DSN", "postgres://db/oncall?sslmode=disable"); ("RABBITMQ_URL", "amqp://mq");
   ("KEYCLOAK_JWKS_URL", "https://kc/certs"); ("ADMIN_API_KEY", "k")].

Definition forgotten : env := vars
  [("DB_DSN", "postgres://db/oncall"); ("RABBITMQ_URL", "amqp://mq"); ("AUTH_DISABLED", "True")].

Definition down : netstate := Net false false false [] [].

Definition https (_ : string) : option string := Some "https".
Definition yes (_ : string) : bool := true.
Definition nobody (_ : Options) (_ : string) : option (list (string * json)) := None.
Definition no_zone (_ : string) : option Location := None.

Definition P : Platform := demo_platform [].
Definition planner : Planner := {| pick _ := O |}.
Definition http : HttpEnv := {| http_reply _ _ := None |}.
Definition web : Network := {| url_Parse _ := None; http_post _ _ := None |}.
Definition resolver : Resolver :=
  {| parse_url _ := None; ParseIP _ := None; LookupIPAddr _ _ := Ok []; Dial _ _ _ := Ok tt |}.
Definition entropy : Entropy := {| rand_Read _ := Ok [] |}.
Definition keycloak : Keycloak := {| kc_reply _ _ _ _ := None |}.

Definition incidents : IncidentStore.db := IncidentStore.Db [] [] ∅ [] [] [] down.
Definition escalations : EscalationStore.db := EscalationStore.Db [] [] [] [] [] down.
End Start_demo.

(** Instances of the properties at the classes of the example. *)
Abbreviation at_demo f := (f Start_demo.P demo_time_text Start_demo.http Start_demo.web Start_demo.planner
  Start_demo.resolver Start_demo.entropy Start_demo.keycloak).

Abbreviation at_libs f := (f (fun s => HasPrefix s "postgres://") Start_demo.https Start_demo.yes Start_demo.nobody
  Start_demo.no_zone).

Abbreviation incident_demo f := (f Start_demo.P demo_time_text Start_demo.planner
  (fun s => HasPrefix s "postgres://") Start_demo.https Start_demo.yes Start_demo.nobody Start_demo.configured).

(** A stranger asks a started incident service for the rules of a tenant. *)
Lemma served_requires_auth_witness :
  match run (incident_demo (@incident_start)) (World 0 (Proc [] Start_demo.incidents)) with
  | (Ok srv, _) =>
      Start_demo.configured "KEYCLOAK_JWKS_URL" <> EmptyString
      /\ refuses Error (api srv (Credentials "guess" "Bearer x", "acme", IncidentHandler.RListGroupingRules))
  | (Err _, _) => False
  end.
Proof.
  destruct (run (incident_demo (@incident_start)) (World 0 (Proc [] Start_demo.incidents))) as [[srv|err] w'] eqn:E.
  - destruct (at_libs (at_demo (@served_requires_auth)) Start_demo.configured ltac:(discriminate)) as [Hi _].
    destruct (Hi _ _ _ E) as [Hj Hr]. split; [exact Hj|]. apply Hr; [discriminate|].
    intros [[_ Hk]|(mc & Hmc & _)]; discriminate.
  - destruct (@incident_ends Start_demo.P demo_time_text Start_demo.planner (fun s => HasPrefix s "postgres://")
      Start_demo.https Start_demo.yes Start_demo.nobody (fun _ => eq_refl) (fun _ => eq_refl) Start_demo.configured
      eq_refl (World 0 (Proc [] Start_demo.incidents)) eq_refl) as (r & w1 & E1 & Hok & _).
    rewrite E in E1. injection E1 as <- _. vm_compute in Hok. discriminate Hok.
Defined.

(** The whole life of the incident service: it starts, serves and stops. *)
Lemma start_order_witness :
  let out := run (incident_demo (@incident_main)) (World 0 (Proc [] Start_demo.incidents)) in
  kinds (data out.2) = [KPool; KMigrated; KAmqp; KTopology; KConsumer; KListening; KWaited; KPublisherClosed;
                        KConnectionClosed]
  /\ well_ordered [KPool; KMigrated; KTopology; KConsumer] (kinds (data out.2)).
Proof.
  intros out. split; [vm_compute; reflexivity|].
  exact (proj1 (at_libs (at_demo (fun P T h w p r e k => @start_order P T h w p r e k bucket_lib)) Start_demo.configured) (World 0 (Proc [] Start_demo.incidents))
           out.1 out.2 eq_refl (surjective_pairing out)).
Defined.

(** AUTH_DISABLED is "True": nothing serves, and escalation consumed meanwhile. *)
Lemma start_reliable_witness :
  auth_ok Start_demo.https Start_demo.yes Start_demo.nobody Start_demo.forgotten = false
  /\ ends (@incident_start Start_demo.P demo_time_text Start_demo.planner (fun s => HasPrefix s "postgres://")
             Start_demo.https Start_demo.yes Start_demo.nobody Start_demo.forgotten) false
       [KPool; KMigrated; KAmqp; KTopology]
  /\ ends (@escalation_start Start_demo.P demo_time_text Start_demo.http (fun s => HasPrefix s "postgres://")
             Start_demo.https Start_demo.yes Start_demo.nobody Start_demo.forgotten) false
       [KPool; KMigrated; KAmqp; KTopology; KConsumer; KMonitor].
Proof.
  split; [vm_compute; reflexivity|].
  destruct (at_libs (at_demo (fun P T h w p r e k => @start_reliable P T h w p r e k bucket_lib)) Start_demo.forgotten (fun _ => eq_refl) (fun _ => eq_refl) eq_refl)
    as (Hi & He & _).
  exact (conj Hi He).
Defined.
