(* ===== verification/ConsumerPools.v ===== *)
(** * Consumers with several workers, next to the rest of their service

    [Workers] shows that the workers of a consumer are a pool of programs; the
    theorems on all interleavings of the programs of a service therefore hold
    whatever [Concurrency] and [Prefetch] its consumer is given. *)

From S2P Require Import Prelude Effects Json Events Interleaving Amqp Workers Http EscalationStore Escalator EscalationHandler EscalationSafety IncidentStore IncidentConsumer IncidentHandler IncidentSafety.
Open Scope go_scope.

Section Pools.
Context `{Platform} `{TimeText} `{Limits}.
Variable opts : ConsumeOptions.

(** An execution of a consumer and the other programs is that of a schedule of
    programs of the service. *)
Lemma consumer_schedule {D} (service : M D unit -> Prop) (h : @Handler D) ps w0 s w :
  (forall body, service (forget (process h body))) -> Forall service ps ->
  steps opts h (start ps, w0) (s, w) ->
  exists all order, Forall service all /\ run_schedule order all w0 = (programs s, w).
Proof.
  intros Hh Hps Hs. pose proof (steps_pool opts h ps w0 _ Hs) as Hr. simpl in Hr.
  apply rtc_run_schedule in Hr as (order & Ho).
  eexists _, order. split; [|exact Ho]. apply Forall_app_2; [done|].
  apply Forall_map, Forall_true. intros d. apply Hh.
Qed.
End Pools.

(** What can become of the escalation consumer and the other programs [ps]. *)
Definition consumer_runs `{Platform} `{TimeText} `{HttpEnv} `{Limits} (sched : Client) (opts : ConsumeOptions)
    (ps : list (M EscalationStore.db unit)) (w0 : world EscalationStore.db)
    (s : pool EscalationStore.db) (w : world EscalationStore.db) : Prop :=
  steps opts (Escalator.consumer_handler (H2 := Publisher) sched) (start ps, w0) (s, w).

(** With any number of workers and any prefetch, a redelivered or reordered
    incident event never makes the consumer of escalation, next to monitors and
    requests, page twice: the broker accepts at most one [escalation.triggered]
    message for a tier of an incident, or at most three when its replies can be
    lost. *)
Lemma workers_trigger_once `{Platform} `{TimeText} `{HttpEnv} `{Limits} sched incident opts ps w0 s w x :
  Forall (EscalationSafety.service_program (EP := Publisher) sched incident) ps ->
  unique_rows (data w0) -> published (handed (EscalationStore.broker (data w0))) x = 0%nat ->
  consumer_runs sched opts ps w0 s w ->
  let log := handed (EscalationStore.broker (data w)) in
  (published log x <= 3)%nat /\ (no_lost_replies -> (published log x <= 1)%nat).
Proof.
  intros Hps Hu H0' Hs log.
  destruct (consumer_schedule opts (EscalationSafety.service_program (EP := Publisher) sched incident)
              (Escalator.consumer_handler (H2 := Publisher) sched) ps w0 s w) as (all & order & Hall & Ho); [|done..|].
  { intros body. apply EscalationSafety.delivery. }
  assert (w = (run_schedule order all w0).2) as Ew by (by rewrite Ho). subst log. rewrite Ew. split.
  - eapply published_bound; try done. intros. apply Publish_budget.
  - intros Hn. eapply published_bound; try done. intros. by apply Publish_budget_once.
Qed.

(** *** Two workers race for the two copies of one incident event *)

Module Race_demo.
Definition P : Platform := demo_platform [].
Definition L : Limits := Workers_demo.limits.
Definition pub : EscalationPublisher := @Publisher P demo_time_text.

Definition event : Envelope.t :=
  Envelope.mk "m1" "1" Amqp.RoutingKeyIncidentCreated "acme" 0
    (IncidentChanged.encode (IncidentChanged.mk "inc9" "acme" "acme" "open" "disk" "high")).

Definition body : option json := @Envelope.encode demo_time_text event.

Definition db0 : EscalationStore.db :=
  EscalationStore.Db [Policy.mk "p1" "acme" "default" [] 0] [PolicyTier.mk "t1" "p1" 1 300 "sch1"] [] [] [TenantConfig.mk "acme" (Some "p1") 0]
    (Net true false false [] []).

Definition handler := @Escalator.consumer_handler P demo_time_text demo_http pub demo_client.

(** Both workers look for an escalation before either has created one. *)
Definition race : list action :=
  [Deliver body; Deliver body; SelectMsg; StartWorker; SelectMsg; StartWorker]%nat
  ++ [Work 0; Work 1; Work 0; Work 1; Work 0; Work 1; Work 0; Work 1]%nat.

(** From there on, whichever worker can move. *)
Definition rest : list action :=
  replicate 10 (Work 0) ++ [Settle 0]%nat ++ [Work 1; Settle 1]%nat.

Definition run_of (l : list action) : option (pool EscalationStore.db * world EscalationStore.db) :=
  @fire_all P demo_time_text _ L (Workers_demo.opts 2) handler l (start [], World 0 db0).

Definition final := default (start [], World 0 db0) (run_of (race ++ rest)).
End Race_demo.
Import Race_demo.

Lemma workers_trigger_once_witness :
  settlements final.1 = [(0, Ack); (1, Nack true)]%nat /\
  @published demo_time_text (handed (EscalationStore.broker (data final.2))) ("inc9", 1%Z) = 1%nat /\
  (@published demo_time_text (handed (EscalationStore.broker (data final.2))) ("inc9", 1%Z) <= 3)%nat.
Proof.
  split; [by vm_compute|]. split; [by vm_compute|].
  apply (@workers_trigger_once P demo_time_text demo_http L demo_client None (Workers_demo.opts 2) []
           (World 0 db0) final.1 final.2 ("inc9", 1%Z)).
  - constructor.
  - split; constructor.
  - reflexivity.
  - apply (fire_all_steps (Workers_demo.opts 2) handler (race ++ rest)). by vm_compute.
Defined.
