(* ===== verification/Services.v ===== *)
(** * The consuming services as whole processes

    [Process] for the mains of escalation and incident: what is proved of every
    interleaving of their programs holds from the boot of the process to its exit,
    through sessions of the consumer and reconnections, next to its requests, its
    monitor and its shutdown. *)

From S2P Require Import Prelude Effects Json Events Interleaving Amqp Workers Server Process Shutdown Http.
From S2P Require Import EscalationStore Escalator EscalationHandler EscalationSafety.
From S2P Require Import Auth IncidentStore IncidentConsumer IncidentHandler IncidentSafety ConsumerPools.
Open Scope go_scope.

(** ** The calls of main after [g.Wait] *)

(** incident, and escalation with a broker *)
Definition close_amqp `{Platform} {D} `{Broker D} : M D unit :=
  let! _ := Publisher_Close in
  let! _ := Connection_Close in
  Ret tt.

Ltac quiet_step :=
  match goal with
  | |- budget _ _ (bind _ _) _ => apply budget_quiet_bind
  | |- budget _ _ (Ret _) _ => exact I
  | |- budget _ _ (match ?x with _ => _ end) _ => destruct x
  | |- forall _, _ => intros ?
  | |- budget _ _ _ _ => first [apply quiet_read|by apply quiet_net_call|by apply quiet_net_local]
  end.

Section Closing.
Context `{Platform} {D : Type} `{Broker D}.

Lemma close_amqp_housekeeping : housekeeping (D := D) close_amqp.
Proof.
  unfold close_amqp, Publisher_Close, Connection_Close, current, housekeeping. repeat quiet_step.
Qed.

Lemma close_amqp_forwards : forwards (D := D) close_amqp.
Proof. unfold close_amqp, Publisher_Close, Connection_Close, current. repeat forward_step. Qed.
End Closing.

(** A process whose programs keep the clock can exit from wherever it is cancelled. *)
Lemma process_can_exit `{Platform} `{TimeText} {D} `{Broker D} `{Limits} opts (h : @Handler D) body request closing ms
    (Hck : clocked h body request closing) w0 s w :
  Forall fresh ms -> errgroup_law -> qos_law -> ctx_stays ->
  moves opts h body request closing (boot ms, w0) (s, w) -> cancelled w ->
  exists s' w' code, moves opts h body request closing (boot ms, w0) (s', w') /\ main s' = Gone code.
Proof.
  intros Hms Hgo Hqos Hst Hr Hc.
  destruct (moves_inv opts _ _ _ _ Hgo Hqos Hck _ _ Hr) as [Hi _]; [by apply (inv_boot opts)|].
  destruct (process_ends opts _ _ _ _ Hgo Hqos Hck Hst _ _ Hi Hc) as (s' & w' & code & Hr' & Hg).
  exists s', w', code. split; [|done]. by etransitivity.
Qed.

(** ** services/escalation/cmd/server/main.go *)

Module EscalationProcess.
Section Main.
Context `{Platform} `{TimeText} `{HttpEnv} `{Limits}.
Variable sched : Client.
Variable incident : option Client.

#[local] Instance pub : EscalationPublisher := Publisher.

(** [consumer.Run] leaves Concurrency, Prefetch and HandlerTimeout unset. *)
Definition options : ConsumeOptions := {| Concurrency := 0; Prefetch := 0; HandlerTimeout := 0 |}.

(** A consumer and the monitor. *)
Definition members : list (member EscalationStore.db) := [Consumer (Checking Second); Ticker].

Definition request (p : M EscalationStore.db unit) : Prop :=
  exists tenant r, p = let! _ := EscalationHandler.serve sched incident tenant r in Ret tt.

Definition runs (opts : ConsumeOptions) (w0 : world EscalationStore.db) (s : process) (w : world EscalationStore.db) : Prop :=
  moves opts (Escalator.consumer_handler sched) (Escalator.step sched) request close_amqp (boot members, w0) (s, w).

Lemma escalation_members_fresh : Forall fresh members.
Proof. constructor; [by left|]. constructor; [by right|done]. Qed.

Lemma escalation_programs p :
  program (Escalator.consumer_handler sched) (Escalator.step sched) request p ->
  EscalationSafety.service_program (EP := Publisher) sched incident p.
Proof.
  intros [q (tenant & r & ->)|b| |q Hq].
  - apply http_request.
  - apply EscalationSafety.delivery.
  - apply tick_of_monitor.
  - by apply EscalationSafety.on_connection.
Qed.

Lemma runs_schedule opts w0 s w :
  runs opts w0 s w -> exists ps order,
    Forall (EscalationSafety.service_program (EP := Publisher) sched incident) ps /\ (run_schedule order ps w0).2 = w.
Proof.
  intros Hr. destruct (moves_covered _ _ _ _ _ close_amqp_housekeeping _ _ _ _ escalation_members_fresh Hr) as (ps & order & qs & Hp & Ho).
  exists ps, order. rewrite Ho. split; [|done]. eapply Forall_impl; [exact Hp|]. apply escalation_programs.
Qed.

(** *** None of its programs sets the clock back *)

Lemma forwards_insert_tiers q pid ts : forwards (insert_tiers q pid ts).
Proof. induction ts as [|t ts IH]; cbn [insert_tiers]; unfold insert_tier; repeat forward_step. Qed.

Lemma forwards_with_tiers ps : forwards (with_tiers ps).
Proof. induction ps as [|t ps IH]; cbn [with_tiers]; unfold listTiers; repeat forward_step. Qed.

#[local] Hint Resolve forwards_insert_tiers forwards_with_tiers : forward.

Lemma forwards_triggerTier st tier : forwards (Escalator.triggerTier sched st tier).
Proof.
  unfold Escalator.triggerTier, Escalator.GetOnCall, EscalationStore.AppendHistory, EscalationStore.appendHistory, time_Now.
  cbn [PublishTriggered pub Publisher]. unfold publish_triggered. repeat forward_step.
Qed.

#[local] Hint Resolve forwards_triggerTier : forward.

Lemma forwards_AdvanceOrExhaust st : forwards (Escalator.AdvanceOrExhaust sched st).
Proof.
  unfold Escalator.AdvanceOrExhaust, GetTierByNumber, AdvanceEscalationState, advance_tx, EscalationStore.appendHistory,
    skip_conflict, time_Now.
  cbn [PublishExhausted pub Publisher]. unfold publish_exhausted. repeat forward_step.
Qed.

Lemma forwards_AssignPolicy tenant slug id policy inc : forwards (AssignPolicy sched tenant slug id policy inc).
Proof.
  unfold AssignPolicy, EscalationStore.GetPolicy, select_policy, listTiers, CreateEscalationState, time_Now. repeat forward_step.
Qed.

#[local] Hint Resolve forwards_AdvanceOrExhaust forwards_AssignPolicy : forward.

Lemma forwards_monitor : forwards (Escalator.step sched).
Proof. unfold Escalator.step, ListExpiredStates. repeat forward_step. Qed.

Lemma forwards_handler env : forwards (Escalator.consumer_handler sched env).
Proof.
  unfold Escalator.consumer_handler, Escalator.handle, AutoAssign, Escalator.Stop, GetTenantConfig, UpdateEscalationState,
    GetEscalationStateByIncident, EscalationStore.AppendHistory, EscalationStore.appendHistory, time_Now.
  repeat forward_step.
Qed.

Lemma forwards_serve tenant r : forwards (EscalationHandler.serve sched incident tenant r).
Proof.
  destruct r; cbn [EscalationHandler.serve].
  all: unfold EscalationHandler.ListPolicies, EscalationHandler.CreatePolicy, EscalationHandler.GetPolicy,
    EscalationHandler.DeletePolicy, GetDefaultPolicy, PutDefaultPolicy, DeleteDefaultPolicy, EscalationHandler.GetIncident,
    AttachPolicy, GetEscalationState, GetEscalationStates, EscalationHandler.ManualEscalate, EscalationHandler.GetHistory.
  all: unfold EscalationStore.ListPolicies, EscalationStore.CreatePolicy, insert_policy, EscalationStore.GetPolicy, select_policy,
    listTiers, EscalationStore.DeletePolicy, GetTenantConfig, UpsertTenantConfig, DeleteTenantConfig,
    GetEscalationStateByIncident, ListEscalationStatesByIncidents, EscalationStore.ListHistory, Escalator.ManualEscalate,
    EscalationHandler.GetIncident, GetEscalationState, GetEscalationStateByIncident.
  all: repeat forward_step.
Qed.

Lemma main_clocked : clocked (Escalator.consumer_handler sched) (Escalator.step sched) request close_amqp.
Proof.
  split.
  - intros p (tenant & r & ->). apply forwards_bind; [apply forwards_serve|done].
  - apply forwards_handler.
  - apply forwards_monitor.
  - apply close_amqp_forwards.
Qed.

(** The process of escalation, with the options it has, comes to its exit. *)
Lemma escalation_shuts_down w0 s w :
  errgroup_law -> qos_law -> ctx_stays -> runs options w0 s w -> cancelled w ->
  exists s' w' code, runs options w0 s' w' /\ main s' = Gone code.
Proof. apply (process_can_exit _ _ _ _ _ _ main_clocked), escalation_members_fresh. Qed.
End Main.
End EscalationProcess.

(** C6: paging at most once, for the process of escalation as a whole.  From its
    boot to its exit, with any number of workers and any prefetch, through sessions
    of the consumer, reconnections, ticks of the monitor, requests and the shutdown,
    the broker accepts at most one [escalation.triggered] message for a tier of an
    incident, or at most three when its replies can be lost. *)
Theorem process_triggers_once `{Platform} `{TimeText} `{HttpEnv} `{Limits} sched incident opts w0 s w x :
  unique_rows (data w0) -> published (Amqp.handed (EscalationStore.broker (data w0))) x = 0%nat ->
  EscalationProcess.runs sched incident opts w0 s w ->
  let log := Amqp.handed (EscalationStore.broker (data w)) in
  (published log x <= 3)%nat /\ (no_lost_replies -> (published log x <= 1)%nat).
Proof.
  intros Hu H0' Hr log. destruct (EscalationProcess.runs_schedule _ _ _ _ _ _ Hr) as (ps & order & Hps & <-). split.
  - eapply published_bound; try done. intros. apply Publish_budget.
  - intros Hn. eapply published_bound; try done. intros. by apply Publish_budget_once.
Qed.

(** *** Two workers race for the two copies of one event, while the monitor ticks *)

Module Pages_demo.
Import Race_demo.

Definition inner (l : list Workers.action) : list (@turn EscalationStore.db) := map (fun a => Member 0 (InLoop a)) l.

(** The consumer opens its session; the workers race; the monitor makes a round. *)
Definition turns : list turn :=
  [Http Server.Listen] ++ replicate 7 (Member 0 Next) ++ inner race ++ replicate 3 (Member 1 Next) ++ inner rest
  ++ replicate 6 (Member 1 Next).

Definition step_of (l : list turn) : option (process * world EscalationStore.db) :=
  @fire_all P demo_time_text EscalationStore.db _ L (Workers_demo.opts 2) handler
    (@Escalator.step P demo_time_text demo_http pub demo_client) (@close_amqp P EscalationStore.db _)
    l (boot EscalationProcess.members, World 0 db0).

Definition final : process * world EscalationStore.db := default (boot EscalationProcess.members, World 0 db0) (step_of turns).
End Pages_demo.
Import Pages_demo.

Lemma process_triggers_once_witness :
  (@published demo_time_text (Amqp.handed (EscalationStore.broker (data final.2))) ("inc9", 1%Z) = 1%nat
   /\ length (Amqp.handed (EscalationStore.broker (data final.2))) = 1%nat) /\
  (@published demo_time_text (Amqp.handed (EscalationStore.broker (data final.2))) ("inc9", 1%Z) <= 3)%nat.
Proof.
  split; [split; by vm_compute|].
  apply (@process_triggers_once Race_demo.P demo_time_text demo_http Race_demo.L demo_client None (Workers_demo.opts 2)
           (World 0 Race_demo.db0) final.1 final.2 ("inc9", 1%Z)).
  - split; constructor.
  - reflexivity.
  - unfold EscalationProcess.runs. rewrite <- surjective_pairing.
    apply (fire_all_moves _ _ _ _ _ turns); [|by vm_compute].
    repeat constructor; by intros p.
Defined.

(** ** services/incident/cmd/server/main.go *)

Module IncidentProcess.
Section Main.
Context `{Platform} `{TimeText} `{Planner} `{Limits}.

(** [consumer.Run] leaves Concurrency, Prefetch and HandlerTimeout unset. *)
Definition options : ConsumeOptions := {| Concurrency := 0; Prefetch := 0; HandlerTimeout := 0 |}.

(** A consumer. *)
Definition members : list (member IncidentStore.db) := [Consumer (Checking Second)].

Definition request (p : M IncidentStore.db unit) : Prop :=
  exists mw adminKey authorization tenant rt, p = let! _ := IncidentHandler.serve mw adminKey authorization tenant rt in Ret tt.

(** There is no monitor: no member ever runs its step. *)
Definition runs (opts : ConsumeOptions) (w0 : world IncidentStore.db) (s : process) (w : world IncidentStore.db) : Prop :=
  moves opts IncidentConsumer.consumer_handler (Ret tt) request close_amqp (boot members, w0) (s, w).

Lemma incident_members_fresh : Forall fresh members.
Proof. constructor; [by left|done]. Qed.

Lemma incident_programs p :
  program IncidentConsumer.consumer_handler (Ret tt) request p -> IncidentSafety.service_program p.
Proof.
  intros [q (mw & key & auth & tenant & rt & ->)|b| |q Hq].
  - apply api_request.
  - apply IncidentSafety.delivery.
  - by apply IncidentSafety.on_connection.
  - by apply IncidentSafety.on_connection.
Qed.

(** The invariant of the incidents holds in every state of the process. *)
Lemma process_rows opts w0 s w : rows_ok (data w0) -> runs opts w0 s w -> rows_ok (data w).
Proof.
  intros Hok Hr.
  destruct (moves_covered _ _ _ _ _ close_amqp_housekeeping _ _ _ _ incident_members_fresh Hr) as (ps & order & qs & Hp & Ho).
  pose proof (run_schedule_rtc order ps w0) as Hrtc. rewrite Ho in Hrtc.
  apply (pool_invariant lifecycle rows_ok ps qs w0 w lifecycle_rows); [|done..].
  eapply Forall_impl; [exact Hp|]. intros p Hq. by apply service_program_lifecycle, incident_programs.
Qed.

(** *** None of its programs sets the clock back *)

Lemma forwards_incident_GetIncident tenant id : forwards (IncidentStore.GetIncident tenant id).
Proof. unfold IncidentStore.GetIncident, select_incident, loadLabels. repeat forward_step. Qed.

Lemma forwards_load_all l : forwards (load_all l).
Proof. induction l as [|i l IH]; cbn [load_all]; unfold loadLabels; repeat forward_step. Qed.

Lemma forwards_mergeLabels q id m : forwards (mergeLabels q id m).
Proof. unfold mergeLabels. repeat forward_step. Qed.

Lemma forwards_appendHistory q e : forwards (IncidentStore.appendHistory q e).
Proof. unfold IncidentStore.appendHistory. repeat forward_step. Qed.

Lemma forwards_attachAlert q ia : forwards (attachAlert q ia).
Proof. unfold attachAlert. repeat forward_step. Qed.

#[local] Hint Resolve forwards_incident_GetIncident forwards_load_all forwards_mergeLabels forwards_appendHistory
  forwards_attachAlert : forward.

Lemma forwards_incident_handler env : forwards (IncidentConsumer.consumer_handler env).
Proof.
  unfold IncidentConsumer.consumer_handler, IncidentConsumer.handle, handleFiring, handleResolved, announce,
    PublishCreated, PublishUpdated, GetGroupingRule, FindOpenIncidentByGroupKey, CreateIncidentTx, createIncident,
    IncidentStore.AttachAlert, IncidentStore.AppendHistory, ResolveAlert, MaybeResolve, time_Now.
  repeat forward_step.
Qed.

Lemma forwards_dispatch ctx r rt : forwards (dispatch ctx r rt).
Proof.
  destruct rt; cbn [dispatch].
  all: unfold IncidentHandler.ListIncidents, IncidentHandler.GetIncident, PatchStatus, IncidentHandler.ListIncidentAlerts,
    IncidentHandler.AttachAlert, PutLabels, IncidentHandler.AddComment, IncidentHandler.ListComments,
    IncidentHandler.DeleteComment, IncidentHandler.ListHistory, IncidentHandler.ListGroupingRules, PutGroupingRule,
    IncidentHandler.DeleteGroupingRule, unless_missing.
  all: unfold IncidentStore.ListIncidents, select_page, TransitionStatus, transition_tx, update_status, loadLabels, PublishUpdated,
    IncidentStore.ListIncidentAlerts, IncidentStore.AttachAlert, MergeLabels, GetLabels, IncidentStore.AppendHistory,
    IncidentStore.AddComment, IncidentStore.ListComments, IncidentStore.DeleteComment, IncidentStore.ListHistory,
    IncidentStore.ListGroupingRules, SetGroupingRule, IncidentStore.DeleteGroupingRule, time_Now.
  all: repeat forward_step.
Qed.

Lemma incident_clocked : clocked IncidentConsumer.consumer_handler (Ret tt) request close_amqp.
Proof.
  split; [|apply forwards_incident_handler|done|apply close_amqp_forwards].
  intros p (mw & key & auth & tenant & rt & ->). apply forwards_bind; [|done].
  unfold IncidentHandler.serve. destruct (mw _ _ _) as [? []| |]; [apply forwards_dispatch|done..].
Qed.

(** The process of incident comes to its exit. *)
Lemma incident_shuts_down w0 s w :
  errgroup_law -> qos_law -> ctx_stays -> runs options w0 s w -> cancelled w ->
  exists s' w' code, runs options w0 s' w' /\ main s' = Gone code.
Proof. apply (process_can_exit _ _ _ _ _ _ incident_clocked), incident_members_fresh. Qed.
End Main.
End IncidentProcess.
