(* ===== verification/LostPages.v ===== *)
(** * What a failure or a race between two steps costs

    The services acknowledge a delivery, or advance an escalation, before the event
    of it is published, and only log a publication that fails.  What that means for
    the later steps, on concrete executions. *)

From S2P Require Import Prelude Effects Json Events Interleaving Amqp Http EscalationStore Escalator EscalationHandler EscalationSafety.
From S2P Require Import IncidentStore IncidentConsumer IncidentProps.
Open Scope go_scope.

Definition outage (from len : nat) : list (nat * fault) := map (fun t => (t, FailBefore (ErrNew "connection refused"))) (seq from len).

(** ** escalation: a tier is claimed, and its page is not sent *)

Module Claimed_demo.
(** The broker is away from the commit of the guarded update on; a shutdown of the
    service has the same effect, since the calls of the monitor use its context. *)
Definition P : Platform := demo_platform (outage 7 60).
Definition tick : M EscalationStore.db unit :=
  @Escalator.step P demo_time_text demo_http (@Publisher P demo_time_text) demo_client.
Definition after : world EscalationStore.db := (run tick (World 0 demo_db)).2.
End Claimed_demo.

(** The escalation is at tier 2, the broker has nothing; and no tick, delivery or
    request of any replica ever sends that page, though the broker is back. *)
Lemma claimed_page_lost :
  EscalationState.CurrentTier <$> EscalationSafety.row_of "inc1" (data Claimed_demo.after) = Some 2
  /\ Amqp.handed (EscalationStore.broker (data Claimed_demo.after)) = []
  /\ forall order ps,
       Forall (@EscalationSafety.service_program Claimed_demo.P demo_time_text demo_http
                 (@Publisher Claimed_demo.P demo_time_text) demo_client None) ps ->
       @published demo_time_text
         (Amqp.handed (EscalationStore.broker (data (run_schedule order ps Claimed_demo.after).2))) ("inc1", 2) = 0%nat.
Proof.
  split; [by vm_compute|]. split; [by vm_compute|]. intros order ps Hps.
  destruct (EscalationSafety.row_of "inc1" (data Claimed_demo.after)) as [s|] eqn:E; [|by vm_compute in E].
  pose proof (@reached_untriggered Claimed_demo.P demo_time_text demo_http demo_client None order ps Claimed_demo.after
    "inc1" s 2 Hps) as Hl.
  assert (@published demo_time_text (Amqp.handed (EscalationStore.broker (data Claimed_demo.after))) ("inc1", 2) = 0%nat)
    as E0 by (by vm_compute).
  rewrite E0 in Hl. apply Nat.le_0_r, Hl; [|exact E|].
  - split; apply (bool_decide_unpack _); by vm_compute.
  - vm_compute in E. injection E as <-. simpl. lia.
Qed.

(** ** incident: an incident that nobody announces *)

(** An alert that joins an unresolved incident puts nothing on the bus. *)
Lemma joining_quiet `{Platform} `{TimeText} `{Planner} alert tenant t d r w' :
  reliable -> fresh_ids t d -> stored_ids_ok d -> open_with_key tenant (group_key tenant alert d) d <> [] ->
  run (handleFiring alert tenant) (World t d) = (r, w') ->
  r = Ok tt /\ IncidentStore.broker (data w') = IncidentStore.broker d.
Proof.
  intros Hrel Hf Hids E. unfold handleFiring. rewrite run_bind.
  destruct (run_GetGroupingRule Hrel tenant (normalizeSource (Alert.Source alert)) t d) as (rule & -> & Er).
  rewrite Er. fold (group_key tenant alert d). cbv iota beta. rewrite run_bind, run_FindOpen by done. cbv iota beta zeta.
  destruct (pick_row_elem _ E) as (id & -> & Hid). simpl (default _ _).
  pose proof Hid as (a & i & _ & _ & Hi & _ & Ei & _)%joined_elem.
  destruct (Hids i Hi) as [Hu Hne]. rewrite Ei in Hu, Hne.
  rewrite (proj2 (String.eqb_neq id "") Hne), run_bind. unfold IncidentStore.AttachAlert.
  rewrite run_attachAlert; [|done|done| |apply Hf; lia].
  - by intros [= <- <-].
  - unfold incident_exists. apply existsb_exists. exists i. split; [by apply list_elem_of_In|]. by apply String.eqb_eq.
Qed.

Module Unannounced_demo.
Import Grouping_demo.

(** The broker is away while the first alert is announced. *)
Definition P : Platform := demo_platform (outage 10 30).
Definition deliver (fp : string) : M IncidentStore.db (res unit) := @handleFiring P demo_time_text planner (alert fp) "acme".
Definition first := run (deliver "f1") (World 0 empty).
Definition second := run (deliver "f2") (World 60 (data first.2)).
End Unannounced_demo.

(** Both deliveries are acknowledged; the incident is open and has both alerts; no
    [incident.created] was ever published, so it is never escalated. *)
Lemma incident_never_announced :
  Unannounced_demo.first.1 = Ok tt /\ Unannounced_demo.second.1 = Ok tt
  /\ map Incident.Status (incidents (data Unannounced_demo.second.2)) = [StatusOpen]
  /\ length (alerts (data Unannounced_demo.second.2)) = 2%nat
  /\ Amqp.handed (IncidentStore.broker (data Unannounced_demo.second.2)) = [].
Proof. split_and!; by vm_compute. Qed.

(** *** Two replicas handle two alerts of a group at once *)

Module Group_race_demo.
Import Grouping_demo.
Definition deliver (fp : string) : M IncidentStore.db (res unit) := @handleFiring platform demo_time_text planner (alert fp) "acme".

(** Both look for an open incident before either has created one. *)
Definition order : list nat := [0; 0; 1; 1]%nat ++ replicate 20 0%nat ++ replicate 20 1%nat.
Definition raced := run_schedule order [deliver "f1"; deliver "f2"] (World 0 empty).
End Group_race_demo.

Lemma group_race_splits :
  Group_race_demo.raced.1 = [Ret (Ok tt); Ret (Ok tt)]
  /\ map Incident.Status (incidents (data Group_race_demo.raced.2)) = [StatusOpen; StatusOpen]
  /\ length (remove_dups (map IncidentAlert.GroupKey (alerts (data Group_race_demo.raced.2)))) = 1%nat.
Proof. split_and!; by vm_compute. Qed.
