(* ===== verification/Pipeline.v ===== *)
(** * The pipeline of an alert, from the webhook to the notification

    Four services run on one broker: ingestion publishes alerts, the incident
    service consumes them and publishes incidents, escalation consumes those and
    publishes escalations, which notification consumes.  The state of the system
    is theirs; a program of a service runs on its part of it, and the broker
    delivers to a queue any message handed to the broker that is routed to it. *)

From S2P Require Import Prelude Effects Sha256 Json Events Interleaving Amqp Messages Http Auth Redis Ingestion.
From S2P Require IncidentStore IncidentConsumer IncidentHandler IncidentBus.
From S2P Require EscalationStore Escalator EscalationHandler EscalationBus.
From S2P Require Notification Config Startup.
Open Scope go_scope.

(** ** Ingestion *)

Section Ingestion_bus.
Context `{Platform} `{TimeText}.
Hypothesis Hff : foreign_faults.

Definition ingestion_typed (d : Ingestion.db) : Prop := Forall typed (handed (Ingestion.broker d)).

#[export] Instance ingestion_typed_net : NetInvariant ingestion_typed.
Proof.
  split; unfold ingestion_typed; simpl; [by intros d n ? ->|].
  intros d n m Hd Hm ->. by apply Forall_app_2; [|apply Forall_singleton].
Qed.

Local Abbreviation keeps_bus p := (keeps ingestion_typed p (fun _ => True)).

Lemma rcall_bus {A} (f : Time -> redis -> res (A * redis)) : keeps_bus (rcall f).
Proof. apply keeps_call; [exact Hff|done|]. intros now uuid d Hd. go_cases; done. Qed.

Lemma pipeline_bus {A} (cmds : list (M Ingestion.db (res A))) :
  (forall c, c ∈ cmds -> keeps_bus c) -> keeps_bus (pipeline cmds).
Proof.
  induction cmds as [|c cmds IH]; intros Hc; [done|]. cbn [pipeline].
  apply keeps_then; [apply Hc; by left|]. intros r. apply keeps_then; [|done].
  apply IH. intros c' Hc'. apply Hc. by right.
Qed.

Lemma Apply_bus ttl setKeys val delKeys : keeps_bus (Apply ttl setKeys val delKeys).
Proof.
  assert (keeps_bus (let! sets := pipeline (map (fun k => SetNX k val ttl) setKeys) in
      let! dels := pipeline (map Del delKeys) in
      Ret (match first_error sets, first_error dels with
           | Err e, _ => Err e
           | _, Err e => Err e
           | Ok out, Ok _ => Ok out
           end))) as Hp.
  { apply keeps_then; [apply pipeline_bus; intros c (k & -> & _)%list_elem_of_fmap; apply rcall_bus|].
    intros sets. apply keeps_then; [apply pipeline_bus; intros c (k & -> & _)%list_elem_of_fmap; apply rcall_bus|done]. }
  unfold Apply. destruct setKeys, delKeys; done.
Qed.

Lemma Classify_bus ttl alerts : keeps_bus (Classify ttl alerts).
Proof.
  unfold Classify. destruct alerts; [done|]. cbv zeta. apply keeps_then; [apply Apply_bus|]. by intros [].
Qed.

Lemma SaveRawAlerts_bus items : keeps_bus (SaveRawAlerts items).
Proof.
  unfold SaveRawAlerts. destruct items; [done|]. apply keeps_sql; [exact Hff|done|].
  intros now uuid d Hd. done.
Qed.

(** A payload that was encoded before it is wrapped is the payload of the alert. *)
Lemma PublishAlertPayload_bus a payload :
  Alert.encode a = Some payload -> keeps_bus (PublishAlertPayload (Alert.TenantID a) payload).
Proof.
  intros He. apply (wrap_publish_keeps ingestion_typed). intros b (id & now & raw & Hr & Hb).
  constructor 1 with a. injection Hr as ->. by exists id, now, raw.
Qed.

Lemma publish_alerts_bus items :
  Forall (fun it => Alert.encode it.1.1 = Some it.1.2) items -> keeps_bus (publish_alerts items).
Proof.
  induction 1 as [|[[a payload] dup] items He _ IH]; [done|]. cbn [publish_alerts]. destruct dup; [done|].
  apply keeps_then; [by apply PublishAlertPayload_bus|]. intros [u|e]; [done|].
  apply keeps_then; [apply rcall_bus|done].
Qed.

Lemma zip_encoded alerts payloads (dup : list bool) :
  mapM Alert.encode alerts = Some payloads ->
  Forall (fun it => Alert.encode it.1.1 = Some it.1.2) (zip (zip alerts payloads) dup).
Proof.
  intros Hm%mapM_Some. apply Forall_forall. intros [[a p] d] Hin.
  apply elem_of_zip_l in Hin. revert Hin. induction Hm as [|a' p' alerts payloads Ha _ IH]; simpl; [set_solver|].
  intros [[= -> ->]|Hin]%elem_of_cons; auto.
Qed.

Lemma processAlerts_bus ttl alerts : keeps_bus (processAlerts ttl alerts).
Proof.
  unfold processAlerts. destruct alerts as [|a alerts]; [done|]. destruct (mapM _ _) as [payloads|] eqn:Em; [|done].
  apply keeps_then; [apply Classify_bus|]. intros r. cbv zeta.
  apply keeps_then; [apply SaveRawAlerts_bus|]. intros _. by apply publish_alerts_bus, zip_encoded.
Qed.

Lemma webhook_bus ttl wh token body : keeps_bus (Ingestion.serve ttl wh token body).
Proof.
  unfold Ingestion.serve, Tenant, GetTenantID. destruct (String.eqb token ""); [done|].
  apply keeps_then; [apply keeps_then; [apply rcall_bus|done]|]. intros [tenant|e]; [|done].
  destruct (String.eqb tenant ""); [done|].
  assert (forall normalize invalid, keeps_bus (handle_webhook ttl normalize invalid tenant body)) as Hh.
  { intros normalize invalid. unfold handle_webhook. destruct (readBody body) as [j|]; [|done].
    apply keeps_then; [by apply keeps_read|]. intros now. destruct (normalize _ _ _) as [alerts|]; [|done].
    apply keeps_then; [apply processAlerts_bus|done]. }
  destruct wh; apply Hh.
Qed.

End Ingestion_bus.

(** ** Notification *)

(** The consumer of escalations never asks for another delivery. *)
Lemma notification_settles `{Platform} `{TimeText} `{HttpEnv} `{Notification.Network} cfg body :
  always (process (Startup.notification_handler cfg) body) (fun o => o <> Nack true).
Proof.
  unfold process. destruct (Decode _ _ _) as [env|e]; [|done].
  apply (always_bind _ _ (fun r => match r with
    | Returned (Err e) => errors_Is e ErrDrop = true | _ => True end)).
  - unfold Startup.notification_handler.
    apply (always_bind _ _ (fun r => match r with Err e => errors_Is e ErrDrop = true | Ok _ => True end)); [|done].
    unfold Notification.handle. repeat case_match; try done;
      (apply always_any; intros []; [done|]); done.
  - intros [|[u|e]] Hr; [done..|]. by rewrite Hr.
Qed.

Lemma keeps_any {D A} (p : M D A) (Q : A -> Prop) : always p Q -> keeps (fun _ => True) p Q.
Proof. induction p as [a|X op k IH]; simpl; auto. Qed.

(** ** The system *)

Record system := System {
  ingestion : Ingestion.db;
  incident : IncidentStore.db;
  escalation : EscalationStore.db;
  notification : Notification.db
}.

#[export] Instance ingestion_Part : Part Ingestion.db system :=
  {| part := ingestion;
     set_part d s := System d (incident s) (escalation s) (notification s);
     part_set_part _ _ := eq_refl;
     set_part_part s := match s with System _ _ _ _ => eq_refl end;
     set_part_set_part _ _ _ := eq_refl |}.

#[export] Instance incident_Part : Part IncidentStore.db system :=
  {| part := incident;
     set_part d s := System (ingestion s) d (escalation s) (notification s);
     part_set_part _ _ := eq_refl;
     set_part_part s := match s with System _ _ _ _ => eq_refl end;
     set_part_set_part _ _ _ := eq_refl |}.

#[export] Instance escalation_Part : Part EscalationStore.db system :=
  {| part := escalation;
     set_part d s := System (ingestion s) (incident s) d (notification s);
     part_set_part _ _ := eq_refl;
     set_part_part s := match s with System _ _ _ _ => eq_refl end;
     set_part_set_part _ _ _ := eq_refl |}.

#[export] Instance notification_Part : Part Notification.db system :=
  {| part := notification;
     set_part d s := System (ingestion s) (incident s) (escalation s) d;
     part_set_part _ _ := eq_refl;
     set_part_part s := match s with System _ _ _ _ => eq_refl end;
     set_part_set_part _ _ _ := eq_refl |}.

(** What the services handed to the broker. *)
Definition bus (s : system) : list message :=
  handed (Ingestion.broker (ingestion s)) ++ handed (IncidentStore.broker (incident s))
    ++ handed (EscalationStore.broker (escalation s)).

Section System.
Context `{Platform} `{TimeText} `{HttpEnv} `{Notification.Network} `{IncidentStore.Planner}.

(** One delivery from a queue: the broker may pick any message handed to the broker that is
    routed to it, and deliver one more than once.  The answer is the queue and how
    the delivery was settled. *)
Definition deliver {D} `{Part D system} (queue : string) (h : Handler (D := D)) (n : nat)
    : M system (option (string * outcome)) :=
  let! m := Atomic (fun w => (List.filter (routed queue) (bus (data w)) !! n, World (S (tick w)) (data w))) Ret in
  match m with
  | None => Ret None
  | Some m => let! o := zoom (process h (Some (body m))) in Ret (Some (queue, o))
  end.

Variable ttl : Duration.
Variable sched : Client.
Variable incident_client : option Client.
Variable cfg : Config.Notification.Config.

#[local] Existing Instance Escalator.Publisher.

(** Everything the four services do. *)
Inductive activity : M system (option (string * outcome)) -> Prop :=
| alert_webhook (wh : webhook) (token : string) (body : Ingestion.upload) :
    activity (let! _ := zoom (Ingestion.serve ttl wh token body) in Ret None)
| alert_delivery n : activity (deliver QueueAlertsIncident IncidentConsumer.consumer_handler n)
| incident_request mw adminKey authorization tenant rt :
    activity (let! _ := zoom (IncidentHandler.serve mw adminKey authorization tenant rt) in Ret None)
| incident_delivery n : activity (deliver QueueIncidentsEscalation (Escalator.consumer_handler sched) n)
| escalation_request tenant r :
    activity (let! _ := zoom (EscalationHandler.serve sched incident_client tenant r) in Ret None)
| monitor fuel : activity (let! _ := zoom (Escalator.monitor_Run sched fuel (30 * Second)) in Ret None)
| escalation_delivery n : activity (deliver QueueEscalationsNotification (Startup.notification_handler cfg) n).

(** A delivery of an alert or of an incident is acknowledged or requeued, one of
    an escalation is acknowledged or dropped. *)
Definition settled (r : option (string * outcome)) : Prop :=
  match r with
  | None => True
  | Some (queue, o) => if String.eqb queue QueueEscalationsNotification then o <> Nack true else o <> Nack false
  end.

Definition typed_system (s : system) : Prop :=
  ingestion_typed (ingestion s) /\ IncidentBus.typed_bus (incident s) /\ EscalationBus.typed_bus (escalation s).

(** *** Lemmas *)

Lemma typed_messages s : typed_system s -> Forall typed (bus s).
Proof. intros (Hi & Hc & He & _). unfold bus. by repeat apply Forall_app_2. Qed.

Lemma typed_routed m queue : typed m -> routed queue m = true -> queue = queue_of m.
Proof.
  intros Hm. unfold routed. rewrite existsb_exists. intros ([[q ex] key] & Hin & Hr). simpl in Hr.
  apply andb_prop in Hr as [[Hq He]%andb_prop _]. apply String.eqb_eq in Hq, He. subst.
  destruct Hm; simpl in Hin |- *; destruct_or! Hin; injection Hin as <- Hex; try done.
Qed.

Lemma zoomed {D A} `{Part D system} (I : D -> Prop) (p : M D A) (Q : A -> Prop) :
  (forall s, typed_system s -> I (part s)) -> (forall d s, typed_system s -> I d -> typed_system (set_part d s)) ->
  keeps I p Q -> keeps typed_system (zoom p) Q.
Proof. apply keeps_zoom. Qed.

Lemma deliver_keeps {D} `{Part D system} queue (h : Handler (D := D)) n (Q : outcome -> Prop) :
  (forall m, typed m -> routed queue m = true -> keeps typed_system (zoom (process h (Some (body m)))) Q) ->
  (forall o, Q o -> settled (Some (queue, o))) -> keeps typed_system (deliver queue h n) settled.
Proof.
  intros Hh Hs. unfold deliver.
  apply (keeps_bind typed_system _ _ (fun m => match m with
    | Some m => typed m /\ routed queue m = true | None => True end)).
  - apply keeps_read. intros w Hw. destruct (List.filter _ _ !! n) as [m|] eqn:Em; [|done].
    apply list_elem_of_lookup_2, list_elem_of_In, filter_In in Em as [Hin Hr]. split; [|done].
    apply typed_messages in Hw. rewrite Forall_forall in Hw. apply Hw. by apply list_elem_of_In.
  - intros [m|] Hm; [|done]. destruct Hm as [Ht Hr].
    eapply keeps_bind; [by apply Hh|]. intros o Ho. by apply Hs.
Qed.

Lemma activity_keeps p : foreign_faults -> time_text_law -> activity p -> keeps typed_system p settled.
Proof.
  intros Hff Hlaw Hp.
  assert (forall m queue, typed m -> routed queue m = true -> understood queue m) as Hu.
  { intros m queue Hm Hr. rewrite (typed_routed _ _ Hm Hr). by apply typed_understood. }
  assert (forall {D A} `{Part D system} (p : M D A), keeps typed_system (zoom p) (fun _ => True) ->
            keeps typed_system (let! _ := zoom p in Ret None) settled) as Hq.
  { intros D A HP q Hk. by apply keeps_then. }
  destruct Hp as [wh token b|n|mw adminKey authorization tenant rt|n|tenant r|fuel|n].
  - apply Hq, (zoomed ingestion_typed); [by intros s (? & _)|by intros d s (? & ?)|]. by apply webhook_bus.
  - eapply deliver_keeps; [|by intros o Ho; exact Ho]. intros m Hm [_ Hr]%Hu; [|done].
    apply (zoomed IncidentBus.typed_bus); [by intros s (? & ? & ?)|by intros d s (? & ? & ?)|].
    by apply IncidentBus.incident_delivery_bus.
  - apply Hq, (zoomed IncidentBus.typed_bus); [by intros s (? & ? & ?)|by intros d s (? & ? & ?)|].
    by apply IncidentBus.incident_serve_bus.
  - eapply deliver_keeps; [|by intros o Ho; exact Ho]. intros m Hm [_ Hr]%Hu; [|done].
    apply (zoomed EscalationBus.typed_bus); [by intros s (? & ? & ?)|by intros d s (? & ? & ?)|].
    by apply (EscalationBus.escalation_delivery_bus Hff (TP := EscalationBus.Publisher_typed)).
  - apply Hq, (zoomed EscalationBus.typed_bus); [by intros s (? & ? & ?)|by intros d s (? & ? & ?)|].
    by apply (EscalationBus.escalation_serve_bus Hff (TP := EscalationBus.Publisher_typed)).
  - apply Hq, (zoomed EscalationBus.typed_bus); [by intros s (? & ? & ?)|by intros d s (? & ? & ?)|].
    by apply (EscalationBus.monitor_bus Hff (TP := EscalationBus.Publisher_typed)).
  - eapply deliver_keeps; [|by intros o Ho; exact Ho]. intros m Hm _.
    apply (zoomed (fun _ => True)); [done|by intros d s (? & ? & ?)|].
    apply keeps_any, notification_settles.
Qed.

End System.

(** C1: no message of the pipeline is lost to its reader.  Take any number of
    webhooks, deliveries, HTTP requests and runs of the monitor of the four
    services, interleaved in any order, under any faults.  In every state they
    reach, each message handed to the broker is routed to the queue of one service,
    which decodes its envelope and its payload into the type it expects for the
    routing key, with the tenant of the envelope; and every delivery of an alert
    or of an incident that has ended was acknowledged or requeued, never dropped
    (one of an escalation was never requeued). *)
Theorem pipeline_understood `{Platform} `{TimeText} `{HttpEnv} `{Notification.Network} `{IncidentStore.Planner}
    ttl sched incident_client cfg ps w ps' w' :
  foreign_faults -> time_text_law ->
  Forall (activity ttl sched incident_client cfg) ps -> typed_system (data w) ->
  rtc pool_step (ps, w) (ps', w') ->
  (forall m, m ∈ bus (data w') ->
     routed (queue_of m) m = true /\ forall queue, routed queue m = true -> understood queue m) /\
  (forall r, Ret r ∈ ps' -> settled r).
Proof.
  intros Hff Hlaw Hps Hw Hr.
  destruct (pool_keeps typed_system settled ps ps' w w') as [Hps' Hw']; [|done..|].
  - eapply Forall_impl; [exact Hps|]. intros p. by apply activity_keeps.
  - split.
    + intros m Hm. apply typed_messages in Hw'. rewrite Forall_forall in Hw'. specialize (Hw' _ Hm).
      split; [by destruct Hw'|]. intros queue Hq. rewrite (typed_routed _ _ Hw' Hq). by apply typed_understood.
    + intros r Hin. rewrite Forall_forall in Hps'. exact (Hps' _ Hin).
Qed.

(** *** An alert that pages the engineer on call *)

Module Page_demo.
Definition P : Platform := demo_platform [].
Definition planner : IncidentStore.Planner := {| IncidentStore.pick _ := O |}.

(** The scheduling service names the engineer on call, and no tenant settings. *)
Definition http : HttpEnv := {| http_reply _ url :=
  if Contains url "/oncall"
  then Some (200, Some (JObj [("user_id", JStr "u1"); ("username", JStr "alice")]))
  else None |}.

Definition web : Notification.Network :=
  {| Notification.url_Parse _ := None; Notification.http_post _ _ := None |}.

Definition cfg : Config.Notification.Config := Config.Notification.Load (fun _ => EmptyString).
Definition sched : Client := New "http://scheduling:8082" "key".

Definition up : netstate := Net true true true [] [].

Definition start : system := System
  (Ingestion.Db {[ "oncall:tokens:" +:+ sha256_hex "tok" := (RHash {[ "tenant_id" := "acme" ]}, None) ]} [] up)
  (IncidentStore.Db [] [] ∅ [] [] [] up)
  (EscalationStore.Db [EscalationStore.Policy.mk "p1" "acme" "default" [] 0]
     [EscalationStore.PolicyTier.mk "t1" "p1" 1 300 "sch1"] [] []
     [EscalationStore.TenantConfig.mk "acme" (Some "p1") 0] up)
  (Notification.Db [Notification.UserContact.mk "c1" "u1" "acme" "u1@x" "" ["email"] 0 0] [] ∅ ∅ [] []).

Definition payload : json := JObj [("alerts", JArr [JObj
  [("status", JStr "firing"); ("labels", JObj [("alertname", JStr "disk full")])]])].

Definition body : Ingestion.upload := Ingestion.Upload 512 (Some payload) false.

Definition programs : list (M system (option (string * outcome))) :=
  [(let! _ := zoom (@Ingestion.serve P demo_time_text Hour WAlertmanager "tok" body) in Ret None);
   @deliver demo_time_text _ _ QueueAlertsIncident (@IncidentConsumer.consumer_handler P demo_time_text planner) 0;
   @deliver demo_time_text _ _ QueueIncidentsEscalation
     (@Escalator.consumer_handler P demo_time_text http (@Escalator.Publisher P demo_time_text) sched) 0;
   @deliver demo_time_text _ _ QueueEscalationsNotification
     (@Startup.notification_handler P demo_time_text http web cfg) 0].

(** One program after the other. *)
Definition order : list nat := flat_map (replicate 40) [0; 1; 2; 3]%nat.

Definition final : list (M system (option (string * outcome))) * world system :=
  run_schedule order programs (World 0 start).

Definition answer (p : M system (option (string * outcome))) : option (option (string * outcome)) :=
  match p with Ret r => Some r | _ => None end.
End Page_demo.

Lemma demo_time_law : @time_text_law demo_time_text.
Proof.
  intros t s Hs. destruct (demo_time_text_ok t) as (s' & Hs' & Hu). rewrite Hs in Hs'. by injection Hs' as <-.
Qed.

Lemma demo_activities :
  Forall (@activity Page_demo.P demo_time_text Page_demo.http Page_demo.web Page_demo.planner Hour
            Page_demo.sched None Page_demo.cfg) Page_demo.programs.
Proof.
  constructor; [constructor|]. constructor; [apply alert_delivery|].
  constructor; [apply incident_delivery|]. constructor; [apply escalation_delivery|]. done.
Qed.

Lemma demo_typed : @typed_system demo_time_text Page_demo.start.
Proof. split; [constructor|]. split; [constructor|]. split; repeat constructor; done. Qed.

(** The alert of a webhook goes through the four services and mails the engineer. *)
Lemma pipeline_understood_witness :
  (map Page_demo.answer Page_demo.final.1 =
     [Some None; Some (Some (QueueAlertsIncident, Ack)); Some (Some (QueueIncidentsEscalation, Ack));
      Some (Some (QueueEscalationsNotification, Ack))]
   /\ map routingKey (bus (data Page_demo.final.2)) =
        [RoutingKeyAlertReceived; RoutingKeyIncidentCreated; RoutingKeyEscalationTriggered]
   /\ map Notification.mail_to (Notification.mails (notification (data Page_demo.final.2))) = ["u1@x"]) /\
  (forall m, m ∈ bus (data Page_demo.final.2) ->
     routed (queue_of m) m = true
     /\ forall queue, routed queue m = true -> @understood demo_time_text queue m) /\
  (forall r, Ret r ∈ Page_demo.final.1 -> settled r).
Proof.
  split; [split; [vm_compute; reflexivity|split; vm_compute; reflexivity]|].
  apply (@pipeline_understood Page_demo.P demo_time_text Page_demo.http Page_demo.web Page_demo.planner Hour
    Page_demo.sched None Page_demo.cfg Page_demo.programs (World 0 Page_demo.start) Page_demo.final.1 Page_demo.final.2).
  - by intros t e [|].
  - exact demo_time_law.
  - exact demo_activities.
  - exact demo_typed.
  - rewrite <- surjective_pairing. apply run_schedule_rtc.
Defined.
