(* ===== verification/Paging.v ===== *)
(** * From a webhook to the mailbox of the engineer on call

    The four services one after the other when nothing fails: what each does with
    the message of the one before is in its own file, here they meet. *)

From S2P Require Import Prelude Effects Sha256 Json Events Interleaving Amqp Messages Http Auth Redis Ingestion IngestionProps Pipeline.
From S2P Require IncidentStore IncidentConsumer IncidentProps.
From S2P Require EscalationStore Escalator EscalationSafety EscalationProps.
From S2P Require Notification NotificationProps Config Startup.
Open Scope go_scope.

Section Paging.
Context `{Platform} `{TimeText} `{HttpEnv} `{Notification.Network} `{IncidentStore.Planner}.
Variable ttl : Duration.
Variable sched : Client.
Variable cfg : Config.Notification.Config.

#[local] Existing Instance Escalator.Publisher.

(** ** Specification *)

(** The webhook has a new firing alert: whenever it is read, one of its alerts is
    not known to the deduplication and opens a group of its own. *)
Definition has_new_alert (wh : webhook) (j : option json) (tenant : string) (s : system) : Prop :=
  forall now alerts, normalize wh j tenant now = Ok alerts ->
    exists pre a post, alerts = pre ++ (a :: post)
      /\ Alert.Status a <> AlertStatusResolved
      /\ (redisKey a ∉ dom (Ingestion.cache (ingestion s))) /\ (redisKey a ∉ map redisKey pre)
      /\ IncidentProps.open_with_key tenant (IncidentProps.group_key tenant a (incident s)) (incident s) = [].

(** The first tier of the default policy of the tenant names a schedule, and the
    scheduling service names [r] for it. *)
Record on_duty (tenant : string) (tier : EscalationStore.PolicyTier.t) (r : Escalator.OncallResult.t)
    (d : EscalationStore.db) : Prop := {
  od_tier : EscalationProps.first_tier tenant tier d;
  od_schedule : EscalationStore.PolicyTier.NotifyScheduleID tier <> EmptyString;
  od_oncall : EscalationProps.answers_oncall sched tenant (EscalationStore.PolicyTier.NotifyScheduleID tier) r
}.

(** The user [r] names has the mailbox [contact], the tenant lets mail out, and
    the rate limit has room for it. *)
Record reachable (tenant : string) (r : Escalator.OncallResult.t) (contact : Notification.UserContact.t)
    (d : Notification.db) : Prop := {
  re_user : Escalator.OncallResult.UserID r <> EmptyString;
  re_contact : find (Notification.same_contact (Escalator.OncallResult.UserID r) tenant) (Notification.contacts d)
                 = Some contact;
  re_mailbox : NotificationProps.has_mailbox contact;
  re_settings : NotificationProps.settings_allow_mail
                  (Http.New (Config.Notification.SchedulingURL cfg) (Config.Notification.SchedulingAdminKey cfg))
                  (5 * Minute) (Config.Notification.SMTPFrom cfg) tenant d;
  re_limit : 0 < Config.Notification.RateLimitMax cfg;
  re_bucket : Notification.limits d
                !! Notification.limit_key tenant (Escalator.OncallResult.UserID r) Notification.ChannelEmail = None
}.

(** The ids to be generated are in no table. *)
Record fresh_system (s : system) : Prop := {
  fs_incident : IncidentProps.fresh_ids 0 (incident s);
  fs_state : EscalationProps.fresh_state_ids (escalation s);
  fs_escalation : forall t, EscalationSafety.row_of (uuid_at t) (escalation s) = None
}.

(** ** Lemmas *)

(** A message handed to the broker can be delivered to its queue. *)
Lemma deliver_at {D} `{Part D system} queue (h : Handler (D := D)) m (w : world system) o t d :
  m ∈ bus (data w) -> routed queue m = true ->
  run (process h (Some (body m))) (World (S (tick w)) (part (data w))) = (o, World t d) ->
  exists n, run (deliver queue h n) w = (Some (queue, o), World t (set_part d (data w))).
Proof.
  intros Hm Hr Hp.
  assert (m ∈ List.filter (routed queue) (bus (data w))) as [n Hn]%list_elem_of_lookup_1.
  { apply list_elem_of_In, filter_In. by rewrite <- list_elem_of_In. }
  exists n. unfold deliver. rewrite run_bind. cbn [run tick data]. rewrite Hn, run_bind, run_zoom. cbn [tick data].
  by rewrite Hp.
Qed.

Lemma carries_wraps a m :
  carries a m -> exchange m = ExchangeAlerts /\ routingKey m = RoutingKeyAlertReceived
  /\ wraps RoutingKeyAlertReceived (Alert.TenantID a) a (body m).
Proof. intros (id & now & payload & j & He & Hj & ->). split; [done|]. split; [done|]. by exists id, now, payload. Qed.

(** What a webhook answered with 200 leaves on the bus. *)
Lemma webhook_keeps wh token (up : Ingestion.upload) tenant (w0 w1 : world system) :
  run (zoom (Ingestion.serve ttl wh token up)) w0 = (NoBody StatusOK, w1) ->
  token_tenant token tenant (ingestion (data w0)) ->
  exists now alerts dup ms d, data w1 = set_part (d : Ingestion.db) (data w0) /\ normalize wh (Ingestion.Contents up) tenant now = Ok alerts
    /\ Forall (fun a => Alert.TenantID a = tenant) alerts
    /\ justified (dom (Ingestion.cache (ingestion (data w0)))) alerts dup
    /\ handed (Ingestion.broker d) = handed (Ingestion.broker (ingestion (data w0))) ++ ms
    /\ in_order (kept alerts dup) ms.
Proof.
  intros Hr Htok. rewrite run_zoom in Hr.
  destruct (run (Ingestion.serve _ _ _ _) _) as [resp wi] eqn:Es. injection Hr as -> <-.
  destruct (webhook_outcome _ _ _ _ _ _ _ Es) as [Hok _].
  destruct (Hok eq_refl) as (tenant' & j' & now & alerts & dup & ms & Htok' & ->%Ingestion.readBody_whole & Hn & Hten & Hj & Ea & Ho).
  assert (tenant' = tenant) as ->.
  { destruct Htok as (h1 & e1 & E1 & E1' & _), Htok' as (h2 & e2 & E2 & E2' & _).
    pose proof (eq_trans (eq_sym E1) E2) as E. congruence. }
  exists now, alerts, dup, ms, (data wi). by split_and!.
Qed.

(** The webhook puts the message of the alert on the bus. *)
Lemma webhook_carries wh token (up : Ingestion.upload) tenant (w0 w1 : world system) :
  run (zoom (Ingestion.serve ttl wh token up)) w0 = (NoBody StatusOK, w1) ->
  token_tenant token tenant (ingestion (data w0)) -> has_new_alert wh (Ingestion.Contents up) tenant (data w0) ->
  exists a m d, data w1 = set_part (d : Ingestion.db) (data w0) /\ m ∈ handed (Ingestion.broker d) /\ carries a m
    /\ Alert.TenantID a = tenant /\ Alert.Status a <> AlertStatusResolved
    /\ IncidentProps.open_with_key tenant (IncidentProps.group_key tenant a (incident (data w0))) (incident (data w0)) = [].
Proof.
  intros Hr Htok Hnew.
  destruct (webhook_keeps _ _ _ _ _ _ Hr Htok) as (now & alerts & dup & ms & d & E & Hn & Hten & Hj & Ea & Ho).
  destruct (Hnew now alerts Hn) as (pre & a & post & -> & Hs & Hk & Hp & Hg).
  destruct (in_order_has a _ _ Ho) as (m & Hm & Hc); [by eapply new_key_kept|].
  exists a, m, d. split; [done|]. split; [rewrite Ea; apply elem_of_app; by right|]. split; [done|].
  split; [|done]. rewrite Forall_forall in Hten. apply Hten. set_solver.
Qed.

(** The incident service opens the incident. *)
Lemma alert_delivered a m tenant (w : world system) :
  reliable -> steady -> writable_clock -> time_text_law ->
  m ∈ bus (data w) -> carries a m -> Alert.TenantID a = tenant -> Alert.Status a <> AlertStatusResolved ->
  IncidentProps.fresh_ids 0 (incident (data w)) ->
  IncidentProps.open_with_key tenant (IncidentProps.group_key tenant a (incident (data w))) (incident (data w)) = [] ->
  exists n w' id now d b, run (deliver QueueAlertsIncident IncidentConsumer.consumer_handler n) w
      = (Some (QueueAlertsIncident, Ack), w')
    /\ data w' = set_part (d : IncidentStore.db) (data w)
    /\ IncidentStore.incidents d = IncidentStore.incidents (incident (data w))
         ++ [IncidentProps.new_incident a tenant (uuid_at id) now]
    /\ Message ExchangeIncidents RoutingKeyIncidentCreated b ∈ handed (IncidentStore.broker d)
    /\ wraps RoutingKeyIncidentCreated tenant
         (IncidentConsumer.changed (IncidentProps.new_incident a tenant (uuid_at id) now)) b.
Proof.
  intros Hrel Hst Hcl Hlaw Hm Hc <- Hs Hf Hg. destruct (carries_wraps a m Hc) as (Hex & Hkey & Hw).
  destruct (IncidentProps.firing_opens Hrel Hst Hcl a (body m) (S (tick w)) (incident (data w)))
    as (id & now & t & d & b & Hr & Ei & Ea & Hb); [done..| |done|].
  { intros t Ht. apply Hf. lia. }
  destruct (deliver_at QueueAlertsIncident IncidentConsumer.consumer_handler m w Ack t d Hm) as [n Hn]; [|exact Hr|].
  { destruct m. simpl in Hex, Hkey. by subst. }
  exists n, (World t (set_part d (data w))), id, now, d, b. split; [done|]. split; [done|]. split; [done|].
  split; [|done]. rewrite Ea. apply elem_of_app. right. by left.
Qed.

(** Escalation starts, and triggers the first tier. *)
Lemma created_delivered ev b tenant tier r (w : world system) :
  reliable -> steady -> writable_clock -> time_text_law ->
  Message ExchangeIncidents RoutingKeyIncidentCreated b ∈ bus (data w) ->
  wraps RoutingKeyIncidentCreated tenant ev b -> IncidentChanged.TenantID ev = tenant -> IncidentChanged.TenantSlug ev = tenant ->
  on_duty tenant tier r (escalation (data w)) -> EscalationProps.fresh_state_ids (escalation (data w)) ->
  EscalationSafety.row_of (IncidentChanged.IncidentID ev) (escalation (data w)) = None ->
  exists n w' d st b' ev', run (deliver QueueIncidentsEscalation (Escalator.consumer_handler sched) n) w
      = (Some (QueueIncidentsEscalation, Ack), w')
    /\ data w' = set_part (d : EscalationStore.db) (data w)
    /\ EscalationSafety.row_of (IncidentChanged.IncidentID ev) d = Some st /\ EscalationSafety.active st = true
    /\ EscalationStore.EscalationState.CurrentTier st = EscalationStore.PolicyTier.TierNumber tier
    /\ Message ExchangeEscalations RoutingKeyEscalationTriggered b' ∈ handed (EscalationStore.broker d)
    /\ wraps RoutingKeyEscalationTriggered tenant ev' b'
    /\ EscalationTriggered.TenantID ev' = tenant /\ EscalationTriggered.TenantSlug ev' = tenant
    /\ EscalationTriggered.OncallUserID ev' = Escalator.OncallResult.UserID r /\ in_int64 (EscalationTriggered.Tier ev').
Proof.
  intros Hrel Hst Hcl Hlaw Hm Hw <- Hslug Hod Hf Hrow.
  destruct (EscalationProps.created_pages sched Hrel Hst Hcl ev b tier r (S (tick w)) (escalation (data w)))
    as (t & d & st & b' & Hr & Est & Hact & Htier & Ea & Hb); [done..|apply Hod|done|done|apply Hod|apply Hod|].
  destruct (deliver_at QueueIncidentsEscalation (Escalator.consumer_handler sched) _ w Ack t d Hm) as [n Hn];
    [done|exact Hr|].
  exists n, (World t (set_part d (data w))), d, st, b'. eexists. split; [exact Hn|]. split; [done|]. split; [done|].
  split; [done|]. split; [done|]. split; [rewrite Ea; apply elem_of_app; right; by left|]. split; [exact Hb|].
  split; [done|]. split; [done|]. split; [done|].
  destruct (od_tier _ _ _ _ Hod) as (? & ? & ? & _ & _ & _ & _ & _ & Hi). by apply int4_ok_int64.
Qed.

(** Notification sends the mail. *)
Lemma triggered_delivered ev b tenant r contact (w : world system) :
  reliable -> time_text_law -> Message ExchangeEscalations RoutingKeyEscalationTriggered b ∈ bus (data w) ->
  wraps RoutingKeyEscalationTriggered tenant ev b -> in_int64 (EscalationTriggered.Tier ev) ->
  EscalationTriggered.TenantID ev = tenant -> EscalationTriggered.TenantSlug ev = tenant ->
  EscalationTriggered.OncallUserID ev = Escalator.OncallResult.UserID r -> reachable tenant r contact (notification (data w)) ->
  exists n w' d new m, run (deliver QueueEscalationsNotification (Startup.notification_handler cfg) n) w
      = (Some (QueueEscalationsNotification, Ack), w')
    /\ data w' = set_part (d : Notification.db) (data w)
    /\ Notification.mails d = Notification.mails (notification (data w)) ++ new
    /\ m ∈ new /\ Notification.mail_to m = Notification.UserContact.Email contact.
Proof.
  intros Hrel Hlaw Hm Hw Ht <- Hslug Hu [Hne Hc Hb Hset Hmax Hl].
  destruct (wraps_reads (valid := fun e => in_int64 (EscalationTriggered.Tier e)) _ _ _ _ Hlaw Ht Hw)
    as (env & Hd & Hty & _ & Hp).
  rewrite <- Hu in Hne, Hc, Hl. rewrite <- Hslug in Hset.
  destruct (NotificationProps.triggered_mails Hrel _ (Config.Notification.RateLimitWindow cfg) _ _ _
    (Config.Notification.FrontendBaseURL cfg) ev env contact (S (tick w)) (notification (data w)) Hty Hp Hne Hc Hb Hset Hmax Hl)
    as (w1 & new & m & Hr & Em & Hin & Hto).
  destruct (deliver_at QueueEscalationsNotification (Startup.notification_handler cfg) _ w Ack (tick w1) (data w1) Hm)
    as [n Hn]; [done| |].
  { unfold process. cbn [body]. rewrite Hd. unfold Startup.notification_handler. rewrite run_bind, run_bind.
    change (part (data w)) with (notification (data w)). rewrite Hr. by destruct w1. }
  exists n, (World (tick w1) (set_part (data w1) (data w))), (data w1), new, m. done.
Qed.

(** ** Property *)

(** C2: an alert pages the engineer on call.  When nothing fails, the
    tenant has an engineer on duty who can be reached by mail, a webhook answered with 200 that has a new firing alert is enough:
    its message can be delivered to the incident service, the message of that
    delivery to escalation, and the one of that to notification; each delivery is
    acknowledged; then there is an open incident of the tenant with an active
    escalation at its first tier, and a new mail to the address of the user the
    scheduling service names. *)
Theorem alert_pages wh token (up : Ingestion.upload) tenant tier r contact (w0 w1 : world system) :
  reliable -> steady -> writable_clock -> time_text_law ->
  run (zoom (Ingestion.serve ttl wh token up)) w0 = (NoBody StatusOK, w1) ->
  token_tenant token tenant (ingestion (data w0)) ->
  has_new_alert wh (Ingestion.Contents up) tenant (data w0) -> fresh_system (data w0) ->
  on_duty tenant tier r (escalation (data w0)) -> reachable tenant r contact (notification (data w0)) ->
  exists n1 w2 n2 w3 n3 w4,
    run (deliver QueueAlertsIncident IncidentConsumer.consumer_handler n1) w1 = (Some (QueueAlertsIncident, Ack), w2)
    /\ run (deliver QueueIncidentsEscalation (Escalator.consumer_handler sched) n2) w2
         = (Some (QueueIncidentsEscalation, Ack), w3)
    /\ run (deliver QueueEscalationsNotification (Startup.notification_handler cfg) n3) w3
         = (Some (QueueEscalationsNotification, Ack), w4)
    /\ (exists i st, i ∈ IncidentStore.incidents (incident (data w4))
          /\ IncidentStore.Incident.TenantID i = tenant /\ IncidentStore.Incident.Status i = IncidentStore.StatusOpen
          /\ EscalationSafety.row_of (IncidentStore.Incident.ID i) (escalation (data w4)) = Some st
          /\ EscalationSafety.active st = true
          /\ EscalationStore.EscalationState.CurrentTier st = EscalationStore.PolicyTier.TierNumber tier)
    /\ exists new m, Notification.mails (notification (data w4)) = Notification.mails (notification (data w0)) ++ new
          /\ m ∈ new /\ Notification.mail_to m = Notification.UserContact.Email contact.
Proof.
  intros Hrel Hst Hcl Hlaw Hr Htok Hnew Hf Hod Hre.
  destruct (webhook_carries _ _ _ _ _ _ Hr Htok Hnew) as (a & m & d1 & E1 & Hm & Hc & Hten & Hs & Hg).
  destruct (alert_delivered a m tenant w1) as (n1 & w2 & id & now & d2 & b2 & Hr2 & E2 & Ei & Hb2 & Hw2); try done.
  { rewrite E1. unfold bus. apply elem_of_app. by left. }
  { rewrite E1. apply Hf. }
  { by rewrite E1. }
  destruct (created_delivered (IncidentConsumer.changed (IncidentProps.new_incident a tenant (uuid_at id) now)) b2 tenant tier r w2) as (n2 & w3 & d3 & st & b3 & ev & Hr3 & E3 & Hrow & Hact & Htier & Hb3 & Hw3 & Hev1 & Hev2 & Hev3 & Hev4);
    rewrite ?E2, ?E1; try done.
  { unfold bus. simpl. apply elem_of_app. right. apply elem_of_app. by left. }
  { apply Hf. }
  { apply Hf. }
  destruct (triggered_delivered ev b3 tenant r contact w3) as (n3 & w4 & d4 & new & ml & Hr4 & E4 & Em & Hin & Hto);
    rewrite ?E3, ?E2, ?E1; try done.
  { unfold bus. simpl. apply elem_of_app. right. apply elem_of_app. by right. }
  exists n1, w2, n2, w3, n3, w4. split; [done|]. split; [done|]. split; [done|]. rewrite E4. split.
  - exists (IncidentProps.new_incident a tenant (uuid_at id) now), st. rewrite E3, E2. simpl. split_and!; try done.
    rewrite Ei. apply elem_of_app. right. by left.
  - exists new, ml. split; [|done]. cbn [notification set_part notification_Part]. rewrite Em, E3, E2, E1. done.
Qed.

End Paging.

(** An alert of a webhook, and the mail of the engineer on call. *)
Lemma alert_pages_witness :
  let served := run (zoom (@Ingestion.serve Page_demo.P demo_time_text Hour WAlertmanager "tok" Page_demo.body))
                  (World 0 Page_demo.start) in
  served.1 = NoBody StatusOK /\
  exists n1 w2 n2 w3 n3 w4,
    run (@deliver demo_time_text _ _ QueueAlertsIncident
           (@IncidentConsumer.consumer_handler Page_demo.P demo_time_text Page_demo.planner) n1) served.2
      = (Some (QueueAlertsIncident, Ack), w2)
    /\ run (@deliver demo_time_text _ _ QueueIncidentsEscalation (@Escalator.consumer_handler Page_demo.P demo_time_text
           Page_demo.http (@Escalator.Publisher Page_demo.P demo_time_text) Page_demo.sched) n2) w2
         = (Some (QueueIncidentsEscalation, Ack), w3)
    /\ run (@deliver demo_time_text _ _ QueueEscalationsNotification (@Startup.notification_handler Page_demo.P demo_time_text
           Page_demo.http Page_demo.web Page_demo.cfg) n3) w3
         = (Some (QueueEscalationsNotification, Ack), w4)
    /\ (exists i st, i ∈ IncidentStore.incidents (incident (data w4))
          /\ IncidentStore.Incident.TenantID i = "acme" /\ IncidentStore.Incident.Status i = IncidentStore.StatusOpen
          /\ EscalationSafety.row_of (IncidentStore.Incident.ID i) (escalation (data w4)) = Some st
          /\ EscalationSafety.active st = true /\ EscalationStore.EscalationState.CurrentTier st = 1)
    /\ exists new m, Notification.mails (notification (data w4)) = [] ++ new
          /\ m ∈ new /\ Notification.mail_to m = "u1@x".
Proof.
  split; [vm_compute; reflexivity|].
  apply (@alert_pages Page_demo.P demo_time_text Page_demo.http Page_demo.web Page_demo.planner Hour Page_demo.sched
    Page_demo.cfg WAlertmanager "tok" Page_demo.body "acme" (EscalationStore.PolicyTier.mk "t1" "p1" 1 300 "sch1")
    (Escalator.OncallResult.mk "u1" "alice" Alert.zero_time Alert.zero_time) (Notification.UserContact.mk "c1" "u1" "acme" "u1@x" "" ["email"] 0 0)
    (World 0 Page_demo.start)).
  - done.
  - done.
  - intros t. by destruct (demo_time_text_ok (@now_at Page_demo.P t)) as (s & -> & _).
  - exact demo_time_law.
  - vm_compute. reflexivity.
  - eexists _, _. split; [vm_compute; reflexivity|]. by split.
  - intros now alerts [= <-]. eexists [], _, []. split; [reflexivity|]. split; [by vm_compute|]. split; [by rewrite not_elem_of_dom|].
    split; [apply not_elem_of_nil|reflexivity].
  - split; [|intros t s; set_solver|done]. intros t _. by split_and!.
  - split; [|done|].
    + eexists _, (EscalationStore.Policy.mk "p1" "acme" "default" [] 0), []. split_and!; reflexivity.
    + eexists. by split.
  - split; try done. split; [done|]. split; [done|]. exists "email". split; [by left|done].
Defined.
