(* ===== verification/Resolution.v ===== *)
(** * From a resolved alert to the end of its escalation

    The services one after the other when nothing fails, as in Paging, for an alert
    that is resolved: nobody is paged for its incident any more. *)

From S2P Require Import Prelude Effects Sha256 Json Events Interleaving Amqp Messages Http Auth Redis Ingestion IngestionProps Pipeline Paging.
From S2P Require IncidentStore IncidentConsumer IncidentProps.
From S2P Require EscalationStore Escalator EscalationHandler EscalationSafety EscalationProps.
From S2P Require Notification Config.
Open Scope go_scope.

Section Resolution.
Context `{Platform} `{TimeText} `{HttpEnv} `{IncidentStore.Planner}.
Variable ttl : Duration.
Variable sched : Client.

#[local] Existing Instance Escalator.Publisher.

(** ** Specification *)

(** Whenever the webhook is read, it has a resolved alert with the fingerprint. *)
Definition has_resolution (wh : webhook) (j : option json) (tenant fp : string) : Prop :=
  forall now alerts, normalize wh j tenant now = Ok alerts ->
    exists a, a ∈ alerts /\ Alert.Status a = AlertStatusResolved /\ Alert.Fingerprint a = fp.

(** The incident of the tenant whose firing alerts are those with the fingerprint. *)
Record last_alert_of (tenant fp id : string) (d : IncidentStore.db) : Prop := {
  la_row : exists i, IncidentProps.row_of tenant id d = Some i;
  la_closes : IncidentProps.closes tenant fp id d;
  la_ids : forall a, a ∈ IncidentStore.alerts d -> uuid_ok (IncidentStore.IncidentAlert.IncidentID a) = true
             /\ IncidentStore.IncidentAlert.IncidentID a <> EmptyString
}.

(** Its escalation is running. *)
Record escalating (tenant id : string) (d : EscalationStore.db) : Prop := {
  es_unique : EscalationSafety.unique_rows d;
  es_row : exists st, EscalationSafety.row_of id d = Some st /\ EscalationStore.EscalationState.TenantID st = tenant
             /\ EscalationSafety.active st = true
             /\ uuid_ok (EscalationStore.EscalationState.ID st) = true
             /\ int4_ok (EscalationStore.EscalationState.CurrentTier st) = true
}.

(** ** Lemmas *)

Lemma webhook_resolves wh token (up : Ingestion.upload) tenant fp (w0 w1 : world system) :
  run (zoom (Ingestion.serve ttl wh token up)) w0 = (NoBody StatusOK, w1) ->
  token_tenant token tenant (ingestion (data w0)) -> has_resolution wh (Ingestion.Contents up) tenant fp ->
  exists a m d, data w1 = set_part (d : Ingestion.db) (data w0) /\ m ∈ handed (Ingestion.broker d) /\ carries a m
    /\ Alert.TenantID a = tenant /\ Alert.Status a = AlertStatusResolved /\ Alert.Fingerprint a = fp.
Proof.
  intros Hr Htok Hres.
  destruct (webhook_keeps ttl _ _ _ _ _ _ Hr Htok) as (now & alerts & dup & ms & d & E & Hn & Hten & Hj & Ea & Ho).
  destruct (Hres now alerts Hn) as (a & Hin & Hs & Hfp).
  destruct (in_order_has a _ _ Ho) as (m & Hm & Hc).
  { eapply resolved_kept; [exact Hj|exact Hin|]. unfold is_resolved. by rewrite Hs. }
  exists a, m, d. split; [done|]. split; [rewrite Ea; apply elem_of_app; by right|]. split; [done|].
  rewrite Forall_forall in Hten. split; [by apply Hten|done].
Qed.

Lemma resolution_delivered a m tenant id (w : world system) :
  reliable -> steady -> writable_clock -> time_text_law ->
  m ∈ bus (data w) -> carries a m -> Alert.TenantID a = tenant -> Alert.Status a = AlertStatusResolved ->
  last_alert_of tenant (Alert.Fingerprint a) id (incident (data w)) ->
  exists n w' d i b, run (deliver QueueAlertsIncident IncidentConsumer.consumer_handler n) w
      = (Some (QueueAlertsIncident, Ack), w')
    /\ data w' = set_part (d : IncidentStore.db) (data w)
    /\ IncidentProps.row_of tenant id d = Some i /\ IncidentStore.Incident.Status i = "resolved"
    /\ IncidentStore.Incident.ID i = id /\ IncidentStore.Incident.TenantID i = tenant
    /\ Message ExchangeIncidents RoutingKeyIncidentUpdated b ∈ handed (IncidentStore.broker d)
    /\ wraps RoutingKeyIncidentUpdated tenant (IncidentConsumer.changed i) b.
Proof.
  intros Hrel Hst Hcl Hlaw Hm Hc <- Hs [[i0 Hi0] Hcloses Hids]. destruct (carries_wraps a m Hc) as (Hex & Hkey & Hw).
  destruct (IncidentProps.resolved_closes a (body m) id i0 (S (tick w)) (incident (data w)) Hrel Hst Hcl Hlaw Hw Hs Hids
    Hcloses Hi0) as (t & d & i & b & Hr & Hi & His & Hid & Hten & Ea & Hb).
  destruct (deliver_at QueueAlertsIncident IncidentConsumer.consumer_handler m w Ack t d Hm) as [n Hn]; [|exact Hr|].
  { destruct m. simpl in Hex, Hkey. by subst. }
  exists n, (World t (set_part d (data w))), d, i, b. do 6 (split; [done|]). split; [|done].
  rewrite Ea. apply elem_of_app. right. by left.
Qed.

Lemma update_delivered ev b tenant id (w : world system) :
  reliable -> steady -> writable_clock -> time_text_law ->
  Message ExchangeIncidents RoutingKeyIncidentUpdated b ∈ bus (data w) ->
  wraps RoutingKeyIncidentUpdated tenant ev b -> IncidentChanged.TenantID ev = tenant ->
  IncidentChanged.IncidentID ev = id -> IncidentChanged.Status ev = "resolved" -> escalating tenant id (escalation (data w)) ->
  exists n w' d st, run (deliver QueueIncidentsEscalation (Escalator.consumer_handler sched) n) w
      = (Some (QueueIncidentsEscalation, Ack), w')
    /\ data w' = set_part (d : EscalationStore.db) (data w)
    /\ EscalationSafety.row_of id d = Some st /\ EscalationStore.EscalationState.Status st = "resolved"
    /\ EscalationSafety.unique_rows d.
Proof.
  intros Hrel Hst Hcl Hlaw Hm Hw <- <- Hs [Hun (st0 & Hrow & Hten & Ha & Hu & Hi)].
  destruct (EscalationProps.updated_stops sched Hrel ev b st0 (S (tick w)) (escalation (data w)) Hlaw Hw (or_intror Hs)
    Hrow Hten Ha Hu Hi Hun) as (t & d & st & Hr & Hrow' & Hs' & Hun').
  destruct (deliver_at QueueIncidentsEscalation (Escalator.consumer_handler sched) _ w Ack t d Hm) as [n Hn];
    [done|exact Hr|].
  exists n, (World t (set_part d (data w))), d, st. split; [done|]. split; [done|]. split; [done|]. split; [congruence|done].
Qed.

(** ** Property *)

(** C3: a resolved alert ends the paging.  When nothing fails, a webhook answered
    with 200 with the resolution of the only fingerprint that fires on an incident
    is enough: its message can be delivered to the incident service and the
    message of that delivery to escalation, each is acknowledged, and then the
    incident and its escalation are resolved; whatever monitors, deliveries and
    requests of the escalation service run after that, and in whatever order, no
    tier of the incident is triggered any more. *)
Theorem resolution_stops incidents_client wh token (up : Ingestion.upload) tenant fp id (w0 w1 : world system) :
  reliable -> steady -> writable_clock -> time_text_law ->
  run (zoom (Ingestion.serve ttl wh token up)) w0 = (NoBody StatusOK, w1) ->
  token_tenant token tenant (ingestion (data w0)) -> has_resolution wh (Ingestion.Contents up) tenant fp ->
  last_alert_of tenant fp id (incident (data w0)) -> escalating tenant id (escalation (data w0)) ->
  exists n1 w2 n2 w3,
    run (deliver QueueAlertsIncident IncidentConsumer.consumer_handler n1) w1 = (Some (QueueAlertsIncident, Ack), w2)
    /\ run (deliver QueueIncidentsEscalation (Escalator.consumer_handler sched) n2) w2
         = (Some (QueueIncidentsEscalation, Ack), w3)
    /\ (exists i, IncidentProps.row_of tenant id (incident (data w3)) = Some i
          /\ IncidentStore.Incident.Status i = "resolved")
    /\ (exists st, EscalationSafety.row_of id (escalation (data w3)) = Some st
          /\ EscalationStore.EscalationState.Status st = "resolved")
    /\ forall order ps tier, Forall (EscalationSafety.service_program sched incidents_client) ps ->
         let log d := EscalationSafety.published (handed (EscalationStore.broker d)) (id, tier) in
         (log (data (run_schedule order ps (World (tick w3) (escalation (data w3)))).2) <= log (escalation (data w3)))%nat.
Proof.
  intros Hrel Hst Hcl Hlaw Hr Htok Hres Hla Hes.
  destruct (webhook_resolves _ _ _ _ _ _ _ Hr Htok Hres) as (a & m & d1 & E1 & Hm & Hc & Hten & Hs & Hfp). subst fp.
  destruct (resolution_delivered a m tenant id w1) as (n1 & w2 & d2 & i & b & Hr2 & E2 & Hi & His & Hid & Hit & Hb & Hw);
    try done; rewrite ?E1; try done.
  { unfold bus. apply elem_of_app. by left. }
  destruct (update_delivered (IncidentConsumer.changed i) b tenant id w2) as (n2 & w3 & d3 & st & Hr3 & E3 & Hrow & Hss & Hun);
    rewrite ?E2, ?E1; try done.
  { unfold bus. simpl. apply elem_of_app. right. apply elem_of_app. by left. }
  exists n1, w2, n2, w3. split; [done|]. split; [done|]. rewrite E3, E2. split; [by exists i|]. split; [by exists st|].
  intros order ps tier Hps. assert (EscalationSafety.active st = false) as Ha by (unfold EscalationSafety.active; by rewrite Hss).
  exact (EscalationSafety.ended_untriggered sched incidents_client order ps (World (tick w3) d3) id st tier Hps Hun Hrow Ha).
Qed.

End Resolution.

(** *** Witness: the one alert of an escalating incident is resolved *)

Module Resolution_demo.
Definition payload : json := JObj [("alerts", JArr [JObj
  [("status", JStr "resolved"); ("labels", JObj [("alertname", JStr "disk full")])]])].

Definition fp : string :=
  match @normalize demo_time_text WAlertmanager (Some payload) "acme" 0 with
  | Ok (a :: _) => Alert.Fingerprint a
  | _ => EmptyString
  end.

Definition start : system := System
  (ingestion Page_demo.start)
  (IncidentStore.Db
     [IncidentStore.Incident.mk "i1" "acme" "acme" "disk full" "high" IncidentStore.StatusOpen ∅ None None None 5 5]
     [IncidentStore.IncidentAlert.mk "a1" "i1" "acme" fp "alertmanager" "k" "firing" 1] ∅ [] [] [] Page_demo.up)
  (EscalationStore.Db (EscalationStore.policies (escalation Page_demo.start))
     (EscalationStore.policy_tiers (escalation Page_demo.start))
     [EscalationStore.EscalationState.mk "s1" "i1" "acme" "acme" "p1" 1 "active" "disk full" "high" "open" 0 0 0]
     [] [] Page_demo.up)
  (notification Page_demo.start).

Definition served : response unit * world system :=
  run (zoom (@Ingestion.serve Page_demo.P demo_time_text Hour WAlertmanager "tok" (Ingestion.Upload 512 (Some payload) false))) (World 0 start).
End Resolution_demo.

Lemma resolution_stops_witness :
  Resolution_demo.served.1 = NoBody StatusOK /\
  exists n1 w2 n2 w3,
    run (@deliver demo_time_text _ _ QueueAlertsIncident
           (@IncidentConsumer.consumer_handler Page_demo.P demo_time_text Page_demo.planner) n1) Resolution_demo.served.2
      = (Some (QueueAlertsIncident, Ack), w2)
    /\ run (@deliver demo_time_text _ _ QueueIncidentsEscalation (@Escalator.consumer_handler Page_demo.P demo_time_text
           Page_demo.http (@Escalator.Publisher Page_demo.P demo_time_text) Page_demo.sched) n2) w2
         = (Some (QueueIncidentsEscalation, Ack), w3)
    /\ (exists i, IncidentProps.row_of "acme" "i1" (incident (data w3)) = Some i
          /\ IncidentStore.Incident.Status i = "resolved")
    /\ (exists st, EscalationSafety.row_of "i1" (escalation (data w3)) = Some st
          /\ EscalationStore.EscalationState.Status st = "resolved")
    /\ forall order ps tier,
         Forall (@EscalationSafety.service_program Page_demo.P demo_time_text Page_demo.http
                   (@Escalator.Publisher Page_demo.P demo_time_text) Page_demo.sched None) ps ->
         let log d := @EscalationSafety.published demo_time_text (handed (EscalationStore.broker d)) ("i1", tier) in
         (log (data (run_schedule order ps (World (tick w3) (escalation (data w3)))).2) <= log (escalation (data w3)))%nat.
Proof.
  split; [vm_compute; reflexivity|].
  apply (@resolution_stops Page_demo.P demo_time_text Page_demo.http Page_demo.planner Hour Page_demo.sched None
    WAlertmanager "tok" (Ingestion.Upload 512 (Some Resolution_demo.payload) false) "acme" Resolution_demo.fp "i1" (World 0 Resolution_demo.start)).
  - done.
  - done.
  - intros t. by destruct (demo_time_text_ok (@now_at Page_demo.P t)) as (s & -> & _).
  - exact demo_time_law.
  - vm_compute. reflexivity.
  - eexists _, _. split; [vm_compute; reflexivity|]. by split.
  - intros now alerts [= <-]. eexists. split; [by left|]. split; reflexivity.
  - split.
    + by eexists.
    + split.
      * eexists. split; [by left|]. vm_compute. reflexivity.
      * intros a Ha _. apply list_elem_of_singleton in Ha. by subst.
      * intros a Ha _ _. apply list_elem_of_singleton in Ha. subst. vm_compute. reflexivity.
    + intros a Ha. apply list_elem_of_singleton in Ha. by subst.
  - split; [split; apply NoDup_singleton|]. eexists. split; [reflexivity|]. by split_and!.
Defined.
